(* ===== verification/_CoqProject ===== *)
-Q . S2P
Prelude.v
Macros.v
Words.v
Layout.v
Napi.v
Corm.v
State.v
Wasm.v
WasmProps.v
Watch.v
WatchProps.v
WatchSteps.v
WatchSafe.v
WatchLive.v
WatchRace.v
Env.v
Regions.v
RegionTree.v
RegionWalks.v
Runtime.v
Paths.v
PathSpecs.v
RegionApi.v
RegionInv.v
RegionSpecs.v
Boot.v
RegionSlots.v
RegionDeny.v
RegionProps.v
Hooks.v
HookSpecs.v
Dispatch.v
Subtree.v
Vector.v
VectorBuild.v
Prepare.v
SlotRun.v
Call.v
CallRun.v
SelfCall.v
Sample.v
Registry.v
DispatchProps.v
HookMacros.v
ModKey.v
ModList.v
ModListSpecs.v
Loader.v
Unload.v
LoadSpecs.v
LoadLink.v
UnloadSpecs.v
LoadProps.v
Reload.v
Family.v
Cascade.v
ModSide.v
Shutdown.v
Frame.v
Sound.v
SoundRegions.v
SoundDispatch.v
SoundModules.v
Soundness.v
Programs.v
Threads.v
Reenter.v
ReloadFree.v
