(* ===== verification/Prelude.v ===== *)
(** * libxylem: a verification development

    libxylem lets a C program define hooks, load modules (shared objects) that
    listen to them, and confine those modules to a tree of regions named by
    prefixes of a 64-bit identity.  This library models its C sources
    (src/src/*.c, src/src/*.h) and the code its headers generate (xy.h, xy-pp.h,
    xy-mod.h under src/include/ttypt), and proves what they promise.

    ** The parts and the files that model them

    - Words.v: integers at their width, error codes, the prefix mask and the
      containment of prefixes (xy.h, libxylem-internal.h).
    - Layout.v: the C layout of the module's context (xy.h) and of the host's copy
      (papi.h), and the static assertions that tie them together.
    - Napi.v: the Node.js addon (npm/native/xylem_napi.c).
    - Macros.v: the preprocessor macros of xy-pp.h that turn the parameter list of
      a hook into its argument record and its call, on their argument strings.
    - HookMacros.v: what XY_DECL, XY_DEF, XY_IMPL and XY_LISTENER_TAG generate from
      them: adapters, exported symbols, and the function a caller calls.
    - Corm.v: the interface of the tables (libcorm is another repository), with
      the laws the code relies on, and [gmap] as an instance.
    - State.v: the records of papi.h and libxylem-internal.h, the heap they are
      linked in, the globals and the thread-locals; a [world] is all of it.
    - Env.v: the dynamic loader, the file system and the environment ([Os]), and
      the code of modules and hosts ([Callbacks]), as parameters.
    - Regions.v (the tree and its walks), RegionApi.v (xy_claim_at, xy_region_at,
      xy_with_region, xy_deny, ...): the region half of libxylem.c.
    - Runtime.v: libxylem-runtime.c up to xy_init.
    - Paths.v: the search for a module's file, interned paths, copies.
    - Hooks.v and Dispatch.v: libxylem-dispatch.c, with the call function XY_DEF
      and XY_IMPL generate: listener caches, dispatch vectors, xy_call,
      xy_call_self, xy_last, xy_areg.
    - ModKey.v, ModList.v, Loader.v, Unload.v: module keys, the module lists of
      regions, the load transaction, unload, reload and shutdown
      (libxylem-module.c, the module half of libxylem.c, the teardown).  The
      width a claim handler grants arrives in a uint8_t and is cut to it.
    - ModSide.v: the module's side of xy-mod.h: its context, the wrappers that
      reach the library through it, and what they do without a field.
    - Wasm.v: libxylem-wasm.c, the registry of a WebAssembly module.
    - Watch.v and WatchSteps.v: libxylem-watch.c, its functions and their
      interleaving with the watcher thread.

    Function and field names are the source's; a field is prefixed by its
    record.  The parts meet in the world: a call walks the region tree for its
    listeners (Dispatch over Regions and Hooks), a load claims a region and
    enters it (Loader over RegionApi), a listener is arbitrary code and may do
    both again.

    ** How code is modelled

    A function is a computation [M world A]: it returns a value and a world,
    or has no meaning ([Crash]: NULL, freed memory, a closed table, an int past
    its range), or was given too little fuel ([NoFuel]).  Pointers are [positive]s into heaps of
    records, so that aliasing is the program's; addresses are never reused.
    Allocation fails as the world's [w_mem] says, and a temporary copy has the name
    the system gives it at that moment.  Loops over links get the size
    of the heap as fuel, which is enough on a tree or list that is well formed
    (RegionWalks, ModListSpecs), loops over 64-bit counters run through [until]
    with a binary count; the fuel of a call is what its listeners take;
    the fuel of an unload bounds the depth of its cascade, and the number of
    addresses given out is enough, since a module is younger than its loader.  The
    contracts below say that the computation returns ([Ok]); they never assume
    it.

    ** What is proved

    - Regions (RegionTree, RegionWalks, RegionInv, RegionSpecs, RegionSlots,
      RegionDeny, Boot; theorems in RegionProps): the tree invariant and that
      every operation keeps it; the outcomes of a claim; point location and
      slot allocation, up to the full width, against their specification; what a
      deny marks.
    - Dispatch (HookSpecs, Subtree, Vector, VectorBuild, Prepare, SlotRun, Call,
      CallRun, SelfCall, Registry, Sample; theorems in DispatchProps): xy_call
      runs the listeners of the caller's subtree, in preorder, each once and with
      its own region current, and xy_last recalls the last value, whatever happens
      in between; the caches are transparent; a shut gate runs nothing; the
      registry keeps its tables in step.  The caches a call finds may be stale or
      never filled, but what they mark as current or known must be so ([dispatch_ok];
      the findings at libxylem.c:909 and :1662 are ways to break that).  Listeners
      may call back into the library: the call is proved for any invariant its own
      steps keep ([hosted], [prepared]), on which every listener may rely, and which
      it keeps in turn together with what [lasting] names and the vector in use.
    - Modules (PathSpecs, ModListSpecs, LoadSpecs, LoadLink, UnloadSpecs;
      theorems in LoadProps and Shutdown): the search for a module's file, with
      and without memory; the effect of a load, of a load that
      is refused, of an unload, their round trip, the list operations refined by
      sequences, what a module key tells apart, and that a shutdown frees
      everything once.
    - Reload and cascade: Family is the forest of who loaded whom, Cascade the
      unload of a module with everything it loaded, to any depth, with the fuel
      that is enough; Reload the exchange of a module for a new one in its place;
      ReloadFree the reload whose neighbour was freed in between.
    - Soundness over programs: Frame has what every operation leaves alone; Sound
      states when the library is well formed (region tree and table, current
      region, regions of the modules, module table) and what a computation that
      keeps it is; SoundRegions, SoundDispatch, SoundModules and Soundness prove it of
      every operation; Programs makes hosts and modules trees of calls of the
      public interface that call one another back, and the theorem holds of all
      of them, and of hosts with several threads that take turns in the library,
      each with its own thread-locals; Threads has the shutdown that strands
      another thread, Reenter the one a module's clean-up restarts halfway.
      xy_shutdown is not among those calls: it ends the library, with theorems of
      its own in Shutdown.
    - Macros, HookMacros and ModSide: a hook's arguments arrive in order, up to the
      number of parameters the macros have rungs for, when no parameter has the name
      of another or of a local of the generated function; calling the function a
      declaration makes runs every listener on the values of the call and returns
      the last one's; a module reaches the library function of each wrapper's name.
    - Layout: on which data models, and for which changes of the context, the
      static assertions hold.
    - Napi: what the addon answers to any sequence of calls.
    - WebAssembly (WasmProps): one slot per name, listeners in order, and the
      names that are lost.
    - Watcher (WatchProps for the functions on their own; WatchSafe, WatchLive
      and WatchRace over all interleavings): the watch set, the invariant under
      one controlling thread, that a stop returns, and the two ways to break it.

    Each theorem with hypotheses is followed, in the same file or the sample
    next to it, by an instance on a concrete state.

    ** What is not modelled

    libcorm, libstele and the system are parameters.  Debug logging, branch
    hints, prefetches, the freeing of strings, the registration of libcorm type
    ids, and the Windows branches have no effect the theorems speak of.  The
    headers under npm/include are copies of those modelled; the Rust and
    JavaScript bindings, the tests and the documentation hold no logic of the
    library's.  Of the compiler only what the macros and assertions rest on is
    modelled: the expansion of the hook macros and the layout of the context; the
    size of any other type is a parameter.  Two threads
    inside the library at once are modelled in the watcher only: the rest keeps its
    state in thread-locals and unguarded globals, and its callers take turns. *)
From stdpp Require Export prelude gmap strings.
#[export] Set Warnings "-clear-no-such-hyp,-postfix-notation-not-level-1".

(** ** Record update

    [r <| f := v |>] and [r <| f ::= g |>] are C's [r->f = v] on a record
    value.  A record only has to give its eta expansion; the update of each
    field is derived from it on demand. *)

Class Eta (R : Type) := { eta_expand : R → R }.

Class Field {R T : Type} (p : R → T) := { field_over : (T → T) → R → R }.
Arguments field_over {R T} p {_} _ _.

Ltac derive_field :=
  lazymatch goal with
  | |- @Field ?R ?T ?p =>
      let inst := constr:(_ : Eta R) in
      let e := eval hnf in (@eta_expand R inst) in
      let e := eval cbv beta in e in
      lazymatch eval pattern p in e with
      | (fun _ => ?b) _ => fail "no such field"
      | ?F _ =>
          let t := eval cbv beta in
            (fun (g : T → T) (r : R) => F (fun x => g (p x)) r) in
          exact (Build_Field R T p t)
      end
  end.
#[export] Hint Extern 1 (Field _) => derive_field : typeclass_instances.

Declare Scope xylem_scope.
Notation "r <| p ::= g |>" := (field_over p g r)
  (at level 12, left associativity, p at next level, g at next level)
  : xylem_scope.
Notation "r <| p := v |>" := (field_over p (fun _ => v) r)
  (at level 12, left associativity, p at next level, v at level 200)
  : xylem_scope.
#[global] Open Scope xylem_scope.

(** ** Strings *)

Lemma str_app_cons c (a b : string) : String c a +:+ b = String c (a +:+ b).
Proof. done. Qed.
Lemma str_app_assoc (a b c : string) : (a +:+ b) +:+ c = a +:+ (b +:+ c).
Proof. induction a as [|x a IH]; [done|]. by rewrite !str_app_cons, IH. Qed.
Lemma str_length_app (a b : string) : String.length (a +:+ b) = (String.length a + String.length b)%nat.
Proof. induction a as [|x a IH]; [done|]. rewrite str_app_cons. simpl. by rewrite IH. Qed.
Lemma substring_short n s : (String.length s ≤ n)%nat → String.substring 0 n s = s.
Proof.
  revert n. induction s as [|c s IH]; intros n Hn; [by destruct n|].
  destruct n as [|n]; simpl in *; [lia|]. f_equal. apply IH. lia.
Qed.
Lemma substring_length n s : (String.length (String.substring 0 n s) ≤ n)%nat.
Proof.
  revert n. induction s as [|c s IH]; intros [|n]; simpl; try lia. specialize (IH n). lia.
Qed.

(** ** Computations

    C code is a function of the program state that returns, or that has no
    defined meaning: [Crash] is a dereference of NULL or of freed memory (or a
    use of a closed table), [NoFuel] is a loop that was given too few
    iterations.  The two are kept apart so that total-correctness statements
    exclude both. *)

Inductive res (S A : Type) : Type :=
  | Ok (a : A) (s : S)
  | Crash
  | NoFuel.
Arguments Ok {S A} _ _.
Arguments Crash {S A}.
Arguments NoFuel {S A}.

Definition M (S A : Type) : Type := S → res S A.

#[global] Instance M_ret S : MRet (M S) := λ A a s, Ok a s.
#[global] Instance M_bind S : MBind (M S) := λ A B f m s,
  match m s with
  | Ok a s' => f a s'
  | Crash => Crash
  | NoFuel => NoFuel
  end.

Definition crash {S A} : M S A := λ _, Crash.
Definition nofuel {S A} : M S A := λ _, NoFuel.
Definition gets {S A} (f : S → A) : M S A := λ s, Ok (f s) s.
Definition modify {S} (f : S → S) : M S unit := λ s, Ok tt (f s).

(** A value the code dereferences without a check. *)
Definition deref {S A} (o : option A) : M S A :=
  match o with Some a => mret a | None => crash end.

(** Run [k] on every element, in order. *)
Fixpoint for_each {S A} (l : list A) (k : A → M S unit) : M S unit :=
  match l with
  | [] => mret tt
  | x :: l' => k x ;; for_each l' k
  end.

(** ** Reasoning about computations *)

(** Weakest precondition; [pc] and [pf] say what a crash and a lack of fuel
    are worth: [False] for total correctness, [True] for partial. *)
Definition wp {S A} (pc pf : Prop) (m : M S A) (Q : A → S → Prop) (s : S) : Prop :=
  match m s with
  | Ok a s' => Q a s'
  | Crash => pc
  | NoFuel => pf
  end.

(** [m] returns, and its result and final state satisfy [Q]. *)
Abbreviation twp := (wp False False).

Section wp.
Context {S : Type} (pc pf : Prop).
Implicit Types s : S.

Lemma wp_ret {A} (a : A) Q s : Q a s → wp pc pf (mret a) Q s.
Proof. done. Qed.

Lemma wp_bind {A B} (m : M S A) (k : A → M S B) Q s :
  wp pc pf m (λ a, wp pc pf (k a) Q) s → wp pc pf (m ≫= k) Q s.
Proof. unfold wp, mbind, M_bind. by destruct (m s). Qed.

Lemma wp_mono {A} (m : M S A) (Q Q' : A → S → Prop) s :
  wp pc pf m Q s → (∀ a s', Q a s' → Q' a s') → wp pc pf m Q' s.
Proof. unfold wp. destruct (m s); auto. Qed.

Lemma wp_gets {A} (f : S → A) Q s : Q (f s) s → wp pc pf (gets f) Q s.
Proof. done. Qed.

Lemma wp_modify (f : S → S) (Q : unit → S → Prop) s :
  Q tt (f s) → wp pc pf (modify f) Q s.
Proof. done. Qed.

Lemma wp_deref {A} (o : option A) Q s a :
  o = Some a → Q a s → wp pc pf (deref o) Q s.
Proof. by intros ->. Qed.
End wp.

Lemma twp_Ok {S A} (m : M S A) Q s :
  twp m Q s → ∃ a s', m s = Ok a s' ∧ Q a s'.
Proof. unfold wp. destruct (m s); naive_solver. Qed.

Lemma Ok_bind_inv {S A B} (m : M S A) (k : A → M S B) s b s'' :
  (m ≫= k) s = Ok b s'' → ∃ a s', m s = Ok a s' ∧ k a s' = Ok b s''.
Proof. unfold mbind, M_bind. destruct (m s); naive_solver. Qed.

Lemma bind_Ok {S A B} (m : M S A) (k : A → M S B) s a s' :
  m s = Ok a s' → (m ≫= k) s = k a s'.
Proof. unfold mbind, M_bind. by intros ->. Qed.

Lemma bind_crash {S A B} (m : M S A) (k : A → M S B) s : m s = Crash → (m ≫= k) s = Crash.
Proof. unfold mbind, M_bind. by intros ->. Qed.

(** Both ways out of a test, without computing either. *)
Lemma if_Ok_inv {S A} (b : bool) (m1 m2 : M S A) s a s' :
  (if b then m1 else m2) s = Ok a s' → b = true ∧ m1 s = Ok a s' ∨ b = false ∧ m2 s = Ok a s'.
Proof. destruct b; [by left|by right]. Qed.

Lemma bind_assoc {S A B D} (m : M S A) (k : A → M S B) (l : B → M S D) s :
  ((m ≫= k) ≫= l) s = (m ≫= λ a, k a ≫= l) s.
Proof. unfold mbind, M_bind. by destruct (m s). Qed.

(** [m] only moves along [R] when it returns.  With [R s s'] := [I s → I s']
    this is preservation of an invariant, with [R s s'] := [v s' = v s] it is a
    frame condition; both are preorders, which is all the rules need. *)
Definition respects {S A} (R : relation S) (m : M S A) : Prop :=
  ∀ s a s', m s = Ok a s' → R s s'.

Section respects.
Context {S : Type} (R : relation S) `{!PreOrder R}.

Lemma respects_ret {A} (a : A) : respects R (mret a : M S A).
Proof. intros s a' s' [= <- <-]. reflexivity. Qed.

Lemma respects_bind {A B} (m : M S A) (k : A → M S B) :
  respects R m → (∀ a, respects R (k a)) → respects R (m ≫= k).
Proof.
  intros Hm Hk s b s'' (a & s' & H1 & H2)%Ok_bind_inv.
  transitivity s'; [by eapply Hm | by eapply Hk].
Qed.

Lemma respects_crash {A} : respects R (crash (S:=S) (A:=A)).
Proof. unfold respects. intros. discriminate. Qed.
Lemma respects_nofuel {A} : respects R (nofuel (S:=S) (A:=A)).
Proof. unfold respects. intros. discriminate. Qed.
Lemma respects_gets {A} (f : S → A) : respects R (gets f).
Proof. intros s a' s' [= <- <-]. reflexivity. Qed.
Lemma respects_deref {A} (o : option A) : respects R (deref o : M S A).
Proof. destruct o; [apply respects_ret | apply respects_crash]. Qed.
Lemma respects_modify (f : S → S) : (∀ s, R s (f s)) → respects R (modify f).
Proof. intros Hf s a s' [= <- <-]. apply Hf. Qed.
Lemma respects_for_each {A} (l : list A) (k : A → M S unit) :
  (∀ x, x ∈ l → respects R (k x)) → respects R (for_each l k).
Proof.
  induction l as [|x l IH]; intros Hk; simpl; [apply respects_ret|].
  apply respects_bind; [apply Hk; set_solver|].
  intros _. apply IH. intros y Hy. apply Hk. set_solver.
Qed.
End respects.

Lemma respects_weaken {S A} (R R' : relation S) (m : M S A) :
  (∀ s s', R s s' → R' s s') → respects R m → respects R' m.
Proof. intros HR Hm s a s' H. by eapply HR, Hm. Qed.

(** Relations used with [respects]. *)
Definition keeps {S} (I : S → Prop) : relation S := λ s s', I s → I s'.
Definition fixes {S T} (v : S → T) : relation S := λ s s', v s' = v s.

#[global] Instance keeps_preorder {S} (I : S → Prop) : PreOrder (keeps I).
Proof. unfold keeps. split; [intros s H; exact H|intros s1 s2 s3 H1 H2 ?; auto]. Qed.
#[global] Instance fixes_preorder {S T} (v : S → T) : PreOrder (fixes v).
Proof.
  unfold fixes. split; [intros s; reflexivity|]. intros s1 s2 s3 H1 H2. congruence.
Qed.

(** The syntax-directed part of a [respects] proof.  The database [respects]
    holds the facts about the operations themselves. *)
Create HintDb respects discriminated.
#[export] Hint Constants Opaque : respects.

Ltac respects_step :=
  lazymatch goal with
  | |- respects _ (mret _) => apply respects_ret; exact _
  | |- respects _ (_ ≫= _) => apply respects_bind; [exact _| |intros ?]
  | |- respects _ crash => apply respects_crash
  | |- respects _ nofuel => apply respects_nofuel
  | |- respects _ (gets _) => apply respects_gets; exact _
  | |- respects _ (deref _) => apply respects_deref; exact _
  | |- respects _ (for_each _ _) =>
      apply respects_for_each; [exact _|intros ? _]
  | |- respects _ (match ?x with _ => _ end) => destruct x
  end.

Ltac solve_respects :=
  repeat first
    [ solve [eauto 2 with respects]
    | respects_step
    | progress cbv zeta ].

(** ** Bounded do-while loops

    [until n f a] runs [f] from [a] until it exits with [inr] or has run [n]
    times.  The count is binary, so that the 2^64 iterations C allows need no
    unary fuel. *)

Fixpoint until {A B} (n : positive) (f : A → A + B) (a : A) : A + B :=
  match n with
  | xH => f a
  | xO n' =>
      match until n' f a with
      | inl a' => until n' f a'
      | inr b => inr b
      end
  | xI n' =>
      match f a with
      | inl a0 =>
          match until n' f a0 with
          | inl a' => until n' f a'
          | inr b => inr b
          end
      | inr b => inr b
      end
  end.

Section until.
Context {A B : Type} (f : A → A + B).

(** The same loop with a unary count. *)
Fixpoint until_nat (n : nat) (a : A) : A + B :=
  match n with
  | O => inl a
  | S n' => match f a with inl a' => until_nat n' a' | inr b => inr b end
  end.

Lemma until_nat_add n m a :
  until_nat (n + m) a =
    match until_nat n a with inl a' => until_nat m a' | inr b => inr b end.
Proof.
  revert a. induction n as [|n IH]; intros a; simpl; [done|].
  destruct (f a); [apply IH|done].
Qed.

Lemma until_until_nat n a : until n f a = until_nat (Pos.to_nat n) a.
Proof.
  revert a. induction n as [n IH|n IH|]; intros a.
  - rewrite Pos2Nat.inj_xI. simpl. destruct (f a) as [a0|b]; [|done].
    rewrite Nat.add_0_r, until_nat_add, IH.
    destruct (until_nat (Pos.to_nat n) a0); [apply IH|done].
  - rewrite Pos2Nat.inj_xO. simpl.
    rewrite Nat.add_0_r, until_nat_add, IH.
    destruct (until_nat (Pos.to_nat n) a); [apply IH|done].
  - simpl. by destruct (f a).
Qed.

(** Reasoning about a loop whose state counts its iterations: if the first
    [n] steps from [g 0] continue through [g], so does the loop. *)
Lemma until_nat_continue (g : nat → A) n :
  (∀ i, i < n → f (g i) = inl (g (S i))) → until_nat n (g O) = inl (g n).
Proof.
  revert g. induction n as [|n IH]; intros g Hg; simpl; [done|].
  rewrite Hg by lia. apply (IH (λ i, g (S i))). intros i Hi. apply Hg. lia.
Qed.

Lemma until_nat_exit (g : nat → A) n k b :
  k < n → (∀ i, i < k → f (g i) = inl (g (S i))) → f (g k) = inr b →
  until_nat n (g O) = inr b.
Proof.
  intros Hk Hg Hb. replace n with (k + S (n - k - 1)) by lia.
  rewrite until_nat_add, until_nat_continue by done. simpl. by rewrite Hb.
Qed.
End until.

(** ** Pointer chains

    [chain h next o l]: following [next] from [o] in the heap [h] visits
    exactly the cells [l] and then NULL. *)

Fixpoint chain {T} (h : gmap positive T) (next : T → option positive)
    (o : option positive) (l : list positive) : Prop :=
  match l with
  | [] => o = None
  | p :: l' => o = Some p ∧ ∃ e, h !! p = Some e ∧ chain h next (next e) l'
  end.

Section chain.
Context {T : Type}.
Implicit Types (h : gmap positive T) (next : T → option positive).

Lemma chain_det h next o l1 l2 :
  chain h next o l1 → chain h next o l2 → l1 = l2.
Proof.
  revert o l2. induction l1 as [|p l1 IH]; intros o [|q l2]; simpl.
  - done.
  - intros -> [? _]. done.
  - intros [-> _] ?. done.
  - intros [-> (e & He & H1)] [[= <-] (e' & He' & H2)].
    simplify_eq. f_equal. eauto.
Qed.

Lemma chain_suffix h next o l1 l2 :
  chain h next o (l1 ++ l2) → ∃ o', chain h next o' l2.
Proof.
  revert o. induction l1 as [|p l1 IH]; intros o; simpl; [by eexists|].
  intros (_ & e & _ & H). by eapply IH.
Qed.

Lemma chain_head_suffix h next o l1 p l2 :
  chain h next o (l1 ++ p :: l2) → chain h next (Some p) (p :: l2).
Proof. intros [o' H]%chain_suffix. destruct H as [-> H]. by split. Qed.

(** A chain that ends is acyclic. *)
Lemma chain_NoDup h next o l : chain h next o l → NoDup l.
Proof.
  revert o. induction l as [|p l IH]; intros o H; [constructor|].
  constructor; [|destruct H as (_ & e & _ & H); by eapply IH].
  intros (l1 & l2 & ->)%list_elem_of_split.
  pose proof (chain_head_suffix h next o [] p _ H) as H1.
  pose proof (chain_head_suffix h next o (p :: l1) p l2 H) as H2.
  pose proof (chain_det _ _ _ _ _ H1 H2) as Heq.
  apply (f_equal length) in Heq. rewrite !length_cons, length_app in Heq.
  simpl in Heq. lia.
Qed.

Lemma chain_dom h next o l p : chain h next o l → p ∈ l → p ∈ dom h.
Proof.
  revert o. induction l as [|q l IH]; intros o; simpl; [set_solver|].
  intros (_ & e & He & H) [->|Hp]%elem_of_cons; [by eapply elem_of_dom_2|eauto].
Qed.

Lemma chain_length h next o l : chain h next o l → length l ≤ size h.
Proof.
  intros H. rewrite <- (size_list_to_set (C:=gset positive)) by (by eapply chain_NoDup).
  rewrite <- size_dom. apply subseteq_size. intros p.
  rewrite elem_of_list_to_set. by eapply chain_dom.
Qed.

(** A chain only depends on the links of the cells it visits. *)
Lemma chain_frame h h' next o l :
  chain h next o l →
  (∀ p e, p ∈ l → h !! p = Some e → ∃ e', h' !! p = Some e' ∧ next e' = next e) →
  chain h' next o l.
Proof.
  revert o. induction l as [|p l IH]; intros o; simpl; [done|].
  intros (-> & e & He & H) Hh. split; [done|].
  destruct (Hh p e) as (e' & He' & Hn); [set_solver|done|].
  exists e'. split; [done|]. rewrite Hn. apply IH; [done|].
  intros q eq Hq. apply Hh. set_solver.
Qed.
End chain.
