(* ===== verification/Macros.v ===== *)
(** * The argument macros

    src/include/ttypt/xy-pp.h: the preprocessor counts the (type, name) pairs a
    hook is declared with and unrolls them, once for the parameters, the
    fields of the argument struct, its initialiser and the reads on the other
    side.  Macro arguments are strings; an expansion that does not preprocess or
    compile is [None]. *)
From Stdlib Require Import Ascii.
From S2P Require Import Prelude.

(** An argument of [PP_ARG_N]: a token of the user, or a number of the
    sequence. *)
Inductive pp_token := T_text (s : string) | T_num (n : nat).

(** [__VA_ARGS__] of an empty list is one empty argument. *)
Definition va_args (l : list string) : list string := match l with [] => [""] | _ => l end.

(** [PAIR_RSEQ_N()] *)
Definition PAIR_RSEQ_N : list nat :=
  [31; 31; 30; 30; 29; 29; 28; 28; 27; 27; 26; 26; 25; 25;
   24; 24; 23; 23; 22; 22; 21; 21; 20; 20; 19; 19; 18; 18;
   17; 17; 16; 16; 15; 15; 14; 14; 13; 13; 12; 12; 11; 11;
   10; 10; 9; 9; 8; 8; 7; 7; 6; 6; 5; 5; 4; 4;
   3; 3; 2; 2; 1; 1; 0; 0].

(** [PP_ARG_N]: the argument after the first 63. *)
Definition PP_ARG_N (args : list pp_token) : option pp_token := args !! 63.
(** [PP_NARG_] *)
Definition PP_NARG_ (args : list pp_token) : option pp_token := PP_ARG_N args.
(** [XY_PC] *)
Definition XY_PC (args : list string) : option pp_token :=
  PP_NARG_ ((T_text <$> va_args args) ++ (T_num <$> PAIR_RSEQ_N)).

(** The shape the four families share: rung 0 swallows its arguments, rung 1
    takes a pair, rung [n] takes a pair and hands the rest to rung [n - 1]. *)
Fixpoint rungs {A} (rung : string → string → A) (n : nat) (args : list string) : option (list A) :=
  match n with
  | O => Some []
  | S O => match args with [a; b] => Some [rung a b] | _ => None end
  | S n' =>
      match args with
      | a :: b :: rest => cons (rung a b) <$> rungs rung n' (va_args rest)
      | _ => None
      end
  end.

(** [CAT(family, XY_PC(...))(...)]: each family has the rungs 0 to 16. *)
Definition XY_RUNG_MAX : nat := 16.
Definition paste {A} (rung : string → string → A) (args : list string) : option (list A) :=
  match XY_PC args with
  | Some (T_num n) => if decide (n ≤ XY_RUNG_MAX) then rungs rung n (va_args args) else None
  | _ => None
  end.

(** [XY_FA]: parameters; [XY_PG]: fields; [XY_NP]: reads of [__xy_a]; [XY_DA]:
    names *)
Definition XY_FA : list string → option (list (string * string)) := paste (λ a b, (a, b)).
Definition XY_PG : list string → option (list (string * string)) := paste (λ a b, (a, b)).
Definition XY_NP : list string → option (list string) := paste (λ _ b, b).
Definition XY_DA : list string → option (list string) := paste (λ _ b, b).

(** The locals of the function [XY_DECL] and [XY_DEF] generate.  A name that is
    there twice, among them and the parameters, does not compile. *)
Definition decl_locals : list string := ["ret"; "args"].
Definition names_fit (params : list (string * string)) : Prop := NoDup (decl_locals ++ (snd <$> params)).
#[global] Instance names_fit_dec params : Decision (names_fit params) := NoDup_dec _.

Lemma names_fit_NoDup params : names_fit params → NoDup (snd <$> params).
Proof. by intros (_ & _ & H)%NoDup_app. Qed.

(** Their text. *)
Definition XY_FA_text (args : list string) : option string :=
  String.concat ", " ∘ fmap (λ p, p.1 +:+ " " +:+ p.2)%string <$> XY_FA args.
Definition XY_PG_text (args : list string) : option string :=
  String.concat "" ∘ fmap (λ p, p.1 +:+ " " +:+ p.2 +:+ "; ")%string <$> XY_PG args.
Definition XY_NP_text (args : list string) : option string :=
  String.concat ", " ∘ fmap (λ b, "__xy_a->" +:+ b)%string <$> XY_NP args.

(** ** A call through the macros *)

Section call.
Context {V : Type}.

(** The value of a name among the parameters, or of a field. *)
Fixpoint value_of (env : list (string * V)) (name : string) : option V :=
  match env with
  | [] => None
  | (x, v) :: env' => if String.eqb x name then Some v else value_of env' name
  end.

(** What a listener of [XY_IMPL(ftype, fname, args)] is called with when the
    function of [XY_DEF(ftype, fname, args)] is called with [vals]: the
    function binds its parameters, initialises the struct by position from
    their names, and the adapter reads the fields. *)
Definition hook_call (args : list string) (vals : list V) : option (list V) :=
  params ← XY_FA args;
  if decide (length params = length vals ∧ names_fit params) then
    let env := zip (snd <$> params) vals in
    inits ← XY_DA args ≫= mapM (value_of env);
    fields ← XY_PG args;
    let a := zip (snd <$> fields) inits in
    XY_NP args ≫= mapM (value_of a)
  else None.

(** ** Counting *)

Lemma XY_PC_count args :
  length (va_args args) ≤ 63 → XY_PC args = Some (T_num (length (va_args args) / 2)).
Proof.
  intros Hlen. unfold XY_PC, PP_NARG_, PP_ARG_N. set (l := va_args args) in *.
  assert (Hpos : 1 ≤ length l) by (unfold l; destruct args; simpl; lia). clearbody l.
  rewrite lookup_app_r by (rewrite length_fmap; lia). rewrite length_fmap, list_lookup_fmap.
  assert (Hseq : Forall (λ k, PAIR_RSEQ_N !! (63 - k) = Some (k / 2)) (seq 1 63)).
  { apply (bool_decide_unpack _). vm_compute. done. }
  rewrite Forall_forall in Hseq. rewrite Hseq; [done|]. apply elem_of_seq. lia.
Qed.

(** The arguments of a list of pairs. *)
Definition flat_pairs (ps : list (string * string)) : list string := ps ≫= λ p, [p.1; p.2].

Lemma flat_pairs_length ps : length (flat_pairs ps) = 2 * length ps.
Proof. induction ps as [|p ps IH]; simpl in *; lia. Qed.

Lemma rungs_pairs {A} (rung : string → string → A) ps :
  ps ≠ [] → rungs rung (length ps) (flat_pairs ps) = Some ((λ p, rung p.1 p.2) <$> ps).
Proof.
  induction ps as [|p [|q ps] IH]; intros Hne; [done|done|].
  change (rungs rung (length (p :: q :: ps)) (flat_pairs (p :: q :: ps)))
    with (cons (rung p.1 p.2) <$> rungs rung (length (q :: ps)) (flat_pairs (q :: ps))).
  by rewrite IH.
Qed.

Lemma paste_pairs {A} (rung : string → string → A) ps :
  length ps ≤ 31 →
  paste rung (flat_pairs ps) =
    if decide (length ps ≤ XY_RUNG_MAX) then Some ((λ p, rung p.1 p.2) <$> ps) else None.
Proof.
  intros Hlen. unfold paste. destruct ps as [|p ps]; [done|].
  assert (Hva : va_args (flat_pairs (p :: ps)) = flat_pairs (p :: ps)) by done.
  assert (Hn : length (flat_pairs (p :: ps)) = length (p :: ps) * 2) by (rewrite flat_pairs_length; lia).
  rewrite XY_PC_count; rewrite Hva, Hn; [|lia]. rewrite Nat.div_mul by done.
  case_decide; [|done]. by apply rungs_pairs.
Qed.

(** ** Arguments arrive *)

Lemma value_of_lookup names (vals : list V) i x v :
  NoDup names → names !! i = Some x → vals !! i = Some v → value_of (zip names vals) x = Some v.
Proof.
  intros Hnd. revert vals i. induction Hnd as [|y names Hy Hnd IH]; intros vals i Hx Hv; [done|].
  destruct vals as [|u vals]; [done|]. destruct i as [|i]; simpl in *.
  - simplify_eq. by rewrite String.eqb_refl.
  - destruct (String.eqb_spec y x) as [->|_]; [|by eapply IH].
    destruct Hy. by eapply list_elem_of_lookup_2.
Qed.

Lemma value_of_zip names (vals : list V) :
  NoDup names → length names = length vals → mapM (value_of (zip names vals)) names = Some vals.
Proof.
  intros Hnd Hlen. apply mapM_Some, Forall2_same_length_lookup. split; [done|].
  intros i x v. by apply value_of_lookup.
Qed.

(** C37. A hook declared with up to 16 parameters hands its listeners exactly the
    values it was called with, in order, through the argument struct the macros lay
    out, as long as the parameters' names are distinct and none is that of a local
    of the generated function, [ret] or [args]; otherwise the declaration does not
    compile.  Neither does it from 17 to 31 parameters: the count is right but no
    rung is left.  [void], or no parameter at all, hands over nothing. *)
Theorem hook_arguments_arrive (ps : list (string * string)) (vals : list V) :
  length ps ≤ 31 → length vals = length ps →
  hook_call (flat_pairs ps) vals =
    (if decide (length ps ≤ XY_RUNG_MAX ∧ NoDup (["ret"; "args"] ++ (snd <$> ps))) then Some vals else None) ∧
  (∀ word, hook_call [word] [] = Some (@nil V)) ∧ hook_call [] [] = Some (@nil V).
Proof.
  intros Hlen Hvals. split; [|by split]. unfold hook_call, XY_FA, XY_DA, XY_PG, XY_NP.
  rewrite !paste_pairs by done. destruct (decide (length ps ≤ XY_RUNG_MAX)) as [Hmax|];
    [|by rewrite decide_False by naive_solver]. cbn [mbind option_bind].
  assert (Hid : (λ p : string * string, (p.1, p.2)) <$> ps = ps).
  { rewrite <- (list_fmap_id ps) at 2. apply list_fmap_ext. by intros ? [] _. }
  assert (Hsnd : (λ p : string * string, p.2) <$> ps = snd <$> ps) by done.
  rewrite Hid, Hsnd. destruct (decide (NoDup (["ret"; "args"] ++ (snd <$> ps)))) as [Hfit|Hno].
  2: { rewrite !decide_False; [done|by intros [_ ?]|]. intros [_ ?]. by apply Hno. }
  pose proof (names_fit_NoDup ps Hfit) as Hnd.
  rewrite !decide_True by done. rewrite value_of_zip by (done || by rewrite length_fmap). cbn [mbind option_bind].
  by rewrite value_of_zip by (done || by rewrite length_fmap).
Qed.
End call.

(** The function of [XY_DEF(int, on_player_score, int, player_id, int, points)]. *)
Definition score_params : list (string * string) := [("int", "player_id"); ("int", "points")].
Lemma score_text :
  XY_FA_text (flat_pairs score_params) = Some "int player_id, int points" ∧
  XY_PG_text (flat_pairs score_params) = Some "int player_id; int points; " ∧
  XY_NP_text (flat_pairs score_params) = Some "__xy_a->player_id, __xy_a->points".
Proof. by vm_compute. Qed.

Lemma hook_arguments_arrive_witness :
  hook_call (flat_pairs score_params) [1; 100]%Z = Some [1; 100]%Z ∧
  hook_call (flat_pairs [("int", "ret"); ("int", "points")]) [1; 100]%Z = None.
Proof.
  destruct (hook_arguments_arrive score_params [1; 100]%Z) as [H _]; [vm_compute; lia|reflexivity|].
  destruct (hook_arguments_arrive [("int", "ret"); ("int", "points")] [1; 100]%Z) as [H' _]; [vm_compute; lia|reflexivity|].
  split; [rewrite H|rewrite H']; reflexivity.
Defined.
