(* ===== verification/Words.v ===== *)
(** * Machine words, error codes and region prefixes

    [uint64_t] and [uint8_t] values are [Z]s in range; arithmetic that can wrap
    is followed by [u64] or [u8].  [region_mask] and [covers] are the prefix
    arithmetic of region identities (src/libxylem-internal.h), with the bitwise
    facts the region tree rests on. *)
From S2P Require Import Prelude.
Open Scope Z_scope.

(** ** Constants of include/ttypt/xy.h *)

Definition XY_OK : Z := 0.
Definition XY_ERR_NOTFOUND : Z := -1.
Definition XY_ERR_INVALID : Z := -2.
Definition XY_ERR_TOOBIG : Z := -3.
Definition XY_ERR_INIT : Z := -4.
Definition XY_ERR_EPERM : Z := -5.
Definition XY_ERR_ABI : Z := -6.

Definition XY_MAX_RET_SIZE : Z := 4096.

(** [(unsigned)-1] *)
Definition XY_INVALID : Z := 2 ^ 32 - 1.
Definition XY_REGION_ROOT : Z := 0.
(** [(uint64_t)-1] *)
Definition XY_REGION_INVALID : Z := 2 ^ 64 - 1.

Definition XY_CTX_ABI_VER : Z := 3.
(** The 64-bit value. *)
Definition XY_CTX_SIZE : Z := 184.

(** ** Words *)

Definition u64 (x : Z) : Z := x mod 2 ^ 64.
Definition u32 (x : Z) : Z := x mod 2 ^ 32.
Definition u8 (x : Z) : Z := x mod 2 ^ 8.

Definition is_u64 (x : Z) : Prop := 0 ≤ x < 2 ^ 64.
Definition is_u8 (x : Z) : Prop := 0 ≤ x < 2 ^ 8.

(** [((uint64_t)ver << 32) | (uint32_t)size] *)
Definition XY_CTX_ABI_DESC : Z :=
  Z.lor (u64 (Z.shiftl XY_CTX_ABI_VER 32)) (u32 XY_CTX_SIZE).

(** [region_mask(plen)]: the high [plen] bits. *)
Definition region_mask (plen : Z) : Z :=
  if plen =? 0 then 0
  else if plen >=? 64 then 2 ^ 64 - 1
  else u64 (Z.shiftl (2 ^ 64 - 1) (64 - plen)).

(** The containment test [(id & region_mask(plen)) == a]. *)
Definition covers (a plen id : Z) : bool := Z.land id (region_mask plen) =? a.

(** A canonical id has no bit below its width. *)
Definition aligned (id plen : Z) : Prop := Z.land id (region_mask plen) = id.

(** ** Bit lemmas *)

Lemma u64_small x : is_u64 x → u64 x = x.
Proof. unfold u64, is_u64. intros. by apply Z.mod_small. Qed.

Lemma u8_small x : is_u8 x → u8 x = x.
Proof. unfold u8, is_u8. intros. by apply Z.mod_small. Qed.

Lemma u64_range x : is_u64 (u64 x).
Proof. unfold u64, is_u64. apply Z.mod_pos_bound. lia. Qed.

Lemma u64_testbit x i : 0 ≤ i → Z.testbit (u64 x) i = (i <? 64) && Z.testbit x i.
Proof.
  intros Hi. unfold u64. destruct (Z.ltb_spec i 64).
  - by rewrite Z.mod_pow2_bits_low.
  - by rewrite Z.mod_pow2_bits_high by lia.
Qed.

Lemma ones64_testbit i : 0 ≤ i → Z.testbit (2 ^ 64 - 1) i = (i <? 64).
Proof.
  intros Hi. replace (2 ^ 64 - 1) with (Z.ones 64) by reflexivity.
  rewrite Z.testbit_ones by lia. destruct (Z.leb_spec 0 i); [done|lia].
Qed.

Lemma is_u64_testbit x i : is_u64 x → 64 ≤ i → Z.testbit x i = false.
Proof.
  intros Hx Hi. rewrite <- (u64_small x Hx), u64_testbit by lia.
  by destruct (Z.ltb_spec i 64); [lia|].
Qed.

Lemma region_mask_testbit plen i :
  0 ≤ plen → 0 ≤ i →
  Z.testbit (region_mask plen) i = (64 - plen <=? i) && (i <? 64).
Proof.
  intros Hp Hi. unfold region_mask.
  destruct (Z.eqb_spec plen 0) as [->|].
  { rewrite Z.bits_0. destruct (Z.leb_spec (64 - 0) i), (Z.ltb_spec i 64); lia. }
  rewrite Z.geb_leb. destruct (Z.leb_spec 64 plen).
  { rewrite ones64_testbit by done.
    destruct (Z.leb_spec (64 - plen) i); [done|lia]. }
  rewrite u64_testbit, andb_comm by done.
  destruct (Z.leb_spec (64 - plen) i).
  - rewrite Z.shiftl_spec, ones64_testbit by lia.
    destruct (Z.ltb_spec (i - (64 - plen)) 64), (Z.ltb_spec i 64); simpl; lia.
  - rewrite Z.shiftl_spec_low by lia. done.
Qed.

Lemma region_mask_range plen : 0 ≤ plen → is_u64 (region_mask plen).
Proof.
  intros Hp. unfold region_mask, is_u64.
  destruct (plen =? 0); [lia|]. destruct (plen >=? 64); [lia|]. apply u64_range.
Qed.

Lemma region_mask_0 : region_mask 0 = 0.
Proof. done. Qed.

Lemma region_mask_64 : region_mask 64 = 2 ^ 64 - 1.
Proof. done. Qed.

(** Bits of a masked id. *)
Lemma land_mask_testbit x plen i :
  0 ≤ plen → 0 ≤ i → is_u64 x →
  Z.testbit (Z.land x (region_mask plen)) i = (64 - plen <=? i) && Z.testbit x i.
Proof.
  intros Hp Hi Hx. rewrite Z.land_spec, region_mask_testbit by done.
  destruct (Z.ltb_spec i 64); [by rewrite andb_true_r, andb_comm|].
  rewrite (is_u64_testbit x) by (done || lia). by rewrite andb_false_r.
Qed.

Lemma land_mask_range x plen : is_u64 x → 0 ≤ plen → is_u64 (Z.land x (region_mask plen)).
Proof.
  unfold is_u64. intros Hx Hp. split; [apply Z.land_nonneg; lia|].
  destruct (Z.eq_dec (Z.land x (region_mask plen)) 0) as [->|]; [lia|].
  apply Z.log2_lt_pow2; [pose proof (Z.land_nonneg x (region_mask plen)); lia|].
  eapply Z.le_lt_trans; [apply Z.log2_land; [lia|apply region_mask_range; lia]|].
  eapply Z.le_lt_trans; [apply Z.le_min_l|].
  destruct (Z.eq_dec x 0) as [->|]; [done|]. apply Z.log2_lt_pow2; lia.
Qed.

(** Masking twice keeps the narrower prefix. *)
Lemma land_mask_mask x p q :
  is_u64 x → 0 ≤ p ≤ q →
  Z.land (Z.land x (region_mask q)) (region_mask p) = Z.land x (region_mask p).
Proof.
  intros Hx Hpq. apply Z.bits_inj'. intros i Hi.
  rewrite (land_mask_testbit _ p), !land_mask_testbit
    by (done || lia || (apply land_mask_range; [done|lia])).
  destruct (Z.leb_spec (64 - p) i), (Z.leb_spec (64 - q) i); simpl; try done; lia.
Qed.

Lemma aligned_mask x plen : is_u64 x → 0 ≤ plen → aligned (Z.land x (region_mask plen)) plen.
Proof. intros Hx Hp. apply land_mask_mask; [done|lia]. Qed.

Lemma aligned_64 x : is_u64 x → aligned x 64.
Proof.
  intros Hx. apply Z.bits_inj'. intros i Hi.
  rewrite land_mask_testbit by (done || lia).
  destruct (Z.leb_spec (64 - 64) i); [done|lia].
Qed.

Lemma aligned_weaken x p q : is_u64 x → 0 ≤ p ≤ q → aligned x p → aligned x q.
Proof.
  unfold aligned. intros Hx Hpq Ha. rewrite <- Ha at 1. apply Z.bits_inj'. intros i Hi.
  rewrite Ha, land_mask_testbit by (done || lia).
  destruct (Z.leb_spec (64 - q) i); [done|]. simpl.
  rewrite <- Ha, land_mask_testbit by (done || lia).
  by destruct (Z.leb_spec (64 - p) i); [lia|].
Qed.

Lemma aligned_0 plen : aligned 0 plen.
Proof. apply Z.land_0_l. Qed.

Lemma covers_root id : covers XY_REGION_ROOT 0 id = true.
Proof. unfold covers. by rewrite region_mask_0, Z.land_0_r. Qed.

Lemma covers_self id plen : aligned id plen → covers id plen id = true.
Proof. intros ?. by apply Z.eqb_eq. Qed.

(** Two regions of one width that cover the same point are the same. *)
Lemma covers_functional a b plen id :
  covers a plen id = true → covers b plen id = true → a = b.
Proof. unfold covers. rewrite !Z.eqb_eq. congruence. Qed.

(** Containment is transitive along growing widths. *)
Lemma covers_trans a p b q id :
  is_u64 id → 0 ≤ p ≤ q →
  covers a p b = true → covers b q id = true → covers a p id = true.
Proof.
  unfold covers. rewrite !Z.eqb_eq. intros Hid Hpq Hab <-.
  by rewrite land_mask_mask in Hab.
Qed.

(** Regions that cover a common point are nested. *)
Lemma covers_nested a p b q id :
  is_u64 id → 0 ≤ p ≤ q →
  covers a p id = true → covers b q id = true → covers a p b = true.
Proof.
  unfold covers. rewrite !Z.eqb_eq. intros Hid Hpq <- <-.
  by rewrite land_mask_mask.
Qed.
