(* ===== verification/Layout.v ===== *)
(** * The layout of the context

    A module is compiled against [struct xy_ctx] (xy.h), the host fills an
    [xy_t] (papi.h), and one is written as the other.  The static assertions of
    both headers, and the descriptor exchanged at load time, rest on [sizeof]:
    the C layout of a structure as definitions, and what the assertions catch on
    the three data models of the supported targets. *)
From S2P Require Import Prelude Words.

(** ** Structures in C *)

(** The types of the members: a pointer, to data or to a function, and
    [uint64_t]. *)
Inductive c_type := C_ptr | C_uint64.
Abbreviation c_struct := (list (string * c_type)).

(** A data model: the size of a pointer, which is its alignment, and the
    alignment of [uint64_t] in a structure. *)
Record data_model := DataModel { dm_ptr : Z; dm_u64_align : Z }.
Definition LP64 : data_model := DataModel 8 8.
Definition wasm32 : data_model := DataModel 4 8.
(** The i386 psABI. *)
Definition i386 : data_model := DataModel 4 4.

Definition c_sizeof (d : data_model) (t : c_type) : Z := match t with C_ptr => dm_ptr d | C_uint64 => 8 end.
Definition c_alignof (d : data_model) (t : c_type) : Z := match t with C_ptr => dm_ptr d | C_uint64 => dm_u64_align d end.
Definition align_up (n a : Z) : Z := (n + a - 1) / a * a.

(** The members with their offsets, from [pos] on. *)
Fixpoint offsets_from (d : data_model) (pos : Z) (s : c_struct) : list (string * Z) :=
  match s with
  | [] => []
  | (x, t) :: s' => let o := align_up pos (c_alignof d t) in (x, o) :: offsets_from d (o + c_sizeof d t) s'
  end.
Fixpoint end_from (d : data_model) (pos : Z) (s : c_struct) : Z :=
  match s with
  | [] => pos
  | (_, t) :: s' => end_from d (align_up pos (c_alignof d t) + c_sizeof d t) s'
  end.
Definition struct_alignof (d : data_model) (s : c_struct) : Z := foldr (λ f a, c_alignof d f.2 `max` a) 1 s.
Definition struct_sizeof (d : data_model) (s : c_struct) : Z := align_up (end_from d 0 s) (struct_alignof d s).
Fixpoint offset_in (o : list (string * Z)) (x : string) : option Z :=
  match o with
  | [] => None
  | (y, n) :: o' => if String.eqb y x then Some n else offset_in o' x
  end.
(** [offsetof(s, x)] *)
Definition struct_offsetof (d : data_model) (s : c_struct) (x : string) : option Z := offset_in (offsets_from d 0 s) x.

(** ** The two structures *)

(** [struct xy_ctx] of xy.h *)
Definition ctx_members : c_struct :=
  [("call", C_ptr); ("areg", C_ptr); ("load", C_ptr); ("err", C_ptr); ("strerror", C_ptr); ("adapter", C_ptr);
   ("last", C_ptr); ("shutdown", C_ptr); ("module_path", C_ptr); ("region_id", C_uint64); ("deny", C_ptr);
   ("require_claim", C_ptr); ("region_each", C_ptr); ("with_region", C_ptr); ("current_region", C_ptr);
   ("current_region_plen", C_ptr); ("region_exists", C_ptr); ("claim_at", C_ptr); ("region_at", C_ptr);
   ("call_self", C_ptr); ("unload", C_ptr); ("reload", C_ptr); ("region_state", C_ptr)].

(** [xy_t] of papi.h *)
Definition xy_t_members : c_struct :=
  [("call", C_ptr); ("areg", C_ptr); ("load", C_ptr); ("err", C_ptr); ("strerror", C_ptr); ("adapter", C_ptr);
   ("last", C_ptr); ("shutdown", C_ptr); ("module_path", C_ptr); ("region_id", C_uint64); ("deny", C_ptr);
   ("require_claim", C_ptr); ("region_each", C_ptr); ("with_region", C_ptr); ("current_region", C_ptr);
   ("current_region_plen", C_ptr); ("region_exists", C_ptr); ("claim_at", C_ptr); ("region_at", C_ptr);
   ("call_self", C_ptr); ("unload", C_ptr); ("reload", C_ptr); ("region_state", C_ptr)].

(** [XY_CTX_SIZE] by data model: one value for the models with 32-bit pointers. *)
Definition ctx_size (d : data_model) : Z := if dm_ptr d =? 4 then 104 else XY_CTX_SIZE.

(** The assertion of xy.h on a structure of these members. *)
Definition ctx_assert (d : data_model) (s : c_struct) : bool := struct_sizeof d s =? ctx_size d.
(** The assertions of papi.h on the host's structure and the module's. *)
Definition mirror_assert (d : data_model) (host ctx : c_struct) : bool :=
  (struct_sizeof d host =? struct_sizeof d ctx) &&
  bool_decide (struct_offsetof d host "region_state" = struct_offsetof d ctx "region_state") &&
  bool_decide (struct_offsetof d host "current_region_plen" = struct_offsetof d ctx "current_region_plen").

(** What [xy_ctx_abi] answers in a build with that size. *)
Definition ctx_descriptor (size : Z) : Z := Z.lor (u64 (Z.shiftl XY_CTX_ABI_VER 32)) (u32 size).

(** ** What the assertions catch *)

(** A member more, between two others or at an end; a member less. *)
Definition with_member (i : nat) (f : string * c_type) (s : c_struct) : c_struct := take i s ++ f :: drop i s.
Definition without_member (i : nat) (s : c_struct) : c_struct := take i s ++ drop (S i) s.

Lemma align_up_mult n a : 0 < a → (n `mod` a = 0) → align_up n a = n.
Proof.
  intros Ha Hn. unfold align_up. apply Z.mod_divide in Hn as [k ->]; [|lia].
  replace (k * a + a - 1) with (a - 1 + k * a) by lia. rewrite Z.div_add by lia. rewrite Z.div_small by lia. lia.
Qed.

(** On LP64 every member takes eight bytes, aligned by eight. *)
Lemma end_from_LP64 s pos : pos `mod` 8 = 0 → end_from LP64 pos s = pos + 8 * Z.of_nat (length s).
Proof.
  revert pos. induction s as [|[x t] s IH]; intros pos Hpos; [simpl; lia|].
  assert (Ht : c_alignof LP64 t = 8 ∧ c_sizeof LP64 t = 8) by (by destruct t). destruct Ht as [Ha Hs].
  cbn [end_from]. rewrite Ha, Hs, align_up_mult by lia. rewrite IH; [simpl length; lia|].
  rewrite <- Z.add_mod_idemp_l, Hpos by lia. done.
Qed.
Lemma struct_alignof_LP64 s : s ≠ [] → struct_alignof LP64 s = 8.
Proof.
  assert (Hle : ∀ s, struct_alignof LP64 s ≤ 8).
  { induction s0 as [|[y u] s0 IH]; [done|]. cbn. destruct u; cbn; unfold struct_alignof in IH; lia. }
  destruct s as [|[x t] s]; [done|]. intros _. specialize (Hle s). unfold struct_alignof in *. cbn. destruct t; cbn; lia.
Qed.
Lemma struct_sizeof_LP64 s : struct_sizeof LP64 s = 8 * Z.of_nat (length s).
Proof.
  unfold struct_sizeof. rewrite end_from_LP64 by done. destruct s as [|f s]; [done|].
  rewrite struct_alignof_LP64 by done. rewrite align_up_mult; [lia|lia|].
  rewrite Z.add_0_l, Z.mul_comm. by apply Z.mod_mul.
Qed.

(** C39. The host's structure is the module's, member by member, so the
    assertions of both headers hold on LP64 and on wasm32, and every member is at
    the same offset on both sides. On LP64 the assertion on the size fails for
    any structure with one member more or one less, wherever it is. On wasm32 it
    does not: a pointer more, anywhere, hides in the padding. On i386, where
    [uint64_t] is aligned by four, neither size is right. *)
Theorem ctx_layout_tripwire :
  (∀ d, xy_t_members = ctx_members ∧ mirror_assert d xy_t_members ctx_members = true) ∧
  ctx_assert LP64 ctx_members = true ∧ ctx_assert wasm32 ctx_members = true ∧
  (∀ i f, (i ≤ length ctx_members)%nat → ctx_assert LP64 (with_member i f ctx_members) = false) ∧
  (∀ i, (i < length ctx_members)%nat → ctx_assert LP64 (without_member i ctx_members) = false) ∧
  (∀ i x, (i ≤ length ctx_members)%nat → ctx_assert wasm32 (with_member i (x, C_ptr) ctx_members) = true) ∧
  struct_sizeof i386 ctx_members = 96.
Proof.
  assert (H64 : ∀ s, length s ≠ 23%nat → ctx_assert LP64 s = false).
  { intros s Hs. unfold ctx_assert. rewrite struct_sizeof_LP64. apply Z.eqb_neq. unfold ctx_size; simpl. unfold XY_CTX_SIZE. lia. }
  split_and!.
  - intros d. split; [done|]. unfold mirror_assert. change xy_t_members with ctx_members.
    by rewrite Z.eqb_refl, !bool_decide_eq_true_2.
  - by vm_compute.
  - by vm_compute.
  - intros i f Hi. apply H64. unfold with_member. rewrite length_app, length_take. cbn [length]. rewrite length_drop.
    change (length ctx_members) with 23%nat in *. lia.
  - intros i Hi. apply H64. unfold without_member. rewrite length_app, length_take, length_drop.
    change (length ctx_members) with 23%nat in *. lia.
  - intros i x Hi. change (length ctx_members) with 23%nat in Hi.
    do 24 (destruct i as [|i]; [vm_compute; reflexivity|]). lia.
  - by vm_compute.
Qed.

(** A build with another size has another descriptor. *)
Lemma ctx_descriptor_size size :
  0 ≤ size < 2 ^ 32 → ctx_descriptor size = XY_CTX_ABI_DESC ↔ size = XY_CTX_SIZE.
Proof.
  intros Hs. unfold XY_CTX_ABI_DESC. fold (ctx_descriptor XY_CTX_SIZE). split; [|by intros ->].
  intros H. apply (f_equal (λ x, Z.land x (Z.ones 32))) in H. unfold ctx_descriptor in H.
  rewrite !Z.land_lor_distr_l in H. rewrite !Z.land_ones in H by done.
  change (u64 (Z.shiftl XY_CTX_ABI_VER 32) mod 2 ^ 32) with 0 in H. rewrite !Z.lor_0_l in H.
  unfold u32 in H. rewrite !Z.mod_mod in H by done. rewrite !Z.mod_small in H by done. done.
Qed.
