(* ===== verification/Napi.v ===== *)
(** * The Node.js addon

    src/npm/native/xylem_napi.c: a table of at most 128 hook names that
    JavaScript fills and searches.  It includes xy.h and calls nothing of it.
    Node's side is the class [Napi]. *)
From Stdlib Require Import Ascii.
From S2P Require Import Prelude Words.

(** [napi_get_value_string_utf8(env, value, buf, size, &len)]: the bytes it puts
    into [buf] before the terminator, [None] for a value that is no string.  It
    is documented to write at most [size] bytes with the terminator. *)
Class Napi := {
  napi_value : Type;
  napi_undefined : napi_value;
  napi_get_value_string_utf8 : napi_value → nat → option string
}.
Class NapiLaws (N : Napi) : Prop := {
  napi_string_fits v size s : napi_get_value_string_utf8 v size = Some s → (S (String.length s) ≤ size)%nat;
  napi_undefined_no_string size : napi_get_value_string_utf8 napi_undefined size = None
}.

(** [XylemHookEntry] *)
Record napi_hook := NapiHook { nh_name : string; nh_hook_id : Z }.
Definition MAX_NAPI_HOOKS : nat := 128.
(** [sizeof(g_napi_hooks[id].name)] and [sizeof(name_buf)] *)
Definition NAPI_NAME_SIZE : nat := 64.

(** [g_napi_hooks]; its length is [g_napi_hook_count]. *)
Definition napi_table : Type := list napi_hook.

(** What a function hands to JavaScript: a number, a string, or an exception. *)
Inductive napi_result := Napi_uint32 (n : Z) | Napi_int32 (n : Z) | Napi_string (s : string) | Napi_throw (msg : string).

Section addon.
Context {N : Napi}.

(** A string as C reads it: up to the first zero byte. *)
Fixpoint c_string (s : string) : string :=
  match s with
  | EmptyString => EmptyString
  | String c s' => if Ascii.eqb c "000"%char then EmptyString else String c (c_string s')
  end.

(** [napi_get_cb_info] with room for the arguments a function reads: those
    that were not passed are undefined. *)
Definition cb_arg (args : list napi_value) (i : nat) : napi_value := default napi_undefined (args !! i).

(** [name_buf], zeroed before the value's bytes go in. *)
Definition read_name (v : napi_value) : string :=
  c_string (default EmptyString (napi_get_value_string_utf8 v (NAPI_NAME_SIZE - 1))).

(** [strncpy(dst, src, n)] into a zeroed array of more than [n] bytes. *)
Definition strncpy_name (src : string) (n : nat) : string := String.substring 0 n src.

(** [XylemRegisterHook] *)
Definition XylemRegisterHook (args : list napi_value) (t : napi_table) : napi_result * napi_table :=
  let name := read_name (cb_arg args 0) in
  if decide (MAX_NAPI_HOOKS ≤ length t)%nat then (Napi_throw "Xylem hook table full", t)
  else
    let id := u32 (Z.of_nat (length t)) in
    (Napi_uint32 id, t ++ [NapiHook (strncpy_name name (NAPI_NAME_SIZE - 1)) id]).

(** The loop of [XylemCallHook]. *)
Fixpoint napi_find (t : napi_table) (name : string) : option Z :=
  match t with
  | [] => None
  | h :: t' => if String.eqb (nh_name h) name then Some (nh_hook_id h) else napi_find t' name
  end.

(** [(int)x] of a [uint32_t] *)
Definition s32 (x : Z) : Z := if x <? 2 ^ 31 then x else x - 2 ^ 32.

(** [XylemCallHook] *)
Definition XylemCallHook (args : list napi_value) (t : napi_table) : napi_result * napi_table :=
  let name := read_name (cb_arg args 0) in
  (Napi_int32 (match napi_find t name with Some id => s32 id | None => -1 end), t).

(** [XylemVersion] *)
Definition XylemVersion (args : list napi_value) (t : napi_table) : napi_result * napi_table :=
  (Napi_string "0.1.0", t).

(** [Init]: the functions by the names JavaScript knows them under. *)
Definition Init (name : string) : option (list napi_value → napi_table → napi_result * napi_table) :=
  if String.eqb name "registerHook" then Some XylemRegisterHook
  else if String.eqb name "callHook" then Some XylemCallHook
  else if String.eqb name "version" then Some XylemVersion
  else None.

(** A script: calls of those functions one after the other. *)
Fixpoint napi_run (calls : list (string * list napi_value)) (t : napi_table) : list napi_result * napi_table :=
  match calls with
  | [] => ([], t)
  | (f, args) :: calls' =>
      match Init f with
      | None => let '(rs, t') := napi_run calls' t in (Napi_throw "not a function" :: rs, t')
      | Some g => let '(r, t1) := g args t in let '(rs, t2) := napi_run calls' t1 in (r :: rs, t2)
      end
  end.

(** ** What a script finds *)

(** The names a script has registered, in order, while there was room. *)
Definition registered (calls : list (string * list napi_value)) : list string :=
  take MAX_NAPI_HOOKS (omap (λ c, if String.eqb c.1 "registerHook" then Some (read_name (cb_arg c.2 0)) else None) calls).

(** The table that holds [names]. *)
Definition table_of (names : list string) : napi_table := imap (λ i x, NapiHook x (Z.of_nat i)) names.

Context {NL : NapiLaws N}.

Lemma c_string_length s : (String.length (c_string s) ≤ String.length s)%nat.
Proof. induction s as [|c s IH]; simpl; [lia|]. destruct (Ascii.eqb _ _); simpl; lia. Qed.

(** A name that was read fits the entry: nothing is cut a second time. *)
Lemma read_name_length v : (String.length (read_name v) < NAPI_NAME_SIZE - 1)%nat.
Proof.
  unfold read_name. pose proof (c_string_length (default EmptyString (napi_get_value_string_utf8 v (NAPI_NAME_SIZE - 1)))) as H.
  destruct (napi_get_value_string_utf8 v (NAPI_NAME_SIZE - 1)) as [s|] eqn:Hs; simpl in *; [|unfold NAPI_NAME_SIZE; lia].
  apply napi_string_fits in Hs. unfold NAPI_NAME_SIZE in *. lia.
Qed.

Definition wanted (c : string * list napi_value) : option string :=
  if String.eqb c.1 "registerHook" then Some (read_name (cb_arg c.2 0)) else None.

(** What a call answers when [names] are registered. *)
Definition answer (names : list string) (f : string) (args : list napi_value) : napi_result :=
  if String.eqb f "registerHook" then
    if decide (length names < MAX_NAPI_HOOKS)%nat then Napi_uint32 (Z.of_nat (length names))
    else Napi_throw "Xylem hook table full"
  else if String.eqb f "callHook" then
    Napi_int32 (match list_find (λ x, x = read_name (cb_arg args 0)) names with Some (i, _) => Z.of_nat i | None => -1 end)
  else if String.eqb f "version" then Napi_string "0.1.0"
  else Napi_throw "not a function".

Lemma table_of_app names x : table_of (names ++ [x]) = table_of names ++ [NapiHook x (Z.of_nat (length names))].
Proof. unfold table_of. rewrite imap_app. simpl. by rewrite Nat.add_0_r. Qed.
Lemma table_of_length names : length (table_of names) = length names.
Proof. apply length_imap. Qed.

Lemma napi_find_from names x k :
  napi_find (imap (λ i y, NapiHook y (Z.of_nat (k + i))) names) x =
    (λ p, Z.of_nat (k + p.1)) <$> list_find (λ y, y = x) names.
Proof.
  revert k. induction names as [|y names IH]; intros k; [done|]. rewrite imap_cons. cbn [napi_find nh_name nh_hook_id list_find].
  destruct (String.eqb_spec y x) as [->|Hne].
  - by rewrite decide_True.
  - rewrite decide_False by done. specialize (IH (S k)).
    rewrite (imap_ext _ (λ i y, NapiHook y (Z.of_nat (S k + i)))) by (intros; simpl; do 2 f_equal; lia). rewrite IH.
    rewrite <- option_fmap_compose. apply option_fmap_ext. intros [i z]. simpl. lia.
Qed.
Lemma napi_find_table names x : napi_find (table_of names) x = (λ p, Z.of_nat p.1) <$> list_find (λ y, y = x) names.
Proof. apply (napi_find_from names x 0). Qed.

Lemma s32_small i : (i < 128)%nat → s32 (Z.of_nat i) = Z.of_nat i.
Proof. intros Hi. unfold s32. destruct (Z.ltb_spec (Z.of_nat i) (2 ^ 31)); [done|lia]. Qed.

(** One call. *)
Lemma napi_step names f args :
  (length names ≤ MAX_NAPI_HOOKS)%nat →
  match Init f with
  | Some g => g args (table_of names) = (answer names f args, table_of (take MAX_NAPI_HOOKS (names ++ option_list (wanted (f, args)))))
  | None => answer names f args = Napi_throw "not a function" ∧ wanted (f, args) = None
  end.
Proof.
  intros Hlen. unfold Init, answer, wanted. cbn [fst snd].
  destruct (String.eqb_spec f "registerHook") as [->|H1].
  - unfold XylemRegisterHook. rewrite table_of_length. unfold option_list; cbn [option_rect]. case_decide; case_decide; try lia.
    + rewrite take_app_length' by lia. done.
    + rewrite take_ge by (rewrite length_app; simpl; lia). rewrite table_of_app.
      assert (u32 (Z.of_nat (length names)) = Z.of_nat (length names)) as ->.
      { unfold u32, MAX_NAPI_HOOKS in *. apply Z.mod_small. lia. }
      unfold strncpy_name. rewrite substring_short; [done|]. pose proof (read_name_length (cb_arg args 0)). lia.
  - assert (Hnil : table_of (take MAX_NAPI_HOOKS (names ++ [])) = table_of names) by (by rewrite app_nil_r, take_ge).
    destruct (String.eqb_spec f "callHook") as [->|H2].
    + unfold XylemCallHook. unfold option_list; cbn [option_rect]. rewrite Hnil, napi_find_table. f_equal. f_equal.
      destruct (list_find _ names) as [[i y]|] eqn:Hf; [|done]. simpl. apply s32_small.
      apply list_find_Some in Hf as (Hi & _). apply lookup_lt_Some in Hi. unfold MAX_NAPI_HOOKS in Hlen. lia.
    + destruct (String.eqb_spec f "version") as [->|H3]; unfold option_list; cbn [option_rect]; [by rewrite Hnil|done].
Qed.

Lemma napi_run_from calls : ∀ names,
  (length names ≤ MAX_NAPI_HOOKS)%nat →
  (napi_run calls (table_of names)).2 = table_of (take MAX_NAPI_HOOKS (names ++ omap wanted calls)) ∧
  length (napi_run calls (table_of names)).1 = length calls ∧
  ∀ k f args, calls !! k = Some (f, args) →
    (napi_run calls (table_of names)).1 !! k =
      Some (answer (take MAX_NAPI_HOOKS (names ++ omap wanted (take k calls))) f args).
Proof.
  induction calls as [|[f args] calls IH]; intros names Hlen.
  { simpl. rewrite app_nil_r, take_ge by done. split_and!; [done|done|]. intros k f args Hk. by rewrite lookup_nil in Hk. }
  set (names1 := take MAX_NAPI_HOOKS (names ++ option_list (wanted (f, args)))).
  assert (Hnext : ∀ l, take MAX_NAPI_HOOKS (names1 ++ l) = take MAX_NAPI_HOOKS (names ++ option_list (wanted (f, args)) ++ l)).
  { intros l. unfold names1. rewrite (app_assoc names). destruct (decide (length (names ++ option_list (wanted (f, args))) ≤ MAX_NAPI_HOOKS)%nat).
    - by rewrite (take_ge (names ++ _)).
    - rewrite (take_app_le (take _ _)) by (rewrite length_take; lia). rewrite (take_app_le (names ++ _)) by lia.
      rewrite take_take. by rewrite Nat.min_id. }
  assert (Hone : omap wanted ((f, args) :: calls) = option_list (wanted (f, args)) ++ omap wanted calls).
  { cbn [omap list_omap]. by destruct (wanted (f, args)). }
  pose proof (napi_step names f args Hlen) as Hstep. fold names1 in Hstep.
  assert (Hlen1 : (length names1 ≤ MAX_NAPI_HOOKS)%nat) by (unfold names1; rewrite length_take; lia).
  destruct (IH names1 Hlen1) as (IH1 & IHl & IH2).
  assert (Hrun : napi_run ((f, args) :: calls) (table_of names) =
    (answer names f args :: (napi_run calls (table_of names1)).1, (napi_run calls (table_of names1)).2)).
  { cbn [napi_run]. destruct (Init f) as [g|].
    - rewrite Hstep. by destruct (napi_run calls _).
    - destruct Hstep as [-> Hw]. unfold names1. rewrite Hw. unfold option_list; cbn [option_rect]. rewrite app_nil_r, take_ge by done.
      destruct (napi_run calls (table_of names)) as [rs t1]. reflexivity. }
  rewrite Hrun. cbn [fst snd]. split_and!.
  - rewrite IH1, Hnext. by rewrite Hone.
  - simpl. by rewrite IHl.
  - intros [|k] f' args' Hk.
    + injection Hk as <- <-. simpl. by rewrite app_nil_r, take_ge.
    + change (calls !! k = Some (f', args')) in Hk. etransitivity; [exact (IH2 k f' args' Hk)|]. rewrite Hnext.
      assert (Hk1 : omap wanted (take (S k) ((f, args) :: calls)) = option_list (wanted (f, args)) ++ omap wanted (take k calls)).
      { cbn [take]. cbn [omap list_omap]. by destruct (wanted (f, args)). }
      by rewrite Hk1.
Qed.

(** C40. Whatever a script calls, and in whatever order: a name that is
    registered gets the next id from 0 on, the 129th is refused with an
    exception and changes nothing; a search answers the id of the first
    registration of a name that reads the same, or -1; the table holds at most
    128 entries, each under the whole name that was read. *)
Theorem napi_script (calls : list (string * list napi_value)) :
  let '(results, t) := napi_run calls [] in
  t = table_of (registered calls) ∧ (length t ≤ MAX_NAPI_HOOKS)%nat ∧ length results = length calls ∧
  ∀ k f args, calls !! k = Some (f, args) → results !! k = Some (answer (registered (take k calls)) f args).
Proof.
  destruct (napi_run_from calls [] ltac:(simpl; lia)) as (Ht & Hl & Hr). change (table_of []) with ([] : napi_table) in *.
  destruct (napi_run calls []) as [results t]. cbn [fst snd] in *. split_and!; [exact Ht| |exact Hl|exact Hr].
  rewrite Ht, table_of_length, length_take. lia.
Qed.
End addon.

(** A Node whose values are its strings: it copies as much as fits. *)
#[local] Instance string_napi : Napi := {|
  napi_value := option string;
  napi_undefined := None;
  napi_get_value_string_utf8 v size := match size with O => None | S n => String.substring 0 n <$> v end
|}.
#[local] Instance string_napi_laws : NapiLaws string_napi.
Proof.
  split; [|by intros [|n]]. intros [v|] [|n] s; simpl; [done| |done|done]. injection 1 as <-.
  pose proof (substring_length n v). lia.
Qed.

Lemma napi_script_witness :
  let script := [("registerHook", [Some "on_a"]); ("registerHook", [Some "on_b"]); ("registerHook", [Some "on_a"]);
                 ("callHook", [Some "on_a"]); ("callHook", [Some "on_c"]); ("callHook", [])] in
  let '(results, t) := napi_run (N := string_napi) script [] in
  t = table_of (registered (N := string_napi) script) ∧ (length t ≤ MAX_NAPI_HOOKS)%nat ∧ length results = length script ∧
  ∀ k f args, script !! k = Some (f, args) →
    results !! k = Some (answer (N := string_napi) (registered (N := string_napi) (take k script)) f args).
Proof. intros script. exact (napi_script (N := string_napi) script). Defined.
(** Two names that differ after 62 bytes are one hook; a name registered twice
    has two entries, of which only the first is ever found. *)
Example napi_long_names :
  let long c := String.append "a23456789012345678901234567890123456789012345678901234567890ab" c in
  (napi_run (N := string_napi) [("registerHook", [Some (long "x")]); ("registerHook", [Some (long "y")]); ("callHook", [Some (long "y")])] []).1 =
    [Napi_uint32 0; Napi_uint32 1; Napi_int32 0].
Proof. by vm_compute. Qed.
