(* ===== verification/Corm.v ===== *)
(** * The table interface

    libxylem keeps its tables in libcorm, which is not part of this
    repository.  [Corm] is the set of operations the code calls, [CormLaws] the
    behaviour it relies on: a [put] is found by [get] and hides nothing else, a
    [del] removes one key, an iteration lists every entry once.  Keys are
    compared bytewise, i.e. by equality.  The client files are written against
    the class; [gmap_corm] is an instance, so that the model also runs. *)
From S2P Require Import Prelude.

Class Corm : Type := {
  (** a table opened without flags *)
  corm (K : Type) `{Countable K} (V : Type) : Type;
  corm_empty {K} `{Countable K} {V} : corm K V;
  corm_get {K} `{Countable K} {V} : corm K V → K → option V;
  corm_put {K} `{Countable K} {V} : corm K V → K → V → corm K V;
  corm_del {K} `{Countable K} {V} : corm K V → K → corm K V;
  (** [corm_iter(hd, NULL, 0)], drained with [corm_next] *)
  corm_list {K} `{Countable K} {V} : corm K V → list (K * V);

  (** a table opened with [CM_MULTIVALUE] *)
  mcorm (K : Type) `{Countable K} (V : Type) : Type;
  mcorm_empty {K} `{Countable K} {V} : mcorm K V;
  mcorm_put {K} `{Countable K} {V} : mcorm K V → K → V → mcorm K V;
  mcorm_del {K} `{Countable K} {V} : mcorm K V → K → mcorm K V;
  mcorm_del_all {K} `{Countable K} {V} : mcorm K V → K → mcorm K V;
  (** [corm_iter(hd, &key, 0)], drained with [corm_next] *)
  mcorm_vals {K} `{Countable K} {V} : mcorm K V → K → list V
}.

Class CormLaws (C : Corm) : Prop := {
  corm_get_empty {K} `{Countable K} {V} (k : K) :
    corm_get (V:=V) corm_empty k = None;
  corm_get_put {K} `{Countable K} {V} (t : corm K V) k v :
    corm_get (corm_put t k v) k = Some v;
  corm_get_put_ne {K} `{Countable K} {V} (t : corm K V) k k' v :
    k ≠ k' → corm_get (corm_put t k v) k' = corm_get t k';
  corm_get_del {K} `{Countable K} {V} (t : corm K V) k :
    corm_get (corm_del t k) k = None;
  corm_get_del_ne {K} `{Countable K} {V} (t : corm K V) k k' :
    k ≠ k' → corm_get (corm_del t k) k' = corm_get t k';
  corm_list_spec {K} `{Countable K} {V} (t : corm K V) k v :
    (k, v) ∈ corm_list t ↔ corm_get t k = Some v;
  corm_list_NoDup {K} `{Countable K} {V} (t : corm K V) :
    NoDup (corm_list t);

  mcorm_vals_put {K} `{Countable K} {V} (t : mcorm K V) k v :
    mcorm_vals (mcorm_put t k v) k ≡ₚ v :: mcorm_vals t k;
  mcorm_vals_put_ne {K} `{Countable K} {V} (t : mcorm K V) k k' v :
    k ≠ k' → mcorm_vals (mcorm_put t k v) k' = mcorm_vals t k';
  mcorm_vals_del_all {K} `{Countable K} {V} (t : mcorm K V) k :
    mcorm_vals (mcorm_del_all t k) k = [];
  mcorm_vals_del_all_ne {K} `{Countable K} {V} (t : mcorm K V) k k' :
    k ≠ k' → mcorm_vals (mcorm_del_all t k) k' = mcorm_vals t k';
  mcorm_vals_del_ne {K} `{Countable K} {V} (t : mcorm K V) k k' :
    k ≠ k' → mcorm_vals (mcorm_del t k) k' = mcorm_vals t k'
}.


Lemma corm_get_put_dec {C : Corm} {CL : CormLaws C} {K} `{Countable K} {V} (t : corm K V) k k' v :
  corm_get (corm_put t k v) k' = if decide (k = k') then Some v else corm_get t k'.
Proof.
  case_decide as Hk; [subst; apply corm_get_put|by apply corm_get_put_ne].
Qed.

(** ** An instance *)

#[export] Instance gmap_corm : Corm := {
  corm K _ _ V := gmap K V;
  corm_empty K _ _ V := ∅;
  corm_get K _ _ V t k := t !! k;
  corm_put K _ _ V t k v := <[k := v]> t;
  corm_del K _ _ V t k := delete k t;
  corm_list K _ _ V t := map_to_list t;
  mcorm K _ _ V := gmap K (list V);
  mcorm_empty K _ _ V := ∅;
  mcorm_put K _ _ V t k v := <[k := v :: default [] (t !! k)]> t;
  mcorm_del K _ _ V t k := <[k := tail (default [] (t !! k))]> t;
  mcorm_del_all K _ _ V t k := delete k t;
  mcorm_vals K _ _ V t k := default [] (t !! k)
}.

#[export] Instance gmap_corm_laws : CormLaws gmap_corm.
Proof.
  split; intros; simpl.
  - apply lookup_empty.
  - apply lookup_insert_eq.
  - by apply lookup_insert_ne.
  - apply lookup_delete_eq.
  - by apply lookup_delete_ne.
  - apply elem_of_map_to_list.
  - apply NoDup_map_to_list.
  - by rewrite lookup_insert_eq.
  - by rewrite lookup_insert_ne.
  - by rewrite lookup_delete_eq.
  - by rewrite lookup_delete_ne.
  - by rewrite lookup_insert_ne.
Qed.
