(* ===== verification/State.v ===== *)
(** * Program state

    The data of src/papi.h and src/libxylem-internal.h as records, the heap the
    program links them in, its globals and thread-locals, and the primitive
    accesses the other files are written with.  A pointer is a [positive];
    [None] is NULL; an address is never handed out twice, so a freed cell stays
    absent and touching it crashes. *)
From S2P Require Import Prelude Words Corm.

Abbreviation rptr := positive (only parsing).   (* xy_region_entry_t * *)
Abbreviation mptr := positive (only parsing).   (* xy_mod_entry_t * *)
Abbreviation cptr := positive (only parsing).   (* xy_t *, a module's own context *)
Abbreviation aptr := positive (only parsing).   (* xy_adapter_t * *)
Abbreviation sptr := positive (only parsing).   (* xy_dispatch_slot_t *, an array *)
Abbreviation pptr := positive (only parsing).   (* an interned path *)
Abbreviation bptr := positive (only parsing).   (* a caller's return buffer *)
Abbreviation stptr := positive (only parsing).  (* a module's region state *)
Abbreviation addr := positive (only parsing).   (* a code or data symbol *)
Abbreviation handle := positive (only parsing). (* a dlopen handle *)
Abbreviation ud := Z (only parsing).            (* an opaque void * *)
Abbreviation region_key := (Z * Z)%type (only parsing). (* xy_region_key_t *)

(** ** Dispatch caches *)

(** One cell of [fn_cache]: not resolved yet, [XY_FN_NOT_FOUND], or resolved. *)
Inductive fn_slot :=
  | FnNull
  | FnNotFound
  | FnPtr (a : addr).

(** [xy_dispatch_slot_t] *)
Record dispatch_slot := DispatchSlot {
  ds_me : option mptr;
  ds_cb : fn_slot
}.

(** [xy_hook_dispatch_cache_t] *)
Record hook_dispatch_cache := HookDispatchCache {
  hc_slots : option sptr;
  hc_count : nat;
  hc_cap : nat;
  hc_region_gen : Z
}.
#[export] Instance hook_dispatch_cache_eta : Eta hook_dispatch_cache := {| eta_expand := λ c,
  HookDispatchCache (hc_slots c) (hc_count c) (hc_cap c) (hc_region_gen c) |}.

(** [XY_SUBTREE_HAS_DENY] and the mask the dispatcher tests. *)
Definition XY_SUBTREE_HAS_DENY : Z := 1.
Definition XY_SUBTREE_SECURITY_MASK : Z := XY_SUBTREE_HAS_DENY.

(** ** Regions and modules *)

Section records.
Context {C : Corm}.

(** [xy_region_entry_t].  The deny lists own their cells, so they are lists;
    children and modules are linked through the entries themselves.
    [subtree_mods_count] is the length of [re_subtree_mods], the capacity of
    [hook_dispatch] the length of [re_hook_dispatch]. *)
Record region_entry := RegionEntry {
  re_id : Z;
  re_depth : Z;
  re_plen : Z;
  re_child_bits : Z;
  re_owner_path : option string;
  re_denied_hooks : list string;
  re_denied_modules : list pptr;
  re_denied_hooks_set : option (corm string unit);
  re_denied_modules_set : option (corm pptr unit);
  re_subtree_flags : Z;
  re_dispatch_gen : Z;
  re_claim_handler : option addr;
  re_claim_handler_ud : ud;
  re_require_claim : bool;
  re_parent : option rptr;
  re_children_head : option rptr;
  re_sibling_next : option rptr;
  re_mods_head : option mptr;
  re_mods_tail : option mptr;
  re_subtree_mods : list mptr;
  re_subtree_mods_cap : nat;
  re_subtree_mods_dirty : bool;
  re_hook_dispatch : list hook_dispatch_cache
}.

(** [calloc(1, sizeof(xy_region_entry_t))] *)
Definition region_entry_zero : region_entry :=
  RegionEntry 0 0 0 0 None [] [] None None 0 0 None 0 false None None None
    None None [] 0 false [].

(** [xy_mod_entry_t] *)
Record mod_entry := ModEntry {
  me_ctx : option cptr;
  me_region_next : option mptr;
  me_fn_cache : list fn_slot;
  me_region_state : option stptr;
  me_load_path : option pptr;
  me_handle : option handle;
  me_region_entry : option rptr;
  me_region_id : Z;
  me_region_plen : Z;
  me_region_prev : option mptr;
  me_refcount : Z;
  me_parent_entry : option mptr;
  me_hook_impl_bits : list Z;
  me_mod_key : string;
  me_tmp_load_path : option string
}.

(** [calloc(1, sizeof(xy_mod_entry_t))] *)
Definition mod_entry_zero : mod_entry :=
  ModEntry None None [] None None None None 0 0 None 0 None [] "" None.
End records.

#[export] Instance region_entry_eta {C : Corm} : Eta region_entry := {| eta_expand := λ e,
  RegionEntry (re_id e) (re_depth e) (re_plen e) (re_child_bits e)
    (re_owner_path e) (re_denied_hooks e) (re_denied_modules e)
    (re_denied_hooks_set e) (re_denied_modules_set e) (re_subtree_flags e)
    (re_dispatch_gen e) (re_claim_handler e) (re_claim_handler_ud e)
    (re_require_claim e) (re_parent e) (re_children_head e)
    (re_sibling_next e) (re_mods_head e) (re_mods_tail e) (re_subtree_mods e)
    (re_subtree_mods_cap e) (re_subtree_mods_dirty e) (re_hook_dispatch e) |}.

#[export] Instance mod_entry_eta : Eta mod_entry := {| eta_expand := λ m,
  ModEntry (me_ctx m) (me_region_next m) (me_fn_cache m) (me_region_state m)
    (me_load_path m) (me_handle m) (me_region_entry m) (me_region_id m)
    (me_region_plen m) (me_region_prev m) (me_refcount m)
    (me_parent_entry m) (me_hook_impl_bits m) (me_mod_key m)
    (me_tmp_load_path m) |}.

(** ** Contexts and adapters *)

(** The host functions a context points to. *)
Inductive api_fn :=
  | Fn_call | Fn_areg | Fn_load | Fn_errno | Fn_strerror | Fn_last
  | Fn_shutdown | Fn_deny | Fn_require_claim | Fn_region_each
  | Fn_with_region | Fn_current_region | Fn_current_region_plen
  | Fn_region_exists | Fn_claim_at | Fn_region_at | Fn_call_self
  | Fn_unload | Fn_reload.

(** [xy_t], i.e. [struct xy_ctx] *)
Record xy_ctx := XyCtx {
  x_call : option api_fn;
  x_areg : option api_fn;
  x_load : option api_fn;
  x_err : option api_fn;
  x_strerror : option api_fn;
  x_adapter : option aptr;
  x_last : option api_fn;
  x_shutdown : option api_fn;
  x_module_path : option string;
  x_region_id : Z;
  x_deny : option api_fn;
  x_require_claim : option api_fn;
  x_region_each : option api_fn;
  x_with_region : option api_fn;
  x_current_region : option api_fn;
  x_current_region_plen : option api_fn;
  x_region_exists : option api_fn;
  x_claim_at : option api_fn;
  x_region_at : option api_fn;
  x_call_self : option api_fn;
  x_unload : option api_fn;
  x_reload : option api_fn;
  x_region_state : option stptr
}.
#[export] Instance xy_ctx_eta : Eta xy_ctx := {| eta_expand := λ x,
  XyCtx (x_call x) (x_areg x) (x_load x) (x_err x) (x_strerror x)
    (x_adapter x) (x_last x) (x_shutdown x) (x_module_path x) (x_region_id x)
    (x_deny x) (x_require_claim x) (x_region_each x) (x_with_region x)
    (x_current_region x) (x_current_region_plen x) (x_region_exists x)
    (x_claim_at x) (x_region_at x) (x_call_self x) (x_unload x) (x_reload x)
    (x_region_state x) |}.

(** [memset(&xy, 0, sizeof(xy))], and a static [struct xy_ctx] *)
Definition xy_ctx_zero : xy_ctx :=
  XyCtx None None None None None None None None None 0 None None None None
    None None None None None None None None None.

(** The function an [XY_DEF] or [XY_IMPL] adapter points to.  The two macros
    differ only when they are called with a NULL listener: [XY_IMPL]'s falls
    back to the listener it was expanded with. *)
Record adapter_fn := AdapterFn {
  af_ret_size : Z;
  af_self : option addr
}.

(** [xy_adapter_t], without the [ret] and [ran] members no code reads *)
Record adapter := Adapter {
  ad_name : string;
  ad_arg_size : Z;
  ad_ret_size : Z;
  ad_call : option adapter_fn;
  ad_hook_id : Z
}.
#[export] Instance adapter_eta : Eta adapter := {| eta_expand := λ a,
  Adapter (ad_name a) (ad_arg_size a) (ad_ret_size a) (ad_call a) (ad_hook_id a) |}.

(** ** Globals *)

(** What [xy_last_retp] points to: a caller's buffer or [xy_last_retbuf]. *)
Inductive ret_loc :=
  | RetNull
  | RetBuf (b : bptr)
  | RetTls.

(** The [__thread] variables *)
Record tls := Tls {
  t_last_ran : Z;
  t_last_retbuf : list Z;
  t_last_retp : ret_loc;
  t_current_region_id : Z;
  t_current_region_entry : option rptr;
  t_loading_mod : option mptr;
  t_pending_ctx : option cptr
}.
#[export] Instance tls_eta : Eta tls := {| eta_expand := λ t,
  Tls (t_last_ran t) (t_last_retbuf t) (t_last_retp t)
    (t_current_region_id t) (t_current_region_entry t) (t_loading_mod t)
    (t_pending_ctx t) |}.

(** What the library did to the outside, oldest first; a listener's event has
    the region that is current in it, its id and its entry. *)
Inductive event :=
  | EvHook (cb : addr) (arg : Z) (region : Z * option rptr)
  | EvInstall (h : handle)
  | EvCleanup (h : handle) (st : stptr)
  | EvDlopen (path : string)
  | EvDlclose (h : handle)
  | EvUnlink (path : string)
  | EvWarn (what : string).

Section world.
Context {C : Corm}.

(** [xy_runtime_t]; a closed table (handle 0) is [None].  The capacity of
    [xy_adapter_by_id] is the length of [rt_adapter_by_id]. *)
Record runtime := Runtime {
  rt_mod_hd : option (corm string mptr);
  rt_mod_by_region_hd : option (mcorm region_key mptr);
  rt_sica_hd : option (corm string aptr);
  rt_path_intern_hd : option (corm string pptr);
  rt_region_hd : option (corm region_key rptr);
  rt_hook_id_hd : option (corm string Z);
  rt_hook_id_counter : Z;
  rt_adapter_by_id : list (option aptr);
  rt_inited : bool;
  rt_mod_count : Z
}.

Record world := World {
  w_regions : gmap rptr region_entry;
  w_mods : gmap mptr mod_entry;
  w_ctxs : gmap cptr xy_ctx;
  w_adapters : gmap aptr adapter;
  w_slots : gmap sptr (list dispatch_slot);
  w_paths : gmap pptr string;
  w_bufs : gmap bptr (list Z);
  w_states : gmap stptr Z;
  (** the next address an allocation returns *)
  w_next : positive;
  (** outcomes of the next allocations; they succeed once it runs out *)
  w_mem : list bool;
  w_rt : runtime;
  w_tls : tls;
  w_err : Z;
  w_xy : xy_ctx;
  w_reloading : bool;
  w_trace : list event
}.

(** The values the globals have before [xy_init] runs. *)
Definition runtime_zero : runtime :=
  Runtime None None None None None None 0 [] false 0.
Definition tls_zero : tls :=
  Tls 0 (replicate (Z.to_nat XY_MAX_RET_SIZE) 0) RetNull XY_REGION_ROOT None
    None None.
Definition world_zero : world :=
  World ∅ ∅ ∅ ∅ ∅ ∅ ∅ ∅ 1 [] runtime_zero tls_zero 0 xy_ctx_zero false [].
End world.

#[export] Instance runtime_eta {C : Corm} : Eta runtime := {| eta_expand := λ r,
  Runtime (rt_mod_hd r) (rt_mod_by_region_hd r) (rt_sica_hd r)
    (rt_path_intern_hd r) (rt_region_hd r) (rt_hook_id_hd r)
    (rt_hook_id_counter r) (rt_adapter_by_id r) (rt_inited r)
    (rt_mod_count r) |}.

#[export] Instance world_eta {C : Corm} : Eta world := {| eta_expand := λ w,
  World (w_regions w) (w_mods w) (w_ctxs w) (w_adapters w) (w_slots w)
    (w_paths w) (w_bufs w) (w_states w) (w_next w) (w_mem w) (w_rt w) (w_tls w)
    (w_err w) (w_xy w) (w_reloading w) (w_trace w) |}.

(** Two worlds agree when each of their parts does. *)
Lemma world_ext {C : Corm} (w w' : world) :
  w_regions w = w_regions w' → w_mods w = w_mods w' → w_ctxs w = w_ctxs w' →
  w_adapters w = w_adapters w' → w_slots w = w_slots w' → w_paths w = w_paths w' →
  w_bufs w = w_bufs w' → w_states w = w_states w' → w_next w = w_next w' → w_mem w = w_mem w' →
  w_rt w = w_rt w' → w_tls w = w_tls w' → w_err w = w_err w' → w_xy w = w_xy w' →
  w_reloading w = w_reloading w' → w_trace w = w_trace w' → w = w'.
Proof. destruct w, w'. simpl. intros. by subst. Qed.

(** ** Primitive accesses *)

Section access.
Context {C : Corm}.
Abbreviation M := (M world).

Definition rt_get {T} (f : runtime → T) : M T := gets (λ w, f (w_rt w)).
Definition rt_mod (f : runtime → runtime) : M unit :=
  modify (λ w, w <| w_rt ::= f |>).
Definition tls_get {T} (f : tls → T) : M T := gets (λ w, f (w_tls w)).
Definition tls_mod (f : tls → tls) : M unit :=
  modify (λ w, w <| w_tls ::= f |>).

(** An open table of the runtime. *)
Definition table {T} (f : runtime → option T) : M T := rt_get f ≫= deref.

(** [p->f] and [p->f = v] *)
Definition rget (p : rptr) : M region_entry := gets (λ w, w_regions w !! p) ≫= deref.
Definition rput (p : rptr) (e : region_entry) : M unit :=
  modify (λ w, w <| w_regions ::= <[p := e]> |>).
Definition rmod (p : rptr) (f : region_entry → region_entry) : M unit :=
  e ← rget p; rput p (f e).
Definition mget (p : mptr) : M mod_entry := gets (λ w, w_mods w !! p) ≫= deref.
Definition mput (p : mptr) (m : mod_entry) : M unit :=
  modify (λ w, w <| w_mods ::= <[p := m]> |>).
Definition mmod (p : mptr) (f : mod_entry → mod_entry) : M unit :=
  m ← mget p; mput p (f m).
Definition cget (p : cptr) : M xy_ctx := gets (λ w, w_ctxs w !! p) ≫= deref.
Definition cmod (p : cptr) (f : xy_ctx → xy_ctx) : M unit :=
  c ← cget p; modify (λ w, w <| w_ctxs ::= <[p := f c]> |>).
Definition aget (p : aptr) : M adapter := gets (λ w, w_adapters w !! p) ≫= deref.
Definition amod (p : aptr) (f : adapter → adapter) : M unit :=
  a ← aget p; modify (λ w, w <| w_adapters ::= <[p := f a]> |>).
Definition slots_get (p : sptr) : M (list dispatch_slot) :=
  gets (λ w, w_slots w !! p) ≫= deref.
Definition slots_put (p : sptr) (l : list dispatch_slot) : M unit :=
  modify (λ w, w <| w_slots ::= <[p := l]> |>).
Definition buf_get (p : bptr) : M (list Z) := gets (λ w, w_bufs w !! p) ≫= deref.
(** writes bytes at the start of a buffer; past its end is undefined *)
Definition buf_write (p : bptr) (bs : list Z) : M unit :=
  b ← buf_get p;
  if decide (length bs ≤ length b)%nat
  then modify (λ w, w <| w_bufs ::= <[p := bs ++ drop (length bs) b]> |>)
  else crash.

(** An address that was never used before. *)
Definition fresh_ptr : M positive :=
  p ← gets w_next; modify (λ w, w <| w_next := Pos.succ p |>);; mret p.

(** Whether the next [malloc], [calloc], [realloc] or [strdup] succeeds. *)
Definition alloc_ok : M bool :=
  l ← gets w_mem;
  match l with
  | [] => mret true
  | b :: l' => modify (λ w, w <| w_mem := l' |>);; mret b
  end.

Definition emit (ev : event) : M unit :=
  modify (λ w, w <| w_trace ::= (λ t, t ++ [ev]) |>).

(** [XY_SET_ERR(e)], and the idiom [XY_SET_ERR(e); return e;] *)
Definition XY_SET_ERR (e : Z) : M unit := modify (λ w, w <| w_err := e |>).
Definition XY_GET_ERR : M Z := gets w_err.
Definition set_err_ret (e : Z) : M Z := XY_SET_ERR e;; mret e.

(** [set_current_region]: the id and the entry move together. *)
Definition set_current_region (id : Z) (entry : option rptr) : M unit :=
  tls_mod (λ t, t <| t_current_region_id := id |>
                  <| t_current_region_entry := entry |>).

(** [region_lookup_current] *)
Definition region_lookup_current : M (option rptr) := tls_get t_current_region_entry.

(** [region_current_plen] *)
Definition region_current_plen : M Z :=
  o ← tls_get t_current_region_entry;
  match o with
  | Some p => e ← rget p; mret (re_plen e)
  | None => mret 0
  end.

(** [xy_self_init_ctx] *)
Definition xy_self_init_ctx (ctx : cptr) : M unit :=
  tls_mod (λ t, t <| t_pending_ctx := Some ctx |>).

(** [xy_errno] *)
Definition xy_errno : M Z := XY_GET_ERR.
End access.

(** ** Running the accesses *)

Section running.
Context {C : Corm}.
Implicit Types w : world.

Lemma rget_Ok w p e : w_regions w !! p = Some e → rget p w = Ok e w.
Proof. unfold rget, mbind, M_bind, gets, deref. by intros ->. Qed.
Lemma rput_Ok w p e : rput p e w = Ok tt (w <| w_regions ::= <[p := e]> |>).
Proof. done. Qed.
Lemma rmod_Ok w p e f :
  w_regions w !! p = Some e → rmod p f w = Ok tt (w <| w_regions ::= <[p := f e]> |>).
Proof. intros H. unfold rmod. by rewrite (bind_Ok _ _ _ _ _ (rget_Ok _ _ _ H)). Qed.
Lemma mget_Ok w p m : w_mods w !! p = Some m → mget p w = Ok m w.
Proof. unfold mget, mbind, M_bind, gets, deref. by intros ->. Qed.
Lemma mmod_Ok w p m f :
  w_mods w !! p = Some m → mmod p f w = Ok tt (w <| w_mods ::= <[p := f m]> |>).
Proof. intros H. unfold mmod. by rewrite (bind_Ok _ _ _ _ _ (mget_Ok _ _ _ H)). Qed.
Lemma table_Ok {T} w (f : runtime → option T) t :
  f (w_rt w) = Some t → table f w = Ok t w.
Proof. unfold table, rt_get, mbind, M_bind, gets, deref. by intros ->. Qed.
Lemma fresh_ptr_Ok w : fresh_ptr w = Ok (w_next w) (w <| w_next := Pos.succ (w_next w) |>).
Proof. done. Qed.
(** The outcome of the next allocation. *)
Definition next_alloc w : bool := default true (head (w_mem w)).

Lemma alloc_ok_run w : alloc_ok w = Ok (next_alloc w) (w <| w_mem ::= tail |>).
Proof. destruct w as [????????? [|b l]]; reflexivity. Qed.
Lemma alloc_ok_Ok w : w_mem w = [] → alloc_ok w = Ok true w.
Proof. unfold alloc_ok, mbind, M_bind, gets. by intros ->. Qed.
End running.

(** Run the first step of a sequence whose operands are known. *)
Ltac run_step tac :=
  lazymatch goal with
  | |- rget _ _ = _ => eapply rget_Ok; tac
  | |- rput _ _ _ = _ => eapply rput_Ok
  | |- rmod _ _ _ = _ => eapply rmod_Ok; tac
  | |- mget _ _ = _ => eapply mget_Ok; tac
  | |- mmod _ _ _ = _ => eapply mmod_Ok; tac
  | |- table _ _ = _ => eapply table_Ok; tac
  | |- fresh_ptr _ = _ => eapply fresh_ptr_Ok
  | |- alloc_ok _ = _ => eapply alloc_ok_Ok; tac
  | |- _ => unfold rt_mod, tls_mod, rt_get, tls_get, set_current_region, XY_SET_ERR, modify,
              gets, mret, M_ret; reflexivity
  end.
Ltac run_with tac := erewrite bind_Ok by run_step tac.
Tactic Notation "run" := run_with ltac:(solve [done | eassumption]).
Tactic Notation "run" "by" tactic3(tac) := run_with tac.

(** [xy_strerror] of src/libxylem.c *)
Definition xy_strerror (err : Z) : string :=
  if err =? XY_OK then "success"
  else if err =? XY_ERR_NOTFOUND then "not found"
  else if err =? XY_ERR_INVALID then "invalid argument"
  else if err =? XY_ERR_TOOBIG then "return type too large"
  else if err =? XY_ERR_INIT then "initialization failed"
  else if err =? XY_ERR_EPERM then "operation not permitted"
  else if err =? XY_ERR_ABI then "module context ABI mismatch (rebuild module)"
  else "unknown error".
