(* ===== verification/Wasm.v ===== *)
(** * The registry inside a WebAssembly module

    src/libxylem-wasm.c: a module compiled to WebAssembly carries its own hook
    table of at most 256 names, each with a list of listeners, and answers the
    region functions with constants.  It shares no state with the host's
    library; the functions keep the source's names behind [wasm_]. *)
From Stdlib Require Import Ascii.
From S2P Require Import Prelude Words Corm State.

Definition XY_WASM_MAX_HOOKS : nat := 256.
(** [sizeof(g_xy_hooks[i].name) - 1] *)
Definition WASM_NAME_MAX : nat := 63.

(** [xy_wasm_hook_slot_t]; the linked list of listeners, head first *)
Record wasm_slot := WasmSlot {
  ws_name : string;
  ws_listeners : list aptr;
  ws_hook_id : Z
}.
#[export] Instance wasm_slot_eta : Eta wasm_slot := {| eta_expand := λ s,
  WasmSlot (ws_name s) (ws_listeners s) (ws_hook_id s) |}.

(** The file's globals, and the heap they reach; [g_xy_hook_count] is the
    length of [wa_hooks].  [wa_mem] holds the outcomes of the next [malloc]s,
    [wa_calls] the listeners called so far. *)
Record wasm := Wasm {
  wa_hooks : list wasm_slot;
  wa_err : Z;
  wa_last_ran : Z;
  wa_last_retp : option bptr;
  wa_current_adapter : option aptr;
  wa_adapters : gmap aptr adapter;
  wa_bufs : gmap bptr (list Z);
  wa_mem : list bool;
  wa_calls : list (aptr * Z)
}.
#[export] Instance wasm_eta : Eta wasm := {| eta_expand := λ w,
  Wasm (wa_hooks w) (wa_err w) (wa_last_ran w) (wa_last_retp w) (wa_current_adapter w)
    (wa_adapters w) (wa_bufs w) (wa_mem w) (wa_calls w) |}.
Definition wasm_zero (adapters : gmap aptr adapter) (bufs : gmap bptr (list Z)) : wasm :=
  Wasm [] XY_OK 0 None None adapters bufs [] [].

(** An adapter's function, called with a NULL listener, and the host's
    imports. *)
Class WasmHost := {
  wh_call : adapter_fn → option bptr → Z → M wasm unit;
  wh_load_module : string → M wasm Z;
  wh_unload_module : string → M wasm Z;
  wh_scope : addr → ud → M wasm Z
}.

Section wasm.
Context {WH : WasmHost}.
Abbreviation M := (M wasm).

Definition wasm_set_err (e : Z) : M unit := modify (λ w, w <| wa_err := e |>).
Definition wasm_err_ret (e r : Z) : M Z := wasm_set_err e;; mret r.
Definition wasm_aget (p : aptr) : M adapter := gets (λ w, wa_adapters w !! p) ≫= deref.
Definition wasm_malloc : M bool :=
  l ← gets wa_mem;
  match l with
  | [] => mret true
  | b :: l' => modify (λ w, w <| wa_mem := l' |>);; mret b
  end.
Definition wasm_hook_id (p : aptr) (id : Z) : M unit :=
  a ← wasm_aget p; modify (λ w, w <| wa_adapters ::= <[p := a <| ad_hook_id := id |>]> |>).

(** The first slot of a name. *)
Fixpoint wasm_find (hooks : list wasm_slot) (name : string) : option nat :=
  match hooks with
  | [] => None
  | s :: hooks' => if String.eqb (ws_name s) name then Some O else S <$> wasm_find hooks' name
  end.

(** [xy_errno] *)
Definition wasm_xy_errno : M Z := gets wa_err.

(** [xy_strerror] *)
Definition wasm_xy_strerror (err : Z) : string :=
  if err =? XY_OK then "Success"
  else if err =? XY_ERR_NOTFOUND then "Hook or listener not found"
  else if err =? XY_ERR_INVALID then "Invalid argument"
  else if err =? XY_ERR_TOOBIG then "Return size exceeds limit"
  else "Xylem error".

(** [xy_areg] *)
Definition wasm_xy_areg (name : option string) (adapter : option aptr) : M Z :=
  match name, adapter with
  | Some name, Some p =>
      a ← wasm_aget p;
      if XY_MAX_RET_SIZE <? ad_ret_size a then wasm_err_ret XY_ERR_TOOBIG (u32 (-1))
      else
        hooks ← gets wa_hooks;
        match wasm_find hooks name with
        | Some i =>
            s ← deref (hooks !! i);
            wasm_hook_id p (ws_hook_id s);;
            ok ← wasm_malloc;
            if negb ok then wasm_err_ret XY_ERR_INIT (u32 (-1))
            else
              modify (λ w, w <| wa_hooks ::= alter (λ s, s <| ws_listeners ::= (λ l, l ++ [p]) |>) i |>);;
              wasm_err_ret XY_OK (u32 (ws_hook_id s))
        | None =>
            if decide (XY_WASM_MAX_HOOKS ≤ length hooks)%nat then wasm_err_ret XY_ERR_TOOBIG (u32 (-1))
            else
              let id := length hooks in
              modify (λ w, w <| wa_hooks ::= (λ l, l ++
                [WasmSlot (String.substring 0 WASM_NAME_MAX name) [] (Z.of_nat id)]) |>);;
              ok ← wasm_malloc;
              if negb ok then wasm_err_ret XY_ERR_INIT (u32 (-1))
              else
                modify (λ w, w <| wa_hooks ::= alter (λ s, s <| ws_listeners := [p] |>) id |>);;
                wasm_hook_id p (Z.of_nat id);;
                wasm_err_ret XY_OK (u32 (Z.of_nat id))
        end
  | _, _ => wasm_err_ret XY_ERR_INVALID (u32 (-1))
  end.

(** [memset(retp, 0, n)] *)
Definition wasm_zero_buf (p : bptr) (n : Z) : M unit :=
  b ← gets (λ w, wa_bufs w !! p) ≫= deref;
  if decide (Z.to_nat n ≤ length b)%nat
  then modify (λ w, w <| wa_bufs ::= <[p := replicate (Z.to_nat n) 0 ++ drop (Z.to_nat n) b]> |>)
  else crash.

(** The loop over a slot's listeners; the list is read as it is when each is
    reached, since a listener may register another. *)
Fixpoint wasm_call_loop (fuel : nat) (id i : nat) (retp : option bptr) (arg ran : Z) : M unit :=
  match fuel with
  | O => nofuel
  | S n =>
      hooks ← gets wa_hooks;
      s ← deref (hooks !! id);
      match ws_listeners s !! i with
      | None => mret tt
      | Some p =>
          a ← wasm_aget p;
          match ad_call a with
          | None => wasm_call_loop n id (S i) retp arg ran
          | Some f =>
              modify (λ w, w <| wa_calls ::= (λ l, l ++ [(p, arg)]) |>);;
              wh_call f retp arg;;
              modify (λ w, w <| wa_last_ran := u32 (ran + 1) |>);;
              wasm_call_loop n id (S i) retp arg (ran + 1)
          end
      end
  end.

(** [xy_call]; [xy_call_self] is the same *)
Definition wasm_xy_call (fuel : nat) (retp : option bptr) (reg : option aptr) (arg : Z) : M Z :=
  match reg with
  | None => wasm_err_ret XY_ERR_INVALID XY_ERR_INVALID
  | Some p =>
      a ← wasm_aget p;
      hooks ← gets wa_hooks;
      let id := ad_hook_id a in
      found ← (if (id <? 0) || (Z.of_nat (length hooks) <=? id) ||
                  negb (from_option (λ s, String.eqb (ws_name s) (ad_name a)) false (hooks !! Z.to_nat id))
               then match wasm_find hooks (ad_name a) with
                    | Some i => wasm_hook_id p (Z.of_nat i);; mret (Some i)
                    | None => mret None
                    end
               else mret (Some (Z.to_nat id)));
      match found ≫= λ i, s ← hooks !! i; if decide (ws_listeners s = []) then None else Some i with
      | None =>
          a ← wasm_aget p;
          (match retp with
           | Some r => if 0 <? ad_ret_size a then wasm_zero_buf r (ad_ret_size a) else mret tt
           | None => mret tt
           end);;
          wasm_err_ret XY_ERR_NOTFOUND XY_ERR_NOTFOUND
      | Some i =>
          modify (λ w, w <| wa_current_adapter := Some p |> <| wa_last_retp := retp |> <| wa_last_ran := 0 |>);;
          wasm_call_loop fuel i 0 retp arg 0;;
          wasm_err_ret XY_OK XY_OK
      end
  end.
Definition wasm_xy_call_self := wasm_xy_call.

(** [xy_last] *)
Definition wasm_xy_last (ret : option bptr) : M Z :=
  ran ← gets wa_last_ran;
  if ran =? 0 then wasm_err_ret XY_ERR_NOTFOUND XY_ERR_NOTFOUND
  else
    retp ← gets wa_last_retp;
    cur ← gets wa_current_adapter;
    (match ret, retp, cur with
     | Some d, Some r, Some p =>
         a ← wasm_aget p;
         src ← gets (λ w, wa_bufs w !! r) ≫= deref;
         dst ← gets (λ w, wa_bufs w !! d) ≫= deref;
         let n := Z.to_nat (ad_ret_size a) in
         if decide (n ≤ length src ∧ n ≤ length dst)%nat
         then modify (λ w, w <| wa_bufs ::= <[d := take n src ++ drop n dst]> |>)
         else crash
     | _, _, _ => mret tt
     end);;
    wasm_err_ret XY_OK XY_OK.

(** The region functions are constants; [xy_with_region] runs its body. *)
Definition wasm_xy_current_region : Z := 0.
Definition wasm_xy_current_region_plen : Z := 0.
Definition wasm_xy_with_region (_id _plen : Z) (fn : option addr) (u : ud) : M Z :=
  match fn with Some f => wh_scope f u | None => mret 0 end.
Definition wasm_xy_claim_at (_id _plen : Z) (_fn : option addr) (_u : ud) : Z := 0.
Definition wasm_xy_region_exists (_id _plen : Z) : Z := 0.
Definition wasm_xy_deny (_what : string) (_type : Z) : Z := 0.

(** [xy_load], [xy_unload] under [__wasm__], [xy_reload] *)
Definition wasm_xy_load (fname : option string) : M Z :=
  match fname with None => mret XY_ERR_INVALID | Some f => wh_load_module f end.
Definition wasm_xy_unload (fname : option string) : M Z :=
  match fname with None => mret XY_ERR_INVALID | Some f => wh_unload_module f end.
Definition wasm_xy_reload (_fname : string) : Z := 0.

(** [xy_init_ctx]: everything else stays NULL *)
Definition wasm_xy_init_ctx : xy_ctx :=
  xy_ctx_zero <| x_call := Some Fn_call |> <| x_call_self := Some Fn_call_self |>
    <| x_areg := Some Fn_areg |> <| x_last := Some Fn_last |> <| x_load := Some Fn_load |>
    <| x_unload := Some Fn_unload |> <| x_reload := Some Fn_reload |>
    <| x_region_exists := Some Fn_region_exists |> <| x_current_region := Some Fn_current_region |>
    <| x_current_region_plen := Some Fn_current_region_plen |>
    <| x_with_region := Some Fn_with_region |> <| x_claim_at := Some Fn_claim_at |>
    <| x_deny := Some Fn_deny |>.

(** [xy_wasm_init]: [p] is what the module's [get_xy_ptr] answers, if it has
    one. *)
Definition xy_wasm_init (p : option cptr) (ctxs : gmap cptr xy_ctx) : gmap cptr xy_ctx :=
  match p with Some c => <[c := wasm_xy_init_ctx]> ctxs | None => ctxs end.
End wasm.
