(* ===== verification/WasmProps.v ===== *)
(** * What the WebAssembly registry promises

    Ids are positions, a name has one slot, listeners run in the order they
    registered.  The promises hold for names that fit the slot's buffer; a
    longer name is cut, and nothing registered under it is ever called. *)
From Stdlib Require Import Ascii.
From S2P Require Import Prelude Words Corm State Wasm.

Section props.
Context {WH : WasmHost}.
Implicit Types (w : wasm) (hooks : list wasm_slot).

(** ** Finding a name *)

Lemma wasm_find_Some hooks name i :
  wasm_find hooks name = Some i →
  ∃ s, hooks !! i = Some s ∧ ws_name s = name ∧
    (∀ j s', (j < i)%nat → hooks !! j = Some s' → ws_name s' ≠ name).
Proof.
  revert i. induction hooks as [|s hooks IH]; intros i; simpl; [done|].
  destruct (String.eqb_spec (ws_name s) name) as [Heq|Hne].
  - intros [= <-]. exists s. split_and!; [done|done|]. intros j s' Hj. lia.
  - destruct (wasm_find hooks name) as [i'|]; simpl; [|done]. intros [= <-].
    destruct (IH i' eq_refl) as (s1 & H1 & H2 & H3). exists s1. split_and!; [done|done|].
    intros [|j] s' Hj Hs'; simpl in Hs'; [by injection Hs' as <-|]. eapply H3; [|done]. lia.
Qed.

Lemma wasm_find_None hooks name :
  wasm_find hooks name = None ↔ ∀ i s, hooks !! i = Some s → ws_name s ≠ name.
Proof.
  induction hooks as [|s hooks IH]; simpl; [split; [done|done]|].
  destruct (String.eqb_spec (ws_name s) name) as [Heq|Hne].
  - split; [done|]. intros H. by destruct (H 0%nat s).
  - destruct (wasm_find hooks name) as [i'|] eqn:Hf; simpl.
    + split; [done|]. intros H. exfalso. assert (Some i' = None); [|done].
      apply IH. intros i s' Hs'. by apply (H (S i)).
    + split; [|done]. intros _ [|i] s' Hs'; simpl in Hs'; [by injection Hs' as <-|].
      by eapply (proj1 IH).
Qed.

(** ** Well-formed tables *)

(** Slot [i] has id [i]; there are at most 256; names fit and differ. *)
Record wasm_wf hooks : Prop := {
  ww_max : (length hooks ≤ XY_WASM_MAX_HOOKS)%nat;
  ww_ids i s : hooks !! i = Some s → ws_hook_id s = Z.of_nat i;
  ww_short i s : hooks !! i = Some s → (String.length (ws_name s) ≤ WASM_NAME_MAX)%nat;
  ww_names i j s s' : hooks !! i = Some s → hooks !! j = Some s' → ws_name s = ws_name s' → i = j
}.

Lemma wasm_find_wf hooks name i s :
  wasm_wf hooks → hooks !! i = Some s → ws_name s = name → wasm_find hooks name = Some i.
Proof.
  intros Hwf Hs Hn. destruct (wasm_find hooks name) as [j|] eqn:Hf.
  - apply wasm_find_Some in Hf as (s' & Hj & Hn' & _). f_equal.
    eapply (ww_names _ Hwf); [done|done|congruence].
  - rewrite wasm_find_None in Hf. by apply Hf in Hs.
Qed.

Lemma wasm_wf_listeners hooks f i :
  wasm_wf hooks → wasm_wf (alter (λ s, s <| ws_listeners ::= f |>) i hooks).
Proof.
  intros [Hm Hi Hs Hn].
  assert (H : ∀ j s, alter (λ s, s <| ws_listeners ::= f |>) i hooks !! j = Some s →
    ∃ s0, hooks !! j = Some s0 ∧ ws_name s = ws_name s0 ∧ ws_hook_id s = ws_hook_id s0).
  { intros j s. destruct (decide (i = j)) as [->|].
    - rewrite list_lookup_alter_eq. intros (s0 & -> & ->)%fmap_Some. by exists s0.
    - rewrite list_lookup_alter_ne by done. intros ->. by exists s. }
  split.
  - by rewrite length_alter.
  - intros j s (s0 & H0 & _ & ->)%H. by apply Hi.
  - intros j s (s0 & H0 & -> & _)%H. by eapply Hs.
  - intros j k s s' (s0 & H0 & -> & _)%H (s1 & H1 & -> & _)%H. by apply Hn.
Qed.

Lemma wasm_wf_snoc hooks name l :
  wasm_wf hooks → (length hooks < XY_WASM_MAX_HOOKS)%nat → (String.length name ≤ WASM_NAME_MAX)%nat →
  wasm_find hooks name = None →
  wasm_wf (hooks ++ [WasmSlot name l (Z.of_nat (length hooks))]).
Proof.
  intros [Hm Hi Hs Hn] Hlt Hlen Hnew. rewrite wasm_find_None in Hnew.
  assert (H : ∀ j s, (hooks ++ [WasmSlot name l (Z.of_nat (length hooks))]) !! j = Some s →
    hooks !! j = Some s ∨ j = length hooks ∧ s = WasmSlot name l (Z.of_nat (length hooks))).
  { intros j s [?|[Hge Hl]]%lookup_app_Some; [by left|right].
    apply list_lookup_singleton_Some in Hl as [? ->]. split; [lia|done]. }
  split.
  - rewrite length_app. simpl. lia.
  - intros j s [?|[-> ->]]%H; [by apply Hi|done].
  - intros j s [?|[-> ->]]%H; [by eapply Hs|done].
  - intros j k s s' [H1|[-> ->]]%H [H2|[-> ->]]%H; simpl; [by eapply Hn| | |done].
    + intros He. by apply Hnew in H1.
    + intros He. by apply Hnew in H2.
Qed.

(** ** Registering *)

(** The listeners of a name, in order. *)
Definition listeners_of hooks (name : string) : list aptr :=
  match wasm_find hooks name ≫= λ i, hooks !! i with Some s => ws_listeners s | None => [] end.

Lemma wasm_aget_Ok w p a : wa_adapters w !! p = Some a → wasm_aget p w = Ok a w.
Proof. unfold wasm_aget, mbind, M_bind, gets, deref. by intros ->. Qed.
Lemma wasm_malloc_Ok w : wa_mem w = [] → wasm_malloc w = Ok true w.
Proof. unfold wasm_malloc, mbind, M_bind, gets. by intros ->. Qed.
Lemma wasm_hook_id_Ok w p a id :
  wa_adapters w !! p = Some a →
  wasm_hook_id p id w = Ok tt (w <| wa_adapters ::= <[p := a <| ad_hook_id := id |>]> |>).
Proof. intros Ha. unfold wasm_hook_id. by rewrite (bind_Ok _ _ _ _ _ (wasm_aget_Ok _ _ _ Ha)). Qed.

(** The state after a registration that succeeds with id [i]. *)
Definition wasm_registered w (p : aptr) (a : adapter) (i : nat) (hooks : list wasm_slot) : wasm :=
  w <| wa_hooks := hooks |> <| wa_adapters ::= <[p := a <| ad_hook_id := Z.of_nat i |>]> |>
    <| wa_err := XY_OK |>.

Lemma areg_known_run w name p a i :
  wa_mem w = [] → wa_adapters w !! p = Some a → ad_ret_size a ≤ XY_MAX_RET_SIZE →
  wasm_wf (wa_hooks w) → wasm_find (wa_hooks w) name = Some i →
  wasm_xy_areg (Some name) (Some p) w =
    Ok (Z.of_nat i) (wasm_registered w p a i
      (alter (λ s, s <| ws_listeners ::= (λ l, l ++ [p]) |>) i (wa_hooks w))).
Proof.
  intros Hm Ha Hsz Hwf Hf. pose proof (wasm_find_Some _ _ _ Hf) as (s & Hs & _ & _).
  pose proof (ww_ids _ Hwf _ _ Hs) as Hid. pose proof (ww_max _ Hwf) as Hmax.
  apply lookup_lt_Some in Hs as Hlt. unfold XY_WASM_MAX_HOOKS in Hmax.
  unfold wasm_xy_areg. rewrite (bind_Ok _ _ _ _ _ (wasm_aget_Ok _ _ _ Ha)).
  rewrite (proj2 (Z.ltb_ge _ _) Hsz). rewrite (bind_Ok (gets _) _ _ (wa_hooks w) w) by done.
  rewrite Hf, Hs. rewrite (bind_Ok (deref _) _ _ s w) by done.
  rewrite (bind_Ok _ _ _ _ _ (wasm_hook_id_Ok _ _ _ _ Ha)).
  erewrite bind_Ok by (by apply wasm_malloc_Ok). cbn [negb].
  rewrite (bind_Ok (modify _) _ _ tt _ eq_refl). rewrite Hid.
  unfold wasm_err_ret. rewrite (bind_Ok (wasm_set_err _) _ _ tt _ eq_refl).
  unfold u32. by rewrite Z.mod_small by lia.
Qed.

Lemma areg_new_run w name p a :
  wa_mem w = [] → wa_adapters w !! p = Some a → ad_ret_size a ≤ XY_MAX_RET_SIZE →
  (length (wa_hooks w) < XY_WASM_MAX_HOOKS)%nat → wasm_find (wa_hooks w) name = None →
  wasm_xy_areg (Some name) (Some p) w =
    Ok (Z.of_nat (length (wa_hooks w))) (wasm_registered w p a (length (wa_hooks w))
      (wa_hooks w ++ [WasmSlot (String.substring 0 WASM_NAME_MAX name) [p] (Z.of_nat (length (wa_hooks w)))])).
Proof.
  intros Hm Ha Hsz Hlt Hf. unfold wasm_xy_areg. rewrite (bind_Ok _ _ _ _ _ (wasm_aget_Ok _ _ _ Ha)).
  rewrite (proj2 (Z.ltb_ge _ _) Hsz). rewrite (bind_Ok (gets _) _ _ (wa_hooks w) w) by done.
  rewrite Hf. rewrite decide_False by lia. cbv zeta.
  rewrite (bind_Ok (modify _) _ _ tt _ eq_refl).
  erewrite bind_Ok by (by apply wasm_malloc_Ok). cbn [negb].
  rewrite (bind_Ok (modify _) _ _ tt _ eq_refl).
  erewrite bind_Ok by (by apply wasm_hook_id_Ok).
  unfold wasm_err_ret. rewrite (bind_Ok (wasm_set_err _) _ _ tt _ eq_refl).
  unfold XY_WASM_MAX_HOOKS in Hlt. unfold u32. rewrite Z.mod_small by lia.
  unfold mret, M_ret. f_equal. unfold wasm_registered, field_over; simpl. f_equal.
  rewrite alter_app_r_alt by lia. by rewrite Nat.sub_diag.
Qed.

Lemma wasm_find_alter_name hooks (g : wasm_slot → wasm_slot) i name :
  (∀ s, ws_name (g s) = ws_name s) → wasm_find (alter g i hooks) name = wasm_find hooks name.
Proof.
  intros Hg. revert i. induction hooks as [|s hooks IH]; intros i; [done|].
  destruct i as [|i].
  - change (alter g 0%nat (s :: hooks)) with (g s :: hooks). cbn [wasm_find]. by rewrite Hg.
  - change (alter g (S i) (s :: hooks)) with (s :: alter g i hooks). cbn [wasm_find]. by rewrite IH.
Qed.

Lemma wasm_find_alter hooks f i name :
  wasm_find (alter (λ s, s <| ws_listeners ::= f |>) i hooks) name = wasm_find hooks name.
Proof. by apply wasm_find_alter_name. Qed.

Lemma wasm_find_snoc hooks s name :
  wasm_find (hooks ++ [s]) name =
    match wasm_find hooks name with
    | Some i => Some i
    | None => if String.eqb (ws_name s) name then Some (length hooks) else None
    end.
Proof.
  induction hooks as [|s' hooks IH]; simpl; [by destruct (String.eqb (ws_name s) name)|].
  destruct (String.eqb (ws_name s') name); [done|]. rewrite IH.
  destruct (wasm_find hooks name); [done|]. by destruct (String.eqb (ws_name s) name).
Qed.

Lemma listeners_alter hooks f i s name name' :
  wasm_find hooks name = Some i → hooks !! i = Some s →
  listeners_of (alter (λ s, s <| ws_listeners ::= f |>) i hooks) name' =
    if decide (name' = name) then f (listeners_of hooks name) else listeners_of hooks name'.
Proof.
  intros Hf Hs. unfold listeners_of. rewrite wasm_find_alter. case_decide as Heq.
  - subst name'. rewrite Hf. simpl. by rewrite list_lookup_alter_eq, Hs.
  - destruct (wasm_find hooks name') as [j|] eqn:Hj; [|done]. simpl.
    destruct (decide (j = i)) as [->|]; [|by rewrite list_lookup_alter_ne].
    apply wasm_find_Some in Hj as (s1 & H1 & Hn1 & _). apply wasm_find_Some in Hf as (s2 & H2 & Hn2 & _).
    congruence.
Qed.

Lemma listeners_snoc hooks name l id name' :
  wasm_find hooks name = None →
  listeners_of (hooks ++ [WasmSlot name l id]) name' =
    if decide (name' = name) then l else listeners_of hooks name'.
Proof.
  intros Hnew. unfold listeners_of. rewrite wasm_find_snoc. simpl. case_decide as Heq.
  - subst name'. rewrite Hnew, String.eqb_refl. simpl. by rewrite lookup_app_r, Nat.sub_diag by lia.
  - destruct (wasm_find hooks name') as [j|] eqn:Hj.
    + simpl. apply wasm_find_Some in Hj as (s & Hs & _). by rewrite (lookup_app_l_Some _ _ _ _ Hs), Hs.
    + destruct (String.eqb_spec name name'); [congruence|done].
Qed.

(** C30. Registering in a WebAssembly module: an adapter that answers too much
    and a 257th name are refused with [XY_ERR_TOOBIG] and change nothing;
    otherwise the answer is the position of the name's slot, which also
    becomes the adapter's id: the adapter is put last among the name's
    listeners, every other name keeps its own, and the table stays well
    formed. *)
Theorem wasm_areg_contract w name p a :
  wa_mem w = [] → wa_adapters w !! p = Some a → wasm_wf (wa_hooks w) →
  (String.length name ≤ WASM_NAME_MAX)%nat →
  let full := length (wa_hooks w) = XY_WASM_MAX_HOOKS ∧ wasm_find (wa_hooks w) name = None in
  (XY_MAX_RET_SIZE < ad_ret_size a ∨ full →
    wasm_xy_areg (Some name) (Some p) w = Ok XY_INVALID (w <| wa_err := XY_ERR_TOOBIG |>)) ∧
  (ad_ret_size a ≤ XY_MAX_RET_SIZE → ¬ full →
    ∃ i hooks, wasm_xy_areg (Some name) (Some p) w = Ok (Z.of_nat i) (wasm_registered w p a i hooks) ∧
      wasm_wf hooks ∧ wasm_find hooks name = Some i ∧
      listeners_of hooks name = listeners_of (wa_hooks w) name ++ [p] ∧
      (∀ name', name' ≠ name → listeners_of hooks name' = listeners_of (wa_hooks w) name')).
Proof.
  intros Hm Ha Hwf Hlen full. split.
  - intros Hor. unfold wasm_xy_areg. rewrite (bind_Ok _ _ _ _ _ (wasm_aget_Ok _ _ _ Ha)).
    destruct (Z.ltb_spec XY_MAX_RET_SIZE (ad_ret_size a)); [done|].
    destruct Hor as [?|[Hfull Hnew]]; [lia|].
    rewrite (bind_Ok (gets _) _ _ (wa_hooks w) w) by done. rewrite Hnew. by rewrite decide_True by lia.
  - intros Hsz Hroom. destruct (wasm_find (wa_hooks w) name) as [i|] eqn:Hf.
    + pose proof (wasm_find_Some _ _ _ Hf) as (s & Hs & _).
      eexists i, _. split; [by apply areg_known_run|]. split_and!.
      * by apply wasm_wf_listeners.
      * by rewrite wasm_find_alter.
      * rewrite (listeners_alter _ _ _ _ _ _ Hf Hs). by rewrite decide_True.
      * intros name' Hne. rewrite (listeners_alter _ _ _ _ _ _ Hf Hs). by rewrite decide_False.
    + pose proof (ww_max _ Hwf) as Hmax.
      assert (Hlt : (length (wa_hooks w) < XY_WASM_MAX_HOOKS)%nat).
      { destruct (decide (length (wa_hooks w) = XY_WASM_MAX_HOOKS)); [by destruct Hroom|lia]. }
      eexists (length (wa_hooks w)), _. split; [by apply areg_new_run|].
      rewrite substring_short by done. split_and!.
      * by apply wasm_wf_snoc.
      * rewrite wasm_find_snoc, Hf. simpl. by rewrite String.eqb_refl.
      * rewrite listeners_snoc, decide_True by done. unfold listeners_of. by rewrite Hf.
      * intros name' Hne. by rewrite listeners_snoc, decide_False.
Qed.

(** ** Calling *)

(** What a listener must leave alone: the table, and which adapters have which
    function.  It may call other hooks. *)
Record wasm_steady w w' : Prop := {
  wy_hooks : wa_hooks w' = wa_hooks w;
  wy_adapters p a : wa_adapters w !! p = Some a →
    ∃ a', wa_adapters w' !! p = Some a' ∧ ad_call a' = ad_call a
}.

#[global] Instance wasm_steady_preorder : PreOrder wasm_steady.
Proof.
  split; [by intros w; split; eauto|]. intros w1 w2 w3 [H1 A1] [H2 A2]. split; [congruence|].
  intros p a (a' & H & ?)%A1. apply A2 in H as (a2 & ? & ?). exists a2. split; congruence.
Qed.

Lemma wasm_steady_frame w w' :
  wa_hooks w' = wa_hooks w → wa_adapters w' = wa_adapters w → wasm_steady w w'.
Proof. intros Hh Ha. split; [done|]. intros p a Hp. exists a. by rewrite Ha. Qed.

Lemma wasm_steady_hook_id w p a id :
  wa_adapters w !! p = Some a → wasm_steady w (w <| wa_adapters ::= <[p := a <| ad_hook_id := id |>]> |>).
Proof.
  intros Ha. split; [done|]. intros q b Hb. simpl. destruct (decide (q = p)) as [->|].
  - rewrite lookup_insert_eq. eexists. split; [done|]. simpl. congruence.
  - rewrite lookup_insert_ne by done. eauto.
Qed.

(** Each call, then the calls it made itself. *)
Fixpoint nested {A} (evs tr : list A) : Prop :=
  match evs with
  | [] => tr = []
  | ev :: evs' => ∃ inner tr', tr = ev :: inner ++ tr' ∧ nested evs' tr'
  end.

(** The listeners of a list that have a function. *)
Definition callable w (l : list aptr) : list aptr :=
  filter (λ p, is_Some (wa_adapters w !! p ≫= ad_call)) l.

Definition wasm_answers w (retp : option bptr) (arg : Z) (p : aptr) : Prop :=
  ∃ a, wa_adapters w !! p = Some a ∧
    ∀ f w0, ad_call a = Some f → wasm_steady w w0 →
      ∃ v w1 inner, wh_call f retp arg w0 = Ok v w1 ∧ wasm_steady w0 w1 ∧
        wa_calls w1 = wa_calls w0 ++ inner.

Lemma wasm_answers_steady w w' retp arg p :
  wasm_steady w w' → wasm_answers w retp arg p → wasm_answers w' retp arg p.
Proof.
  intros Hs (a & Ha & Hf). destruct (wy_adapters _ _ Hs p a Ha) as (a' & Ha' & Hc).
  exists a'. split; [done|]. intros f w0 Hcall Hw0. apply Hf; [congruence|by transitivity w'].
Qed.

Lemma callable_steady w w' retp arg l :
  wasm_steady w w' → (∀ p, p ∈ l → wasm_answers w retp arg p) → callable w' l = callable w l.
Proof.
  intros Hs Hl. unfold callable. induction l as [|p l IH]; [done|].
  rewrite !filter_cons, IH by (intros; apply Hl; by right).
  destruct (Hl p) as (a & Ha & _); [by left|]. destruct (wy_adapters _ _ Hs p a Ha) as (a' & Ha' & Hc).
  rewrite Ha, Ha'. simpl. by rewrite Hc.
Qed.

Lemma wasm_loop_run id s retp arg : ∀ l fuel i ran w,
  wa_hooks w !! id = Some s → drop i (ws_listeners s) = l → (length l < fuel)%nat →
  (∀ p, p ∈ l → wasm_answers w retp arg p) →
  ∃ w', wasm_call_loop fuel id i retp arg ran w = Ok tt w' ∧ wasm_steady w w' ∧
    (∃ tr, wa_calls w' = wa_calls w ++ tr ∧ nested ((λ p, (p, arg)) <$> callable w l) tr) ∧
    wa_last_ran w' = (if decide (callable w l = []) then wa_last_ran w
                      else u32 (ran + Z.of_nat (length (callable w l)))).
Proof.
  induction l as [|p l IH]; intros fuel i ran w Hs Hdrop Hfuel Hl.
  - destruct fuel as [|n]; [simpl in Hfuel; lia|]. exists w.
    split; [|split; [reflexivity|split; [exists []; by rewrite app_nil_r|done]]].
    cbn [wasm_call_loop]. rewrite (bind_Ok (gets _) _ _ (wa_hooks w) w) by done. rewrite Hs.
    rewrite (bind_Ok (deref _) _ _ s w) by done.
    assert (ws_listeners s !! i = None) as ->; [|done].
    apply lookup_ge_None. apply (f_equal length) in Hdrop. rewrite length_drop in Hdrop. simpl in Hdrop. lia.
  - destruct fuel as [|n]; [simpl in Hfuel; lia|]. simpl in Hfuel.
    assert (Hi : ws_listeners s !! i = Some p).
    { rewrite <- (Nat.add_0_r i), <- lookup_drop, Hdrop. done. }
    assert (Hdrop' : drop (S i) (ws_listeners s) = l).
    { rewrite <- Nat.add_1_r, <- drop_drop, Hdrop. done. }
    destruct (Hl p) as (a & Ha & Hf); [by left|].
    cbn [wasm_call_loop]. rewrite (bind_Ok (gets _) _ _ (wa_hooks w) w) by done. rewrite Hs.
    rewrite (bind_Ok (deref _) _ _ s w) by done. rewrite Hi. rewrite (bind_Ok _ _ _ _ _ (wasm_aget_Ok _ _ _ Ha)).
    assert (Hcons : callable w (p :: l) = if decide (is_Some (ad_call a)) then p :: callable w l else callable w l).
    { unfold callable. rewrite filter_cons, Ha. simpl. by repeat case_decide. }
    rewrite Hcons. destruct (ad_call a) as [f|] eqn:Hcall; cycle 1.
    { rewrite decide_False by (by intros []). apply IH; [done|done|lia|]. intros q Hq. apply Hl. by right. }
    rewrite decide_True by done.
    set (w1 := w <| wa_calls ::= (λ l, l ++ [(p, arg)]) |>).
    rewrite (bind_Ok (modify _) _ _ tt w1) by done.
    destruct (Hf f w1 eq_refl) as (v & w2 & inner & Hrun & Hs2 & Htr2); [by apply wasm_steady_frame|].
    rewrite (bind_Ok _ _ _ _ _ Hrun). set (w3 := w2 <| wa_last_ran := u32 (ran + 1) |>).
    rewrite (bind_Ok (modify _) _ _ tt w3) by done.
    assert (H13 : wasm_steady w w3) by (transitivity w2; [transitivity w1; [by apply wasm_steady_frame|done]|by apply wasm_steady_frame]).
    assert (Hl' : ∀ q, q ∈ l → wasm_answers w retp arg q) by (intros; apply Hl; by right).
    destruct (IH n (S i) (ran + 1) w3) as (w4 & H4 & Hs4 & (tr & Htr4 & Hn) & Hr4);
      [by rewrite (wy_hooks _ _ H13)|done|lia|intros q Hq; eapply wasm_answers_steady; [exact H13|by apply Hl']|].
    rewrite (callable_steady w w3 retp arg l H13 Hl') in Hn, Hr4.
    exists w4. split_and!; [done|by transitivity w3| |].
    + exists ((p, arg) :: inner ++ tr). split; [|by exists inner, tr].
      rewrite Htr4. simpl. rewrite Htr2. simpl. by rewrite <- !app_assoc.
    + rewrite Hr4. simpl. case_decide as Hnil; [by rewrite Hnil|]. f_equal. lia.
Qed.

(** The slot [xy_call] settles on. *)
Lemma wasm_call_slot w p a :
  wasm_wf (wa_hooks w) → wa_adapters w !! p = Some a →
  ∃ w', (let id := ad_hook_id a in
      if (id <? 0) || (Z.of_nat (length (wa_hooks w)) <=? id) ||
         negb (from_option (λ s, String.eqb (ws_name s) (ad_name a)) false (wa_hooks w !! Z.to_nat id))
      then match wasm_find (wa_hooks w) (ad_name a) with
           | Some i => wasm_hook_id p (Z.of_nat i);; mret (Some i)
           | None => mret None
           end
      else mret (Some (Z.to_nat id)) : M wasm (option nat)) w = Ok (wasm_find (wa_hooks w) (ad_name a)) w' ∧
    wasm_steady w w' ∧ wa_bufs w' = wa_bufs w ∧ wa_calls w' = wa_calls w ∧
    (∃ a', wa_adapters w' !! p = Some a' ∧ ad_ret_size a' = ad_ret_size a).
Proof.
  intros Hwf Ha. cbv zeta.
  destruct ((ad_hook_id a <? 0) || (Z.of_nat (length (wa_hooks w)) <=? ad_hook_id a) ||
    negb (from_option (λ s, String.eqb (ws_name s) (ad_name a)) false (wa_hooks w !! Z.to_nat (ad_hook_id a)))) eqn:Hg.
  - destruct (wasm_find (wa_hooks w) (ad_name a)) as [i|].
    + rewrite (bind_Ok _ _ _ _ _ (wasm_hook_id_Ok _ _ _ _ Ha)). eexists. split; [done|].
      split_and!; [by apply wasm_steady_hook_id|done|done|].
      eexists. split; [simpl; by rewrite lookup_insert_eq|done].
    + exists w. split_and!; [done|reflexivity|done|done|by eauto].
  - apply orb_false_iff in Hg as [Hg Hn]. apply negb_false_iff in Hn.
    destruct (wa_hooks w !! Z.to_nat (ad_hook_id a)) as [s|] eqn:Hs; simpl in Hn; [|done].
    apply String.eqb_eq in Hn. rewrite (wasm_find_wf _ _ _ _ Hwf Hs Hn).
    exists w. split_and!; [done|reflexivity|done|done|by eauto].
Qed.

(** C29. Calling a hook in a WebAssembly module, from any hook id the adapter
    carries, stale or not: a name nobody registered answers [XY_ERR_NOTFOUND]
    with the caller's buffer zeroed; otherwise every listener of the name that
    has a function is called once, in the order they registered, and the call
    ends with [XY_OK] and the number of them remembered for [xy_last]. *)
Theorem wasm_call_contract w p a retp arg fuel :
  wasm_wf (wa_hooks w) → wa_adapters w !! p = Some a →
  let l := listeners_of (wa_hooks w) (ad_name a) in
  (l = [] → (∀ r, retp = Some r → ∃ b, wa_bufs w !! r = Some b ∧ (Z.to_nat (ad_ret_size a) ≤ length b)%nat) →
    ∃ w', wasm_xy_call fuel retp (Some p) arg w = Ok XY_ERR_NOTFOUND w' ∧ wa_err w' = XY_ERR_NOTFOUND ∧
      wa_calls w' = wa_calls w ∧
      (∀ r, retp = Some r → 0 < ad_ret_size a → ∃ b, wa_bufs w' !! r = Some b ∧
        take (Z.to_nat (ad_ret_size a)) b = replicate (Z.to_nat (ad_ret_size a)) 0)) ∧
  (l ≠ [] → (length l < fuel)%nat → (∀ q, q ∈ l → wasm_answers w retp arg q) →
    ∃ w', wasm_xy_call fuel retp (Some p) arg w = Ok XY_OK w' ∧ wa_err w' = XY_OK ∧
      (∃ tr, wa_calls w' = wa_calls w ++ tr ∧ nested ((λ q, (q, arg)) <$> callable w l) tr) ∧
      wa_last_ran w' = u32 (Z.of_nat (length (callable w l)))).
Proof.
  intros Hwf Ha l. destruct (wasm_call_slot w p a Hwf Ha) as (w1 & Hslot & Hs1 & Hb1 & Hc1 & (a1 & Ha1 & Hsz1)).
  unfold wasm_xy_call. rewrite (bind_Ok _ _ _ _ _ (wasm_aget_Ok _ _ _ Ha)).
  rewrite (bind_Ok (gets _) _ _ (wa_hooks w) w) by done. rewrite (bind_Ok _ _ _ _ _ Hslot).
  unfold listeners_of in l. split.
  - intros Hnil Hfit.
    assert ((wasm_find (wa_hooks w) (ad_name a) ≫= λ i, s ← wa_hooks w !! i;
      if decide (ws_listeners s = []) then None else Some i) = None) as ->.
    { destruct (wasm_find (wa_hooks w) (ad_name a)) as [i|]; [|done]. simpl in *.
      destruct (wa_hooks w !! i); [|done]. simpl in *. by rewrite decide_True. }
    rewrite (bind_Ok _ _ _ _ _ (wasm_aget_Ok _ _ _ Ha1)), Hsz1. destruct retp as [r|].
    + destruct (Hfit r eq_refl) as (b & Hb & Hlen). destruct (Z.ltb_spec 0 (ad_ret_size a)) as [Hpos|Hneg].
      * erewrite bind_Ok.
        2: { unfold wasm_zero_buf. rewrite (bind_Ok _ _ _ b w1)
               by (unfold mbind, M_bind, gets, deref; by rewrite Hb1, Hb). by rewrite decide_True. }
        eexists. split; [done|]. split_and!; [done|done|]. intros r' [= <-] _. eexists.
        split; [simpl; by rewrite lookup_insert_eq|]. by rewrite take_app_le, take_ge by (by rewrite length_replicate).
      * rewrite (bind_Ok (mret tt) _ _ tt w1) by done. eexists. split; [done|]. split_and!; [done|done|]. lia.
    + rewrite (bind_Ok (mret tt) _ _ tt w1) by done. eexists. split; [done|]. by split_and!.
  - intros Hne Hfuel Hans. destruct (wasm_find (wa_hooks w) (ad_name a)) as [i|] eqn:Hf; [|done].
    pose proof (wasm_find_Some _ _ _ Hf) as (s & Hs & _).
    assert (Hlist : l = ws_listeners s) by (unfold l; simpl; by rewrite Hs). clearbody l. subst l.
    assert ((Some i ≫= λ i, s ← wa_hooks w !! i; if decide (ws_listeners s = []) then None else Some i) = Some i)
      as -> by (simpl; rewrite Hs; simpl; by rewrite decide_False).
    set (w2 := w1 <| wa_current_adapter := Some p |> <| wa_last_retp := retp |> <| wa_last_ran := 0 |>).
    rewrite (bind_Ok (modify _) _ _ tt w2) by done.
    assert (Hs2 : wasm_steady w w2) by (transitivity w1; [done|by apply wasm_steady_frame]).
    destruct (wasm_loop_run i s retp arg (ws_listeners s) fuel 0 0 w2) as (w3 & H3 & _ & (tr & Htr & Hn) & Hr);
      [by rewrite (wy_hooks _ _ Hs2)|done|done|intros q Hq; by eapply wasm_answers_steady, Hans|].
    rewrite (callable_steady w w2 retp arg _ Hs2 Hans) in Hn, Hr.
    rewrite (bind_Ok _ _ _ _ _ H3). eexists. split; [done|]. split_and!; [done| |].
    + exists tr. split; [|done]. simpl. by rewrite Htr, <- Hc1.
    + simpl. rewrite Hr. by case_decide as Hnil; [rewrite Hnil|].
Qed.

(** ** Names that do not fit *)

Definition wasm_names_fit w : Prop :=
  ∀ i s, wa_hooks w !! i = Some s → (String.length (ws_name s) ≤ WASM_NAME_MAX)%nat.

Lemma areg_names_fit name adapter : respects (keeps wasm_names_fit) (wasm_xy_areg name adapter).
Proof.
  assert (Hframe : ∀ f : wasm → wasm, (∀ w, wa_hooks (f w) = wa_hooks w) →
    respects (keeps wasm_names_fit) (modify f)).
  { intros f Hf. apply respects_modify. intros w Hw i s. rewrite Hf. apply Hw. }
  assert (Halter : ∀ (g : wasm_slot → wasm_slot) i, (∀ s, ws_name (g s) = ws_name s) →
    respects (keeps wasm_names_fit) (modify (λ w, w <| wa_hooks ::= alter g i |>))).
  { intros g i Hg. apply respects_modify. intros w Hw j s. simpl. destruct (decide (i = j)) as [->|].
    - rewrite list_lookup_alter_eq. intros (s0 & H0 & ->)%fmap_Some. rewrite Hg. by eapply Hw.
    - rewrite list_lookup_alter_ne by done. apply Hw. }
  unfold wasm_xy_areg, wasm_aget, wasm_err_ret, wasm_set_err, wasm_hook_id, wasm_aget, wasm_malloc.
  solve_respects; try by apply Hframe. all: try (apply Halter; by intros).
  apply respects_modify. intros w Hw j x. simpl. intros [?|[_ Hx]]%lookup_app_Some; [by eapply Hw|].
  apply list_lookup_singleton_Some in Hx as [_ <-]. apply substring_length.
Qed.

(** C31. A name longer than the slot's buffer is registered in vain: the slot
    keeps its first 63 characters, which no comparison with the whole name
    meets, so that a call of it answers [XY_ERR_NOTFOUND] although the
    registration answered an id. *)
Theorem wasm_long_name_lost w name p q b arg fuel w1 id :
  wasm_names_fit w → (WASM_NAME_MAX < String.length name)%nat →
  wasm_xy_areg (Some name) (Some p) w = Ok id w1 → wa_adapters w1 !! q = Some b → ad_name b = name →
  wasm_xy_call fuel None (Some q) arg w1 = Ok XY_ERR_NOTFOUND (w1 <| wa_err := XY_ERR_NOTFOUND |>).
Proof.
  intros Hfit Hlong Hrun Hb Hname.
  pose proof (areg_names_fit _ _ _ _ _ Hrun Hfit) as Hfit1.
  assert (Hne : ∀ i s, wa_hooks w1 !! i = Some s → ws_name s ≠ ad_name b).
  { intros i s Hs Heq. apply Hfit1 in Hs. rewrite Heq, Hname in Hs. lia. }
  unfold wasm_xy_call. rewrite (bind_Ok _ _ _ _ _ (wasm_aget_Ok _ _ _ Hb)).
  rewrite (bind_Ok (gets _) _ _ (wa_hooks w1) w1) by done. cbv zeta.
  rewrite (proj2 (wasm_find_None _ _) Hne).
  assert ((ad_hook_id b <? 0) || (Z.of_nat (length (wa_hooks w1)) <=? ad_hook_id b) ||
    negb (from_option (λ s, String.eqb (ws_name s) (ad_name b)) false (wa_hooks w1 !! Z.to_nat (ad_hook_id b))) = true) as ->.
  { destruct (wa_hooks w1 !! Z.to_nat (ad_hook_id b)) as [s|] eqn:Hs; simpl; [|by rewrite orb_true_r].
    apply Hne in Hs. apply String.eqb_neq in Hs. by rewrite Hs, orb_true_r. }
  rewrite (bind_Ok (mret None) _ _ None w1) by done. cbn [mbind option_bind].
  by rewrite (bind_Ok _ _ _ _ _ (wasm_aget_Ok _ _ _ Hb)).
Qed.
End props.

(** ** On a concrete module *)

Section witnesses.
Definition quiet_host : WasmHost := {|
  wh_call _ _ _ w := Ok tt w;
  wh_load_module _ w := Ok 0 w;
  wh_unload_module _ w := Ok 0 w;
  wh_scope _ _ w := Ok 0 w
|}.
Local Existing Instance quiet_host.

Definition wasm_adapter (name : string) : adapter :=
  Adapter name 8 4 (Some (AdapterFn 4 None)) (-1).
Definition long_name : string := String.concat "" (replicate 64 "x").
Definition wasm_start : wasm :=
  wasm_zero {[1%positive := wasm_adapter "look"; 2%positive := wasm_adapter "look";
              3%positive := wasm_adapter long_name]} {[9%positive := [7; 7; 7; 7]]}.

(** The state a computation leaves. *)
Definition wasm_after {A} (m : M wasm A) (w : wasm) : wasm :=
  match m w with Ok _ w' => w' | _ => w end.
Definition wasm_two : wasm :=
  wasm_after (wasm_xy_areg (Some "look") (Some 2%positive))
    (wasm_after (wasm_xy_areg (Some "look") (Some 1%positive)) wasm_start).

Lemma wasm_start_wf : wasm_wf (wa_hooks wasm_start).
Proof. split; simpl; [unfold XY_WASM_MAX_HOOKS; lia|done..]. Qed.

Lemma wasm_areg_contract_witness :
  ∃ i hooks, wasm_xy_areg (Some "look") (Some 1%positive) wasm_start =
      Ok (Z.of_nat i) (wasm_registered wasm_start 1%positive (wasm_adapter "look") i hooks) ∧
    wasm_wf hooks ∧ listeners_of hooks "look" = [1%positive].
Proof.
  destruct (proj2 (wasm_areg_contract wasm_start "look" 1%positive (wasm_adapter "look") eq_refl eq_refl
    wasm_start_wf ltac:(vm_compute; lia))) as (i & hooks & Hrun & Hwf & _ & Hl & _).
  - vm_compute. discriminate.
  - intros [Hfull _]. vm_compute in Hfull. discriminate.
  - exists i, hooks. split; [exact Hrun|]. split; [exact Hwf|]. rewrite Hl. reflexivity.
Defined.

Lemma wasm_two_wf : wasm_wf (wa_hooks wasm_two).
Proof.
  assert (wa_hooks wasm_two = [WasmSlot "look" [1; 2]%positive 0]) as -> by (vm_compute; reflexivity).
  assert (H : ∀ i s, [WasmSlot "look" [1; 2]%positive 0] !! i = Some s →
    i = 0%nat ∧ s = WasmSlot "look" [1; 2]%positive 0).
  { intros [|i] s Hs; [by injection Hs as <-|done]. }
  split.
  - vm_compute. lia.
  - by intros i s [-> ->]%H.
  - intros i s [-> ->]%H. vm_compute. lia.
  - by intros i j s s' [-> ->]%H [-> ->]%H.
Qed.

(** Both listeners run, in the order they registered. *)
Lemma wasm_call_contract_witness :
  ∃ w', wasm_xy_call 3 (Some 9%positive) (Some 2%positive) 5 wasm_two = Ok XY_OK w' ∧
    wa_calls w' = [(1%positive, 5); (2%positive, 5)] ∧ wa_last_ran w' = 2.
Proof.
  destruct (proj2 (wasm_call_contract wasm_two 2%positive (wasm_adapter "look" <| ad_hook_id := 0 |>)
    (Some 9%positive) 5 3 wasm_two_wf eq_refl)) as (w' & Hrun & _ & (tr & Htr & Hn) & Hr).
  - vm_compute. discriminate.
  - vm_compute. lia.
  - intros q Hq.
    assert (q = 1%positive ∨ q = 2%positive) as Hor by (vm_compute in Hq; set_solver).
    assert (Hq' : ∃ a, wa_adapters wasm_two !! q = Some a)
      by (destruct Hor as [-> | ->]; eexists; vm_compute; reflexivity).
    destruct Hq' as [a Ha]. exists a. split; [exact Ha|]. intros f w0 _ _.
    exists tt, w0, []. split; [reflexivity|]. split; [reflexivity|]. symmetry. apply app_nil_r.
  - exists w'. split; [exact Hrun|]. split; [|exact Hr].
    assert (Hn' : nested [(1%positive, 5); (2%positive, 5)] tr) by exact Hn. clear Hn.
    assert (Hcalls : w' = wasm_after (wasm_xy_call 3 (Some 9%positive) (Some 2%positive) 5) wasm_two)
      by (unfold wasm_after; rewrite Hrun; reflexivity).
    rewrite Hcalls. vm_compute. reflexivity.
Defined.

Lemma wasm_long_name_lost_witness :
  let w1 := wasm_after (wasm_xy_areg (Some long_name) (Some 3%positive)) wasm_start in
  wasm_xy_call 1 None (Some 3%positive) 5 w1 = Ok XY_ERR_NOTFOUND (w1 <| wa_err := XY_ERR_NOTFOUND |>).
Proof.
  intros w1. apply (wasm_long_name_lost wasm_start long_name 3%positive 3%positive
    (wasm_adapter long_name <| ad_hook_id := 0 |>) 5 1 w1 0).
  - intros i s Hs. vm_compute in Hs. discriminate.
  - vm_compute. lia.
  - vm_compute. reflexivity.
  - vm_compute. reflexivity.
  - reflexivity.
Defined.
End witnesses.
