(* ===== verification/Watch.v ===== *)
(** * The file watcher

    src/src/libxylem-watch.c: a set of module paths, an inotify descriptor and
    one background thread that reloads the module of a file that was written.
    Every function runs under [g_mu]; this file translates the functions, and
    WatchSteps.v interleaves them with the watcher thread. *)
From Stdlib Require Import Ascii.
From S2P Require Import Prelude.
#[local] Open Scope Z_scope.

Definition XY_WATCH_MAX : nat := 256.
Definition IN_CLOSE_WRITE : Z := 8.
Definition IN_MOVED_TO : Z := 128.
Definition XY_WATCH_MASK : Z := Z.lor IN_CLOSE_WRITE IN_MOVED_TO.
(** [sizeof(buf)] in [entry_rewatch]; [sizeof(evbuf)] divided by the smallest
    [struct inotify_event] *)
Definition SO_PATH_MAX : nat := 4096.
Definition EVENTS_MAX : nat := 256.
Definition ENOMEM : Z := 12.

(** [xy_watch_entry_t] *)
Record watch_entry := WatchEntry { we_fname : string; we_wd : Z }.
#[export] Instance watch_entry_eta : Eta watch_entry := {| eta_expand := λ e,
  WatchEntry (we_fname e) (we_wd e) |}.

(** The fields of [struct inotify_event] the code reads; its [len] only says
    where the next one starts. *)
Record inotify_event := InotifyEvent { ev_wd : Z; ev_mask : Z }.

(** A call of this library. *)
Inductive watch_call :=
  | Call_start | Call_stop | Call_add (fname : option string) | Call_remove (fname : option string).

(** Where the watcher thread stands: at the head of [for (;;)], in [select]
    with the descriptors it was given, before [read], before the next of the
    events it read, before the second [pthread_mutex_lock] for a file, in
    [xy_reload] with the calls the reloaded module still makes to this
    library, or ended. *)
Inductive watcher_pc :=
  | W_top
  | W_select (ifd pipe_r : Z)
  | W_read
  | W_events (evs : list inotify_event)
  | W_relock (fname : string) (evs : list inotify_event)
  | W_reload (fname : string) (evs : list inotify_event) (calls : list watch_call)
  | W_done.

(** What the library asked of the system, with the answers. *)
Inductive sys :=
  | Sys_strdup (ok : bool)
  | Sys_init (fd : Z)
  | Sys_pipe (fds : option (Z * Z))
  | Sys_add (fd : Z) (path : string) (wd : Z)
  | Sys_rm (fd wd : Z)
  | Sys_create (ret : Z)
  | Sys_write (fd : Z)
  | Sys_close (fd : Z)
  | Sys_reload (fname : string).

(** The file's globals, [errno], and what they reach: the pipes that are open,
    from read end to write end, the write ends holding a byte, and the watcher
    threads created so far. [g_entry_count] is the length of [g_entries]. *)
Record watch := Watch {
  g_mu : bool;
  g_thread : nat;
  g_ifd : Z;
  g_running : bool;
  g_entries : list watch_entry;
  g_pipe_r : Z;
  g_pipe_w : Z;
  wt_errno : Z;
  wt_pipes : gmap Z Z;
  wt_written : gset Z;
  wt_threads : list watcher_pc;
  wt_log : list sys
}.
#[export] Instance watch_eta : Eta watch := {| eta_expand := λ w,
  Watch (g_mu w) (g_thread w) (g_ifd w) (g_running w) (g_entries w) (g_pipe_r w) (g_pipe_w w)
    (wt_errno w) (wt_pipes w) (wt_written w) (wt_threads w) (wt_log w) |}.
Definition watch_zero : watch := Watch false 0 (-1) false [] (-1) (-1) 0 ∅ ∅ [] [].

(** The answers of the system, which may depend on all it was asked before,
    and the calls a module makes to this library while it is reloaded. *)
Class Kernel := {
  k_strdup : list sys → string → bool;
  k_inotify_init1 : list sys → Z;
  k_pipe : list sys → option (Z * Z);
  k_add_watch : list sys → Z → string → Z;
  k_create : list sys → Z;
  reload_calls : string → list watch_call
}.

(** A pipe has two descriptors, which are not negative; a watch that fails is
    -1. *)
Class KernelLaws (K : Kernel) : Prop := {
  k_pipe_fds l r w : k_pipe l = Some (r, w) → 0 ≤ r ∧ 0 ≤ w ∧ r ≠ w;
  k_add_watch_wd l fd p : -1 ≤ k_add_watch l fd p
}.

Section watch.
Context {K : Kernel}.
Abbreviation M := (M watch).

Definition emit (s : sys) : M unit := modify (λ w, w <| wt_log ::= (λ l, l ++ [s]) |>).

(** [pthread_mutex_lock] of a mutex that is held blocks, which a computation
    on its own never leaves; an [unlock] of one that is not has no meaning. *)
Definition lock : M unit := gets g_mu ≫= λ b : bool, if b then crash else modify (λ w, w <| g_mu := true |>).
Definition unlock : M unit := gets g_mu ≫= λ b : bool, if b then modify (λ w, w <| g_mu := false |>) else crash.
(** Leave a critical section with a result. *)
Definition unlock_ret {A} (a : A) : M A := unlock;; mret a.

Definition strdup (s : string) : M bool :=
  l ← gets wt_log; let ok := k_strdup l s in emit (Sys_strdup ok);; mret ok.
Definition inotify_init1 : M Z :=
  l ← gets wt_log; let fd := k_inotify_init1 l in emit (Sys_init fd);; mret fd.
Definition pipe : M (option (Z * Z)) :=
  l ← gets wt_log; let o := k_pipe l in emit (Sys_pipe o);;
  match o with
  | Some (r, wr) =>
      modify (λ w, w <| wt_pipes ::= <[r := wr]> |> <| wt_written ::= (λ s, s ∖ {[wr]}) |>);; mret o
  | None => mret None
  end.
Definition inotify_add_watch (fd : Z) (path : string) : M Z :=
  l ← gets wt_log; let wd := k_add_watch l fd path in emit (Sys_add fd path wd);; mret wd.
Definition inotify_rm_watch (fd wd : Z) : M unit := emit (Sys_rm fd wd).
Definition close (fd : Z) : M unit :=
  emit (Sys_close fd);;
  modify (λ w, w <| wt_pipes ::= delete fd |> <| wt_written ::= (λ s, s ∖ {[fd]}) |>).
Definition write_byte (fd : Z) : M unit :=
  emit (Sys_write fd);; modify (λ w, w <| wt_written ::= (λ s, {[fd]} ∪ s) |>).
(** A thread that is created starts at the head of its loop. *)
Definition pthread_create : M Z :=
  l ← gets wt_log; let ret := k_create l in emit (Sys_create ret);;
  if ret =? 0
  then modify (λ w, w <| g_thread := length (wt_threads w) |> <| wt_threads ::= (λ l, l ++ [W_top]) |>);; mret ret
  else mret ret.
(** [pthread_join] of a thread that has not ended blocks. *)
Definition pthread_join (t : nat) : M unit :=
  o ← gets (λ w, wt_threads w !! t);
  match o with Some W_done => mret tt | _ => crash end.

(** [make_so_path] *)
Definition make_so_path (fname : string) (buf_len : nat) : option string :=
  let s := (fname +:+ ".so")%string in
  if decide (buf_len ≤ String.length s)%nat then None else Some s.

(** [entry_find] and [entry_find_by_wd]: the first entry of the name or of the
    watch descriptor, -1 being [None] *)
Fixpoint entry_index (p : watch_entry → bool) (l : list watch_entry) : option nat :=
  match l with
  | [] => None
  | e :: l' => if p e then Some O else S <$> entry_index p l'
  end.
Definition entry_find (fname : string) : M (option nat) :=
  gets (λ w, entry_index (λ e, String.eqb (we_fname e) fname) (g_entries w)).
Definition entry_find_by_wd (wd : Z) : M (option nat) :=
  gets (λ w, entry_index (λ e, we_wd e =? wd) (g_entries w)).

(** [entry_rewatch] *)
Definition entry_rewatch (i : nat) : M unit :=
  ifd ← gets g_ifd;
  if ifd <? 0 then mret tt
  else
    e ← gets (λ w, g_entries w !! i) ≫= deref;
    match make_so_path (we_fname e) SO_PATH_MAX with
    | None => mret tt
    | Some path =>
        wd ← inotify_add_watch ifd path;
        modify (λ w, w <| g_entries ::= alter (λ e, e <| we_wd := wd |>) i |>)
    end.

(** Closing the three descriptors, as both functions do. *)
Definition close_all : M unit :=
  ifd ← gets g_ifd; close ifd;; modify (λ w, w <| g_ifd := -1 |>);;
  r ← gets g_pipe_r; close r;; modify (λ w, w <| g_pipe_r := -1 |>);;
  wr ← gets g_pipe_w; close wr;; modify (λ w, w <| g_pipe_w := -1 |>).

(** [xy_watch_start] from [pthread_create] on. *)
Definition watch_create : M Z :=
  ret ← pthread_create;
  if negb (ret =? 0) then close_all;; unlock;; modify (λ w, w <| wt_errno := ret |>);; mret (-1)
  else modify (λ w, w <| g_running := true |>);; unlock_ret 0.

(** [xy_watch_start] *)
Definition xy_watch_start : M Z :=
  lock;;
  running ← gets g_running;
  if (running : bool) then unlock_ret 0
  else
    ifd ← inotify_init1;
    modify (λ w, w <| g_ifd := ifd |>);;
    if ifd <? 0 then unlock_ret (-1)
    else
      fds ← pipe;
      match fds with
      | None => close ifd;; modify (λ w, w <| g_ifd := -1 |>);; unlock_ret (-1)
      | Some (r, wr) =>
          modify (λ w, w <| g_pipe_r := r |> <| g_pipe_w := wr |>);;
          n ← gets (λ w, length (g_entries w));
          for_each (seq 0 n) entry_rewatch;;
          watch_create
      end.

(** [xy_watch_stop] up to [pthread_join]: whether there is a thread to wait
    for *)
Definition stop_signal : M bool :=
  lock;;
  running ← gets g_running;
  if negb running then unlock_ret false
  else
    wr ← gets g_pipe_w;
    write_byte wr;;
    modify (λ w, w <| g_running := false |>);;
    unlock_ret true.

(** [xy_watch_stop] after [pthread_join] *)
Definition stop_close : M unit :=
  lock;;
  close_all;;
  modify (λ w, w <| g_entries ::= fmap (λ e, e <| we_wd := -1 |>) |>);;
  unlock.

(** [xy_watch_stop] *)
Definition xy_watch_stop : M unit :=
  wait ← stop_signal;
  if (wait : bool) then (t ← gets g_thread; pthread_join t);; stop_close else mret tt.

(** [xy_watch_add] *)
Definition xy_watch_add (fname : option string) : M Z :=
  match fname with
  | None => mret (-1)
  | Some f =>
      lock;;
      idx ← entry_find f;
      match idx with
      | Some _ => unlock_ret 0
      | None =>
          n ← gets (λ w, length (g_entries w));
          if decide (XY_WATCH_MAX ≤ n)%nat then
            unlock;; modify (λ w, w <| wt_errno := ENOMEM |>);; mret (-1)
          else
            copy ← strdup f;
            if negb copy then unlock_ret (-1)
            else
              modify (λ w, w <| g_entries ::= (λ l, l ++ [WatchEntry f (-1)]) |>);;
              ifd ← gets g_ifd;
              (if 0 <=? ifd then entry_rewatch n else mret tt);;
              unlock_ret 0
      end
  end.

(** The loop that closes the gap: entry [i + 1] moves to [i], up to the last. *)
Fixpoint compact (n i : nat) (l : list watch_entry) : list watch_entry :=
  match n with
  | O => l
  | S n' => compact n' (S i) (match l !! S i with Some e => <[i := e]> l | None => l end)
  end.

(** [xy_watch_remove] *)
Definition xy_watch_remove (fname : option string) : M unit :=
  match fname with
  | None => mret tt
  | Some f =>
      lock;;
      idx ← entry_find f;
      match idx with
      | None => unlock
      | Some i =>
          ifd ← gets g_ifd;
          e ← gets (λ w, g_entries w !! i) ≫= deref;
          (if (0 <=? ifd) && (0 <=? we_wd e) then inotify_rm_watch ifd (we_wd e) else mret tt);;
          modify (λ w, w <| g_entries ::= (λ l,
            take (length l - 1) (compact (length l - 1 - i) i l)) |>);;
          unlock
      end
  end.

(** The watcher thread on one event, up to the second lock: the file to
    reload, if any. *)
Definition watcher_event (ev : inotify_event) : M (option string) :=
  if Z.land (ev_mask ev) XY_WATCH_MASK =? 0 then mret None
  else
    lock;;
    idx ← entry_find_by_wd (ev_wd ev);
    match idx with
    | None => unlock_ret None
    | Some i =>
        e ← gets (λ w, g_entries w !! i) ≫= deref;
        copy ← strdup (we_fname e);
        (if negb (Z.land (ev_mask ev) IN_MOVED_TO =? 0) then entry_rewatch i else mret tt);;
        unlock_ret (if (copy : bool) then Some (we_fname e) else None)
    end.

(** A call made by someone else. *)
Definition watch_api (c : watch_call) : M unit :=
  match c with
  | Call_start => xy_watch_start;; mret tt
  | Call_stop => xy_watch_stop
  | Call_add f => xy_watch_add f;; mret tt
  | Call_remove f => xy_watch_remove f
  end.

(** [xy_reload] under the lock, with what the module does meanwhile. *)
Definition watcher_reload (fname : string) : M unit :=
  lock;; emit (Sys_reload fname);; for_each (reload_calls fname) watch_api;; unlock.

(** The loop over the events that were read. *)
Definition watcher_events (evs : list inotify_event) : M unit :=
  for_each evs (λ ev,
    o ← watcher_event ev;
    match o with None => mret tt | Some f => watcher_reload f end).
End watch.
