(* ===== verification/WatchProps.v ===== *)
(** * What the watch set promises

    The public functions of the watcher as they run on their own: the set of
    names they keep, the watches they ask for, and the mutex, which every path
    gives back. *)
From Stdlib Require Import Ascii.
From S2P Require Import Prelude Watch.
#[local] Open Scope Z_scope.

Section props.
Context {K : Kernel}.
Implicit Types (w : watch) (l : list watch_entry) (f : string).

Definition watch_names w : list string := we_fname <$> g_entries w.

(** ** Finding an entry *)

Lemma entry_index_Some p l i :
  entry_index p l = Some i →
  ∃ e, l !! i = Some e ∧ p e = true ∧ (∀ j e', (j < i)%nat → l !! j = Some e' → p e' = false).
Proof.
  revert i. induction l as [|e l IH]; intros i; simpl; [done|].
  destruct (p e) eqn:Hp.
  - intros [= <-]. exists e. split_and!; [done|done|]. intros j e' Hj. lia.
  - destruct (entry_index p l) as [i'|]; simpl; [|done]. intros [= <-].
    destruct (IH i' eq_refl) as (e1 & H1 & H2 & H3). exists e1. split_and!; [done|done|].
    intros [|j] e' Hj He'; simpl in He'; [by injection He' as <-|]. eapply H3; [|done]. lia.
Qed.

Lemma entry_index_None p l : entry_index p l = None ↔ ∀ e, e ∈ l → p e = false.
Proof.
  induction l as [|e l IH]; simpl; [split; [set_solver|done]|].
  destruct (p e) eqn:Hp; simpl.
  - split; [done|]. intros H. specialize (H e ltac:(set_solver)). congruence.
  - destruct (entry_index p l) as [i|]; simpl.
    + split; [done|]. intros H. exfalso. assert (Some i = None); [|done]. apply IH. set_solver.
    + split; [|done]. intros _ e' [->|He']%elem_of_cons; [done|by apply (proj1 IH)].
Qed.

Lemma entry_find_None l f :
  entry_index (λ e, String.eqb (we_fname e) f) l = None ↔ f ∉ we_fname <$> l.
Proof.
  rewrite entry_index_None. split.
  - intros H (e & -> & He)%list_elem_of_fmap. apply H in He. by rewrite String.eqb_refl in He.
  - intros H e He. apply String.eqb_neq. intros <-. apply H. by apply list_elem_of_fmap_2.
Qed.

Lemma entry_find_Some l f i :
  entry_index (λ e, String.eqb (we_fname e) f) l = Some i →
  ∃ e, l !! i = Some e ∧ we_fname e = f.
Proof. intros (e & He & Hp%String.eqb_eq & _)%entry_index_Some. by exists e. Qed.

(** ** The compaction is a deletion *)

Lemma compact_app pre x suf :
  compact (length suf) (length pre) (pre ++ x :: suf) = pre ++ suf ++ [default x (last suf)].
Proof.
  revert pre x. induction suf as [|y suf IH]; intros pre x; simpl; [done|].
  assert ((pre ++ x :: y :: suf) !! S (length pre) = Some y) as ->.
  { rewrite lookup_app_r by lia. by replace (S (length pre) - length pre)%nat with 1%nat by lia. }
  rewrite insert_app_r_alt, Nat.sub_diag by lia. simpl.
  specialize (IH (pre ++ [y]) y). rewrite length_app in IH. simpl in IH.
  rewrite Nat.add_1_r, <- !app_assoc in IH. simpl in IH. rewrite IH.
  do 3 f_equal. destruct suf; [done|]. simpl. by destruct (last _) eqn:Hl; [|apply last_None in Hl].
Qed.

Lemma compact_delete l i :
  (i < length l)%nat → take (length l - 1) (compact (length l - 1 - i) i l) = delete i l.
Proof.
  intros Hi. destruct (lookup_lt_is_Some_2 _ _ Hi) as [x Hx].
  apply list_elem_of_split_length in Hx as (pre & suf & -> & ->).
  rewrite length_app. simpl. replace (length pre + S (length suf) - 1 - length pre)%nat with (length suf) by lia.
  rewrite compact_app, app_assoc, take_app_le by (rewrite length_app; lia).
  rewrite take_ge by (rewrite length_app; lia).
  rewrite delete_middle. done.
Qed.

Lemma filter_everything {A} (P : A → Prop) `{!∀ x, Decision (P x)} (l : list A) :
  Forall P l → filter P l = l.
Proof. induction 1 as [|x l Hx _ IH]; [done|]. by rewrite filter_cons, decide_True, IH. Qed.

Lemma delete_filter l i f e :
  NoDup (we_fname <$> l) → l !! i = Some e → we_fname e = f →
  delete i l = filter (λ e, we_fname e ≠ f) l.
Proof.
  intros Hnd He <-. apply list_elem_of_split_length in He as (pre & suf & -> & ->).
  rewrite delete_middle, filter_app, filter_cons, decide_False by naive_solver.
  rewrite fmap_app, fmap_cons in Hnd. apply NoDup_app in Hnd as (_ & Hpre & [Hsuf _]%NoDup_cons).
  rewrite !filter_everything; [done| |].
  - apply Forall_forall. intros e' He' Heq. apply Hsuf. rewrite <- Heq. by apply list_elem_of_fmap_2.
  - apply Forall_forall. intros e' He' Heq. apply (Hpre (we_fname e')); [by apply list_elem_of_fmap_2|].
    rewrite Heq. by left.
Qed.

(** ** Critical sections *)

(** The two forms of a state that took the lock and gave it back. *)
Lemma unlocked w : g_mu w = false → w <| g_mu := true |> <| g_mu := false |> = w.
Proof. destruct w. simpl. by intros ->. Qed.
Lemma lock_Ok w : g_mu w = false → lock w = Ok tt (w <| g_mu := true |>).
Proof. unfold lock, mbind, M_bind, gets. by intros ->. Qed.
Lemma unlock_Ok w : g_mu w = true → unlock w = Ok tt (w <| g_mu := false |>).
Proof. unfold unlock, mbind, M_bind, gets. by intros ->. Qed.
Lemma unlock_ret_Ok {A} (a : A) w : g_mu w = true → unlock_ret a w = Ok a (w <| g_mu := false |>).
Proof. intros H. unfold unlock_ret. by rewrite (bind_Ok _ _ _ _ _ (unlock_Ok _ H)). Qed.

(** ** Asking for a watch *)

(** The file to watch for a name, when the library watches at all. *)
Definition watched_path w f : option string :=
  if g_ifd w <? 0 then None else make_so_path f SO_PATH_MAX.

(** The watch of [entry_rewatch]: the descriptor it leaves, and its call. *)
Definition rewatched w f (wd : Z) : Z * list sys :=
  match watched_path w f with
  | None => (wd, [])
  | Some path => let wd := k_add_watch (wt_log w) (g_ifd w) path in (wd, [Sys_add (g_ifd w) path wd])
  end.

Lemma watch_entry_same (e : watch_entry) wd : we_wd e = wd → e <| we_wd := wd |> = e.
Proof. intros <-. by destruct e. Qed.

Lemma entry_rewatch_Ok w i e :
  g_entries w !! i = Some e →
  entry_rewatch i w = Ok tt (w
    <| g_entries := <[i := e <| we_wd := (rewatched w (we_fname e) (we_wd e)).1 |>]> (g_entries w) |>
    <| wt_log ::= (λ tr, tr ++ (rewatched w (we_fname e) (we_wd e)).2) |>).
Proof.
  intros He. unfold entry_rewatch, rewatched, watched_path.
  assert (Hsame : w = w <| g_entries := <[i := e <| we_wd := we_wd e |>]> (g_entries w) |>
    <| wt_log ::= (λ tr, tr ++ []) |>).
  { rewrite watch_entry_same by done. rewrite list_insert_id by done.
    destruct w; simpl. by rewrite app_nil_r. }
  rewrite (bind_Ok (gets _) _ _ (g_ifd w) w) by done. destruct (g_ifd w <? 0); [by f_equal|].
  rewrite (bind_Ok _ _ _ e w) by (unfold mbind, M_bind, gets, deref; by rewrite He).
  destruct (make_so_path (we_fname e) SO_PATH_MAX) as [path|]; [|by f_equal].
  unfold inotify_add_watch, emit, mbind, M_bind, gets, modify, mret, M_ret. simpl. f_equal. destruct w; simpl in *.
  f_equal. apply list_eq. intros j. destruct (decide (i = j)) as [->|Hne].
  - rewrite list_lookup_alter_eq, He. rewrite list_lookup_insert_eq by (by eapply lookup_lt_Some). done.
  - by rewrite list_lookup_alter_ne, list_lookup_insert_ne by done.
Qed.

(** ** Adding and removing *)

(** The state after [f] joined the set. *)
Definition watch_added w f : watch :=
  let tr := wt_log w ++ [Sys_strdup true] in
  let r := rewatched (w <| wt_log := tr |>) f (-1) in
  w <| g_entries ::= (λ l, l ++ [WatchEntry f r.1]) |> <| wt_log := tr ++ r.2 |>.

Lemma add_new_run w f :
  g_mu w = false → f ∉ watch_names w → (length (g_entries w) < XY_WATCH_MAX)%nat →
  k_strdup (wt_log w) f = true → xy_watch_add (Some f) w = Ok 0 (watch_added w f).
Proof.
  intros Hmu Hf Hlen Hdup. unfold xy_watch_add. rewrite (bind_Ok _ _ _ _ _ (lock_Ok _ Hmu)).
  unfold entry_find. rewrite (bind_Ok (gets _) _ _ None _) by (unfold gets; f_equal; by apply entry_find_None).
  rewrite (bind_Ok (gets _) _ _ (length (g_entries w)) _) by done. rewrite decide_False by lia.
  set (w1 := w <| g_mu := true |> <| wt_log ::= (λ tr, tr ++ [Sys_strdup true]) |>).
  rewrite (bind_Ok (strdup f) _ _ true w1); cycle 1.
  { unfold strdup, emit, mbind, M_bind, gets, modify, mret, M_ret. simpl. by rewrite Hdup. }
  cbn [negb]. set (w2 := w1 <| g_entries ::= (λ l, l ++ [WatchEntry f (-1)]) |>).
  rewrite (bind_Ok (modify _) _ _ tt w2) by done. rewrite (bind_Ok (gets _) _ _ (g_ifd w) w2) by done.
  assert (Hlast : g_entries w2 !! length (g_entries w) = Some (WatchEntry f (-1))) by (apply list_lookup_middle; done).
  assert (Hadd : watch_added w f <| g_mu := true |> = w2
    <| g_entries := <[length (g_entries w) := WatchEntry f (rewatched w2 f (-1)).1]> (g_entries w2) |>
    <| wt_log ::= (λ tr, tr ++ (rewatched w2 f (-1)).2) |>).
  { simpl. rewrite insert_app_r_alt, Nat.sub_diag by done. by destruct w. }
  assert (Hrun : (if 0 <=? g_ifd w then entry_rewatch (length (g_entries w)) else mret tt) w2 =
    Ok tt (watch_added w f <| g_mu := true |>)).
  { rewrite Hadd. pose proof (entry_rewatch_Ok w2 _ _ Hlast) as Hre. cbn [we_fname we_wd] in Hre.
    destruct (Z.leb_spec 0 (g_ifd w)) as [Hle|Hlt]; [exact Hre|].
    etransitivity; [|exact Hre]. unfold entry_rewatch. rewrite (bind_Ok (gets _) _ _ (g_ifd w) w2) by done.
    by rewrite (proj2 (Z.ltb_lt _ _) Hlt). }
  rewrite (bind_Ok _ _ _ _ _ Hrun). rewrite unlock_ret_Ok by done. f_equal. destruct w; simpl in *. by subst.
Qed.

Lemma add_known_run w f : g_mu w = false → f ∈ watch_names w → xy_watch_add (Some f) w = Ok 0 w.
Proof.
  intros Hmu Hf. unfold xy_watch_add. rewrite (bind_Ok _ _ _ _ _ (lock_Ok _ Hmu)). unfold entry_find.
  destruct (entry_index (λ e, String.eqb (we_fname e) f) (g_entries w)) as [i|] eqn:Hi.
  - rewrite (bind_Ok (gets _) _ _ (Some i) _) by (unfold gets; by rewrite <- Hi).
    rewrite unlock_ret_Ok by done. f_equal. by apply unlocked.
  - by apply entry_find_None in Hi.
Qed.

Lemma add_full_run w f :
  g_mu w = false → f ∉ watch_names w → (XY_WATCH_MAX ≤ length (g_entries w))%nat →
  xy_watch_add (Some f) w = Ok (-1) (w <| wt_errno := ENOMEM |>).
Proof.
  intros Hmu Hf Hlen. unfold xy_watch_add. rewrite (bind_Ok _ _ _ _ _ (lock_Ok _ Hmu)). unfold entry_find.
  rewrite (bind_Ok (gets _) _ _ None _) by (unfold gets; f_equal; by apply entry_find_None).
  rewrite (bind_Ok (gets _) _ _ (length (g_entries w)) _) by done. rewrite decide_True by done.
  rewrite (bind_Ok _ _ _ _ _ (unlock_Ok (w <| g_mu := true |>) ltac:(done))). by rewrite unlocked.
Qed.

Lemma add_nocopy_run w f :
  g_mu w = false → f ∉ watch_names w → (length (g_entries w) < XY_WATCH_MAX)%nat →
  k_strdup (wt_log w) f = false →
  xy_watch_add (Some f) w = Ok (-1) (w <| wt_log ::= (λ tr, tr ++ [Sys_strdup false]) |>).
Proof.
  intros Hmu Hf Hlen Hdup. unfold xy_watch_add. rewrite (bind_Ok _ _ _ _ _ (lock_Ok _ Hmu)). unfold entry_find.
  rewrite (bind_Ok (gets _) _ _ None _) by (unfold gets; f_equal; by apply entry_find_None).
  rewrite (bind_Ok (gets _) _ _ (length (g_entries w)) _) by done. rewrite decide_False by lia.
  rewrite (bind_Ok (strdup f) _ _ false (w <| g_mu := true |> <| wt_log ::= (λ tr, tr ++ [Sys_strdup false]) |>)); cycle 1.
  { unfold strdup, emit, mbind, M_bind, gets, modify, mret, M_ret. simpl. by rewrite Hdup. }
  cbn [negb]. rewrite unlock_ret_Ok by done. f_equal. destruct w; simpl in *. by subst.
Qed.

(** [xy_watch_add] gives the mutex back and answers on every path: -1 for
    NULL, 0 without effect for a name that is in the set, -1 with [ENOMEM] for
    a full set, -1 when the name cannot be copied; otherwise the name joins at
    the end of the set, with a watch on its [.so] file as soon as the library
    is watching and the path fits its buffer. *)
Theorem xy_watch_add_contract w f :
  g_mu w = false →
  xy_watch_add None w = Ok (-1) w ∧
  (f ∈ watch_names w → xy_watch_add (Some f) w = Ok 0 w) ∧
  (f ∉ watch_names w → (XY_WATCH_MAX ≤ length (g_entries w))%nat →
    xy_watch_add (Some f) w = Ok (-1) (w <| wt_errno := ENOMEM |>)) ∧
  (f ∉ watch_names w → (length (g_entries w) < XY_WATCH_MAX)%nat → k_strdup (wt_log w) f = false →
    xy_watch_add (Some f) w = Ok (-1) (w <| wt_log ::= (λ tr, tr ++ [Sys_strdup false]) |>)) ∧
  (f ∉ watch_names w → (length (g_entries w) < XY_WATCH_MAX)%nat → k_strdup (wt_log w) f = true →
    xy_watch_add (Some f) w = Ok 0 (watch_added w f)).
Proof.
  intros Hmu. split_and!; [done|..]; intros;
    [by apply add_known_run|by apply add_full_run|by apply add_nocopy_run|by apply add_new_run].
Qed.

(** A name that joins the set joins it so. *)
Lemma add_Ok_inv w f w1 :
  g_mu w = false → f ∉ watch_names w → xy_watch_add (Some f) w = Ok 0 w1 → w1 = watch_added w f.
Proof.
  intros Hmu Hf. destruct (decide (XY_WATCH_MAX ≤ length (g_entries w))%nat) as [Hfull|Hroom].
  - rewrite add_full_run by done. done.
  - destruct (k_strdup (wt_log w) f) eqn:Hdup.
    + rewrite add_new_run by (done || lia). by intros [= <-].
    + rewrite add_nocopy_run by (done || lia). done.
Qed.

(** The calls of a removal. *)
Definition unwatched w (wd : Z) : list sys :=
  if (0 <=? g_ifd w) && (0 <=? wd) then [Sys_rm (g_ifd w) wd] else [].

Lemma remove_run w f i e :
  g_mu w = false → entry_index (λ e, String.eqb (we_fname e) f) (g_entries w) = Some i →
  g_entries w !! i = Some e →
  xy_watch_remove (Some f) w = Ok tt (w <| g_entries ::= delete i |>
    <| wt_log ::= (λ tr, tr ++ unwatched w (we_wd e)) |>).
Proof.
  intros Hmu Hi He. unfold xy_watch_remove. rewrite (bind_Ok _ _ _ _ _ (lock_Ok _ Hmu)).
  unfold entry_find. rewrite (bind_Ok (gets _) _ _ (Some i) _) by (unfold gets; by rewrite <- Hi).
  set (w1 := w <| g_mu := true |>). rewrite (bind_Ok (gets _) _ _ (g_ifd w) w1) by done.
  rewrite (bind_Ok _ _ _ e w1) by (unfold mbind, M_bind, gets, deref; simpl; by rewrite He).
  set (w2 := w1 <| wt_log ::= (λ tr, tr ++ unwatched w (we_wd e)) |>).
  rewrite (bind_Ok _ _ w1 tt w2); cycle 1.
  { unfold w2, unwatched. destruct ((0 <=? g_ifd w) && (0 <=? we_wd e)); [done|].
    unfold mret, M_ret. f_equal. unfold w1. destruct w; simpl. by rewrite app_nil_r. }
  rewrite (bind_Ok (modify _) _ _ tt (w2 <| g_entries ::= delete i |>)); cycle 1.
  { unfold modify. f_equal. apply lookup_lt_Some in He. unfold w2, w1. destruct w; simpl in *.
    by rewrite compact_delete. }
  rewrite unlock_Ok by done. f_equal. unfold w2, w1. destruct w; simpl in *. by subst.
Qed.

(** [xy_watch_remove] gives the mutex back; a name that is not in the set
    changes nothing, and one that is leaves it, the others keeping their order
    and their watches; its own watch is taken back if there is one. *)
Theorem xy_watch_remove_contract w f :
  g_mu w = false → NoDup (watch_names w) →
  xy_watch_remove None w = Ok tt w ∧
  (f ∉ watch_names w → xy_watch_remove (Some f) w = Ok tt w) ∧
  (∀ wd, WatchEntry f wd ∈ g_entries w →
    xy_watch_remove (Some f) w = Ok tt (w
      <| g_entries := filter (λ e, we_fname e ≠ f) (g_entries w) |>
      <| wt_log ::= (λ tr, tr ++ unwatched w wd) |>)).
Proof.
  intros Hmu Hnd. split_and!; [done|..].
  - intros Hf. unfold xy_watch_remove. rewrite (bind_Ok _ _ _ _ _ (lock_Ok _ Hmu)). unfold entry_find.
    rewrite (bind_Ok (gets _) _ _ None _) by (unfold gets; f_equal; by apply entry_find_None).
    rewrite unlock_Ok by done. f_equal. by apply unlocked.
  - intros wd [j Hj]%list_elem_of_lookup.
    destruct (entry_index (λ e, String.eqb (we_fname e) f) (g_entries w)) as [i|] eqn:Hi.
    2: { apply entry_find_None in Hi. destruct Hi. change f with (we_fname (WatchEntry f wd)).
         apply list_elem_of_fmap_2. by eapply list_elem_of_lookup_2. }
    destruct (entry_find_Some _ _ _ Hi) as (e & He & Hfe).
    assert (i = j) as ->.
    { eapply (NoDup_lookup _ _ _ _ Hnd); unfold watch_names; rewrite list_lookup_fmap.
      - rewrite He. simpl. by rewrite Hfe.
      - by rewrite Hj. }
    rewrite (remove_run _ _ _ _ Hmu Hi Hj). f_equal. destruct w; simpl in *.
    by rewrite (delete_filter _ _ f (WatchEntry f wd)).
Qed.

(** Adding a name that is not in the set and removing it gives back the
    set, its watches and everything else, with the mutex free; whatever watch
    the first asked for and got, the second takes back. *)
Theorem watch_add_remove w f w1 :
  g_mu w = false → f ∉ watch_names w → xy_watch_add (Some f) w = Ok 0 w1 →
  ∃ calls, xy_watch_remove (Some f) w1 = Ok tt (w <| wt_log := wt_log w ++ calls |>) ∧
    (∀ fd path wd, Sys_add fd path wd ∈ calls → 0 ≤ wd → Sys_rm fd wd ∈ calls).
Proof.
  intros Hmu Hf Hadd. apply add_Ok_inv in Hadd; [|done..]. subst w1.
  set (w1 := watch_added w f). set (r := rewatched (w <| wt_log ::= (λ tr, tr ++ [Sys_strdup true]) |>) f (-1)).
  assert (Hlast : g_entries w1 !! length (g_entries w) = Some (WatchEntry f r.1)) by (apply list_lookup_middle; done).
  destruct (entry_index (λ e, String.eqb (we_fname e) f) (g_entries w1)) as [i|] eqn:Hi; cycle 1.
  { apply entry_find_None in Hi. destruct Hi. change f with (we_fname (WatchEntry f r.1)).
    apply list_elem_of_fmap_2. by eapply list_elem_of_lookup_2. }
  destruct (entry_find_Some _ _ _ Hi) as (e & He & Hfe).
  assert (i = length (g_entries w)) as ->.
  { destruct (decide (i = length (g_entries w))) as [|Hne]; [done|]. destruct Hf.
    apply lookup_lt_Some in He as Hlt. simpl in Hlt. rewrite length_app in Hlt. simpl in Hlt.
    simpl in He. rewrite lookup_app_l in He by lia. rewrite <- Hfe.
    apply list_elem_of_fmap_2. by eapply list_elem_of_lookup_2. }
  exists (Sys_strdup true :: r.2 ++ unwatched w1 r.1). split.
  - rewrite (remove_run w1 f _ _ Hmu Hi Hlast). f_equal. unfold w1, watch_added. destruct w; simpl.
    rewrite delete_middle, app_nil_r. f_equal. by rewrite <- !app_assoc.
  - intros fd path wd. unfold r, unwatched, rewatched.
    destruct (watched_path _ f) as [p|] eqn:Hp; simpl; [|intros; destruct (_ && _); set_solver].
    unfold watched_path in Hp. simpl in Hp. destruct (Z.ltb_spec (g_ifd w) 0); [done|].
    intros Hin Hwd.
    assert (fd = g_ifd w ∧ wd = k_add_watch (wt_log w ++ [Sys_strdup true]) (g_ifd w) p) as [-> ->].
    { apply elem_of_cons in Hin as [?|Hin]; [done|]. apply elem_of_cons in Hin as [Hin|Hin]; [by simplify_eq|].
      by destruct (_ && _); [apply list_elem_of_singleton in Hin|apply elem_of_nil in Hin]. }
    right. right. destruct (Z.leb_spec 0 (g_ifd w)); [|lia]. rewrite (proj2 (Z.leb_le _ _) Hwd). by left.
Qed.

(** ** Events *)

(** The name an event is about: that of the first entry with its watch. *)
Definition event_file w (ev : inotify_event) : option string :=
  if Z.land (ev_mask ev) XY_WATCH_MASK =? 0 then None
  else i ← entry_index (λ e, we_wd e =? ev_wd ev) (g_entries w); we_fname <$> g_entries w !! i.

Definition sys_reloaded (s : sys) : option string :=
  match s with Sys_reload f => Some f | _ => None end.

(** What handling an event relies on: names can be copied, a watch asked for
    again on a file that is still watched is the same watch, and the modules
    leave the watcher alone while they are reloaded. *)
Record calm w (ev : inotify_event) : Prop := {
  cm_copy tr f : k_strdup tr f = true;
  cm_watch tr e path : e ∈ g_entries w → we_wd e = ev_wd ev → watched_path w (we_fname e) = Some path →
    k_add_watch tr (g_ifd w) path = we_wd e;
  cm_quiet f : reload_calls f = []
}.

Lemma rewatched_calm w ev e :
  calm w ev → e ∈ g_entries w → we_wd e = ev_wd ev → (rewatched w (we_fname e) (we_wd e)).1 = we_wd e.
Proof.
  intros Hc He Hwd. unfold rewatched. destruct (watched_path w (we_fname e)) as [path|] eqn:Hp; [|done].
  simpl. by eapply cm_watch.
Qed.

Lemma watcher_event_run w ev :
  g_mu w = false → calm w ev →
  ∃ tr, watcher_event ev w = Ok (event_file w ev) (w <| wt_log ::= (λ t, t ++ tr) |>) ∧
    omap sys_reloaded tr = [].
Proof.
  intros Hmu Hcalm. unfold watcher_event, event_file.
  destruct (Z.land (ev_mask ev) XY_WATCH_MASK =? 0).
  { exists []. split; [|done]. unfold mret, M_ret. f_equal. destruct w; simpl. by rewrite app_nil_r. }
  rewrite (bind_Ok _ _ _ _ _ (lock_Ok _ Hmu)). unfold entry_find_by_wd.
  set (w1 := w <| g_mu := true |>).
  destruct (entry_index (λ e, we_wd e =? ev_wd ev) (g_entries w)) as [i|] eqn:Hi.
  - rewrite (bind_Ok (gets _) _ _ (Some i) w1) by (unfold gets; by rewrite <- Hi).
    apply entry_index_Some in Hi as (e & He & Hwd%Z.eqb_eq & _). simpl. rewrite He.
    rewrite (bind_Ok _ _ w1 e w1) by (unfold mbind, M_bind, gets, deref; simpl; by rewrite He).
    set (w2 := w1 <| wt_log ::= (λ t, t ++ [Sys_strdup true]) |>).
    rewrite (bind_Ok (strdup _) _ _ true w2); cycle 1.
    { unfold strdup, emit, mbind, M_bind, gets, modify, mret, M_ret. simpl. by rewrite (cm_copy _ _ Hcalm). }
    pose proof (list_elem_of_lookup_2 _ _ _ He) as Hin.
    destruct (Z.land (ev_mask ev) IN_MOVED_TO =? 0); cbn [negb].
    + rewrite (bind_Ok (mret tt) _ _ tt w2) by done. rewrite unlock_ret_Ok by done.
      exists [Sys_strdup true]. split; [|done]. f_equal. unfold w2, w1. destruct w; simpl in *. by subst.
    + rewrite (bind_Ok _ _ _ _ _ (entry_rewatch_Ok w2 i e He)).
      rewrite unlock_ret_Ok by done. exists (Sys_strdup true :: (rewatched w2 (we_fname e) (we_wd e)).2). split.
      * f_equal. assert (Hre : (rewatched w2 (we_fname e) (we_wd e)).1 = we_wd e).
        { apply (rewatched_calm w2 ev); [by destruct Hcalm|done|done]. }
        rewrite Hre, watch_entry_same by done. rewrite list_insert_id by done.
        unfold w2, w1. destruct w; simpl in *. subst. f_equal. by rewrite <- app_assoc.
      * unfold rewatched. by destruct (watched_path _ _).
  - rewrite (bind_Ok (gets _) _ _ None w1) by (unfold gets; by rewrite <- Hi).
    rewrite unlock_ret_Ok by done. exists []. split; [|done]. simpl. f_equal.
    unfold w1. destruct w; simpl in *. subst. by rewrite app_nil_r.
Qed.

Lemma watcher_reload_run w f :
  g_mu w = false → reload_calls f = [] →
  watcher_reload f w = Ok tt (w <| wt_log ::= (λ t, t ++ [Sys_reload f]) |>).
Proof.
  intros Hmu Hq. unfold watcher_reload. rewrite (bind_Ok _ _ _ _ _ (lock_Ok _ Hmu)).
  rewrite (bind_Ok (emit _) _ _ tt _ eq_refl), Hq. simpl for_each.
  rewrite (bind_Ok (mret tt) _ _ tt _ eq_refl), unlock_Ok by done.
  f_equal. destruct w; simpl in *. by subst.
Qed.

(** C36. A batch of events reloads, in the order of the events and once per
    event, the modules whose files they are about: events of another kind or
    of a watch that is gone reload nothing.  Each reload has the mutex to
    itself, and the batch leaves the set and its watches as they were, the
    mutex free. *)
Theorem watcher_events_contract w evs :
  g_mu w = false → Forall (calm w) evs →
  ∃ tr, watcher_events evs w = Ok tt (w <| wt_log ::= (λ t, t ++ tr) |>) ∧
    omap sys_reloaded tr = omap (event_file w) evs.
Proof.
  intros Hmu Hcalm. revert w Hmu Hcalm. induction evs as [|ev evs IH]; intros w Hmu Hcalm.
  { exists []. split; [|done]. unfold watcher_events, for_each, mret, M_ret. f_equal. destruct w; simpl. by rewrite app_nil_r. }
  apply Forall_cons in Hcalm as [Hev Hevs].
  destruct (watcher_event_run w ev Hmu Hev) as (tr1 & H1 & Hr1).
  set (w1 := w <| wt_log ::= (λ t, t ++ tr1) |>) in *.
  unfold watcher_events. cbn [for_each]. rewrite bind_assoc, (bind_Ok _ _ _ _ _ H1). simpl omap.
  assert (Hstep : ∃ tr2, (match event_file w ev with None => mret tt | Some f => watcher_reload f end) w1 =
    Ok tt (w <| wt_log ::= (λ t, t ++ tr2) |>) ∧ omap sys_reloaded tr2 = option_list (event_file w ev)).
  { destruct (event_file w ev) as [f|]; [|by exists tr1].
    exists (tr1 ++ [Sys_reload f]). split.
    - rewrite (watcher_reload_run w1 f Hmu) by (by eapply cm_quiet).
      f_equal. unfold w1. destruct w; simpl. by rewrite <- app_assoc.
    - rewrite omap_app, Hr1. done. }
  destruct Hstep as (tr2 & H2 & Hr2). rewrite (bind_Ok _ _ _ _ _ H2).
  destruct (IH (w <| wt_log ::= (λ t, t ++ tr2) |>)) as (tr3 & H3 & Hr3); [done| |].
  { eapply Forall_impl; [exact Hevs|]. intros ev' [Hc Hw Hq]. by split. }
  exists (tr2 ++ tr3). split.
  - etransitivity; [exact H3|]. f_equal. destruct w; simpl. by rewrite <- app_assoc.
  - rewrite omap_app, Hr2, Hr3. simpl. by destruct (event_file w ev).
Qed.
End props.
