(* ===== verification/WatchSteps.v ===== *)
(** * The watcher thread and its callers, interleaved

    A configuration is the state of Watch.v and the place of every calling
    thread.  A step is one critical section, or what a thread does between two
    of them: the fields are only written under [g_mu], and the watcher only
    reads descriptors outside of it, so that nothing is lost by letting a
    critical section happen at once.  A thread that waits for the mutex or for
    another thread has no step. *)
From Stdlib Require Import Ascii.
From S2P Require Import Prelude Watch WatchProps.
#[local] Open Scope Z_scope.

Definition FD_SETSIZE : Z := 1024.

(** Where a caller stands: outside, or in [xy_watch_stop] before it reads
    [g_thread], in [pthread_join], or before the second lock. *)
Inductive api_pc := A_idle | A_join | A_wait (t : nat) | A_close.
Record config := Config { cf_w : watch; cf_api : gmap nat api_pc }.

Inductive label := L_api (i : nat) | L_watcher (t : nat) | L_signal (t : nat).

(** [FD_SET] on a descriptor it has room for. *)
Definition fd_ok (fd : Z) : Prop := 0 ≤ fd < FD_SETSIZE.

(** The read end of a pipe with a byte in it. *)
Definition pending (w : watch) (p : Z) : Prop :=
  ∃ wr, wt_pipes w !! p = Some wr ∧ wr ∈ wt_written w.

(** Starting and stopping. *)
Definition controls (c : watch_call) : bool :=
  match c with Call_start | Call_stop => true | _ => false end.

Section steps.
Context {K : Kernel}.

(** One step of [watcher_thread]; the flag marks a call a signal interrupted
    ([EINTR]).  [select] answers some of the descriptors it was given, among
    them every one that has data; [read] fills its buffer. *)
Inductive watcher_next : bool → watcher_pc → watch → watcher_pc → watch → Prop :=
  | wn_top w :
      fd_ok (g_ifd w) → fd_ok (g_pipe_r w) →
      watcher_next false W_top w (W_select (g_ifd w) (g_pipe_r w)) w
  | wn_select_intr i p w : watcher_next true (W_select i p) w W_top w
  | wn_select_fail i p w : watcher_next false (W_select i p) w W_done w
  | wn_select i p (ready : gset Z) w :
      ready ⊆ {[i; p]} → ready ≠ ∅ → (pending w p → p ∈ ready) →
      watcher_next false (W_select i p) w
        (if decide (g_pipe_r w ∈ ready) then W_done
         else if decide (g_ifd w ∈ ready) then W_read else W_top) w
  | wn_read_intr w : watcher_next true W_read w W_top w
  | wn_read_fail w : watcher_next false W_read w W_done w
  | wn_read evs w : (length evs ≤ EVENTS_MAX)%nat → watcher_next false W_read w (W_events evs) w
  | wn_batch w : watcher_next false (W_events []) w W_top w
  | wn_event ev evs o w w' :
      watcher_event ev w = Ok o w' →
      watcher_next false (W_events (ev :: evs)) w
        (match o with None => W_events evs | Some f => W_relock f evs end) w'
  | wn_lock f evs w w' :
      (lock;; emit (Sys_reload f)) w = Ok tt w' →
      watcher_next false (W_relock f evs) w (W_reload f evs (reload_calls f)) w'
  | wn_call f evs c cs w w' :
      watch_api c w = Ok tt w' →
      watcher_next false (W_reload f evs (c :: cs)) w (W_reload f evs cs) w'
  | wn_unlock f evs w w' :
      unlock w = Ok tt w' →
      watcher_next false (W_reload f evs []) w (W_events evs) w'.

(** One step of the program; the callers in [ctl] start and stop. *)
Inductive watch_step (ctl : nat → Prop) : label → config → config → Prop :=
  | ws_call i c w w' T :
      T !! i = Some A_idle → (controls c = true → ctl i) → watch_api c w = Ok tt w' →
      watch_step ctl (L_api i) (Config w T) (Config w' T)
  | ws_signal i w w' T :
      T !! i = Some A_idle → ctl i → stop_signal w = Ok true w' →
      watch_step ctl (L_api i) (Config w T) (Config w' (<[i := A_join]> T))
  | ws_join i w T :
      T !! i = Some A_join →
      watch_step ctl (L_api i) (Config w T) (Config w (<[i := A_wait (g_thread w)]> T))
  | ws_joined i t w T :
      T !! i = Some (A_wait t) → wt_threads w !! t = Some W_done →
      watch_step ctl (L_api i) (Config w T) (Config w (<[i := A_close]> T))
  | ws_close i w w' T :
      T !! i = Some A_close → stop_close w = Ok tt w' →
      watch_step ctl (L_api i) (Config w T) (Config w' (<[i := A_idle]> T))
  | ws_watcher b t pc pc' w w' T :
      wt_threads w !! t = Some pc → watcher_next b pc w pc' w' →
      watch_step ctl (if b then L_signal t else L_watcher t) (Config w T)
        (Config (w' <| wt_threads ::= <[t := pc']> |>) T).

(** Sequences of steps, with their labels. *)
Inductive watch_steps (ctl : nat → Prop) : list label → config → config → Prop :=
  | wss_nil c : watch_steps ctl [] c c
  | wss_cons l ls c1 c2 c3 :
      watch_step ctl l c1 c2 → watch_steps ctl ls c2 c3 → watch_steps ctl (l :: ls) c1 c3.

(** From the library's first state, every caller outside. *)
Definition watch_start (callers : gset nat) : config := Config watch_zero (gset_to_gmap A_idle callers).
Definition watch_reaches (ctl : nat → Prop) (callers : gset nat) (c : config) : Prop :=
  ∃ ls, watch_steps ctl ls (watch_start callers) c.

Lemma watch_steps_trans ctl ls1 ls2 c1 c2 c3 :
  watch_steps ctl ls1 c1 c2 → watch_steps ctl ls2 c2 c3 → watch_steps ctl (ls1 ++ ls2) c1 c3.
Proof. induction 1; simpl; [done|]. intros. econstructor; eauto. Qed.

(** Rule induction: what holds first and is kept by every step holds
    throughout. *)
Lemma watch_steps_keep ctl (I : config → Prop) ls c c' :
  (∀ l c1 c2, watch_step ctl l c1 c2 → I c1 → I c2) → watch_steps ctl ls c c' → I c → I c'.
Proof. intros HI. induction 1; eauto. Qed.

(** ** The critical sections, as steps see them *)

Implicit Types (w : watch).

Lemma lock_inv w u w' : lock w = Ok u w' → g_mu w = false ∧ w' = w <| g_mu := true |>.
Proof. unfold lock, mbind, M_bind, gets. destruct (g_mu w); [done|]. by intros [= _ <-]. Qed.
Lemma unlock_inv w u w' : unlock w = Ok u w' → g_mu w = true ∧ w' = w <| g_mu := false |>.
Proof. unfold unlock, mbind, M_bind, gets. destruct (g_mu w); [|done]. by intros [= _ <-]. Qed.

(** A function that begins with the lock has no step while it is held. *)
Lemma locked_first {A} (k : M watch A) w r w' : (lock;; k) w = Ok r w' → g_mu w = false.
Proof. intros (u & w1 & H & _)%Ok_bind_inv. by apply lock_inv in H as [? _]. Qed.

(** The set of names is one: no name twice, none beyond the room. *)
Definition watch_set_ok w : Prop :=
  NoDup (watch_names w) ∧ (length (g_entries w) ≤ XY_WATCH_MAX)%nat.

(** Only the set, the log and [errno] may have changed. *)
Definition set_only w w' : Prop :=
  w' = w <| g_entries := g_entries w' |> <| wt_errno := wt_errno w' |> <| wt_log := wt_log w' |>.

#[export] Instance set_only_preorder : PreOrder set_only.
Proof.
  unfold set_only. split; [by intros []|].
  intros [] [] [] H1 H2. simpl in *. injection H1. injection H2. by intros; subst.
Qed.

Lemma watch_set_ok_names w w' : watch_names w' = watch_names w → watch_set_ok w → watch_set_ok w'.
Proof.
  unfold watch_set_ok. intros Hn [H1 H2]. rewrite Hn. split; [done|].
  rewrite <- (length_fmap we_fname). change (we_fname <$> g_entries w') with (watch_names w').
  rewrite Hn. unfold watch_names. by rewrite length_fmap.
Qed.

Lemma add_section f w r w' :
  xy_watch_add f w = Ok r w' → set_only w w' ∧ (watch_set_ok w → watch_set_ok w').
Proof.
  destruct f as [f|]; [|by intros [= _ <-]]. intros Hrun. pose proof (locked_first _ _ _ _ Hrun) as Hmu.
  revert Hrun. destruct (decide (f ∈ watch_names w)) as [Hin|Hout].
  { rewrite add_known_run by done. by intros [= _ <-]. }
  destruct (decide (XY_WATCH_MAX ≤ length (g_entries w))%nat) as [Hfull|Hroom].
  { rewrite add_full_run by done. intros [= _ <-]. by destruct w. }
  destruct (k_strdup (wt_log w) f) eqn:Hdup.
  - rewrite add_new_run by (done || lia). intros [= _ <-]. split; [by destruct w|]. intros [Hnd _]. split.
    + unfold watch_names. simpl. rewrite fmap_app. apply NoDup_app. split_and!; [done| |apply NoDup_singleton].
      intros x Hx ->%list_elem_of_singleton. done.
    + simpl. rewrite length_app. simpl. lia.
  - rewrite add_nocopy_run by (done || lia). intros [= _ <-]. by destruct w.
Qed.

Lemma remove_section f w u w' :
  xy_watch_remove f w = Ok u w' → set_only w w' ∧ (watch_set_ok w → watch_set_ok w').
Proof.
  destruct f as [f|]; [|by intros [= _ <-]]. intros Hrun. pose proof (locked_first _ _ _ _ Hrun) as Hmu.
  revert Hrun. destruct (entry_index (λ e, String.eqb (we_fname e) f) (g_entries w)) as [i|] eqn:Hi.
  - destruct (entry_find_Some _ _ _ Hi) as (e & He & _).
    rewrite (remove_run _ _ _ _ Hmu Hi He). intros [= _ <-]. split; [by destruct w|]. intros [Hnd Hlen]. split.
    + unfold watch_names in *. simpl. rewrite list_fmap_delete. eapply sublist_NoDup; [done|apply sublist_delete].
    + simpl. rewrite length_delete by eauto. lia.
  - unfold xy_watch_remove. rewrite (bind_Ok _ _ _ _ _ (lock_Ok _ Hmu)). unfold entry_find.
    rewrite (bind_Ok (gets _) _ _ None _) by (unfold gets; by rewrite <- Hi).
    rewrite unlock_Ok by done. rewrite unlocked by done. by intros [= _ <-].
Qed.

(** Only watch descriptors may have changed in the set. *)
Definition watches_only w w' : Prop := set_only w w' ∧ watch_names w' = watch_names w.

#[export] Instance watches_only_preorder : PreOrder watches_only.
Proof.
  unfold watches_only. split; [by split|].
  intros w1 w2 w3 [H1 N1] [H2 N2]. split; [by transitivity w2|congruence].
Qed.

Lemma entry_rewatch_only i : respects watches_only (entry_rewatch i).
Proof.
  intros w [] w' Hrun. destruct (g_entries w !! i) as [e|] eqn:He.
  - rewrite (entry_rewatch_Ok _ _ _ He) in Hrun. injection Hrun as <-. split; [by destruct w|].
    unfold watch_names. simpl. rewrite list_fmap_insert. simpl. apply list_insert_id.
    by rewrite list_lookup_fmap, He.
  - revert Hrun. unfold entry_rewatch. rewrite (bind_Ok (gets _) _ _ (g_ifd w) w) by done.
    destruct (g_ifd w <? 0); [by intros [= <-]|]. unfold mbind, M_bind, gets, deref. by rewrite He.
Qed.

Lemma watches_only_lock w w1 w' :
  w1 = w <| g_mu := true |> → g_mu w = false → watches_only w1 w' → watches_only w (w' <| g_mu := false |>).
Proof.
  intros -> Hmu [Hs Hn]. unfold set_only in Hs. split; [|exact Hn].
  unfold set_only. rewrite Hs. destruct w. simpl in *. by subst.
Qed.

Lemma emit_only s : respects watches_only (emit s).
Proof. intros w u w' [= _ <-]. split; [by destruct w|done]. Qed.
#[local] Hint Resolve emit_only entry_rewatch_only : respects.

(** The rest of a critical section: it may move watches and ends by giving the
    mutex back. *)
Definition leaves {A} (m : M watch A) : Prop :=
  ∀ w a w', m w = Ok a w' → ∃ w2, watches_only w w2 ∧ w' = w2 <| g_mu := false |>.

Lemma leaves_unlock_ret {A} (a : A) : leaves (unlock_ret a).
Proof.
  intros w a' w' (u & w1 & (_ & ->)%unlock_inv & [= _ <-])%Ok_bind_inv. by exists w.
Qed.
Lemma leaves_bind {A B} (m : M watch A) (k : A → M watch B) :
  respects watches_only m → (∀ a, leaves (k a)) → leaves (m ≫= k).
Proof.
  intros Hm Hk w b w' (a & w1 & H1%Hm & H2)%Ok_bind_inv. apply Hk in H2 as (w2 & H2 & ->).
  exists w2. split; [by transitivity w1|done].
Qed.

Lemma section_leaves {A} (k : M watch A) w a w' :
  leaves k → (lock;; k) w = Ok a w' → watches_only w w'.
Proof.
  intros Hk (u & w1 & (Hmu & Hw1)%lock_inv & H)%Ok_bind_inv.
  apply Hk in H as (w2 & H & ->). by eapply watches_only_lock.
Qed.

Lemma event_section ev w o w' : watcher_event ev w = Ok o w' → watches_only w w'.
Proof.
  unfold watcher_event. destruct (_ =? 0); [by intros [= _ <-]|]. apply section_leaves.
  apply leaves_bind; [unfold entry_find_by_wd; solve_respects|]. intros [i|]; [|apply leaves_unlock_ret].
  apply leaves_bind; [solve_respects|]. intros e.
  apply leaves_bind; [unfold strdup; solve_respects|]. intros copy.
  apply leaves_bind; [destruct (negb _); solve_respects|]. intros _. apply leaves_unlock_ret.
Qed.

(** ** Starting and stopping *)

(** The library after a start that created its thread, the last of [ts]. *)
Record started (ts : list watcher_pc) w' : Prop := {
  sd_running : g_running w' = true;
  sd_ifd : 0 ≤ g_ifd w';
  sd_pipe : 0 ≤ g_pipe_r w';
  sd_ends : wt_pipes w' !! g_pipe_r w' = Some (g_pipe_w w');
  sd_quiet : g_pipe_w w' ∉ wt_written w';
  sd_thread : g_thread w' = length ts;
  sd_threads : wt_threads w' = ts ++ [W_top]
}.

Lemma rewatch_all_only n : respects watches_only (for_each (seq 0 n) entry_rewatch).
Proof. solve_respects. Qed.

Context {KL : KernelLaws K}.

(** What closing the descriptors leaves of the state. *)
Record closed w w' : Prop := {
  cl_mu : g_mu w' = g_mu w;
  cl_ifd : g_ifd w' = -1;
  cl_running : g_running w' = g_running w;
  cl_entries : g_entries w' = g_entries w;
  cl_threads : wt_threads w' = wt_threads w
}.
Lemma close_all_inv w u w' : close_all w = Ok u w' → closed w w'.
Proof. destruct w. intros [= _ <-]. by split. Qed.

Lemma create_section w r w' :
  watch_create w = Ok r w' → g_mu w = true → g_running w = false → 0 ≤ g_ifd w → 0 ≤ g_pipe_r w →
  wt_pipes w !! g_pipe_r w = Some (g_pipe_w w) → g_pipe_w w ∉ wt_written w →
  g_mu w' = false ∧ watch_names w' = watch_names w ∧
  (g_running w' = false ∧ g_ifd w' < 0 ∧ wt_threads w' = wt_threads w ∨ started (wt_threads w) w').
Proof.
  unfold watch_create, pthread_create. intros (ret & w8 & Hcr & H)%Ok_bind_inv Hmu Hrun Hpos Hrd Hends Hquiet.
  apply Ok_bind_inv in Hcr as (tr & w9 & [= <- <-] & Hcr).
  apply Ok_bind_inv in Hcr as (u9 & w10 & [= _ <-] & Hcr).
  apply if_Ok_inv in Hcr as [[Hret Hcr]|[Hret Hcr]].
  - apply Ok_bind_inv in Hcr as (u10 & w11 & [= _ <-] & [= <- <-]).
    apply if_Ok_inv in H as [[Hneg _]|[_ H]]; [by rewrite Hret in Hneg|].
    apply Ok_bind_inv in H as (u12 & w12 & [= _ <-] & H).
    rewrite unlock_ret_Ok in H by done. injection H as _ <-. by split_and!; [..|by right].
  - injection Hcr as <- <-. apply if_Ok_inv in H as [[_ H]|[Hneg _]]; [|by rewrite Hret in Hneg].
    apply Ok_bind_inv in H as (u12 & w12 & []%close_all_inv & H). apply Ok_bind_inv in H as (u13 & w13 & (_ & ->)%unlock_inv & H).
    injection H as _ <-. split_and!; [done| |left].
    + unfold watch_names. simpl. by rewrite cl_entries0.
    + simpl. by rewrite cl_ifd0, cl_running0, cl_threads0.
Qed.

Lemma inotify_init1_inv w fd w' :
  inotify_init1 w = Ok fd w' → w' = w <| wt_log := wt_log w' |>.
Proof. intros [= _ <-]. by destruct w. Qed.
Lemma pipe_inv w o w' :
  pipe w = Ok o w' →
  match o with
  | Some (r, wr) => 0 ≤ r ∧ w' = w <| wt_log := wt_log w' |> <| wt_pipes := <[r := wr]> (wt_pipes w) |>
      <| wt_written := wt_written w ∖ {[wr]} |>
  | None => w' = w <| wt_log := wt_log w' |>
  end.
Proof.
  unfold pipe. intros (tr & w1 & [= <- <-] & H)%Ok_bind_inv.
  apply Ok_bind_inv in H as (u & w2 & [= _ <-] & H). destruct (k_pipe _) as [[r wr]|] eqn:Hk.
  - apply Ok_bind_inv in H as (u3 & w3 & [= _ <-] & [= <- <-]). apply k_pipe_fds in Hk as (Hr & _ & _).
    split; [done|]. by destruct w.
  - injection H as <- <-. by destruct w.
Qed.

Lemma start_section w r w' :
  xy_watch_start w = Ok r w' →
  g_mu w = false ∧ g_mu w' = false ∧ watch_names w' = watch_names w ∧
  (g_running w = true ∧ w' = w ∨
   g_running w = false ∧ g_running w' = false ∧ g_ifd w' < 0 ∧ wt_threads w' = wt_threads w ∨
   g_running w = false ∧ started (wt_threads w) w').
Proof.
  unfold xy_watch_start. intros (u & w1 & (Hmu & Hw1)%lock_inv & H)%Ok_bind_inv. split; [done|].
  apply Ok_bind_inv in H as (running & w2 & [= <- <-] & H).
  assert (Hsame : g_mu w1 = true ∧ g_running w1 = g_running w ∧ watch_names w1 = watch_names w ∧
    wt_threads w1 = wt_threads w) by by rewrite Hw1.
  destruct Hsame as (Hmu1 & Hrun1 & <- & Hthr1). apply if_Ok_inv in H as [[Hrun H]|[Hrun H]].
  { rewrite unlock_ret_Ok in H by done. injection H as _ <-. split_and!; [done..|]. left.
    rewrite <- Hrun1. split; [done|]. rewrite Hw1. by apply unlocked. }
  rewrite <- Hrun1, <- Hthr1, Hrun. clear Hw1 Hrun1 Hthr1 Hmu.
  apply Ok_bind_inv in H as (ifd & w2 & Hw2%inotify_init1_inv & H).
  assert (Hsame : g_mu w2 = true ∧ g_running w2 = false ∧ watch_names w2 = watch_names w1 ∧
    wt_threads w2 = wt_threads w1) by by rewrite Hw2.
  destruct Hsame as (Hmu2 & Hrun2 & <- & Hthr2). clear Hw2 Hmu1 Hrun.
  apply Ok_bind_inv in H as (u3 & w3 & [= _ <-] & H). apply if_Ok_inv in H as [[Hneg H]|[Hpos H]].
  { apply Z.ltb_lt in Hneg. rewrite unlock_ret_Ok in H by done. injection H as _ <-.
    split_and!; [done..|]. by right; left. }
  apply Z.ltb_ge in Hpos. apply Ok_bind_inv in H as (fds & w4 & Hw4%pipe_inv & H). destruct fds as [[rd wr]|]; cycle 1.
  { simpl in Hw4. apply Ok_bind_inv in H as (u5 & w5 & [= _ <-] & H).
    apply Ok_bind_inv in H as (u6 & w6 & [= _ <-] & H).
    rewrite unlock_ret_Ok in H by (simpl; by rewrite Hw4). injection H as _ <-.
    split_and!; [done|unfold watch_names; simpl; by rewrite Hw4|].
    right; left. simpl. rewrite Hw4. by split_and!. }
  destruct Hw4 as [Hrd Hw4]. apply Ok_bind_inv in H as (u5 & w5 & [= _ Hw5] & H).
  apply Ok_bind_inv in H as (n & w6 & [= _ <-] & H).
  apply Ok_bind_inv in H as (u7 & w7 & [Hset Hnames]%rewatch_all_only & H). unfold set_only in Hset.
  assert (H7 : g_mu w7 = true ∧ g_running w7 = false ∧ g_ifd w7 = ifd ∧ g_pipe_r w7 = rd ∧ g_pipe_w w7 = wr ∧
    wt_pipes w7 = <[rd := wr]> (wt_pipes w2) ∧ wt_written w7 = wt_written w2 ∖ {[wr]} ∧
    wt_threads w7 = wt_threads w2).
  { rewrite Hset, <- Hw5. simpl. by rewrite Hw4. }
  assert (Hn7 : watch_names w7 = watch_names w2) by (rewrite Hnames, <- Hw5; unfold watch_names; simpl; by rewrite Hw4).
  clear Hset Hw4 Hw5 Hnames. destruct H7 as (Hmu7 & Hrun7 & Hifd7 & Hrd7 & Hwr7 & Hp7 & Hwn7 & Ht7).
  apply create_section in H as (Hmu' & Hn' & Hcase); [|try congruence..].
  - rewrite <- Hthr2, <- Ht7. split_and!; [done|congruence|]. by destruct Hcase as [?|?]; [right; left|right; right].
  - by rewrite Hp7, Hrd7, Hwr7, lookup_insert_eq.
  - rewrite Hwn7, Hwr7. set_solver.
Qed.

Lemma signal_section w b w' :
  stop_signal w = Ok b w' →
  g_mu w = false ∧ b = g_running w ∧
  w' = if b then w <| wt_log ::= (λ tr, tr ++ [Sys_write (g_pipe_w w)]) |>
    <| wt_written ::= (λ s, {[g_pipe_w w]} ∪ s) |> <| g_running := false |> else w.
Proof.
  unfold stop_signal. intros (u & w1 & (Hmu & Hw1)%lock_inv & H)%Ok_bind_inv. split; [done|].
  apply Ok_bind_inv in H as (running & w2 & [= <- <-] & H).
  assert (Hrun : g_running w1 = g_running w) by by rewrite Hw1.
  assert (Hmu1 : g_mu w1 = true) by by rewrite Hw1.
  assert (Hw : w = w1 <| g_mu := false |>) by (rewrite Hw1; by rewrite unlocked).
  apply if_Ok_inv in H as [[Hr H]|[Hr H]].
  - apply negb_true_iff in Hr. rewrite unlock_ret_Ok in H by done. injection H as <- <-.
    split; [congruence|]. exact (eq_sym Hw).
  - apply negb_false_iff in Hr. apply Ok_bind_inv in H as (wr & w2 & [= <- <-] & H).
    apply Ok_bind_inv in H as (u3 & w3 & [= _ <-] & H).
    apply Ok_bind_inv in H as (u4 & w4 & [= _ <-] & H). rewrite unlock_ret_Ok in H by done.
    injection H as <- <-. split; [congruence|]. by rewrite Hw.
Qed.

Lemma close_section w u w' :
  stop_close w = Ok u w' →
  g_mu w = false ∧ g_mu w' = false ∧ watch_names w' = watch_names w ∧ g_running w' = g_running w ∧
  g_ifd w' = -1 ∧ wt_threads w' = wt_threads w.
Proof.
  unfold stop_close. intros (u1 & w1 & (Hmu & ->)%lock_inv & H)%Ok_bind_inv. split; [done|].
  apply Ok_bind_inv in H as (u12 & w12 & []%close_all_inv & H). apply Ok_bind_inv in H as (u2 & w3 & [= _ <-] & H).
  apply unlock_inv in H as [_ ->]. split_and!; try done.
  unfold watch_names. simpl. rewrite <- list_fmap_compose, cl_entries0. by apply list_fmap_ext.
Qed.
End steps.
