(* ===== verification/WatchSafe.v ===== *)
(** * One caller that starts and stops

    When a single thread calls [xy_watch_start] and [xy_watch_stop], and any
    number of threads add and remove names, the watcher keeps its promises at
    every interleaving.  WatchRace.v shows what two such threads can do. *)
From Stdlib Require Import Ascii.
From S2P Require Import Prelude Watch WatchProps WatchSteps.
#[local] Open Scope Z_scope.

Definition is_reload (pc : watcher_pc) : bool :=
  match pc with W_reload _ _ _ => true | _ => false end.

Lemma watcher_ended (pc : watcher_pc) : pc = W_done ∨ pc ≠ W_done.
Proof. destruct pc; (by left) || by right. Qed.

(** No thread is left. *)
Definition no_watcher (w : watch) : Prop := ∀ t pc, wt_threads w !! t = Some pc → pc = W_done.

(** The descriptors are open and the last thread watches them; [signalled]:
    the byte that wakes it is written. *)
Record watching (signalled : bool) (w : watch) : Prop := {
  wg_ifd : 0 ≤ g_ifd w;
  wg_pipe : 0 ≤ g_pipe_r w;
  wg_ends : wt_pipes w !! g_pipe_r w = Some (g_pipe_w w);
  wg_signal : g_pipe_w w ∈ wt_written w ↔ signalled = true;
  wg_thread : S (g_thread w) = length (wt_threads w);
  wg_select i p : wt_threads w !! g_thread w = Some (W_select i p) → i = g_ifd w ∧ p = g_pipe_r w
}.

(** Where the thread that starts and stops stands, and what it may rely on. *)
Definition boss_phase (pc : option api_pc) (w : watch) : Prop :=
  match pc with
  | Some A_join => g_running w = false ∧ watching true w
  | Some (A_wait t) => g_running w = false ∧ watching true w ∧ t = g_thread w
  | Some A_close => g_running w = false ∧ watching true w ∧ no_watcher w
  | _ => if g_running w then watching false w else g_ifd w < 0 ∧ no_watcher w
  end.

(** The set is one; at most one watcher thread is left, the last; the mutex is
    held exactly while it reloads. *)
Record watch_safe (boss : nat) (c : config) : Prop := {
  wf_set : watch_set_ok (cf_w c);
  wf_mutex : g_mu (cf_w c) = true ↔ ∃ t pc, wt_threads (cf_w c) !! t = Some pc ∧ is_reload pc = true;
  wf_single t pc : wt_threads (cf_w c) !! t = Some pc → pc ≠ W_done → S t = length (wt_threads (cf_w c));
  wf_callers i pc : cf_api c !! i = Some pc → i ≠ boss → pc = A_idle;
  wf_phase : boss_phase (cf_api c !! boss) (cf_w c)
}.

Section safe.
Context {K : Kernel} {KL : KernelLaws K} (boss : nat).
Implicit Types (w : watch) (T : gmap nat api_pc).

(** A phase only reads these fields. *)
Definition same_threads w w' : Prop :=
  g_thread w' = g_thread w ∧ g_ifd w' = g_ifd w ∧ g_running w' = g_running w ∧ g_pipe_r w' = g_pipe_r w ∧
  g_pipe_w w' = g_pipe_w w ∧ wt_pipes w' = wt_pipes w ∧ wt_written w' = wt_written w ∧
  wt_threads w' = wt_threads w.

Lemma set_only_threads w w' : set_only w w' → same_threads w w' ∧ g_mu w' = g_mu w.
Proof. unfold set_only, same_threads. intros ->. by destruct w. Qed.

Lemma watching_same b w w' : same_threads w w' → watching b w → watching b w'.
Proof.
  intros (H1 & H2 & H3 & H4 & H5 & H6 & H7 & H8) []. split; rewrite ?H1, ?H2, ?H4, ?H5, ?H6, ?H7, ?H8; done.
Qed.

Lemma phase_same pc w w' : same_threads w w' → boss_phase pc w → boss_phase pc w'.
Proof.
  intros Hs. pose proof Hs as (H1 & H2 & H3 & H4 & H5 & H6 & H7 & H8).
  assert (Hno : no_watcher w → no_watcher w') by (unfold no_watcher; by rewrite H8).
  pose proof (λ b, watching_same b w w' Hs) as Hw.
  destruct pc as [[]|]; simpl; rewrite H3, ?H1, ?H2; destruct (g_running w); naive_solver.
Qed.

Lemma safe_set_only w w' T :
  set_only w w' → watch_set_ok w' → watch_safe boss (Config w T) → watch_safe boss (Config w' T).
Proof.
  intros [Hs Hmu]%set_only_threads Hset [_ Hm Hsg Hc Hp]. simpl in *.
  pose proof Hs as (_ & _ & _ & _ & _ & _ & _ & Ht).
  split; simpl; rewrite ?Hmu, ?Ht; try done. by eapply phase_same.
Qed.

(** A call that does not start or stop. *)
Lemma safe_api c w w' T :
  controls c = false → watch_api c w = Ok tt w' → watch_safe boss (Config w T) → watch_safe boss (Config w' T).
Proof.
  intros Hc Hrun Hs. destruct c as [| |f|f]; simpl in *; try done.
  - apply Ok_bind_inv in Hrun as (r & w1 & H & [= <-]). apply add_section in H as [H1 H2].
    eapply safe_set_only; [done| |done]. apply H2, Hs.
  - apply remove_section in Hrun as [H1 H2]. eapply safe_set_only; [done| |done]. apply H2, Hs.
Qed.

(** A call while the mutex is held comes back only if it does nothing. *)
Lemma api_locked c w w' : g_mu w = true → watch_api c w = Ok tt w' → w' = w.
Proof.
  intros Hmu. destruct c as [| |[f|]|[f|]]; simpl.
  - intros (r & w1 & H & _)%Ok_bind_inv. apply locked_first in H. congruence.
  - intros (r & w1 & H & _)%Ok_bind_inv. apply locked_first in H. congruence.
  - intros (r & w1 & H & _)%Ok_bind_inv. apply locked_first in H. congruence.
  - by intros [= <-].
  - intros H. apply locked_first in H. congruence.
  - by intros [= <-].
Qed.

(** The caller that starts and stops, one step at a time. *)
Lemma safe_boss_phase w T pc :
  watch_safe boss (Config w T) → boss_phase (Some pc) w → watch_safe boss (Config w (<[boss := pc]> T)).
Proof.
  intros [Hset Hm Hsg Hc _] Hp. simpl in *. split; simpl; try done.
  - intros i pc'. destruct (decide (i = boss)) as [->|Hne]; [done|]. rewrite lookup_insert_ne by done. apply Hc.
  - by rewrite lookup_insert_eq.
Qed.

Lemma safe_start w r w' T :
  T !! boss = Some A_idle → xy_watch_start w = Ok r w' →
  watch_safe boss (Config w T) → watch_safe boss (Config w' T).
Proof.
  intros HT (Hmu & Hmu' & Hn & Hcase)%start_section [Hset Hm Hsg Hc Hp]. simpl in *. rewrite HT in Hp.
  destruct Hcase as [[Hrun ->]|[(Hrun & Hrun' & Hifd & Ht)|[Hrun Hst]]].
  - split; simpl; try done. by rewrite HT.
  - simpl in Hp. rewrite Hrun in Hp. destruct Hp as [_ Hno]. split; simpl.
    + by eapply watch_set_ok_names.
    + by rewrite Hmu', Ht, <- Hm, Hmu.
    + by rewrite Ht.
    + done.
    + rewrite HT. simpl. rewrite Hrun'. unfold no_watcher. by rewrite Ht.
  - simpl in Hp. rewrite Hrun in Hp. destruct Hp as [_ Hno].
    destruct Hst as [H1 H2 H3 H4 H5 H6 H7].
    assert (Hlast : ∀ t pc, wt_threads w' !! t = Some pc → pc = W_done ∨ t = length (wt_threads w) ∧ pc = W_top).
    { intros t pc. rewrite H7. intros [Hl|[Hge Hl]]%lookup_app_Some; [left; by eapply Hno|right].
      apply list_lookup_singleton_Some in Hl as [? <-]. split; [lia|done]. }
    split; simpl.
    + by eapply watch_set_ok_names.
    + rewrite Hmu'. split; [done|]. intros (t & pc & [->|[_ ->]]%Hlast & Hr); done.
    + intros t pc [->|[-> ->]]%Hlast ?; [done|]. rewrite H7, length_app. simpl. lia.
    + done.
    + rewrite HT. simpl. rewrite H1. split; [done..| | |].
      * by split.
      * rewrite H6, H7, length_app. simpl. lia.
      * intros i p Hl. apply Hlast in Hl as [?|[_ ?]]; done.
Qed.

Lemma safe_signal w b w' T :
  T !! boss = Some A_idle → stop_signal w = Ok b w' → watch_safe boss (Config w T) →
  watch_safe boss (Config w' (if b then <[boss := A_join]> T else T)).
Proof.
  intros HT (Hmu & -> & ->)%signal_section Hs. destruct (g_running w) eqn:Hrun; [|done].
  pose proof Hs as [Hset Hm Hsg Hc Hp]. simpl in *. rewrite HT in Hp. simpl in Hp. rewrite Hrun in Hp.
  destruct Hp as [G1 G2 G3 G4 G5 G6].
  assert (Hsig : watching true (w <| wt_log ::= (λ tr, tr ++ [Sys_write (g_pipe_w w)]) |>
    <| wt_written ::= (λ s, {[g_pipe_w w]} ∪ s) |> <| g_running := false |>)).
  { split; simpl; try done. split; [done|]. set_solver. }
  split; simpl; try done.
  - intros i pc. destruct (decide (i = boss)) as [->|Hne]; [done|]. rewrite lookup_insert_ne by done. apply Hc.
  - by rewrite lookup_insert_eq.
Qed.

Lemma safe_join w T :
  T !! boss = Some A_join → watch_safe boss (Config w T) →
  watch_safe boss (Config w (<[boss := A_wait (g_thread w)]> T)).
Proof.
  intros HT Hs. apply safe_boss_phase; [done|]. pose proof (wf_phase _ _ Hs) as Hp. simpl in Hp.
  rewrite HT in Hp. destruct Hp. by split_and!.
Qed.

Lemma safe_joined w T t :
  T !! boss = Some (A_wait t) → wt_threads w !! t = Some W_done → watch_safe boss (Config w T) →
  watch_safe boss (Config w (<[boss := A_close]> T)).
Proof.
  intros HT Ht Hs. apply safe_boss_phase; [done|]. pose proof (wf_phase _ _ Hs) as Hp. simpl in Hp.
  rewrite HT in Hp. destruct Hp as (Hrun & Hg & ->). split_and!; [done..|].
  intros t pc Hpc. destruct (watcher_ended pc) as [|Hne]; [done|].
  pose proof (wf_single _ _ Hs _ _ Hpc Hne) as Hlen. simpl in Hlen. rewrite <- (wg_thread _ _ Hg) in Hlen.
  injection Hlen as ->. congruence.
Qed.

Lemma safe_close w w' T :
  T !! boss = Some A_close → stop_close w = Ok tt w' → watch_safe boss (Config w T) →
  watch_safe boss (Config w' (<[boss := A_idle]> T)).
Proof.
  intros HT (Hmu & Hmu' & Hn & Hrun & Hifd & Ht)%close_section [Hset Hm Hsg Hc Hp]. simpl in *. rewrite HT in Hp.
  destruct Hp as (Hrun0 & _ & Hno). split; simpl.
  - by eapply watch_set_ok_names.
  - by rewrite Hmu', Ht, <- Hm, Hmu.
  - by rewrite Ht.
  - intros i pc. destruct (decide (i = boss)) as [->|Hne]; [done|]. rewrite lookup_insert_ne by done. apply Hc.
  - rewrite lookup_insert_eq. simpl. rewrite Hrun, Hrun0, Hifd. split; [lia|]. unfold no_watcher. by rewrite Ht.
Qed.

(** ** The watcher *)

(** What a step of the watcher moves, and where it goes. *)
Lemma watcher_next_moves b pc w pc' w' :
  watcher_next b pc w pc' w' → g_mu w = is_reload pc → watch_set_ok w →
  pc ≠ W_done ∧ same_threads w w' ∧ watch_set_ok w' ∧ g_mu w' = is_reload pc' ∧
  (∀ i p, pc' = W_select i p → i = g_ifd w ∧ p = g_pipe_r w).
Proof.
  intros Hnext Hmu Hset. assert (Hrefl : same_threads w w) by done.
  destruct Hnext as [w|i p w|i p w|i p ready w|w|w|evs w|w|ev evs o w w' H|f evs w w' H|f evs c cs w w' H|f evs w w' H];
    try by split_and!.
  - split_and!; try done. by intros i p [= <- <-].
  - split_and!; try done; repeat case_decide; done.
  - apply event_section in H as [Hs Hn]. apply set_only_threads in Hs as [Hs Hmu'].
    split_and!; [done|done|by eapply watch_set_ok_names|rewrite Hmu', Hmu; by destruct o|by destruct o].
  - apply Ok_bind_inv in H as (u & w1 & (_ & ->)%lock_inv & [= <-]). by split_and!.
  - apply api_locked in H as ->; [|done]. by split_and!.
  - apply unlock_inv in H as [_ ->]. by split_and!.
Qed.

Lemma safe_watcher t pc pc' w w' T :
  watch_safe boss (Config w T) → wt_threads w !! t = Some pc → pc ≠ W_done →
  same_threads w w' → watch_set_ok w' → g_mu w' = is_reload pc' →
  (∀ i p, pc' = W_select i p → i = g_ifd w ∧ p = g_pipe_r w) →
  watch_safe boss (Config (w' <| wt_threads ::= <[t := pc']> |>) T).
Proof.
  intros Hs Ht Hne Hsame Hset Hmu Hsel. pose proof Hs as [_ _ Hsg Hc Hp]. simpl in *.
  pose proof (Hsg _ _ Ht Hne) as Hlast. apply lookup_lt_Some in Ht as Hlt.
  pose proof Hsame as (H1 & H2 & H3 & H4 & H5 & H6 & H7 & H8).
  assert (Hlook : ∀ t' x, <[t := pc']> (wt_threads w') !! t' = Some x →
    t' = t ∧ x = pc' ∨ t' ≠ t ∧ x = W_done).
  { intros t' x. rewrite H8. destruct (decide (t = t')) as [<-|Hd].
    - rewrite list_lookup_insert_eq by done. intros [= <-]. by left.
    - rewrite list_lookup_insert_ne by done. intros Hx. right. split; [done|].
      destruct (watcher_ended x) as [|Hx']; [done|]. pose proof (Hsg _ _ Hx Hx'). lia. }
  assert (Hwatch : ∀ b, watching b w → watching b (w' <| wt_threads ::= <[t := pc']> |>)).
  { intros b [G1 G2 G3 G4 G5 G6].
    split; simpl; rewrite ?H1, ?H2, ?H4, ?H5, ?H6, ?H7; try done.
    - by rewrite length_insert, H8.
    - intros i p [[_ <-]|[_ ?]]%Hlook; [by apply Hsel|done]. }
  assert (Hbusy : ¬ no_watcher w) by (intros Hno; by apply Hno in Ht).
  assert (Hphase : boss_phase (T !! boss) (w' <| wt_threads ::= <[t := pc']> |>)).
  { set (w2 := w' <| wt_threads ::= <[t := pc']> |>) in *.
    change (g_running w') with (g_running w2) in H3. change (g_thread w') with (g_thread w2) in H1.
    destruct (T !! boss) as [[| |t0|]|]; simpl in *; rewrite H3, ?H1.
    - destruct (g_running w); [exact (Hwatch _ Hp)|by destruct Hp].
    - destruct Hp as [? Hg]. split; [done|exact (Hwatch _ Hg)].
    - destruct Hp as (? & Hg & ?). split_and!; [done|exact (Hwatch _ Hg)|done].
    - by destruct Hp as (_ & _ & ?).
    - destruct (g_running w); [exact (Hwatch _ Hp)|by destruct Hp]. }
  split; simpl.
  - exact Hset.
  - rewrite Hmu. split.
    + intros Hr. exists t, pc'. split; [|done]. apply list_lookup_insert_eq. by rewrite H8.
    + by intros (t' & x & [[_ ->]|[_ ->]]%Hlook & Hr).
  - rewrite length_insert. intros t' x [[-> _]|[_ ->]]%Hlook; [by rewrite H8|done].
  - done.
  - exact Hphase.
Qed.

(** The mutex is held exactly when the one thread left reloads. *)
Lemma safe_mutex_of b t pc w pc' w' T :
  watch_safe boss (Config w T) → wt_threads w !! t = Some pc → watcher_next b pc w pc' w' →
  g_mu w = is_reload pc.
Proof.
  intros Hs Ht Hnext. assert (Hne : pc ≠ W_done) by by inversion Hnext. destruct (g_mu w) eqn:Hmu.
  - apply (wf_mutex _ _ Hs) in Hmu as (t' & x & Hx & Hr). assert (Hne' : x ≠ W_done) by (by intros ->).
    pose proof (wf_single _ _ Hs _ _ Hx Hne'). pose proof (wf_single _ _ Hs _ _ Ht Hne). simpl in *.
    assert (t = t') as <- by lia. congruence.
  - destruct (is_reload pc) eqn:Hr; [|done]. rewrite <- Hmu. apply (wf_mutex _ _ Hs). by exists t, pc.
Qed.

Lemma safe_next b t pc pc' w w' T :
  watch_safe boss (Config w T) → wt_threads w !! t = Some pc → watcher_next b pc w pc' w' →
  watch_safe boss (Config (w' <| wt_threads ::= <[t := pc']> |>) T).
Proof.
  intros Hs Ht Hnext. pose proof (safe_mutex_of _ _ _ _ _ _ _ Hs Ht Hnext) as Hmu.
  destruct (watcher_next_moves _ _ _ _ _ Hnext Hmu (wf_set _ _ Hs)) as (? & H1 & H2 & H3 & H4).
  by eapply safe_watcher.
Qed.

(** ** Every step *)

Lemma safe_stop w w' T :
  T !! boss = Some A_idle → xy_watch_stop w = Ok tt w' →
  watch_safe boss (Config w T) → watch_safe boss (Config w' T).
Proof.
  intros HT Hrun Hs. unfold xy_watch_stop in Hrun. apply Ok_bind_inv in Hrun as (b & w1 & H1 & Hrun).
  apply (safe_signal _ _ _ _ HT H1) in Hs. destruct b; [|by injection Hrun as <-].
  apply Ok_bind_inv in Hrun as (u & w2 & Hj & Hrun). apply Ok_bind_inv in Hj as (t & w3 & [= <- <-] & Hj).
  apply Ok_bind_inv in Hj as (o & w4 & [= <- <-] & Hj).
  destruct (wt_threads w1 !! g_thread w1) as [[]|] eqn:Ht; try done. injection Hj as _ <-.
  apply (safe_join _ _ (lookup_insert_eq _ _ _)) in Hs.
  apply (safe_joined _ _ _ (lookup_insert_eq _ _ _) Ht) in Hs.
  apply (safe_close _ w' _ (lookup_insert_eq _ _ _) Hrun) in Hs.
  rewrite !insert_insert_eq, insert_id in Hs by done. done.
Qed.

Lemma safe_step l c c' :
  watch_step (λ i, i = boss) l c c' → watch_safe boss c → watch_safe boss c'.
Proof.
  destruct 1 as [i c w w' T Hi Hctl Hrun|i w w' T Hi -> Hrun|i w T Hi|i t w T Hi Ht|i w w' T Hi Hrun|b t pc pc' w w' T Ht Hn];
    intros Hs.
  - destruct (controls c) eqn:Hc; [|by eapply safe_api]. specialize (Hctl eq_refl). subst i. destruct c; try done.
    + apply Ok_bind_inv in Hrun as (r & w1 & H & [= <-]). by eapply safe_start.
    + by eapply safe_stop.
  - by eapply (safe_signal _ true).
  - assert (i = boss) as -> by (destruct (decide (i = boss)) as [|Hne]; [done|]; by eapply (wf_callers _ _ Hs) in Hi).
    by apply safe_join.
  - assert (i = boss) as -> by (destruct (decide (i = boss)) as [|Hne]; [done|]; by eapply (wf_callers _ _ Hs) in Hi).
    by eapply safe_joined.
  - assert (i = boss) as -> by (destruct (decide (i = boss)) as [|Hne]; [done|]; by eapply (wf_callers _ _ Hs) in Hi).
    by eapply safe_close.
  - by eapply safe_next.
Qed.

Lemma safe_first callers : watch_safe boss (watch_start callers).
Proof.
  assert (Hidle : ∀ i pc, gset_to_gmap A_idle callers !! i = Some pc → pc = A_idle).
  { intros i pc. rewrite lookup_gset_to_gmap_Some. by intros [_ <-]. }
  split; simpl.
  - split; [apply NoDup_nil_2|]. simpl. lia.
  - split; [done|]. by intros (t & pc & ? & _).
  - done.
  - intros i pc Hi _. by eapply Hidle.
  - destruct (gset_to_gmap A_idle callers !! boss) as [pc|] eqn:Hb; [|by split].
    apply Hidle in Hb as ->. by split.
Qed.

Lemma watch_reaches_safe callers c : watch_reaches (λ i, i = boss) callers c → watch_safe boss c.
Proof.
  intros [ls Hls]. eapply watch_steps_keep; [|exact Hls|apply safe_first].
  intros l c1 c2. apply safe_step.
Qed.
End safe.
