(* ===== verification/WatchLive.v ===== *)
(** * [xy_watch_stop] returns

    While the caller of [xy_watch_stop] waits, the watcher thread is never
    stuck, and it ends after a number of steps that is known in advance,
    however the steps of other threads are interleaved. *)
From Stdlib Require Import Ascii.
From S2P Require Import Prelude Watch WatchProps WatchSteps WatchSafe.
#[local] Open Scope Z_scope.

#[export] Instance label_eq_dec : EqDecision label.
Proof. solve_decision. Defined.

(** Steps a watcher has left once it was told to stop, interrupted calls
    aside: to the end of the events it read, and once through [select]. *)
Definition watcher_cost (pc : watcher_pc) : nat :=
  match pc with
  | W_done => 0
  | W_select _ _ => 1
  | W_top => 2
  | W_events evs => 3 + 3 * length evs
  | W_reload _ evs calls => 4 + 3 * length evs + length calls
  | W_relock _ evs => 5 + 3 * length evs
  | W_read => 4 + 3 * EVENTS_MAX
  end.

(** How often a label occurs. *)
Definition times (l : label) (ls : list label) : nat := length (filter (l =.) ls).

Section live.
Context {K : Kernel} {KL : KernelLaws K} (boss : nat).
Hypothesis quiet : ∀ f, reload_calls f = [].
Implicit Types (w : watch) (T : gmap nat api_pc).
Abbreviation only := (λ i, i = boss).

(** ** Modules that leave the watcher alone *)

Definition quiet_reloads w : Prop :=
  ∀ t f evs calls, wt_threads w !! t = Some (W_reload f evs calls) → calls = [].

Lemma quiet_same w w' : wt_threads w' = wt_threads w → quiet_reloads w → quiet_reloads w'.
Proof. unfold quiet_reloads. by intros ->. Qed.

(** A call creates at most a thread at the head of its loop. *)
Lemma api_threads c w w' :
  watch_api c w = Ok tt w' → wt_threads w' = wt_threads w ∨ wt_threads w' = wt_threads w ++ [W_top].
Proof.
  destruct c as [| |f|f]; simpl.
  - intros (r & w1 & (_ & _ & _ & H)%start_section & [= <-])%Ok_bind_inv.
    destruct H as [[_ ->]|[(_ & _ & _ & ->)|[_ []]]]; auto.
  - intros (b & w1 & (_ & -> & ->)%signal_section & H)%Ok_bind_inv. left.
    destruct (g_running w); [|by injection H as <-].
    apply Ok_bind_inv in H as (u & w2 & Hj & (_ & _ & _ & _ & _ & ->)%close_section).
    apply Ok_bind_inv in Hj as (t & w3 & [= <- <-] & Hj). apply Ok_bind_inv in Hj as (o & w4 & [= <- <-] & Hj).
    simpl in Hj. by destruct (wt_threads w !! g_thread w) as [[]|]; try done; injection Hj as _ <-.
  - intros (r & w1 & [Hs _]%add_section & [= <-])%Ok_bind_inv. left. by apply set_only_threads in Hs as [(_ & _ & _ & _ & _ & _ & _ & ?) _].
  - intros [Hs _]%remove_section. left. by apply set_only_threads in Hs as [(_ & _ & _ & _ & _ & _ & _ & ?) _].
Qed.

Lemma quiet_step l c c' : watch_step only l c c' → quiet_reloads (cf_w c) → watch_safe boss c → quiet_reloads (cf_w c').
Proof.
  destruct 1 as [i c w w' T Hi _ Hrun|i w w' T Hi _ Hrun|i w T Hi|i t w T Hi Ht|i w w' T Hi Hrun|b t pc pc' w w' T Ht Hn];
    simpl; intros Hq Hs; try done.
  - destruct (api_threads _ _ _ Hrun) as [He|He]; [by eapply quiet_same|].
    intros t f evs calls. rewrite He. intros [Hl|[_ Hl]]%lookup_app_Some; [by eapply Hq|].
    by apply list_lookup_singleton_Some in Hl as [_ ?].
  - apply signal_section in Hrun as (_ & _ & ->). by eapply quiet_same.
  - apply close_section in Hrun as (_ & _ & _ & _ & _ & He). by eapply quiet_same.
  - intros t' f evs calls. simpl. destruct (decide (t = t')) as [<-|Hd]; cycle 1.
    + rewrite list_lookup_insert_ne by done. intros Hl. eapply (Hq t' f evs).
      pose proof (safe_mutex_of _ _ _ _ _ _ _ _ Hs Ht Hn) as Hmu.
      by destruct (watcher_next_moves _ _ _ _ _ Hn Hmu (wf_set _ _ Hs)) as (_ & (_ & _ & _ & _ & _ & _ & _ & <-) & _).
    + intros Hl. apply list_lookup_insert_Some in Hl as [(_ & -> & _)|[? _]]; [|done].
      inversion Hn; subst; try done.
      * repeat case_decide; done.
      * by destruct o.
      * by apply Hq in Ht.
Qed.

(** ** One step *)

(** A step of the watcher that was told to stop brings it nearer to its end;
    an interrupted call costs it one more. *)
Lemma watcher_next_cost (b : bool) pc w pc' w' :
  watcher_next b pc w pc' w' → watching true w →
  (∀ i p, pc = W_select i p → p = g_pipe_r w) →
  if b then (watcher_cost pc' ≤ S (watcher_cost pc))%nat else (watcher_cost pc' < watcher_cost pc)%nat.
Proof.
  intros Hn Hg Hsel.
  destruct Hn as [w|i p w|i p w|i p ready w _ _ Hpend|w|w|evs w Hlen|w|ev evs o w w' H|f evs w w' H|f evs c cs w w' H|f evs w w' H];
    simpl; try (unfold EVENTS_MAX in *; simpl; lia).
  - assert (g_pipe_r w ∈ ready) as Hin.
    { rewrite <- (Hsel i p eq_refl). apply Hpend. exists (g_pipe_w w). rewrite (Hsel i p eq_refl).
      split; [apply Hg|]. by apply Hg. }
    rewrite decide_True by done. simpl. lia.
  - destruct o; simpl; lia.
  - rewrite quiet. simpl. lia.
Qed.

(** What stays while the caller waits. *)
Record waits w w' : Prop := {
  wa_ifd : g_ifd w' = g_ifd w;
  wa_pipe : g_pipe_r w' = g_pipe_r w
}.

(** Another's step leaves the watcher where it is. *)
Definition moves_by t l w w' : Prop :=
  ∃ pc pc', wt_threads w !! t = Some pc ∧ wt_threads w' !! t = Some pc' ∧
    if decide (l = L_watcher t) then (watcher_cost pc' < watcher_cost pc)%nat
    else if decide (l = L_signal t) then (watcher_cost pc' ≤ S (watcher_cost pc))%nat
    else pc' = pc.

Lemma waiting_phase t c :
  watch_safe boss c → cf_api c !! boss = Some (A_wait t) →
  g_running (cf_w c) = false ∧ watching true (cf_w c) ∧ t = g_thread (cf_w c).
Proof. intros Hs HT. pose proof (wf_phase _ _ Hs) as Hp. by rewrite HT in Hp. Qed.

Lemma waiting_thread t c :
  watch_safe boss c → cf_api c !! boss = Some (A_wait t) → ∃ pc, wt_threads (cf_w c) !! t = Some pc.
Proof.
  intros Hs HT. destruct (waiting_phase _ _ Hs HT) as (_ & Hg & ->). apply lookup_lt_is_Some_2.
  pose proof (wg_thread _ _ Hg). lia.
Qed.

Lemma same_moves t l w w' T :
  watch_safe boss (Config w T) → T !! boss = Some (A_wait t) → same_threads w w' →
  l ≠ L_watcher t → l ≠ L_signal t → moves_by t l w w'.
Proof.
  intros Hs HT (_ & _ & _ & _ & _ & _ & _ & Ht) H1 H2. destruct (waiting_thread _ _ Hs HT) as [pc Hpc].
  exists pc, pc. rewrite Ht, decide_False, decide_False by done. by split_and!.
Qed.

Lemma wait_step l c c' t :
  watch_step only l c c' → watch_safe boss c → cf_api c !! boss = Some (A_wait t) → l ≠ L_api boss →
  cf_api c' !! boss = Some (A_wait t) ∧ waits (cf_w c) (cf_w c') ∧ moves_by t l (cf_w c) (cf_w c').
Proof.
  intros Hstep Hs HT Hl. destruct (waiting_phase _ _ Hs HT) as (_ & Hg & Ht).
  destruct Hstep as [i c w w' T Hi Hctl Hrun|i w w' T Hi -> Hrun|i w T Hi|i t' w T Hi Ht'|i w w' T Hi Hrun|b t' pc pc' w w' T Ht' Hn];
    simpl in *; try done.
  - assert (Hother : set_only w w').
    { destruct c as [| |f|f]; simpl in *; try (by rewrite Hctl in HT; simplify_eq).
      - specialize (Hctl eq_refl). by subst.
      - specialize (Hctl eq_refl). by subst.
      - by apply Ok_bind_inv in Hrun as (r & w1 & [? _]%add_section & [= <-]).
      - by apply remove_section in Hrun as [? _]. }
    apply set_only_threads in Hother as [Hsame _]. pose proof Hsame as (_ & H2 & _ & H4 & _).
    split_and!; [done|by split|by eapply same_moves].
  - assert (i = boss) as -> by (destruct (decide (i = boss)) as [|Hne]; [done|]; by eapply (wf_callers _ _ Hs) in Hi).
    done.
  - assert (i = boss) as -> by (destruct (decide (i = boss)) as [|Hne]; [done|]; by eapply (wf_callers _ _ Hs) in Hi).
    done.
  - assert (i = boss) as -> by (destruct (decide (i = boss)) as [|Hne]; [done|]; by eapply (wf_callers _ _ Hs) in Hi).
    done.
  - pose proof (safe_mutex_of _ _ _ _ _ _ _ _ Hs Ht' Hn) as Hmu.
    destruct (watcher_next_moves _ _ _ _ _ Hn Hmu (wf_set _ _ Hs)) as (Hne & Hsame & _ & _ & _).
    pose proof Hsame as (_ & H2 & _ & H4 & _ & _ & _ & H8).
    pose proof (wf_single _ _ Hs _ _ Ht' Hne) as Hlast. simpl in Hlast. rewrite <- (wg_thread _ _ Hg) in Hlast.
    assert (t' = t) as -> by lia. split_and!; [done|by split|].
    exists pc, pc'. split_and!; [done| |].
    + simpl. apply list_lookup_insert_eq. rewrite H8. by eapply lookup_lt_Some.
    + assert (Hcost := watcher_next_cost _ _ _ _ _ Hn Hg).
      destruct b; [rewrite decide_False, decide_True by done|rewrite decide_True by done]; apply Hcost;
        intros i p ->; rewrite Ht in Ht'; by eapply (wg_select _ _ Hg).
Qed.

(** ** The watcher is never stuck *)

Lemma watcher_event_total ev w : g_mu w = false → ∃ o w', watcher_event ev w = Ok o w'.
Proof.
  intros Hmu. unfold watcher_event. destruct (_ =? 0); [by do 2 eexists|].
  rewrite (bind_Ok _ _ _ _ _ (lock_Ok _ Hmu)). unfold entry_find_by_wd. set (w1 := w <| g_mu := true |>).
  destruct (entry_index (λ e, we_wd e =? ev_wd ev) (g_entries w)) as [i|] eqn:Hi.
  - rewrite (bind_Ok (gets _) _ _ (Some i) w1) by (unfold gets; by rewrite <- Hi).
    apply entry_index_Some in Hi as (e & He & _ & _).
    rewrite (bind_Ok _ _ w1 e w1) by (unfold mbind, M_bind, gets, deref; simpl; by rewrite He).
    set (copy := k_strdup (wt_log w1) (we_fname e)). set (w2 := w1 <| wt_log ::= (λ tr, tr ++ [Sys_strdup copy]) |>).
    rewrite (bind_Ok (strdup _) _ _ copy w2) by done.
    assert (Hre : ∃ w3, (if negb (Z.land (ev_mask ev) IN_MOVED_TO =? 0) then entry_rewatch i else mret tt) w2 = Ok tt w3 ∧
      g_mu w3 = true).
    { destruct (negb _); [|by exists w2]. rewrite (entry_rewatch_Ok w2 i e He). by eexists. }
    destruct Hre as (w3 & H3 & Hmu3). rewrite (bind_Ok _ _ _ _ _ H3). rewrite unlock_ret_Ok by done. by do 2 eexists.
  - rewrite (bind_Ok (gets _) _ _ None w1) by (unfold gets; by rewrite <- Hi).
    rewrite unlock_ret_Ok by done. by do 2 eexists.
Qed.

Lemma watcher_can_step pc w :
  pc ≠ W_done → g_mu w = is_reload pc → fd_ok (g_ifd w) → fd_ok (g_pipe_r w) →
  (∀ f evs calls, pc = W_reload f evs calls → calls = []) → ∃ pc' w', watcher_next false pc w pc' w'.
Proof.
  intros Hne Hmu Hi Hp Hq. destruct pc as [|i p| |[|ev evs]|f evs|f evs calls|]; simpl in Hmu; [..|done].
  - eexists _, _. by apply wn_top.
  - eexists _, _. apply (wn_select i p {[p]}); set_solver.
  - eexists _, _. by apply wn_read_fail.
  - eexists _, _. apply wn_batch.
  - destruct (watcher_event_total ev w Hmu) as (o & w' & H). eexists _, _. by apply wn_event.
  - eexists _, _. apply wn_lock. rewrite (bind_Ok _ _ _ _ _ (lock_Ok _ Hmu)). done.
  - rewrite (Hq f evs calls eq_refl). eexists _, _. apply wn_unlock. by apply unlock_Ok.
Qed.

Lemma waiting_can_step t c :
  watch_safe boss c → quiet_reloads (cf_w c) → cf_api c !! boss = Some (A_wait t) →
  fd_ok (g_ifd (cf_w c)) → fd_ok (g_pipe_r (cf_w c)) →
  ∃ l c', watch_step only l c c' ∧ (l = L_watcher t ∨ l = L_api boss).
Proof.
  intros Hs Hq HT Hi Hp. destruct (waiting_thread _ _ Hs HT) as [pc Hpc]. destruct c as [w T]. simpl in *.
  destruct (watcher_ended pc) as [->|Hne].
  - exists (L_api boss). eexists. split; [by eapply ws_joined|by right].
  - assert (Hmu : g_mu w = is_reload pc).
    { destruct (is_reload pc) eqn:Hr.
      - apply (wf_mutex _ _ Hs). by exists t, pc.
      - destruct (g_mu w) eqn:Hmu; [|done]. apply (wf_mutex _ _ Hs) in Hmu as (t' & x & Hx & Hr').
        assert (Hne' : x ≠ W_done) by (by intros ->).
        pose proof (wf_single _ _ Hs _ _ Hx Hne'). pose proof (wf_single _ _ Hs _ _ Hpc Hne). simpl in *.
        assert (t = t') as <- by lia. congruence. }
    destruct (watcher_can_step pc w Hne Hmu Hi Hp) as (pc' & w' & Hn); [intros f evs calls ->; by eapply Hq|].
    exists (L_watcher t). eexists. split; [exact (ws_watcher _ false _ _ _ _ _ _ Hpc Hn)|by left].
Qed.

(** ** To the end *)

Lemma wait_steps ls c c' t :
  watch_steps only ls c c' → watch_safe boss c → quiet_reloads (cf_w c) → cf_api c !! boss = Some (A_wait t) →
  L_api boss ∉ ls →
  watch_safe boss c' ∧ quiet_reloads (cf_w c') ∧ cf_api c' !! boss = Some (A_wait t) ∧
  waits (cf_w c) (cf_w c') ∧
  ∃ pc pc', wt_threads (cf_w c) !! t = Some pc ∧ wt_threads (cf_w c') !! t = Some pc' ∧
    (times (L_watcher t) ls + watcher_cost pc' ≤ watcher_cost pc + times (L_signal t) ls)%nat.
Proof.
  induction 1 as [c|l ls c1 c2 c3 Hstep Hsteps IH]; intros Hs Hq HT Hnot.
  - split_and!; [done..|]. destruct (waiting_thread _ _ Hs HT) as [pc Hpc]. exists pc, pc. split_and!; [done..|]. unfold times. simpl. lia.
  - apply not_elem_of_cons in Hnot as [Hl Hnot].
    destruct (wait_step _ _ _ _ Hstep Hs HT) as (HT2 & Hw12 & pc & pc1 & Hpc & Hpc1 & Hcost); [congruence|].
    destruct IH as (Hs3 & Hq3 & HT3 & Hw23 & pc2 & pc' & Hpc2 & Hpc' & Hle);
      [by eapply safe_step|by eapply quiet_step|done|done|].
    split_and!; [done..|destruct Hw12, Hw23; split; congruence|]. exists pc, pc'. split_and!; [done..|].
    simplify_eq. unfold times in *. rewrite !filter_cons.
    destruct (decide (l = L_watcher t)) as [->|H1]; [|destruct (decide (l = L_signal t)) as [->|H2]].
    + rewrite decide_True, decide_False by done. simpl. lia.
    + rewrite decide_False, decide_True by done. simpl. lia.
    + subst. rewrite !decide_False by done. simpl. lia.
Qed.

(** C33. A caller that waits in [xy_watch_stop] gets to its end: at whatever
    point the others' steps have brought the program, the watcher thread or the
    caller itself can go on, and the watcher has at most [watcher_cost] steps
    left, to which each interrupted system call adds one.  The modules must not
    call the watcher while they are reloaded, and the descriptors must fit an
    [fd_set]. *)
Theorem stop_returns callers c t :
  watch_reaches only callers c → cf_api c !! boss = Some (A_wait t) →
  fd_ok (g_ifd (cf_w c)) → fd_ok (g_pipe_r (cf_w c)) →
  ∃ pc, wt_threads (cf_w c) !! t = Some pc ∧
    ∀ ls c', watch_steps only ls c c' → L_api boss ∉ ls →
      (times (L_watcher t) ls ≤ watcher_cost pc + times (L_signal t) ls)%nat ∧
      ∃ l c'', watch_step only l c' c'' ∧ (l = L_watcher t ∨ l = L_api boss).
Proof.
  intros Hreach HT Hi Hp. pose proof (watch_reaches_safe _ _ _ Hreach) as Hs.
  assert (Hq : watch_safe boss c ∧ quiet_reloads (cf_w c)).
  { destruct Hreach as [ls Hls]. eapply (watch_steps_keep only (λ c, watch_safe boss c ∧ quiet_reloads (cf_w c)));
      [|exact Hls|split; [apply safe_first|by intros ?]].
    intros l c1 c2 Hstep [H1 H2]. split; [by eapply safe_step|by eapply quiet_step]. }
  destruct Hq as [_ Hq]. destruct (waiting_thread _ _ Hs HT) as [pc Hpc]. exists pc. split; [done|].
  intros ls c' Hsteps Hnot.
  destruct (wait_steps _ _ _ _ Hsteps Hs Hq HT Hnot) as (Hs' & Hq' & HT' & Hw & pc1 & pc' & Hpc1 & _ & Hle).
  simplify_eq. split; [lia|]. destruct Hw as [Hifd Hpipe].
  apply waiting_can_step; [done..|by rewrite Hifd|by rewrite Hpipe].
Qed.
End live.
