(* ===== verification/WatchRace.v ===== *)
(** * Where the watcher stops being safe

    A module that calls the watcher while it is reloaded stops everything: the
    reload runs under the mutex the call wants.  And two threads that start and
    stop at once leave the library running on closed descriptors. *)
From Stdlib Require Import Ascii.
From S2P Require Import Prelude Watch WatchProps WatchSteps WatchSafe WatchLive.
#[local] Open Scope Z_scope.

Section theorems.
Context {K : Kernel} {KL : KernelLaws K} (boss : nat).
Implicit Types (w : watch) (T : gmap nat api_pc).
Abbreviation only := (λ i, i = boss).

(** C32. With one thread that starts and stops and any number that add and
    remove, at every interleaving: the set has no name twice and never more
    than 256; the mutex is held exactly while a module is reloaded; at most one
    watcher thread is left; and the library runs, or waits for its thread, on
    descriptors that are open, so that the thread never hands a closed one to
    [select]. *)
Theorem watch_one_controller callers c :
  watch_reaches only callers c →
  watch_safe boss c ∧
  (∀ t, wt_threads (cf_w c) !! t = Some W_top → 0 ≤ g_ifd (cf_w c) ∧ 0 ≤ g_pipe_r (cf_w c)).
Proof.
  intros Hs%watch_reaches_safe. split; [done|]. intros t Ht.
  assert (Hbusy : ¬ no_watcher (cf_w c)) by (intros Hno; by apply Hno in Ht).
  pose proof (wf_phase _ _ Hs) as Hp. destruct (cf_api c !! boss) as [[| |t0|]|]; simpl in Hp.
  - destruct (g_running (cf_w c)); [by destruct Hp|by destruct Hp].
  - by destruct Hp as [_ []].
  - by destruct Hp as (_ & [] & _).
  - by destruct Hp as (_ & _ & ?).
  - destruct (g_running (cf_w c)); [by destruct Hp|by destruct Hp].
Qed.

(** ** A call from a module that is being reloaded *)

(** Calls that take the mutex: all but those with a NULL name. *)
Definition call_locks (c : watch_call) : bool :=
  match c with Call_add None | Call_remove None => false | _ => true end.

Lemma api_blocked c w u w' : g_mu w = true → call_locks c = true → watch_api c w ≠ Ok u w'.
Proof.
  intros Hmu Hl H. destruct c as [| |[f|]|[f|]]; simpl in *; try done.
  - apply Ok_bind_inv in H as (r & w1 & H & _). apply locked_first in H. congruence.
  - apply Ok_bind_inv in H as (r & w1 & H & _). apply locked_first in H. congruence.
  - apply Ok_bind_inv in H as (r & w1 & H & _). apply locked_first in H. congruence.
  - apply locked_first in H. congruence.
Qed.

(** The state of a watcher that waits for the mutex it holds. *)
Definition stuck_in t pc w0 (c : config) : Prop :=
  watch_safe boss c ∧ wt_threads (cf_w c) !! t = Some pc ∧ cf_w c = w0.

Lemma stuck_step t f evs call calls w0 l c c' :
  call_locks call = true → watch_step only l c c' →
  stuck_in t (W_reload f evs (call :: calls)) w0 c → stuck_in t (W_reload f evs (call :: calls)) w0 c'.
Proof.
  intros Hcall Hstep (Hs & Ht & <-). pose proof (safe_step _ _ _ _ Hstep Hs) as Hs'.
  assert (Hmu : g_mu (cf_w c) = true) by (apply (wf_mutex _ _ Hs); by eexists _, _).
  unfold stuck_in. split; [done|].
  destruct Hstep as [i c w w' T Hi Hctl Hrun|i w w' T Hi _ Hrun|i w T Hi|i t' w T Hi Ht'|i w w' T Hi Hrun|b t' pc pc' w w' T Ht' Hn];
    simpl in *; try done.
  - by apply api_locked in Hrun as ->.
  - apply locked_first in Hrun. congruence.
  - apply locked_first in Hrun. congruence.
  - assert (Hne : pc ≠ W_done) by by inversion Hn.
    pose proof (wf_single _ _ Hs _ _ Ht' Hne). pose proof (wf_single _ _ Hs _ _ Ht ltac:(done)). simpl in *.
    assert (t' = t) as -> by lia. simplify_eq. inversion Hn; subst. by edestruct (api_blocked call w).
Qed.

(** C34. A module that, while the watcher reloads it, calls any function of the
    watcher (but for a NULL name) stops the library for good: the thread keeps
    the mutex it waits for, the set never changes again, and no call that
    takes the mutex comes back, [xy_watch_stop] among them. *)
Theorem reload_deadlock callers c t f evs call calls :
  watch_reaches only callers c →
  wt_threads (cf_w c) !! t = Some (W_reload f evs (call :: calls)) → call_locks call = true →
  ∀ ls c', watch_steps only ls c c' →
    cf_w c' = cf_w c ∧ g_mu (cf_w c') = true ∧
    ∀ c0 w', call_locks c0 = true → watch_api c0 (cf_w c') ≠ Ok tt w'.
Proof.
  intros Hs%watch_reaches_safe Ht Hcall ls c' Hsteps.
  assert (Hstuck : stuck_in t (W_reload f evs (call :: calls)) (cf_w c) c').
  { eapply watch_steps_keep; [|exact Hsteps|by split_and!]. intros l c1 c2. by apply stuck_step. }
  destruct Hstuck as (Hs' & Ht' & Heq).
  assert (Hmu : g_mu (cf_w c') = true) by (apply (wf_mutex _ _ Hs'); by eexists _, _).
  split_and!; [done|done|]. intros c0 w' Hl. by apply api_blocked.
Qed.
End theorems.

(** ** A concrete system *)

Section witnesses.
(** Everything succeeds; a watch is known by the length of its path. *)
Definition demo_kernel (calls : string → list watch_call) : Kernel := {|
  k_strdup _ _ := true;
  k_inotify_init1 tr := 3 + Z.of_nat (length tr);
  k_pipe tr := Some (100 + Z.of_nat (length tr), 200 + Z.of_nat (length tr));
  k_add_watch _ _ path := Z.of_nat (String.length path);
  k_create _ := 0;
  reload_calls := calls
|}.

Lemma demo_laws calls : KernelLaws (demo_kernel calls).
Proof.
  split; simpl; [intros l r w [= <- <-]; lia|intros _ _ p; lia].
Qed.

Definition watch_after {A} (m : M watch A) (w : watch) : watch :=
  match m w with Ok _ w' => w' | _ => w end.
Definition at_pc (t : nat) (pc : watcher_pc) (w : watch) : watch := w <| wt_threads ::= <[t := pc]> |>.

Lemma wn_woken {K : Kernel} i p w : p = g_pipe_r w → watcher_next false (W_select i p) w W_done w.
Proof.
  intros ->. pose proof (wn_select i (g_pipe_r w) {[g_pipe_r w]} w) as H.
  rewrite decide_True in H by set_solver. apply H; set_solver.
Qed.

(** A caller's step is the function it runs. *)
Lemma call_runs {K : Kernel} (ctl : nat → Prop) i c w T :
  T !! i = Some A_idle → (controls c = true → ctl i) →
  (∃ w', watch_api c w = Ok tt w') → watch_step ctl (L_api i) (Config w T) (Config (watch_after (watch_api c) w) T).
Proof. intros Hi Hc [w' H]. unfold watch_after. rewrite H. by eapply ws_call. Qed.

(** ** Two threads that start and stop *)

Definition calm_kernel : Kernel := demo_kernel (λ _, []).

Section race.
Local Existing Instance calm_kernel.

Definition race_callers : gset nat := {[0; 1]}%nat.
Definition race_idle : gmap nat api_pc := gset_to_gmap A_idle race_callers.
(** Thread 0 starts, the watcher enters [select], thread 0 asks it to stop, it
    ends; thread 1 starts again; thread 0 goes on to close. *)
Definition race_1 : watch := watch_after (watch_api Call_start) watch_zero.
Definition race_2 : watch := at_pc 0 (W_select (g_ifd race_1) (g_pipe_r race_1)) race_1.
Definition race_3 : watch := watch_after stop_signal race_2.
Definition race_4 : watch := at_pc 0 W_done race_3.
Definition race_5 : watch := watch_after (watch_api Call_start) race_4.
Definition race_6 : watch := watch_after stop_close race_5.

(** C35. Two threads that start and stop race, although the header promises
    that every function may be called from any thread: between the first and
    the second critical section of [xy_watch_stop] another thread can start
    the watcher again, whose descriptors the first then closes.  The library
    counts as running with no descriptor, so that [xy_watch_start] succeeds
    without effect, and the new thread is about to put -1 in an [fd_set]. *)
Theorem start_stop_race :
  ∃ ls c, watch_steps (λ _, True) ls (watch_start race_callers) c ∧
    g_running (cf_w c) = true ∧ g_ifd (cf_w c) = -1 ∧
    wt_threads (cf_w c) !! 1%nat = Some W_top ∧
    (∀ b pc w', ¬ watcher_next b W_top (cf_w c) pc w') ∧
    xy_watch_start (cf_w c) = Ok 0 (cf_w c).
Proof.
  exists [L_api 0; L_watcher 0; L_api 0; L_api 0; L_watcher 0; L_api 0; L_api 1; L_api 0]%nat,
    (Config race_6 (<[0%nat := A_idle]> (<[0%nat := A_close]> (<[0%nat := A_wait 0]> (<[0%nat := A_join]> race_idle))))).
  split; [|split_and!; try (vm_compute; reflexivity)].
  2: { intros b pc w' H. inversion H as [w [Hneg _]| | | | | | | | | | |]; subst. vm_compute in Hneg. by apply Hneg. }
  eapply wss_cons; [apply (call_runs _ 0 Call_start); [done|done|by eexists; vm_compute]|].
  eapply wss_cons; [eapply (ws_watcher _ false 0); [by vm_compute|by apply wn_top; vm_compute]|].
  eapply wss_cons; [apply (ws_signal _ 0 _ race_3); [done|done|vm_compute; reflexivity]|].
  eapply wss_cons; [apply ws_join; vm_compute; reflexivity|].
  eapply wss_cons; [eapply (ws_watcher _ false 0); [vm_compute; reflexivity|by apply wn_woken; vm_compute]|].
  eapply wss_cons; [apply (ws_joined _ 0 0); vm_compute; reflexivity|].
  eapply wss_cons; [apply (call_runs _ 1 Call_start); [vm_compute; reflexivity|done|by eexists; vm_compute]|].
  eapply wss_cons; [apply (ws_close _ 0 _ race_6); vm_compute; reflexivity|]. apply wss_nil.
Qed.

(** ** The theorems on it *)

Lemma race_waits :
  watch_reaches (λ i, i = 0%nat) race_callers
    (Config race_3 (<[0%nat := A_wait 0]> (<[0%nat := A_join]> race_idle))).
Proof.
  exists [L_api 0; L_watcher 0; L_api 0; L_api 0]%nat.
  eapply wss_cons; [apply (call_runs _ 0 Call_start); [done|done|by eexists; vm_compute]|].
  eapply wss_cons; [eapply (ws_watcher _ false 0); [by vm_compute|by apply wn_top; vm_compute]|].
  eapply wss_cons; [apply (ws_signal _ 0 _ race_3); [done|done|vm_compute; reflexivity]|].
  eapply wss_cons; [apply ws_join; vm_compute; reflexivity|]. apply wss_nil.
Qed.

Lemma watch_one_controller_witness :
  watch_safe 0 (Config race_3 (<[0%nat := A_wait 0]> (<[0%nat := A_join]> race_idle))).
Proof.
  exact (proj1 (watch_one_controller (KL := demo_laws _) 0 _ _ race_waits)).
Defined.

(** The watcher can take its last step. *)
Lemma stop_returns_witness :
  let c := Config race_3 (<[0%nat := A_wait 0]> (<[0%nat := A_join]> race_idle)) in
  (times (L_watcher 0) [] ≤ 1 + times (L_signal 0) [])%nat ∧
  ∃ l c', watch_step (λ i, i = 0%nat) l c c' ∧ (l = L_watcher 0 ∨ l = L_api 0).
Proof.
  destruct (stop_returns (KL := demo_laws _) 0 (λ _, eq_refl) _ _ 0 race_waits) as (pc & Hpc & H).
  - vm_compute. reflexivity.
  - vm_compute. split; [discriminate|reflexivity].
  - vm_compute. split; [discriminate|reflexivity].
  - vm_compute in Hpc. injection Hpc as <-. apply (H []); [apply wss_nil|apply not_elem_of_nil].
Defined.

Definition watch_two : watch :=
  watch_after (xy_watch_add (Some "mods/b")) (watch_after (xy_watch_add (Some "mods/a")) race_1).

Lemma xy_watch_add_contract_witness : xy_watch_add (Some "mods/a") race_1 = Ok 0 (watch_added race_1 "mods/a").
Proof.
  apply (xy_watch_add_contract race_1 "mods/a").
  - vm_compute. reflexivity.
  - intros Hin. vm_compute in Hin. by apply elem_of_nil in Hin.
  - vm_compute. lia.
  - vm_compute. reflexivity.
Defined.

Lemma watch_two_names : NoDup (watch_names watch_two).
Proof.
  assert (watch_names watch_two = ["mods/a"; "mods/b"]) as -> by (vm_compute; reflexivity).
  apply NoDup_cons. split; [set_solver|apply NoDup_singleton].
Qed.

Lemma xy_watch_remove_contract_witness :
  ∃ w', xy_watch_remove (Some "mods/a") watch_two = Ok tt w' ∧ watch_names w' = ["mods/b"] ∧
    last (wt_log w') = Some (Sys_rm (g_ifd race_1) 9).
Proof.
  destruct (xy_watch_remove_contract watch_two "mods/a") as (_ & _ & H).
  - vm_compute. reflexivity.
  - exact watch_two_names.
  - eexists. split; [apply (H 9)|].
    + assert (g_entries watch_two = [WatchEntry "mods/a" 9; WatchEntry "mods/b" 9]) as -> by (vm_compute; reflexivity).
      by left.
    + split; vm_compute; reflexivity.
Defined.

Lemma watch_add_remove_witness :
  ∃ calls, xy_watch_remove (Some "mods/c") (watch_after (xy_watch_add (Some "mods/c")) race_1) =
    Ok tt (race_1 <| wt_log := wt_log race_1 ++ calls |>).
Proof.
  destruct (watch_add_remove race_1 "mods/c" (watch_after (xy_watch_add (Some "mods/c")) race_1)) as (calls & H & _).
  - vm_compute. reflexivity.
  - intros Hin. vm_compute in Hin. by apply elem_of_nil in Hin.
  - vm_compute. reflexivity.
  - by exists calls.
Defined.

(** Two writes to one file, and an event of another kind. *)
Definition watch_evs : list inotify_event :=
  [InotifyEvent 9 IN_CLOSE_WRITE; InotifyEvent 9 32768; InotifyEvent 7 IN_CLOSE_WRITE; InotifyEvent 9 IN_MOVED_TO].
Definition watch_one : watch := watch_after (xy_watch_add (Some "mods/a")) race_1.

Lemma watcher_events_contract_witness :
  ∃ tr, watcher_events watch_evs watch_one = Ok tt (watch_one <| wt_log ::= (λ t, t ++ tr) |>) ∧
    omap sys_reloaded tr = ["mods/a"; "mods/a"].
Proof.
  destruct (watcher_events_contract watch_one watch_evs) as (tr & H & Hr).
  - vm_compute. reflexivity.
  - apply Forall_forall. intros ev _. split; [done| |done].
    intros tr e path He _ Hp.
    assert (g_entries watch_one = [WatchEntry "mods/a" 9]) as Hone by (vm_compute; reflexivity).
    rewrite Hone in He. apply list_elem_of_singleton in He as ->. vm_compute in Hp. by injection Hp as <-.
  - exists tr. split; [exact H|]. rewrite Hr. vm_compute. reflexivity.
Defined.
End race.

(** ** A module that watches another while it is reloaded *)

Definition eager_kernel : Kernel :=
  demo_kernel (λ f, if String.eqb f "mods/eager" then [Call_add (Some "mods/other")] else []).

Section eager.
Local Existing Instance eager_kernel.

Lemma wn_readable {K : Kernel} i p w :
  i = g_ifd w → p = g_pipe_r w → i ≠ p → wt_written w = ∅ → watcher_next false (W_select i p) w W_read w.
Proof.
  intros -> -> Hne Hno. pose proof (wn_select (g_ifd w) (g_pipe_r w) {[g_ifd w]} w) as H.
  rewrite decide_False in H by set_solver. rewrite decide_True in H by set_solver.
  apply H; [set_solver|set_solver|]. intros (wr & _ & Hwr). set_solver.
Qed.

Definition eager_idle : gmap nat api_pc := gset_to_gmap A_idle {[0%nat]}.
Definition eager_1 : watch := watch_after (watch_api (Call_add (Some "mods/eager"))) watch_zero.
Definition eager_2 : watch := watch_after (watch_api Call_start) eager_1.
Definition eager_3 : watch := at_pc 0 (W_select (g_ifd eager_2) (g_pipe_r eager_2)) eager_2.
Definition eager_4 : watch := at_pc 0 W_read eager_3.
Definition eager_ev : inotify_event := InotifyEvent 13 IN_CLOSE_WRITE.
Definition eager_5 : watch := at_pc 0 (W_events [eager_ev]) eager_4.
Definition eager_6 : watch := at_pc 0 (W_relock "mods/eager" []) (watch_after (watcher_event eager_ev) eager_5).
Definition eager_7 : watch :=
  at_pc 0 (W_reload "mods/eager" [] [Call_add (Some "mods/other")])
    (watch_after (lock;; emit (Sys_reload "mods/eager")) eager_6).

Lemma eager_reached : watch_reaches (λ i, i = 0%nat) {[0%nat]} (Config eager_7 eager_idle).
Proof.
  exists [L_api 0; L_api 0; L_watcher 0; L_watcher 0; L_watcher 0; L_watcher 0; L_watcher 0]%nat.
  eapply wss_cons; [apply (call_runs _ 0 (Call_add (Some "mods/eager"))); [done|done|by eexists; vm_compute]|].
  eapply wss_cons; [apply (call_runs _ 0 Call_start); [done|done|by eexists; vm_compute]|].
  eapply wss_cons; [eapply (ws_watcher _ false 0); [by vm_compute|by apply wn_top; vm_compute]|].
  eapply wss_cons; [eapply (ws_watcher _ false 0); [vm_compute; reflexivity|by apply wn_readable; vm_compute]|].
  eapply wss_cons; [eapply (ws_watcher _ false 0); [vm_compute; reflexivity|apply (wn_read [eager_ev]); vm_compute; lia]|].
  eapply wss_cons.
  { eapply (ws_watcher _ false 0); [vm_compute; reflexivity|].
    apply (wn_event eager_ev [] (Some "mods/eager") _ (watch_after (watcher_event eager_ev) eager_5)).
    vm_compute. reflexivity. }
  eapply wss_cons.
  { eapply (ws_watcher _ false 0); [vm_compute; reflexivity|].
    apply (wn_lock "mods/eager" [] _ (watch_after (lock;; emit (Sys_reload "mods/eager")) eager_6)).
    vm_compute. reflexivity. }
  apply wss_nil.
Qed.

Lemma reload_deadlock_witness : g_mu eager_7 = true ∧ watch_api Call_stop eager_7 ≠ Ok tt eager_7.
Proof.
  destruct (reload_deadlock (KL := demo_laws _) 0 _ _ 0 "mods/eager" [] (Call_add (Some "mods/other")) []
    eager_reached eq_refl eq_refl [] _ (wss_nil _ _)) as (_ & Hmu & H).
  split; [exact Hmu|by apply H].
Defined.
End eager.
End witnesses.
