(* ===== verification/Env.v ===== *)
(** * What surrounds the library

    [Os] is what the library asks of the operating system and of the dynamic
    loader (through libstele's portable wrappers, which are not part of this
    repository), together with the data it reads out of a module's exported
    symbols.  [Callbacks] is the code of modules and hosts the library runs:
    it is arbitrary, may call back into the library, and is therefore a
    computation.  [CallbacksRespect R] is what a client theorem asks of it. *)
From S2P Require Import Prelude Words Corm State.

Class Os := {
  (** [stl_realpath(path, NULL)] *)
  os_realpath : string → option string;
  os_getenv : string → option string;
  (** [stat]: device and inode *)
  os_stat : string → option (Z * Z);
  (** [stl_mkstemps(template, 3)] followed by a copy of the source's bytes:
      the name of the finished copy.  The number tells the moment, by how much
      has happened: each time it may be another name, or fail. *)
  os_copy : string → string → nat → option string;
  (** [stl_dlopen(NULL)]: the program itself *)
  os_main_handle : option handle;
  (** [stl_dlsym] *)
  os_dlsym : handle → string → option addr;
  (** [dladdr]: base address of the object that holds a symbol *)
  os_dladdr : addr → option Z;
  (** [dlinfo(RTLD_DI_LINKMAP)]: base address of a handle's own object *)
  os_dlinfo : handle → option Z;
  (** the value of [*claim_sym] *)
  os_u8_symbol : addr → Z;
  (** [xy_region_state_size()], [xy_ctx_abi()] and [get_xy_ptr()] *)
  os_state_size : addr → Z;
  os_ctx_abi : addr → Z;
  os_ctx_ptr : addr → option cptr;
  (** the numeric address of an adapter *)
  os_adapter_address : aptr → Z
}.

Class Callbacks {C : Corm} := {
  (** [stl_dlopen(path, STL_RTLD_NODELETE)]; runs the object's constructors *)
  cb_dlopen : string → M world (option handle);
  (** a [void (void)] export, e.g. [xy_install] *)
  cb_install : addr → M world unit;
  (** a listener: the argument block and the bytes of its return value *)
  cb_hook : addr → Z → M world (list Z);
  (** a claim handler: module path, requested bits, user data; returns its
      code and what it left in [*granted], which the caller set to 0 *)
  cb_claim : addr → string → Z → ud → M world (Z * Z);
  (** an [xy_region_each] visitor *)
  cb_each : addr → Z → Z → ud → M world Z;
  (** an [xy_with_region] body *)
  cb_scope : addr → ud → M world Z;
  (** [xy_region_cleanup(state)] *)
  cb_cleanup : addr → stptr → M world unit
}.

(** Every callback only moves along [R]. *)
Class CallbacksRespect {C : Corm} (cb : Callbacks) (R : relation world) : Prop := {
  cbr_dlopen p : respects R (cb_dlopen p);
  cbr_install f : respects R (cb_install f);
  cbr_hook f a : respects R (cb_hook f a);
  cbr_claim f p b u : respects R (cb_claim f p b u);
  cbr_each f i p u : respects R (cb_each f i p u);
  cbr_scope f u : respects R (cb_scope f u);
  cbr_cleanup f s : respects R (cb_cleanup f s)
}.
#[export] Hint Resolve cbr_dlopen cbr_install cbr_hook cbr_claim cbr_each
  cbr_scope cbr_cleanup : respects.

Section env.
Context {C : Corm} {OS : Os}.

(** [module_lookup_symbol_raw]; [module_lookup_symbol_fn] stores the same
    address through its out parameter. *)
Definition module_lookup_symbol_raw (h : handle) (symbol : string) : option addr :=
  os_dlsym h symbol.
Definition module_lookup_symbol_fn (h : handle) (symbol : string) : option addr :=
  match module_lookup_symbol_raw h symbol with
  | None => None
  | Some sym => Some sym
  end.

(** [module_base_from_symbol] *)
Definition module_base_from_symbol (sym : option addr) : option Z :=
  match sym with
  | None => None
  | Some s => os_dladdr s
  end.

(** [module_handle_base] *)
Definition module_handle_base (h : handle) : option Z :=
  let any_sym :=
    match module_lookup_symbol_raw h "xy_install" with
    | Some s => Some s
    | None => module_lookup_symbol_raw h "get_xy_ptr"
    end in
  module_base_from_symbol any_sym.

(** [module_symbol_is_local], the [dlinfo()] branch; [me] and [sym] are not
    NULL where it is called. *)
Definition module_symbol_is_local (me : mod_entry) (sym : addr) : bool :=
  match me_handle me with
  | None => false
  | Some h =>
      match os_dlinfo h, os_dladdr sym with
      | Some lm, Some fbase => negb (fbase =? 0) && (fbase =? lm)
      | _, _ => false
      end
  end.

(** [module_same_file] *)
Definition module_same_file (a b : option string) : bool :=
  match a, b with
  | Some a, Some b =>
      if String.eqb a b then true
      else match os_stat a, os_stat b with
           | Some (da, ia), Some (db, ib) => (da =? db) && (ia =? ib)
           | _, _ => false
           end
  | _, _ => false
  end.
End env.
