(* ===== verification/Regions.v ===== *)
(** * Regions

    The region table and the intrusive region tree of src/libxylem.c: lookup by
    [(id, plen)], the walks towards the root, the walks over a subtree, slot
    allocation, and the searches for the nearest ancestor and the deepest
    cover.  Definitions only; the invariant and the proofs are in RegionTree
    and RegionSpecs. *)
From S2P Require Import Prelude Words Corm State.

Section regions.
Context {C : Corm}.
Abbreviation M := (M world).

(** ** Lookup *)

(** [region_key] *)
Definition mk_region_key (id plen : Z) : region_key := (id, plen).

(** [region_lookup]: by the full identity, never by an id alone. *)
Definition region_lookup (id plen : Z) : M (option rptr) :=
  t ← table rt_region_hd; mret (corm_get t (mk_region_key id plen)).

(** ** Walks towards the root *)

(** The first loop of [region_ancestor_chain]: at most [cap] entries, the
    start first. *)
Fixpoint ancestor_walk (cap : nat) (e : option rptr) : M (list rptr) :=
  match cap, e with
  | S n, Some p =>
      en ← rget p; l ← ancestor_walk n (re_parent en); mret (p :: l)
  | _, _ => mret []
  end.

(** The second loop: swap [chain[a]] and [chain[b]] while [a < b]. *)
Fixpoint swap_ends {A} (fuel : nat) (l : list A) (a b : nat) : list A :=
  match fuel with
  | O => l
  | S n =>
      if decide (a < b)%nat then
        match l !! a, l !! b with
        | Some x, Some y => swap_ends n (<[b := x]> (<[a := y]> l)) (S a) (b - 1)
        | _, _ => l
        end
      else l
  end.

(** [region_ancestor_chain]: root first. *)
Definition region_ancestor_chain (start : option rptr) (chain_cap : nat) : M (list rptr) :=
  chain ← ancestor_walk chain_cap start;
  mret (swap_ends (length chain) chain 0 (length chain - 1)).

(** The loops [for (e = entry; e; e = e->parent)].  A width is at most 64 and
    shrinks strictly towards the root, so 65 rounds suffice. *)
Definition chain_fuel : nat := 65.

Fixpoint up_each (fuel : nat) (f : region_entry → region_entry) (e : option rptr)
    : M unit :=
  match e with
  | None => mret tt
  | Some p =>
      match fuel with
      | O => nofuel
      | S n => rmod p f;; en ← rget p; up_each n f (re_parent en)
      end
  end.

(** [region_propagate_deny] *)
Definition region_propagate_deny (entry : option rptr) : M unit :=
  up_each chain_fuel
    (λ e, e <| re_subtree_flags ::= (λ f, Z.lor f XY_SUBTREE_HAS_DENY) |>) entry.

(** One bump of [dispatch_gen]; it never becomes 0, the value of an empty
    cache. *)
Definition gen_succ (g : Z) : Z := if u64 (g + 1) =? 0 then 1 else u64 (g + 1).

(** [region_dispatch_gen_bump] *)
Definition region_dispatch_gen_bump (entry : option rptr) : M unit :=
  up_each chain_fuel (λ e, e <| re_dispatch_gen ::= gen_succ |>) entry.

(** [region_mark_subtree_dirty] *)
Definition region_mark_subtree_dirty (entry : option rptr) : M unit :=
  region_dispatch_gen_bump entry;;
  up_each chain_fuel (λ e, e <| re_subtree_mods_dirty := true |>) entry.

(** ** The flat vector of a subtree's modules *)

(** [region_subtree_mods_push]; 0, or -1 when the vector cannot grow. *)
Definition region_subtree_mods_push (root : rptr) (me : mptr) : M Z :=
  r ← rget root;
  grown ← (if decide (re_subtree_mods_cap r ≤ length (re_subtree_mods r))%nat then
             ok ← alloc_ok;
             (if (ok : bool)
              then rput root (r <| re_subtree_mods_cap ::=
                     (λ c, if decide (c = 0)%nat then 8%nat else c * 2)%nat |>);; mret true
              else mret false)
           else mret true);
  if (grown : bool)
  then rmod root (λ r, r <| re_subtree_mods ::= (λ l, l ++ [me]) |>);; mret 0
  else mret (-1).

(** The loop over one region's own modules. *)
Fixpoint push_mods (fuel : nat) (root : rptr) (me : option mptr) : M Z :=
  match me with
  | None => mret 0
  | Some m =>
      match fuel with
      | O => nofuel
      | S n =>
          r ← region_subtree_mods_push root m;
          if r <? 0 then mret (-1)
          else e ← mget m; push_mods n root (me_region_next e)
      end
  end.

(** [region_collect_subtree_mods]: a region's own modules, then each child's
    subtree. *)
Fixpoint region_collect_subtree_mods (fuel : nat) (root node : rptr) : M Z :=
  match fuel with
  | O => nofuel
  | S n =>
      e ← rget node;
      k ← gets (λ w, size (w_mods w));
      r ← push_mods (S k) root (re_mods_head e);
      if r <? 0 then mret (-1)
      else e' ← rget node; collect_children n root (re_children_head e')
  end
with collect_children (fuel : nat) (root : rptr) (child : option rptr) : M Z :=
  match child with
  | None => mret 0
  | Some c =>
      match fuel with
      | O => nofuel
      | S n =>
          r ← region_collect_subtree_mods n root c;
          if r <? 0 then mret (-1)
          else ec ← rget c; collect_children n root (re_sibling_next ec)
      end
  end.

(** A walk over a subtree takes at most one step per sibling at each of the
    65 widths, and one to enter each level. *)
Definition walk_fuel (w : world) : nat := 65 * S (size (w_regions w)).

(** [region_rebuild_subtree_mods] *)
Definition region_rebuild_subtree_mods (root : option rptr) : M Z :=
  match root with
  | None => mret 0
  | Some p =>
      rmod p (λ e, e <| re_subtree_mods := [] |>);;
      n ← gets walk_fuel;
      r ← region_collect_subtree_mods n p p;
      if r <? 0 then mret (-1)
      else rmod p (λ e, e <| re_subtree_mods_dirty := false |>);; mret 0
  end.

(** ** The root *)

(** [region_ensure_root].  The entry is used without a check of [calloc]. *)
Definition region_ensure_root : M unit :=
  o ← region_lookup XY_REGION_ROOT 0;
  root ← match o with
         | Some p => mret p
         | None =>
             ok ← alloc_ok;
             (if (ok : bool) then
               p ← fresh_ptr;
               rput p (region_entry_zero
                         <| re_id := XY_REGION_ROOT |> <| re_depth := 0 |>
                         <| re_child_bits := 0 |> <| re_plen := 0 |>
                         <| re_owner_path := None |>
                         <| re_dispatch_gen := 1 |> <| re_parent := None |>);;
               t ← table rt_region_hd;
               rt_mod (λ r, r <| rt_region_hd :=
                 Some (corm_put t (mk_region_key XY_REGION_ROOT 0) p) |>);;
               mret p
             else crash)
         end;
  cur ← tls_get t_current_region_entry;
  plen ← region_current_plen;
  if bool_decide (cur = None) || (plen =? 0)
  then e ← rget root; set_current_region (re_id e) (Some root)
  else mret tt.

(** ** Allocation of a child's slot *)

(** The do-while of [region_alloc_slot]: [s] counts up from 0 in 64 bits and
    the loop stops when it reaches [num_slots], which is 0 for a child of
    width 64, i.e. after 2^64 rounds. *)
Definition alloc_slot_step (t : corm region_key rptr) (pid cplen num_slots shift : Z)
    (s : Z) : Z + Z :=
  let candidate_id := Z.lor pid (u64 (Z.shiftl s shift)) in
  match corm_get t (mk_region_key candidate_id cplen) with
  | None => inr candidate_id
  | Some _ =>
      let s' := u64 (s + 1) in
      if s' =? num_slots then inr XY_REGION_INVALID else inl s'
  end.

(** [region_alloc_slot] *)
Definition region_alloc_slot (t : corm region_key rptr) (parent : region_entry) (bits : Z)
    : Z :=
  let cplen := u8 (re_plen parent + bits) in
  if 64 <? cplen then XY_REGION_INVALID
  else
    let num_slots := if cplen =? 64 then 0 else u64 (Z.shiftl 1 bits) in
    let slot_shift := if cplen <? 64 then 64 - cplen else 0 in
    match until (2 ^ 64) (alloc_slot_step t (re_id parent) cplen num_slots slot_shift) 0 with
    | inr id => id
    | inl _ => XY_REGION_INVALID
    end.

(** ** Searches *)

(** The recursion shared by [region_find_ancestor_rec] and
    [region_find_cover_rec]; [stop] is the width test each starts with. *)
Fixpoint find_rec (stop : Z → Z → bool) (fuel : nat) (node : rptr) (id plen : Z)
    (best : option rptr) : M (option rptr) :=
  match fuel with
  | O => nofuel
  | S n =>
      e ← rget node;
      if stop (re_plen e) plen then mret best
      else
        best' ← (if covers (re_id e) (re_plen e) id then
                   match best with
                   | None => mret (Some node)
                   | Some b =>
                       eb ← rget b;
                       mret (if re_plen eb <? re_plen e then Some node else best)
                   end
                 else mret best);
        find_children stop n (re_children_head e) id plen best'
  end
with find_children (stop : Z → Z → bool) (fuel : nat) (c : option rptr) (id plen : Z)
    (best : option rptr) : M (option rptr) :=
  match c with
  | None => mret best
  | Some p =>
      match fuel with
      | O => nofuel
      | S n =>
          best' ← find_rec stop n p id plen best;
          e ← rget p;
          find_children stop n (re_sibling_next e) id plen best'
      end
  end.

(** [region_find_ancestor_rec]: prunes at [node->plen >= plen]. *)
Definition region_find_ancestor_rec : nat → rptr → Z → Z → option rptr → M (option rptr) :=
  find_rec (λ node_plen plen, plen <=? node_plen).

(** [region_find_cover_rec]: prunes at [node->plen > plen]. *)
Definition region_find_cover_rec : nat → rptr → Z → Z → option rptr → M (option rptr) :=
  find_rec (λ node_plen plen, plen <? node_plen).

(** [region_nearest_ancestor] *)
Definition region_nearest_ancestor (id plen : Z) : M (option rptr) :=
  o ← region_lookup XY_REGION_ROOT 0;
  match o with
  | None => mret None
  | Some root => n ← gets walk_fuel; region_find_ancestor_rec n root id plen None
  end.
End regions.
