(* ===== verification/RegionTree.v ===== *)
(** * The region tree

    What the links and the table of Regions.v are meant to say, as an invariant
    of the heap ([tree_wf]), and the walks of Regions.v under it: they
    terminate within their fuel and compute what the tree dictates. *)
From S2P Require Import Prelude Words Corm State Regions.

Section tree.
Context {C : Corm}.
Implicit Types (h : gmap rptr region_entry) (e : region_entry) (p q r c : rptr).

(** ** The invariant *)

(** [c] is a child of [p]. *)
Definition edge h p c : Prop := ∃ e, h !! c = Some e ∧ re_parent e = Some p.

(** [q] lies in the subtree of [p]. *)
Definition sub h : relation rptr := rtc (edge h).

(** A region is the root, or it is strictly wider than its parent. *)
Definition parent_ok h e : Prop :=
  match re_parent e with
  | None => re_id e = XY_REGION_ROOT ∧ re_plen e = 0 ∧ re_depth e = 0
  | Some q =>
      ∃ eq, h !! q = Some eq ∧ re_plen eq < re_plen e ∧
        re_depth e = re_depth eq + 1 ∧ re_child_bits e = re_plen e - re_plen eq
  end.

Record tree_wf h (tbl : corm region_key rptr) (kids : rptr → list rptr) : Prop := {
  (** the table holds exactly the live regions, under their identity *)
  tw_tbl k p : corm_get tbl k = Some p ↔
    ∃ e, h !! p = Some e ∧ k = mk_region_key (re_id e) (re_plen e);
  tw_root : is_Some (corm_get tbl (mk_region_key XY_REGION_ROOT 0));
  (** identities are canonical prefixes *)
  tw_ident p e : h !! p = Some e →
    is_u64 (re_id e) ∧ 0 ≤ re_plen e ≤ 64 ∧ aligned (re_id e) (re_plen e);
  tw_parent p e : h !! p = Some e → parent_ok h e;
  (** the sibling chains list the children *)
  tw_kids p e : h !! p = Some e → chain h re_sibling_next (re_children_head e) (kids p);
  tw_edge p c : p ∈ dom h → c ∈ kids p ↔ edge h p c
}.

(** The part of an entry the tree is made of. *)
Definition re_shape e :=
  (re_id e, re_plen e, re_depth e, re_child_bits e, re_parent e,
   re_children_head e, re_sibling_next e).

Section shape.
Context h h' (Hs : re_shape <$> h = re_shape <$> h').

Lemma shape_lookup p e' : h' !! p = Some e' → ∃ e, h !! p = Some e ∧ re_shape e = re_shape e'.
Proof.
  intros He. assert (Hf : (re_shape <$> h) !! p = Some (re_shape e')).
  { by rewrite Hs, lookup_fmap, He. }
  rewrite lookup_fmap in Hf. destruct (h !! p) as [e|]; [|done].
  exists e. split; [done|]. simpl in Hf. congruence.
Qed.

Lemma shape_dom : dom h = dom h'.
Proof. by rewrite <- (dom_fmap_L re_shape h), Hs, dom_fmap_L. Qed.
End shape.

Lemma sub_shape h h' p q : re_shape <$> h = re_shape <$> h' → sub h p q ↔ sub h' p q.
Proof.
  intros Hs. split; apply rtc_subrel; intros a b (e & He & Hpe);
    [destruct (shape_lookup _ _ (eq_sym Hs) _ _ He) as (e' & He' & Heq)
    |destruct (shape_lookup _ _ Hs _ _ He) as (e' & He' & Heq)];
    exists e'; (split; [done|]); unfold re_shape in Heq; congruence.
Qed.

(** The invariant does not see caches, module lists, flags or handlers. *)
Lemma tree_wf_shape h h' tbl kids :
  re_shape <$> h = re_shape <$> h' → tree_wf h tbl kids → tree_wf h' tbl kids.
Proof.
  intros Hs [Ht Hr Hi Hp Hk He]. pose proof (shape_lookup _ _ Hs) as L.
  pose proof (shape_lookup _ _ (eq_sym Hs)) as L'.
  assert (Hedge : ∀ p c, edge h p c ↔ edge h' p c).
  { intros p c. split; intros (e & Hc & Hpe);
      [destruct (L' _ _ Hc) as (e' & ? & Heq)|destruct (L _ _ Hc) as (e' & ? & Heq)];
      exists e'; (split; [done|]); unfold re_shape in Heq; congruence. }
  split.
  - intros k p. rewrite Ht. split; intros (e & Hc & ->);
      [destruct (L' _ _ Hc) as (e' & ? & Heq)|destruct (L _ _ Hc) as (e' & ? & Heq)];
      exists e'; (split; [done|]); unfold re_shape in Heq; congruence.
  - done.
  - intros p e' (e & H1 & Heq)%L. specialize (Hi p e H1).
    injection Heq as <- <- _ _ _ _ _. done.
  - intros p e' (e & H1 & Heq)%L. specialize (Hp p e H1). unfold parent_ok in *.
    injection Heq as <- <- <- <- <- _ _.
    destruct (re_parent e) as [q|]; [|done].
    destruct Hp as (eq & Hq & ?). destruct (L' _ _ Hq) as (eq' & ? & Heq').
    exists eq'. split; [done|]. injection Heq' as _ -> -> _ _ _ _. done.
  - intros p e' (e & H1 & Heq)%L. specialize (Hk p e H1).
    injection Heq as _ _ _ _ _ <- _.
    eapply chain_frame; [exact Hk|]. intros q eq _ Hq.
    destruct (L' _ _ Hq) as (eq' & ? & Heq'). exists eq'.
    split; [done|]. by injection Heq' as _ _ _ _ _ _ ->.
  - intros p c. rewrite <- (shape_dom _ _ Hs). intros. by rewrite He, Hedge.
Qed.

(** ** Consequences *)

(** The elements of the chain are the regions the entry lies under. *)
Lemma parent_chain_sub h o l q :
  chain h re_parent o l → q ∈ l → ∀ p, o = Some p → sub h q p.
Proof.
  revert o. induction l as [|a l IH]; intros o; simpl; [set_solver|].
  intros (-> & e & He & Hl) Hq p [= <-].
  apply elem_of_cons in Hq as [->|Hq]; [done|].
  destruct (re_parent e) as [b|] eqn:Hb.
  - eapply rtc_r; [by eapply IH|]. by exists e.
  - destruct l; simpl in Hl; [set_solver|by destruct Hl].
Qed.

Lemma sub_parent_chain h o l q p :
  chain h re_parent o l → o = Some p → sub h q p → q ∈ l.
Proof.
  intros Hc -> Hs. revert l Hc. pattern p. revert p Hs.
  apply rtc_ind_r; [|intros a p Hqa (e & He & Hpar) IH]; intros [|x l]; simpl;
    [done|by intros [[= <-] _]; left|done|].
  intros ([= <-] & e' & He' & Hl). simplify_eq. rewrite Hpar in Hl.
  apply elem_of_cons. right. by apply IH.
Qed.

Section facts.
Context h tbl kids (Hwf : tree_wf h tbl kids).

Lemma tw_lookup p e : h !! p = Some e → corm_get tbl (re_id e, re_plen e) = Some p.
Proof. intros He. apply (tw_tbl _ _ _ Hwf). eauto. Qed.

(** Identities are unique. *)
Lemma tw_inj p q e eq :
  h !! p = Some e → h !! q = Some eq → re_id e = re_id eq → re_plen e = re_plen eq → p = q.
Proof.
  intros H1%tw_lookup H2%tw_lookup Hi Hp. rewrite Hi, Hp, H2 in H1. congruence.
Qed.

Lemma tw_root_entry :
  ∃ r e, corm_get tbl (mk_region_key XY_REGION_ROOT 0) = Some r ∧ h !! r = Some e ∧
    re_id e = XY_REGION_ROOT ∧ re_plen e = 0 ∧ re_parent e = None.
Proof.
  destruct (tw_root _ _ _ Hwf) as [r Hr]. pose proof Hr as Hr'.
  apply (tw_tbl _ _ _ Hwf) in Hr' as (e & He & [= Hid Hpl]).
  exists r, e. split_and!; try done.
  pose proof (tw_parent _ _ _ Hwf _ _ He) as Hp. unfold parent_ok in Hp.
  destruct (re_parent e) as [q|]; [|done].
  destruct Hp as (eq & Hq & ? & _). pose proof (tw_ident _ _ _ Hwf _ _ Hq). lia.
Qed.

(** An edge climbs in width and stays in the heap. *)
Lemma edge_plen p c e ec :
  edge h p c → h !! p = Some e → h !! c = Some ec → re_plen e < re_plen ec.
Proof.
  intros (ec' & Hc & Hpar) Hp Hc'. simplify_eq.
  pose proof (tw_parent _ _ _ Hwf _ _ Hc) as H. unfold parent_ok in H.
  rewrite Hpar in H. destruct H as (e' & ? & ? & _). by simplify_eq.
Qed.

Lemma edge_dom p c : edge h p c → p ∈ dom h ∧ c ∈ dom h.
Proof.
  intros (ec & Hc & Hpar). pose proof (tw_parent _ _ _ Hwf _ _ Hc) as H.
  unfold parent_ok in H. rewrite Hpar in H. destruct H as (e & He & _).
  split; by eapply elem_of_dom_2.
Qed.

Lemma kids_edge p e c : h !! p = Some e → c ∈ kids p → edge h p c.
Proof. intros He%elem_of_dom_2 Hc. by apply (tw_edge _ _ _ Hwf). Qed.

Lemma kids_entry p e c :
  h !! p = Some e → c ∈ kids p →
  ∃ ec, h !! c = Some ec ∧ re_plen e < re_plen ec ≤ 64.
Proof.
  intros He Hc. pose proof (kids_edge _ _ _ He Hc) as Hedge.
  destruct (edge_dom _ _ Hedge) as [_ [ec Hec]%elem_of_dom].
  exists ec. split; [done|]. split; [by eapply edge_plen|].
  destruct (tw_ident _ _ _ Hwf _ _ Hec) as (_ & ? & _). lia.
Qed.

(** The subtree of a region is the region and the subtrees of its children. *)
Lemma sub_kids p e q :
  h !! p = Some e → sub h p q ↔ q = p ∨ ∃ c, c ∈ kids p ∧ sub h c q.
Proof.
  intros He. split.
  - intros [->|(c & Hc & ?)]%rtc_inv; [by left|]. right. exists c. split; [|done].
    apply (tw_edge _ _ _ Hwf); [by eapply elem_of_dom_2|done].
  - intros [->|(c & Hc & Hcq)]; [done|]. eapply rtc_l; [by eapply kids_edge|done].
Qed.

Lemma sub_plen p q e eq :
  sub h p q → h !! p = Some e → h !! q = Some eq → re_plen e ≤ re_plen eq.
Proof.
  intros Hs. revert e. induction Hs as [p|p c q Hpc Hcq IH]; intros e Hp Hq.
  - simplify_eq. lia.
  - destruct (edge_dom _ _ Hpc) as [_ [ec Hc]%elem_of_dom].
    specialize (IH _ Hc Hq). pose proof (edge_plen _ _ _ _ Hpc Hp Hc). lia.
Qed.

(** Every region lies under the root. *)
Lemma sub_root r q :
  corm_get tbl (mk_region_key XY_REGION_ROOT 0) = Some r → q ∈ dom h → sub h r q.
Proof.
  intros Hr. destruct tw_root_entry as (r' & er & Hr' & Her & Hid & Hpl & Hpar).
  simplify_eq. intros [eq Hq]%elem_of_dom.
  remember (Z.to_nat (re_plen eq)) as n eqn:Hn.
  revert q eq Hq Hn. induction n as [n IH] using lt_wf_ind. intros q eq Hq Hn.
  pose proof (tw_parent _ _ _ Hwf _ _ Hq) as H. unfold parent_ok in H.
  destruct (re_parent eq) as [p|] eqn:Hpq.
  - destruct H as (ep & Hp & Hlt & _).
    pose proof (tw_ident _ _ _ Hwf _ _ Hp).
    eapply rtc_r; [eapply (IH (Z.to_nat (re_plen ep))); [lia|exact Hp|done]|].
    by exists eq.
  - destruct H as (Hi & Hp & _).
    replace q with r; [done|]. by eapply (tw_inj r q); [exact Her|exact Hq|congruence..].
Qed.

(** A region is no deeper than it is wide. *)
Lemma tw_depth p e : h !! p = Some e → 0 ≤ re_depth e ≤ re_plen e.
Proof.
  remember (Z.to_nat (re_plen e)) as n eqn:Hn.
  revert p e Hn. induction n as [n IH] using lt_wf_ind. intros p e Hn He.
  pose proof (tw_parent _ _ _ Hwf _ _ He) as H. unfold parent_ok in H.
  destruct (re_parent e) as [q|]; [|lia].
  destruct H as (eq & Heq & Hlt & Hd & _).
  pose proof (tw_ident _ _ _ Hwf _ _ Heq).
  specialize (IH (Z.to_nat (re_plen eq)) ltac:(lia) q eq eq_refl Heq). lia.
Qed.

(** ** The chain of ancestors *)

(** The parents of a region, up to the root, are a finite chain no longer
    than its width allows. *)
Lemma parent_chain p e :
  h !! p = Some e →
  ∃ l r, chain h re_parent (Some p) (p :: l) ∧
    Z.of_nat (length l) ≤ re_plen e ∧
    corm_get tbl (mk_region_key XY_REGION_ROOT 0) = Some r ∧
    last (p :: l) = Some r.
Proof.
  remember (Z.to_nat (re_plen e)) as n eqn:Hn.
  revert p e Hn. induction n as [n IH] using lt_wf_ind. intros p e Hn He.
  pose proof (tw_parent _ _ _ Hwf _ _ He) as H. unfold parent_ok in H.
  destruct (re_parent e) as [q|] eqn:Hq.
  - destruct H as (eq & Heq & Hlt & _).
    pose proof (tw_ident _ _ _ Hwf _ _ Heq).
    destruct (IH (Z.to_nat (re_plen eq))) with (p:=q) (e:=eq)
      as (l & r & Hl & Hlen & Hr & Hlast); [lia|done..|].
    exists (q :: l), r. split_and!; try done.
    + split; [done|]. exists e. split; [done|]. by rewrite Hq.
    + simpl. lia.
  - destruct H as (Hid & Hpl & _). pose proof (tw_lookup _ _ He) as Hr.
    rewrite Hid, Hpl in Hr. exists [], p. split_and!; try done.
    + split; [done|]. exists e. split; [done|]. by rewrite Hq.
    + simpl. lia.
Qed.

(** Being an ancestor is decidable: follow the chain. *)
Lemma sub_em p q : p ∈ dom h → sub h q p ∨ ¬ sub h q p.
Proof.
  intros [e He]%elem_of_dom. destruct (parent_chain p e He) as (l & r & Hc & _).
  destruct (decide (q ∈ p :: l)) as [Hq|Hq].
  - left. by eapply parent_chain_sub.
  - right. intros Hs. apply Hq. by eapply sub_parent_chain.
Qed.
End facts.
End tree.
