(* ===== verification/RegionWalks.v ===== *)
(** * Walks over the region tree

    The loops of Regions.v under [tree_wf]: none runs out of fuel or touches a
    missing cell.  The walks towards the root update exactly the ancestors; the
    two searches return the widest region that covers the point. *)
From S2P Require Import Prelude Words Corm State Regions RegionTree.

(** ** The swap loop reverses *)

Lemma swap_ends_lookup {A} fuel (l : list A) a b i :
  (b < length l)%nat → (b - a ≤ fuel)%nat → (i < length l)%nat →
  swap_ends fuel l a b !! i =
    if decide (a ≤ i ≤ b)%nat then l !! (a + b - i)%nat else l !! i.
Proof.
  revert l a b. induction fuel as [|n IH]; intros l a b Hb Hf Hi; simpl.
  { case_decide; [|done]. f_equal. lia. }
  case_decide as Hab; [|case_decide; [f_equal; lia|done]].
  destruct (lookup_lt_is_Some_2 l a ltac:(lia)) as [x Hx].
  destruct (lookup_lt_is_Some_2 l b ltac:(lia)) as [y Hy].
  rewrite Hx, Hy, IH by (rewrite ?length_insert; lia).
  assert (Hl : ∀ j, (j < length l)%nat → <[b:=x]> (<[a:=y]> l) !! j =
      if decide (j = b) then Some x else if decide (j = a) then Some y else l !! j).
  { intros j Hj. case_decide as Hjb; [subst; by rewrite list_lookup_insert_eq
      by (rewrite length_insert; lia)|].
    rewrite list_lookup_insert_ne by congruence.
    case_decide; [subst; by rewrite list_lookup_insert_eq by lia|].
    by rewrite list_lookup_insert_ne by congruence. }
  repeat case_decide; rewrite !Hl by lia; repeat case_decide; try lia; subst;
    try done; try congruence; try (f_equal; lia);
    rewrite <- ?Hx, <- ?Hy; f_equal; lia.
Qed.

Lemma swap_ends_length {A} fuel (l : list A) a b :
  length (swap_ends fuel l a b) = length l.
Proof.
  revert l a b. induction fuel as [|n IH]; intros l a b; simpl; [done|].
  case_decide; [|done]. destruct (l !! a), (l !! b); try done.
  by rewrite IH, !length_insert.
Qed.

Lemma swap_ends_reverse {A} (l : list A) :
  swap_ends (length l) l 0 (length l - 1) = reverse l.
Proof.
  destruct (decide (l = [])) as [->|Hne]; [done|].
  assert (0 < length l)%nat by (destruct l; simpl; [done|lia]).
  apply list_eq_same_length with (length l);
    [by rewrite length_reverse|by rewrite swap_ends_length|].
  intros i x y Hi Hx Hy.
  rewrite swap_ends_lookup in Hx by lia. rewrite reverse_lookup in Hy by lia.
  rewrite decide_True in Hx by lia.
  replace (0 + (length l - 1) - i)%nat with (length l - S i)%nat in Hx by lia.
  congruence.
Qed.

Section walks.
Context {C : Corm}.
Implicit Types (h : gmap rptr region_entry) (w : world).

(** ** Towards the root *)

(** [f] applied to the listed cells. *)
Definition alter_all (f : region_entry → region_entry) (l : list rptr) h :=
  foldl (λ h p, alter f p h) h l.

Lemma alter_as_insert f h p e : h !! p = Some e → alter f p h = <[p := f e]> h.
Proof.
  intros He. apply map_eq. intros q. rewrite lookup_alter, lookup_insert.
  case_decide; subst; [by rewrite He|done].
Qed.

Lemma alter_all_lookup f l h q :
  NoDup l → alter_all f l h !! q = (if decide (q ∈ l) then f <$> h !! q else h !! q).
Proof.
  revert h. induction l as [|p l IH]; intros h; [|simpl].
  { intros _. case_decide; [set_solver|done]. }
  intros [Hp Hl]%NoDup_cons. rewrite IH by done. rewrite lookup_alter.
  destruct (decide (p = q)) as [->|Hpq], (decide (q ∈ l)), (decide (q ∈ _ :: l)) as [Hq|Hq];
    rewrite elem_of_cons in Hq; naive_solver.
Qed.

Lemma alter_all_shape f l h :
  (∀ e, re_shape (f e) = re_shape e) → re_shape <$> alter_all f l h = re_shape <$> h.
Proof.
  intros Hf. revert h. induction l as [|p l IH]; intros h; simpl; [done|].
  rewrite IH. apply map_eq. intros q. rewrite !lookup_fmap, lookup_alter.
  case_decide as Hq; [|done]. rewrite Hq. destruct (h !! q); simpl; [by rewrite Hf|done].
Qed.

(** A walk along a parent chain updates exactly its cells. *)
Lemma up_each_spec n f w o l :
  (∀ e, re_parent (f e) = re_parent e) →
  chain (w_regions w) re_parent o l → (length l ≤ n)%nat →
  up_each n f o w = Ok tt (w <| w_regions ::= alter_all f l |>).
Proof.
  intros Hf. revert w o n. induction l as [|p l IH]; intros w o n.
  { simpl. intros -> _. destruct n; simpl; by destruct w. }
  intros Hc Hn. pose proof (chain_NoDup _ _ _ _ Hc) as [Hp Hnd]%NoDup_cons.
  simpl in Hc. destruct Hc as (-> & e & He & Hc).
  destruct n as [|n]; [simpl in Hn; lia|]. simpl.
  unfold rmod, rget, rput, mbind, M_bind, gets, deref, modify, mret, M_ret; simpl.
  rewrite He. simpl. rewrite lookup_insert_eq. simpl. rewrite Hf.
  rewrite (IH _ _ n); [| |simpl in Hn; lia].
  - f_equal. unfold alter_all, field_over; simpl. by rewrite (alter_as_insert _ _ _ _ He).
  - eapply chain_frame; [exact Hc|]. intros q eq Hq Heq. simpl.
    exists eq. rewrite lookup_insert_ne; [done|]. by intros ->.
Qed.

Lemma ancestor_walk_spec n w o l :
  chain (w_regions w) re_parent o l → (length l ≤ n)%nat →
  ancestor_walk n o w = Ok l w.
Proof.
  revert o n. induction l as [|p l IH]; intros o n; simpl.
  { intros -> _. by destruct n. }
  intros (-> & e & He & Hc) Hn. destruct n as [|n]; [lia|]. simpl.
  unfold rget, mbind, M_bind, gets, deref, mret, M_ret. rewrite He.
  rewrite (IH _ n) by (done || lia). done.
Qed.

Section wf.
Context w tbl kids (Hwf : tree_wf (w_regions w) tbl kids).
Abbreviation h := (w_regions w).

(** The chain of a region fits the loops' bounds. *)
Lemma chain_fits p e :
  h !! p = Some e →
  ∃ l r, chain h re_parent (Some p) (p :: l) ∧ (length (p :: l) ≤ chain_fuel)%nat ∧
    corm_get tbl (mk_region_key XY_REGION_ROOT 0) = Some r ∧ last (p :: l) = Some r.
Proof.
  intros He. destruct (parent_chain _ _ _ Hwf p e He) as (l & r & ? & Hlen & ? & ?).
  exists l, r. split_and!; try done.
  pose proof (tw_ident _ _ _ Hwf _ _ He). simpl. unfold chain_fuel. lia.
Qed.

(** [up_each] from [p] updates [q] if and only if [p] lies under [q]. *)
Lemma up_each_total f p :
  (∀ e, re_shape (f e) = re_shape e) → p ∈ dom h →
  ∃ h', up_each chain_fuel f (Some p) w = Ok tt (w <| w_regions := h' |>) ∧
    re_shape <$> h' = re_shape <$> h ∧
    (∀ q, sub h q p → h' !! q = f <$> h !! q) ∧
    (∀ q, ¬ sub h q p → h' !! q = h !! q).
Proof.
  intros Hf [e He]%elem_of_dom.
  destruct (chain_fits p e He) as (l & r & Hc & Hlen & _).
  exists (alter_all f (p :: l) h). split_and!.
  - rewrite (up_each_spec _ _ _ _ (p :: l)); try done.
    intros e'. specialize (Hf e'). unfold re_shape in Hf. congruence.
  - by apply alter_all_shape.
  - intros q Hq. rewrite alter_all_lookup by (by eapply chain_NoDup).
    rewrite decide_True; [done|]. by eapply sub_parent_chain.
  - intros q Hq. rewrite alter_all_lookup by (by eapply chain_NoDup).
    rewrite decide_False; [done|]. intros Hin. apply Hq. by eapply parent_chain_sub.
Qed.

(** [region_ancestor_chain] is complete and root-first: with room for 65
    entries it never cuts the root off. *)
Lemma region_ancestor_chain_total p :
  p ∈ dom h →
  ∃ l r, region_ancestor_chain (Some p) 65 w = Ok l w ∧
    head l = Some r ∧ corm_get tbl (mk_region_key XY_REGION_ROOT 0) = Some r ∧
    last l = Some p ∧ (∀ q, q ∈ l ↔ sub h q p) ∧ NoDup l ∧ (length l ≤ 65)%nat.
Proof.
  intros [e He]%elem_of_dom.
  destruct (chain_fits p e He) as (l & r & Hc & Hlen & Hr & Hlast).
  exists (reverse (p :: l)), r. split_and!; try done.
  - unfold region_ancestor_chain.
    rewrite (bind_Ok _ _ _ (p :: l) w) by (by apply ancestor_walk_spec).
    by rewrite swap_ends_reverse.
  - by rewrite head_reverse.
  - by rewrite last_reverse.
  - intros q. rewrite elem_of_reverse. split.
    + intros. by eapply parent_chain_sub.
    + intros. by eapply sub_parent_chain.
  - rewrite reverse_Permutation. by eapply chain_NoDup.
  - rewrite length_reverse. done.
Qed.
End wf.

(** ** Searches *)

Section find.
Context w tbl kids (Hwf : tree_wf (w_regions w) tbl kids).
Abbreviation h := (w_regions w).
Context (stop : Z → Z → bool) (id plen : Z).
(** Once a width is pruned, every wider one is. *)
Context (Hstop : ∀ a b, stop a plen = true → a ≤ b → stop b plen = true).

(** The regions the search is after. *)
Definition candidate (q : rptr) : Prop :=
  ∃ e, h !! q = Some e ∧ stop (re_plen e) plen = false ∧
    covers (re_id e) (re_plen e) id = true.

(** [r] is at least as wide as [q]. *)
Definition dominates (r : option rptr) (q : rptr) : Prop :=
  ∃ b eb eq, r = Some b ∧ h !! b = Some eb ∧ h !! q = Some eq ∧
    re_plen eq ≤ re_plen eb.

(** [r] is the widest among [best] and the candidates in [P]. *)
Definition found (best : option rptr) (P : rptr → Prop) (r : option rptr) : Prop :=
  (r = best ∨ ∃ q, r = Some q ∧ P q ∧ candidate q) ∧
  (∀ b, best = Some b → dominates r b) ∧
  (∀ q, P q → candidate q → dominates r q).

Definition live (o : option rptr) : Prop := ∀ b, o = Some b → b ∈ dom h.

Lemma dominates_trans r q r' :
  dominates r q → (∀ b, r = Some b → dominates r' b) → dominates r' q.
Proof.
  intros (b & eb & eq & -> & Hb & Hq & ?) Hd.
  destruct (Hd b eq_refl) as (b' & eb' & eb2 & -> & Hb' & Hb2 & ?). simplify_eq.
  exists b', eb', eq. split_and!; try done. lia.
Qed.

Lemma live_dominates b : live (Some b) → dominates (Some b) b.
Proof.
  intros Hl. specialize (Hl b eq_refl). apply elem_of_dom in Hl as [e He]. exists b, e, e. split_and!; done || lia.
Qed.

Lemma found_live best P r : live best → found best P r → live r.
Proof.
  intros Hb [[->|(q & -> & _ & e & He & _)] _]; [done|].
  intros ? [= <-]. by eapply elem_of_dom_2.
Qed.

Lemma found_trans best P1 P2 r1 r2 :
  found best P1 r1 → found r1 P2 r2 → found best (λ q, P1 q ∨ P2 q) r2.
Proof.
  intros (Ho1 & Hb1 & Hc1) (Ho2 & Hb2 & Hc2). split_and!.
  - destruct Ho2 as [->|(q & -> & ? & ?)]; [|by right; eauto].
    destruct Ho1 as [->|(q & -> & ? & ?)]; [by left|by right; eauto].
  - intros b Hb. eapply dominates_trans; [by apply Hb1|done].
  - intros q [Hq|Hq] Hcand; [|by apply Hc2].
    eapply dominates_trans; [by apply Hc1|done].
Qed.

Lemma found_ext best P Q r : (∀ q, P q ↔ Q q) → found best P r → found best Q r.
Proof. intros HPQ. unfold found. by setoid_rewrite HPQ. Qed.

Lemma found_none best P : live best → (∀ q, P q → ¬ candidate q) → found best P best.
Proof.
  intros Hl Hn. split_and!; [by left| |naive_solver].
  intros b ->. by apply live_dominates.
Qed.

(** The update of [best] at one node. *)
Lemma found_here best node e :
  h !! node = Some e → stop (re_plen e) plen = false → live best →
  ∃ r, (if covers (re_id e) (re_plen e) id then
          match best with
          | None => mret (Some node)
          | Some b =>
              eb ← rget b;
              mret (if re_plen eb <? re_plen e then Some node else best)
          end
        else mret best : M world (option rptr)) w = Ok r w ∧
    found best (λ q, q = node) r.
Proof.
  intros He Hs Hl. destruct (covers (re_id e) (re_plen e) id) eqn:Hcov.
  2:{ exists best. split; [done|]. apply found_none; [done|].
      intros q -> (e' & He' & _ & Hc). simplify_eq. congruence. }
  assert (Hcand : candidate node) by (exists e; done).
  assert (Hln : live (Some node)) by (intros ? [= <-]; by eapply elem_of_dom_2).
  destruct best as [b|].
  2:{ exists (Some node). split; [done|]. split_and!; [right; eauto|done|].
      intros q -> _. by apply live_dominates. }
  pose proof (Hl b eq_refl) as [eb Hb]%elem_of_dom.
  exists (if re_plen eb <? re_plen e then Some node else Some b). split.
  { unfold rget, mbind, M_bind, gets, deref. by rewrite Hb. }
  destruct (Z.ltb_spec (re_plen eb) (re_plen e)).
  - split_and!; [right; eauto| |].
    + intros ? [= <-]. exists node, e, eb. split_and!; done || lia.
    + intros q -> _. by apply live_dominates.
  - split_and!; [by left| |].
    + intros ? [= <-]. by apply live_dominates.
    + intros q -> _. exists b, eb, e. split_and!; done || lia.
Qed.

Abbreviation K := (S (size h)).

Lemma find_children_found d :
  (∀ node e best fuel, h !! node = Some e → 64 - re_plen e ≤ Z.of_nat d →
    (d * K + 1 ≤ fuel)%nat → live best →
    ∃ r, find_rec stop fuel node id plen best w = Ok r w ∧
      found best (sub h node) r) →
  ∀ l o best fuel, chain h re_sibling_next o l →
    (∀ c, c ∈ l → ∃ e, h !! c = Some e ∧ 64 - re_plen e ≤ Z.of_nat d) →
    (length l + d * K + 1 ≤ fuel)%nat → live best →
    ∃ r, find_children stop fuel o id plen best w = Ok r w ∧
      found best (λ q, ∃ c, c ∈ l ∧ sub h c q) r.
Proof.
  intros IH. induction l as [|c l IHl]; intros o best fuel Hc Hd Hf Hb.
  { simpl in Hc; subst. exists best. split; [by destruct fuel|].
    apply found_none; [done|]. intros q (? & ?%elem_of_nil & _). done. }
  destruct Hc as (-> & e & He & Hc). destruct fuel as [|fuel]; [simpl in Hf; lia|].
  destruct (Hd c ltac:(left)) as (e' & He' & Hlt). simplify_eq.
  destruct (IH c e best fuel) as (r1 & H1 & F1); [done|done|simpl in Hf; lia|done|].
  destruct (IHl (re_sibling_next e) r1 fuel) as (r2 & H2 & F2);
    [done|intros; apply Hd; by right|simpl in Hf; lia|by eapply found_live|].
  exists r2. simpl. split.
  { rewrite (bind_Ok _ _ _ _ _ H1).
    unfold rget, mbind, M_bind, gets, deref. by rewrite He. }
  eapply found_ext; [|by eapply found_trans]. intros q. simpl. split.
  - intros [?|(c' & ? & ?)]; [exists c; split; [by left|done]|
      exists c'; split; [by right|done]].
  - intros (c' & [->|Hc']%elem_of_cons & ?); [by left|right; eauto].
Qed.

Lemma find_rec_step node e best fuel :
  h !! node = Some e → live best →
  (∀ best', live best' →
    ∃ r, find_children stop fuel (re_children_head e) id plen best' w = Ok r w ∧
      found best' (λ q, ∃ c, c ∈ kids node ∧ sub h c q) r) →
  ∃ r, find_rec stop (S fuel) node id plen best w = Ok r w ∧ found best (sub h node) r.
Proof.
  intros He Hb Hkids. simpl find_rec.
  rewrite (bind_Ok _ _ _ e w) by (unfold rget, mbind, M_bind, gets, deref; by rewrite He).
  destruct (stop (re_plen e) plen) eqn:Hst.
  { exists best. split; [done|]. apply found_none; [done|].
    intros q Hq (eq & Hq' & Hns & _).
    rewrite (Hstop _ _ Hst) in Hns; [done|by eapply sub_plen]. }
  destruct (found_here best node e He Hst Hb) as (r1 & H1 & F1).
  rewrite (bind_Ok _ _ _ _ _ H1).
  destruct (Hkids r1) as (r2 & H2 & F2); [by eapply found_live|].
  exists r2. split; [done|]. eapply found_ext; [|by eapply found_trans].
  intros q. by rewrite (sub_kids _ _ _ Hwf _ _ _ He).
Qed.

Lemma find_rec_found d node e best fuel :
  h !! node = Some e → 64 - re_plen e ≤ Z.of_nat d → (d * K + 1 ≤ fuel)%nat →
  live best →
  ∃ r, find_rec stop fuel node id plen best w = Ok r w ∧ found best (sub h node) r.
Proof.
  revert node e best fuel. induction d as [|d IH]; intros node e best fuel He Hd Hf Hb;
    (destruct fuel as [|fuel]; [simpl in Hf; lia|]);
    pose proof (tw_kids _ _ _ Hwf _ _ He) as Hch;
    (eapply find_rec_step; [done..|]); intros best' Hb'.
  - assert (kids node = []) as Hnil.
    { destruct (kids node) as [|c l] eqn:Hk; [done|].
      destruct (kids_entry _ _ _ Hwf node e c) as (? & _ & ?);
        [done|rewrite Hk; by left|]. simpl in Hd. lia. }
    rewrite Hnil in *. simpl in Hch. rewrite Hch. exists best'. split; [by destruct fuel|].
    apply found_none; [done|]. intros q (? & ?%elem_of_nil & _). done.
  - pose proof (chain_length _ _ _ _ Hch).
    apply (find_children_found d IH); [done| |simpl in Hf; lia|done].
    intros c Hc. destruct (kids_entry _ _ _ Hwf _ _ _ He Hc) as (ec & Hec & ?).
    exists ec. split; [done|lia].
Qed.

(** From the root, within the fuel of the callers: no candidate anywhere in
    the heap is wider than the answer. *)
Lemma find_rec_root r :
  corm_get tbl (mk_region_key XY_REGION_ROOT 0) = Some r →
  ∃ o, find_rec stop (walk_fuel w) r id plen None w = Ok o w ∧
    match o with
    | None => ∀ q, ¬ candidate q
    | Some b => candidate b ∧ ∀ q, candidate q → dominates (Some b) q
    end.
Proof.
  intros Hr. destruct (tw_root_entry _ _ _ Hwf) as (r' & er & Hr' & Her & Hid & Hpl & _).
  simplify_eq.
  destruct (find_rec_found 64 r er None (walk_fuel w)) as (o & Ho & F);
    [done|lia|unfold walk_fuel; lia|done|].
  exists o. split; [done|]. destruct F as (Hor & _ & Hc).
  assert (Hcd : ∀ q, candidate q → dominates o q).
  { intros q Hq. apply Hc; [|done]. eapply sub_root; [done..|].
    destruct Hq as (eq & Hq & _). by eapply elem_of_dom_2. }
  destruct o as [b|].
  - split; [|done]. destruct Hor as [|(q & [= <-] & _ & ?)]; done.
  - intros q (? & ? & ? & ? & _)%Hcd. done.
Qed.
End find.
End walks.
