(* ===== verification/Runtime.v ===== *)
(** * Starting the runtime

    [xy_runtime_bootstrap], [xy_runtime_ensure] and [xy_init] of
    src/libxylem-runtime.c.  Teardown is in Unload, next to the module
    destructor it calls. *)
From S2P Require Import Prelude Words Corm State Regions.

Section runtime.
Context {C : Corm}.
Abbreviation M := (M world).

(** [corm_open]; 0, i.e. [None], when it fails. *)
Definition open_table {T} (empty : T) : M (option T) :=
  ok ← alloc_ok; mret (if (ok : bool) then Some empty else None).

(** [if (!hd) hd = corm_open(...)] *)
Definition open_once {T} (get : runtime → option T) (empty : T)
    (set : option T → runtime → runtime) : M unit :=
  o ← rt_get get;
  match o with
  | Some _ => mret tt
  | None => t ← open_table empty; rt_mod (set t)
  end.

(** The host's context, as bootstrap fills it; [last] and [shutdown] stay
    NULL. *)
Definition host_ctx (x : xy_ctx) : xy_ctx :=
  x <| x_areg := Some Fn_areg |> <| x_call := Some Fn_call |>
    <| x_load := Some Fn_load |> <| x_err := Some Fn_errno |>
    <| x_strerror := Some Fn_strerror |> <| x_deny := Some Fn_deny |>
    <| x_require_claim := Some Fn_require_claim |>
    <| x_region_each := Some Fn_region_each |>
    <| x_current_region_plen := Some Fn_current_region_plen |>
    <| x_region_exists := Some Fn_region_exists |>
    <| x_claim_at := Some Fn_claim_at |> <| x_region_at := Some Fn_region_at |>
    <| x_call_self := Some Fn_call_self |>
    <| x_with_region := Some Fn_with_region |>
    <| x_current_region := Some Fn_current_region |>
    <| x_unload := Some Fn_unload |> <| x_reload := Some Fn_reload |>.

(** [xy_runtime_bootstrap], without the registration of corm's type ids *)
Definition xy_runtime_bootstrap : M Z :=
  open_once rt_sica_hd corm_empty (λ t r, r <| rt_sica_hd := t |>);;
  open_once rt_hook_id_hd corm_empty (λ t r, r <| rt_hook_id_hd := t |>);;
  open_once rt_path_intern_hd corm_empty (λ t r, r <| rt_path_intern_hd := t |>);;
  t1 ← open_table corm_empty; rt_mod (λ r, r <| rt_mod_hd := t1 |>);;
  t2 ← open_table mcorm_empty; rt_mod (λ r, r <| rt_mod_by_region_hd := t2 |>);;
  t3 ← open_table corm_empty; rt_mod (λ r, r <| rt_region_hd := t3 |>);;
  modify (λ w, w <| w_xy ::= host_ctx |>);;
  region_ensure_root;;
  rt_mod (λ r, r <| rt_inited := true |>);;
  mret XY_OK.

(** [xy_runtime_ensure] *)
Definition xy_runtime_ensure : M Z :=
  inited ← rt_get rt_inited;
  if (inited : bool) then mret XY_OK else xy_runtime_bootstrap.

(** [xy_init] *)
Definition xy_init : M unit := ret ← xy_runtime_ensure; XY_SET_ERR ret.

(** The prologue of every public function: on failure set the error and
    return [bad] of it. *)
Definition with_runtime {A} (bad : Z → A) (k : M A) : M A :=
  enter_ret ← xy_runtime_ensure;
  if enter_ret =? XY_OK then k else XY_SET_ERR enter_ret;; mret (bad enter_ret).
End runtime.
