(* ===== verification/Paths.v ===== *)
(** * Paths

    [module_load_path], the search of the loader's directories, and the
    interning of canonical paths (src/libxylem.c). *)
From Stdlib Require Import Ascii.
From S2P Require Import Prelude Words Corm State Env Regions Runtime.

(** The text before the first colon, and what follows it. *)
Fixpoint str_entry (p : string) : string * option string :=
  match p with
  | EmptyString => (EmptyString, None)
  | String c p' =>
      if Ascii.eqb c ":"%char then (EmptyString, Some p')
      else let '(d, r) := str_entry p' in (String c d, r)
  end.

(** [strchr(s, c) != NULL] *)
Fixpoint str_has (c : Ascii.ascii) (s : string) : bool :=
  match s with
  | EmptyString => false
  | String c' s' => Ascii.eqb c' c || str_has c s'
  end.

(** The text before the last slash, [NULL] when there is none. *)
Fixpoint str_dir (s : string) : option string :=
  match s with
  | EmptyString => None
  | String c s' =>
      match str_dir s' with
      | Some d => Some (String c d)
      | None => if Ascii.eqb c "/"%char then Some EmptyString else None
      end
  end.

Section paths.
Context {C : Corm} {OS : Os}.
Abbreviation M := (M world).

(** [module_search_path_list]; every round consumes a character. *)
Fixpoint search_path_list (fuel : nat) (p leaf : string) : M (option string) :=
  match p with
  | EmptyString => mret None
  | _ =>
      match fuel with
      | O => nofuel
      | S n =>
          let '(dir, rest) := str_entry p in
          let next := default EmptyString rest in
          if String.eqb dir "" then search_path_list n next leaf
          else
            ok ← alloc_ok;
            if (ok : bool) then
              match os_realpath (dir +:+ "/" +:+ leaf) with
              | Some resolved => mret (Some resolved)
              | None => search_path_list n next leaf
              end
            else mret None
      end
  end.
Definition module_search_path_list (list leaf : string) : M (option string) :=
  search_path_list (String.length list) list leaf.

(** A loop over directory lists that stops at the first hit. *)
Fixpoint search_lists (ls : list string) (leaf : string) : M (option string) :=
  match ls with
  | [] => mret None
  | l :: ls' =>
      r ← module_search_path_list l leaf;
      match r with
      | Some resolved => mret (Some resolved)
      | None => search_lists ls' leaf
      end
  end.

Definition ld_vars : list string := ["LD_LIBRARY_PATH"; "DYLD_LIBRARY_PATH"].
Definition ld_defaults : list string := ["/lib"; "/usr/lib"; "/usr/local/lib"].

(** The variables that are set and not empty. *)
Definition ld_lists : list string :=
  omap (λ v, match os_getenv v with
             | Some ld => if String.eqb ld "" then None else Some ld
             | None => None
             end) ld_vars.

(** [module_load_path], the POSIX branch *)
Definition module_load_path (fname : string) : M (option string) :=
  ok ← alloc_ok;
  if (ok : bool) then
    let buf := fname +:+ ".so" in
    match os_realpath buf with
    | Some resolved => mret (Some resolved)
    | None =>
        if str_has "/"%char buf then mret (Some buf)
        else
          r ← search_lists ld_lists buf;
          match r with
          | Some resolved => mret (Some resolved)
          | None =>
              r ← search_lists ld_defaults buf;
              match r with
              | Some resolved => mret (Some resolved)
              | None => mret (Some buf)
              end
          end
    end
  else mret None.

(** [module_path_intern]; the first caller's string becomes the canonical
    address of its text. *)
Definition module_path_intern (path : option string) : M (option pptr) :=
  match path with
  | None => mret None
  | Some s =>
      open_once rt_path_intern_hd corm_empty (λ t r, r <| rt_path_intern_hd := t |>);;
      o ← rt_get rt_path_intern_hd;
      match o with
      | None => mret None
      | Some t =>
          match corm_get t s with
          | Some interned => mret (Some interned)
          | None =>
              p ← fresh_ptr;
              modify (λ w, w <| w_paths ::= <[p := s]> |>);;
              rt_mod (λ r, r <| rt_path_intern_hd := Some (corm_put t s p) |>);;
              mret (Some p)
          end
      end
  end.

(** [copy_one]: the template must fit its buffer.  [None] when it fails; it is
    not looked at whether [strdup] gives the caller the name. *)
Definition copy_one (src tmpl_in : string) : M (option (option string)) :=
  if decide (512 ≤ String.length tmpl_in)%nat then mret None
  else
    now ← gets (λ w, length (w_trace w));
    match os_copy src tmpl_in now with
    | None => mret None
    | Some tmpl => dup ← alloc_ok; mret (Some (if (dup : bool) then Some tmpl else None))
    end.

(** [copy_to_tmp]: next to the source, then /tmp, then ./tmp *)
Definition copy_to_tmp (src : string) : M (option (option string)) :=
  r1 ← match str_dir src with
       | Some dir =>
           if decide (String.length dir + 32 < 512)%nat
           then copy_one src (dir +:+ "/.xylem-XXXXXX.so")
           else mret None
       | None => mret None
       end;
  match r1 with
  | Some out => mret (Some out)
  | None =>
      r2 ← copy_one src "/tmp/xylem-XXXXXX.so";
      match r2 with
      | Some out => mret (Some out)
      | None => copy_one src "./tmp/xylem-XXXXXX.so"
      end
  end.

(** [path_intern_free_all]: the table goes, the strings stay. *)
Definition path_intern_free_all : M unit :=
  rt_mod (λ r, r <| rt_path_intern_hd := None |>).
End paths.
