(* ===== verification/PathSpecs.v ===== *)
(** * Where a module's object is found

    [resolve] says which file [module_load_path] picks, without its loops over
    the bytes of a search list; the two agree while memory lasts, and the search
    always ends. *)
From Stdlib Require Import Ascii.
From S2P Require Import Prelude Words Corm State Env Paths.

(** The entries of a list of directories. *)
Fixpoint split_colon (s : string) : list string :=
  match s with
  | EmptyString => [EmptyString]
  | String c s' =>
      if Ascii.eqb c ":"%char then EmptyString :: split_colon s'
      else match split_colon s' with
           | d :: ds => String c d :: ds
           | [] => [String c EmptyString]
           end
  end.

Section resolve.
Context {C : Corm} {OS : Os}.

Definition find_in (leaf : string) (dirs : list string) : option string :=
  head (omap (λ d, if String.eqb d "" then None else os_realpath (d +:+ "/" +:+ leaf)) dirs).

(** The file a module's name stands for: as it is; else in the directories of
    the environment, else in the default ones; else left to the loader. *)
Definition resolve (fname : string) : string :=
  let leaf := fname +:+ ".so" in
  match os_realpath leaf with
  | Some r => r
  | None =>
      if str_has "/"%char leaf then leaf
      else default leaf (find_in leaf (concat (split_colon <$> ld_lists ++ ld_defaults)))
  end.

Lemma split_entry s :
  split_colon s = (str_entry s).1 :: match (str_entry s).2 with Some r => split_colon r | None => [] end.
Proof.
  induction s as [|c s IH]; [done|]. simpl. destruct (Ascii.eqb c ":"); [done|].
  rewrite IH. by destruct (str_entry s) as [d [r|]].
Qed.

Lemma str_entry_shorter s d r : str_entry s = (d, Some r) → (String.length r < String.length s)%nat.
Proof.
  revert d. induction s as [|c s IH]; intros d; simpl; [done|].
  destruct (Ascii.eqb c ":"); [by intros [= _ <-]; lia|].
  destruct (str_entry s) as [d' o] eqn:E. intros [= _ ->]. specialize (IH _ eq_refl). lia.
Qed.

Lemma find_in_cons leaf d ds :
  find_in leaf (d :: ds) =
    match (if String.eqb d "" then None else os_realpath (d +:+ "/" +:+ leaf)) with
    | Some r => Some r
    | None => find_in leaf ds
    end.
Proof. unfold find_in. simpl. by destruct (if String.eqb d "" then None else _). Qed.

Lemma find_in_app leaf l1 l2 :
  find_in leaf (l1 ++ l2) = match find_in leaf l1 with Some r => Some r | None => find_in leaf l2 end.
Proof.
  induction l1 as [|d l1 IH]; [done|]. cbn [app]. rewrite !find_in_cons, IH.
  by destruct (if String.eqb d "" then None else _).
Qed.

(** [r] is what some directory of the list has. *)
Definition found_in (leaf : string) (dirs : list string) (r : string) : Prop :=
  ∃ d, d ∈ dirs ∧ d ≠ "" ∧ os_realpath (d +:+ "/" +:+ leaf) = Some r.

Lemma alloc_ok_any w : ∃ b mem, alloc_ok w = Ok b (w <| w_mem := mem |>) ∧ mem `suffix_of` w_mem w ∧
  (b = false ↔ head (w_mem w) = Some false) ∧ (Forall (eq true) (w_mem w) → b = true).
Proof.
  unfold alloc_ok, mbind, M_bind, gets, modify. destruct (w_mem w) as [|b mem] eqn:Hm.
  - exists true, []. split_and!; [|done..]. rewrite <- Hm. by destruct w.
  - exists b, mem. split; [done|]. split; [by exists [b]|]. split; [split; simpl; congruence|]. by intros [<- _]%Forall_cons.
Qed.

(** A search ends, having used up part of the memory's answers; what it finds is
    in one of its directories, and it is what [find_in] finds unless memory ran
    out. *)
Definition searches (m : M world (option string)) (leaf : string) (dirs : list string) : Prop :=
  ∀ w, ∃ o mem, m w = Ok o (w <| w_mem := mem |>) ∧ mem `suffix_of` w_mem w ∧
    (∀ r, o = Some r → found_in leaf dirs r) ∧
    (Forall (eq true) (w_mem w) → o = find_in leaf dirs).

Lemma searches_none leaf : searches (mret None) leaf [].
Proof. intros w. exists None, (w_mem w). split_and!; [by destruct w|done|done|done]. Qed.

Lemma suffix_Forall {A} (P : A → Prop) l k : l `suffix_of` k → Forall P k → Forall P l.
Proof. intros [p ->] [_ H]%Forall_app. exact H. Qed.

Lemma found_in_weaken leaf dirs dirs' r : (∀ d, d ∈ dirs → d ∈ dirs') → found_in leaf dirs r → found_in leaf dirs' r.
Proof. intros Hd (d & ? & ? & ?). exists d. auto. Qed.

(** One search after another. *)
Lemma searches_app m k leaf d1 d2 :
  searches m leaf d1 → searches k leaf d2 →
  searches (r ← m; match r with Some resolved => mret (Some resolved) | None => k end) leaf (d1 ++ d2).
Proof.
  intros Hm Hk w. destruct (Hm w) as (o & mem & H1 & Hsuf & Hin & Hall). rewrite (bind_Ok _ _ _ _ _ H1).
  destruct o as [r|].
  - exists (Some r), mem. split_and!; [done|done| |].
    + intros r' [= <-]. eapply found_in_weaken; [|by apply Hin]. set_solver.
    + intros Ha. by rewrite find_in_app, <- Hall.
  - destruct (Hk (w <| w_mem := mem |>)) as (o' & mem' & H2 & Hsuf' & Hin' & Hall').
    exists o', mem'. split_and!; [done|by etransitivity| |].
    + intros r' Hr. eapply found_in_weaken; [|by apply Hin']. set_solver.
    + intros Ha. rewrite find_in_app, <- Hall by done. apply Hall'. by eapply suffix_Forall.
Qed.

(** One directory. *)
Lemma searches_one leaf d (k : M world (option string)) ds :
  searches k leaf ds →
  searches (if String.eqb d "" then k
            else ok ← alloc_ok;
                 if (ok : bool) then
                   match os_realpath (d +:+ "/" +:+ leaf) with
                   | Some resolved => mret (Some resolved)
                   | None => k
                   end
                 else mret None) leaf (d :: ds).
Proof.
  intros Hk w. destruct (String.eqb_spec d "") as [->|Hd].
  { destruct (Hk w) as (o & mem & H1 & ? & Hin & Hall). exists o, mem. split_and!; [done|done| |].
    - intros r Hr. eapply found_in_weaken; [|by apply Hin]. set_solver.
    - intros Ha. by rewrite find_in_cons, <- Hall. }
  destruct (alloc_ok_any w) as (b & mem & Hb & Hsuf & Hhd & Htrue). rewrite (bind_Ok _ _ _ _ _ Hb). destruct b.
  2: { exists None, mem. split_and!; [done|done|done|]. by intros ?%Htrue. }
  destruct (os_realpath (d +:+ "/" +:+ leaf)) as [r|] eqn:Hr.
  - exists (Some r), mem. split_and!; [done|done| |].
    + intros r' [= <-]. exists d. split_and!; [by left|done|done].
    + intros _. rewrite find_in_cons, (proj2 (String.eqb_neq _ _) Hd), Hr. done.
  - destruct (Hk (w <| w_mem := mem |>)) as (o & mem' & H2 & Hsuf' & Hin & Hall).
    exists o, mem'. split_and!; [done|by etransitivity| |].
    + intros r' Hr'. eapply found_in_weaken; [|by apply Hin]. set_solver.
    + intros Ha. rewrite find_in_cons, (proj2 (String.eqb_neq _ _) Hd), Hr. apply Hall. by eapply suffix_Forall.
Qed.

Lemma search_path_list_run leaf : ∀ fuel s,
  (String.length s ≤ fuel)%nat → searches (search_path_list fuel s leaf) leaf (split_colon s).
Proof.
  induction fuel as [|n IH]; intros [|c s'] Hs; try (simpl in Hs; lia).
  1, 2: intros w; exists None, (w_mem w); split_and!; [by destruct w|done|done|done].
  set (s := String c s') in *. rewrite (split_entry s).
  change (search_path_list (S n) s leaf) with
    (let '(dir, rest) := str_entry s in
     let next := default EmptyString rest in
     if String.eqb dir "" then search_path_list n next leaf
     else ok ← alloc_ok;
          if (ok : bool) then
            match os_realpath (dir +:+ "/" +:+ leaf) with
            | Some resolved => mret (Some resolved)
            | None => search_path_list n next leaf
            end
          else mret None).
  destruct (str_entry s) as [d o] eqn:Hent. cbv zeta. cbn [fst snd]. apply searches_one.
  destruct o as [r|]; simpl.
  - apply IH. apply str_entry_shorter in Hent. lia.
  - destruct n; apply searches_none.
Qed.

Lemma search_lists_run leaf ls : searches (search_lists ls leaf) leaf (concat (split_colon <$> ls)).
Proof.
  induction ls as [|l ls IH]; [apply searches_none|]. cbn [search_lists fmap list_fmap concat].
  apply searches_app; [|exact IH]. by apply search_path_list_run.
Qed.

(** Every directory that is looked in. *)
Definition search_dirs : list string := concat (split_colon <$> ld_lists ++ ld_defaults).

(** [module_load_path] always answers; only its first allocation can keep it from
    naming a file, and the others from naming [resolve]'s. *)
Lemma module_load_path_spec fname w :
  ∃ o mem, module_load_path fname w = Ok o (w <| w_mem := mem |>) ∧ mem `suffix_of` w_mem w ∧
    (o = None ↔ head (w_mem w) = Some false) ∧
    (Forall (eq true) (w_mem w) → o = Some (resolve fname)) ∧
    (∀ r, o = Some r → let leaf := fname +:+ ".so" in
      os_realpath leaf = Some r ∨
      os_realpath leaf = None ∧ (r = leaf ∨ str_has "/"%char leaf = false ∧ found_in leaf search_dirs r)).
Proof.
  unfold module_load_path, resolve. set (leaf := fname +:+ ".so").
  destruct (alloc_ok_any w) as (b & mem & Hb & Hsuf & Hhd & Htrue). rewrite (bind_Ok _ _ _ _ _ Hb). destruct b.
  2: { exists None, mem. split; [done|]. split; [done|]. split; [split; [intros _; by apply Hhd|done]|]. split; [by intros ?%Htrue|done]. }
  assert (Hsome : ∀ r : string, Some r = None ↔ head (w_mem w) = Some false).
  { intros r. rewrite <- Hhd. done. }
  cbv zeta. destruct (os_realpath leaf) as [r|] eqn:Hleaf.
  { exists (Some r), mem. split; [done|]. split; [done|]. split; [apply Hsome|]. split; [done|]. intros r' [= <-]. by left. }
  destruct (str_has "/" leaf) eqn:Hslash.
  { exists (Some leaf), mem. split; [done|]. split; [done|]. split; [apply Hsome|]. split; [done|]. intros r' [= <-]. right. by auto. }
  set (k := search_lists ld_defaults leaf).
  destruct (searches_app _ _ leaf _ _ (search_lists_run leaf ld_lists) (search_lists_run leaf ld_defaults)
    (w <| w_mem := mem |>)) as (o & mem' & Hrun & Hsuf' & Hin & Hall).
  rewrite <- concat_app, <- fmap_app in Hin, Hall. fold search_dirs in Hin, Hall. fold search_dirs.
  assert (Hans : (r ← search_lists ld_lists leaf;
     match r with
     | Some resolved => mret (Some resolved)
     | None => r ← k; match r with Some resolved => mret (Some resolved) | None => mret (Some leaf) end
     end) (w <| w_mem := mem |>) = Ok (Some (default leaf o)) (w <| w_mem := mem' |>)).
  { clear - Hrun. unfold mbind, M_bind in *. fold k in Hrun.
    destruct (search_lists ld_lists leaf _) as [[r|] w1| |]; [| |done..].
    - assert (Ho : Ok (Some r) w1 = Ok o (w <| w_mem := mem |> <| w_mem := mem' |>)) by exact Hrun.
      assert (o = Some r) as -> by congruence. exact Hrun.
    - rewrite Hrun. by destruct o. }
  exists (Some (default leaf o)), mem'. split; [exact Hans|]. split; [by etransitivity|]. split; [apply Hsome|]. split.
  - intros Ha. by rewrite <- Hall by (by eapply suffix_Forall).
  - intros r [= <-]. right. split; [done|]. destruct o as [r|]; [right|by left]. split; [done|]. by apply Hin.
Qed.

(** With memory to spare the answer is [resolve]'s. *)
Lemma module_load_path_run fname w :
  w_mem w = [] → module_load_path fname w = Ok (Some (resolve fname)) w.
Proof.
  intros Hm. destruct (module_load_path_spec fname w) as (o & mem & Hrun & Hsuf & _ & Hall & _).
  rewrite Hm in Hsuf, Hall. apply suffix_nil_inv in Hsuf as ->.
  rewrite Hrun, Hall by done. f_equal. rewrite <- Hm. by destruct w.
Qed.
End resolve.
