(* ===== verification/RegionApi.v ===== *)
(** * The public region interface

    The functions of src/libxylem.c that applications and modules call to
    create, find, enter, enumerate and restrict regions. *)
From S2P Require Import Prelude Words Corm State Env Regions Runtime Paths.

(** [xy_deny_type_t] *)
Inductive deny_type := XY_DENY_HOOK | XY_DENY_MODULE.

Section region_api.
Context {C : Corm} {OS : Os} {CB : Callbacks}.
Abbreviation M := (M world).

(** [xy_require_claim]; NULL clears the gate. *)
Definition xy_require_claim (fn : option addr) (u : ud) : M Z :=
  with_runtime id (
    reg ← region_lookup_current;
    match reg with
    | None => set_err_ret XY_ERR_NOTFOUND
    | Some r =>
        (match fn with
         | None => rmod r (λ e, e <| re_claim_handler := None |>
                                  <| re_claim_handler_ud := 0 |>
                                  <| re_require_claim := false |>)
         | Some f => rmod r (λ e, e <| re_claim_handler := Some f |>
                                    <| re_claim_handler_ud := u |>
                                    <| re_require_claim := true |>)
         end);;
        set_err_ret XY_OK
    end).

(** [if (!set) set = corm_open(...); corm_put(set, v, sentinel);]; putting
    into a table that did not open is undefined. *)
Definition deny_set_add {K} `{Countable K} (set : option (corm K unit)) (v : K)
    : M (option (corm K unit)) :=
  s ← match set with Some s => mret (Some s) | None => open_table corm_empty end;
  t ← deref s;
  mret (Some (corm_put t v ())).

(** [xy_deny].  The node and the copy of [what] are used unchecked for hooks. *)
Definition xy_deny (what : string) (type : deny_type) : M Z :=
  with_runtime id (
    reg ← region_lookup_current;
    match reg with
    | None => set_err_ret XY_ERR_NOTFOUND
    | Some r =>
        node ← alloc_ok;
        if negb node then crash else
        copied ← alloc_ok;
        stored ← match type with
          | XY_DENY_HOOK =>
              if negb copied then crash else
              rmod r (λ e, e <| re_denied_hooks ::= (cons what) |>);;
              e ← rget r;
              s ← deny_set_add (re_denied_hooks_set e) what;
              rmod r (λ e, e <| re_denied_hooks_set := s |>);;
              mret true
          | XY_DENY_MODULE =>
              path ← module_load_path what;
              match path with
              | None => mret false
              | Some path =>
                  interned ← module_path_intern (Some path);
                  match interned with
                  | None => mret false
                  | Some p =>
                      rmod r (λ e, e <| re_denied_modules ::= (cons p) |>);;
                      e ← rget r;
                      s ← deny_set_add (re_denied_modules_set e) p;
                      rmod r (λ e, e <| re_denied_modules_set := s |>);;
                      mret true
                  end
              end
          end;
        if negb stored then set_err_ret XY_ERR_INVALID
        else
          region_propagate_deny (Some r);;
          region_dispatch_gen_bump (Some r);;
          set_err_ret XY_OK
    end).

(** The loop of [xy_region_each]; stops at the first result that is not
    [XY_OK]. *)
Fixpoint each_child (fuel : nat) (e : option rptr) (fn : option addr) (u : ud) (ret : Z)
    : M Z :=
  match e with
  | None => mret ret
  | Some p =>
      match fuel with
      | O => nofuel
      | S n =>
          f ← deref fn;
          en ← rget p;
          ret' ← cb_each f (re_id en) (re_plen en) u;
          if negb (ret' =? XY_OK) then mret ret'
          else en' ← rget p; each_child n (re_sibling_next en') fn u ret'
      end
  end.

(** [xy_region_each] *)
Definition xy_region_each (fn : option addr) (u : ud) : M Z :=
  with_runtime id (
    parent ← region_lookup_current;
    match parent with
    | None => set_err_ret XY_ERR_NOTFOUND
    | Some p =>
        e ← rget p;
        k ← gets (λ w, size (w_regions w));
        ret ← each_child (S k) (re_children_head e) fn u XY_OK;
        XY_SET_ERR XY_OK;;
        mret ret
    end).

(** [xy_current_region] *)
Definition xy_current_region : M Z :=
  with_runtime (λ _, XY_REGION_INVALID) (tls_get t_current_region_id).

(** [xy_current_region_plen] *)
Definition xy_current_region_plen : M Z :=
  with_runtime (λ _, 0) (XY_SET_ERR XY_OK;; region_current_plen).

(** [xy_with_region] *)
Definition xy_with_region (region_id plen : Z) (fn : option addr) (u : ud) : M Z :=
  with_runtime id (
    match fn with
    | None => set_err_ret XY_ERR_INVALID
    | Some f =>
        target ← region_lookup region_id plen;
        match target with
        | None => set_err_ret XY_ERR_NOTFOUND
        | Some t =>
            prev_region_id ← tls_get t_current_region_id;
            prev_region_entry ← tls_get t_current_region_entry;
            set_current_region region_id (Some t);;
            ret ← cb_scope f u;
            set_current_region prev_region_id prev_region_entry;;
            XY_SET_ERR (if ret =? XY_OK then XY_OK else ret);;
            mret ret
        end
    end).

(** [xy_region_exists] *)
Definition xy_region_exists (region_id plen : Z) : M Z :=
  with_runtime id (
    o ← region_lookup region_id plen;
    match o with
    | None => set_err_ret XY_ERR_NOTFOUND
    | Some _ => set_err_ret XY_OK
    end).

(** The creation half of [xy_claim_at] and of [_xy_claim_for_load]: the entry
    is stored under its identity, prepended to the parent's children, and
    every ancestor's cache is invalidated. *)
Definition region_attach (parent : rptr) (child : region_entry) : M rptr :=
  c ← fresh_ptr;
  rput c child;;
  t ← table rt_region_hd;
  rt_mod (λ r, r <| rt_region_hd :=
    Some (corm_put t (mk_region_key (re_id child) (re_plen child)) c) |>);;
  pe ← rget parent;
  rmod c (λ e, e <| re_sibling_next := re_children_head pe |>);;
  rmod parent (λ e, e <| re_children_head := Some c |>);;
  region_mark_subtree_dirty (Some parent);;
  mret c.

(** [xy_claim_at] *)
Definition xy_claim_at (id_ plen : Z) (fn : option addr) (u : ud) : M Z :=
  with_runtime id (
    if 64 <? plen then set_err_ret XY_ERR_TOOBIG
    else if negb (Z.land id_ (region_mask plen) =? id_) then set_err_ret XY_ERR_INVALID
    else
      existing ← region_lookup id_ plen;
      match existing with
      | Some x =>
          (match fn with
           | Some f => rmod x (λ e, e <| re_claim_handler := Some f |>
                                      <| re_claim_handler_ud := u |>)
           | None => mret tt
           end);;
          set_current_region id_ (Some x);;
          set_err_ret XY_OK
      | None =>
          parent ← region_nearest_ancestor id_ plen;
          match parent with
          | None => set_err_ret XY_ERR_NOTFOUND
          | Some p =>
              pe ← rget p;
              if plen <=? re_plen pe then set_err_ret XY_ERR_INVALID
              else
                ok ← alloc_ok;
                if negb ok then set_err_ret XY_ERR_TOOBIG
                else
                  c ← region_attach p
                    (region_entry_zero
                       <| re_id := id_ |> <| re_plen := plen |>
                       <| re_depth := u8 (re_depth pe + 1) |>
                       <| re_child_bits := u8 (plen - re_plen pe) |>
                       <| re_owner_path := None |> <| re_dispatch_gen := 1 |>
                       <| re_parent := Some p |> <| re_claim_handler := fn |>
                       <| re_claim_handler_ud := u |>);
                  set_current_region id_ (Some c);;
                  set_err_ret XY_OK
          end
      end).

(** [xy_region_at]: the covering region's id, and what is stored through
    [region_plen] when that is not NULL. *)
Definition xy_region_at (prefix_id plen : Z) : M (Z * Z) :=
  with_runtime (λ _, (XY_REGION_INVALID, 0)) (
    if 64 <? plen then XY_SET_ERR XY_ERR_TOOBIG;; mret (XY_REGION_INVALID, 0)
    else
      root ← region_lookup XY_REGION_ROOT 0;
      hit ← match root with
            | Some r => n ← gets walk_fuel; region_find_cover_rec n r prefix_id plen None
            | None => mret None
            end;
      match hit with
      | None => XY_SET_ERR XY_ERR_NOTFOUND;; mret (XY_REGION_INVALID, 0)
      | Some p =>
          e ← rget p;
          XY_SET_ERR XY_OK;;
          mret (re_id e, re_plen e)
      end).
End region_api.
