(* ===== verification/RegionInv.v ===== *)
(** * The region invariant of a world

    [regions_inv] says that the region heap of a world is a tree the table
    indexes.  This file shows that attaching a region preserves it, and gives
    the frame rules by which every other operation does. *)
From S2P Require Import Prelude Words Corm State Regions RegionTree RegionWalks Runtime Env Paths RegionApi.

(** ** Growing a tree *)

Section attach.
Context {C : Corm} {CL : CormLaws C}.
Implicit Types (h : gmap rptr region_entry).

Context h tbl kids (Hwf : tree_wf h tbl kids).
Context (p c : rptr) (pe ce : region_entry).
Context (Hp : h !! p = Some pe) (Hc : h !! c = None).
Context (Hpar : re_parent ce = Some p) (Hplen : re_plen pe < re_plen ce ≤ 64).
Context (Hid : is_u64 (re_id ce)) (Hal : aligned (re_id ce) (re_plen ce)).
Context (Hdepth : re_depth ce = re_depth pe + 1).
Context (Hbits : re_child_bits ce = re_plen ce - re_plen pe).
Context (Hch : re_children_head ce = None) (Hsib : re_sibling_next ce = re_children_head pe).
Context (Hnew : corm_get tbl (mk_region_key (re_id ce) (re_plen ce)) = None).

Definition attach_heap : gmap rptr region_entry :=
  <[p := pe <| re_children_head := Some c |>]> (<[c := ce]> h).
Definition attach_kids (q : rptr) : list rptr :=
  if decide (q = p) then c :: kids p else if decide (q = c) then [] else kids q.

Lemma attach_ne : p ≠ c.
Proof using Hp Hc. intros Heq. congruence. Qed.

Lemma attach_lookup q :
  attach_heap !! q =
    if decide (q = p) then Some (pe <| re_children_head := Some c |>)
    else if decide (q = c) then Some ce else h !! q.
Proof using Hp Hc.
  unfold attach_heap.
  destruct (decide (q = p)) as [Hq|Hq]; [rewrite Hq; by rewrite lookup_insert_eq|].
  rewrite lookup_insert_ne by congruence.
  destruct (decide (q = c)) as [Hqc|Hqc]; [rewrite Hqc; by rewrite lookup_insert_eq|].
  by rewrite lookup_insert_ne by congruence.
Qed.

(** Every old region is still there, with the same identity and links, but
    for the parent's list head. *)
Lemma attach_old q e :
  h !! q = Some e →
  ∃ e', attach_heap !! q = Some e' ∧ re_id e' = re_id e ∧ re_plen e' = re_plen e ∧
    re_depth e' = re_depth e ∧ re_child_bits e' = re_child_bits e ∧
    re_parent e' = re_parent e ∧ re_sibling_next e' = re_sibling_next e.
Proof using Hp Hc.
  intros He. rewrite attach_lookup.
  destruct (decide (q = p)) as [Hq|Hq].
  { assert (e = pe) as Hpe by congruence. rewrite Hpe. by eexists. }
  destruct (decide (q = c)) as [Hqc|Hqc]; [congruence|]. by exists e.
Qed.

Lemma attach_inv q e' :
  attach_heap !! q = Some e' →
  (q = c ∧ e' = ce) ∨
  ∃ e, h !! q = Some e ∧ re_id e' = re_id e ∧ re_plen e' = re_plen e ∧
    re_depth e' = re_depth e ∧ re_child_bits e' = re_child_bits e ∧
    re_parent e' = re_parent e ∧ re_sibling_next e' = re_sibling_next e.
Proof using Hp Hc.
  rewrite attach_lookup.
  destruct (decide (q = p)) as [Hq|Hq]; [intros [= <-]; right; exists pe; by rewrite Hq|].
  destruct (decide (q = c)) as [Hqc|Hqc]; [intros [= <-]; by left|].
  intros He. right. by exists e'.
Qed.

Lemma attach_edge q d : edge attach_heap q d ↔ (d = c ∧ q = p) ∨ (d ≠ c ∧ edge h q d).
Proof.
  split.
  - intros (e' & [[-> ->]|(e & He & _ & _ & _ & _ & Hpe & _)]%attach_inv & Hq).
    + left. split; [done|congruence].
    + right. split; [intros ->; congruence|]. exists e. split; [done|congruence].
  - intros [[-> ->]|[Hne (e & He & Hq)]].
    + exists ce. split; [|done]. rewrite attach_lookup.
      rewrite decide_False by (pose proof attach_ne; congruence).
      by rewrite decide_True by done.
    + destruct (attach_old _ _ He) as (e' & He' & _ & _ & _ & _ & Hpe & _).
      exists e'. split; [done|congruence].
Qed.

Lemma attach_chain o l :
  chain h re_sibling_next o l → chain attach_heap re_sibling_next o l.
Proof.
  intros Hl. eapply chain_frame; [exact Hl|]. intros q e _ He.
  destruct (attach_old _ _ He) as (e' & ? & _ & _ & _ & _ & _ & ?). eauto.
Qed.

Lemma attach_kids_chain q e' :
  attach_heap !! q = Some e' →
  chain attach_heap re_sibling_next (re_children_head e') (attach_kids q).
Proof.
  rewrite attach_lookup. unfold attach_kids.
  destruct (decide (q = p)) as [->|].
  { intros [= <-]. split; [done|]. exists ce. split.
    - rewrite attach_lookup.
      rewrite decide_False by (pose proof attach_ne; congruence).
      by rewrite decide_True by done.
    - rewrite Hsib. apply attach_chain. by apply (tw_kids _ _ _ Hwf). }
  destruct (decide (q = c)) as [->|]; [by intros [= <-]|].
  intros He. apply attach_chain. by apply (tw_kids _ _ _ Hwf).
Qed.

Lemma attach_parent_ok q e' : attach_heap !! q = Some e' → parent_ok attach_heap e'.
Proof.
  intros [[-> ->]|(e & He & Hi & Hpl & Hd & Hb & Hpe & _)]%attach_inv; unfold parent_ok.
  - rewrite Hpar. destruct (attach_old _ _ Hp) as (pe' & ? & _ & ? & ? & _).
    exists pe'. split; [done|]. split; [lia|]. split; congruence.
  - pose proof (tw_parent _ _ _ Hwf _ _ He) as H. unfold parent_ok in H.
    rewrite Hpe. destruct (re_parent e) as [r|]; [|intuition congruence].
    destruct H as (er & Hr & ? & ? & ?).
    destruct (attach_old _ _ Hr) as (er' & ? & _ & ? & ? & _).
    exists er'. split; [done|]. split; [lia|]. split; congruence.
Qed.

Lemma tree_wf_attach :
  tree_wf attach_heap (corm_put tbl (mk_region_key (re_id ce) (re_plen ce)) c) attach_kids.
Proof.
  split.
  - intros k q. rewrite corm_get_put_dec. split.
    + case_decide as Hk.
      * intros [= <-]. exists ce. split; [|done]. rewrite attach_lookup.
        rewrite decide_False by (pose proof attach_ne; congruence).
        by rewrite decide_True by done.
      * intros (e & He & ->)%(tw_tbl _ _ _ Hwf).
        destruct (attach_old _ _ He) as (e' & ? & ? & ? & _). exists e'.
        split; [done|]. congruence.
    + intros (e' & [[-> ->]|(e & He & Hi & Hpl & _)]%attach_inv & ->).
      * by rewrite decide_True by done.
      * rewrite Hi, Hpl. pose proof (tw_lookup _ _ _ Hwf _ _ He) as Hl.
        rewrite decide_False; [done|]. intros Heq. unfold mk_region_key in *. congruence.
  - rewrite corm_get_put_dec. case_decide; [by eexists|apply (tw_root _ _ _ Hwf)].
  - intros q e' [[-> ->]|(e & He & -> & -> & _)]%attach_inv.
    + pose proof (tw_ident _ _ _ Hwf _ _ Hp) as (_ & ? & _). split_and!; done || lia.
    + by apply (tw_ident _ _ _ Hwf _ _ He).
  - apply attach_parent_ok.
  - apply attach_kids_chain.
  - intros q d Hq. rewrite attach_edge. unfold attach_kids.
    assert (Hcd : ∀ r, c ∈ kids r → r ∈ dom h → False).
    { intros r H1 H2. apply (tw_edge _ _ _ Hwf) in H1 as (e & ? & _); [congruence|done]. }
    destruct (decide (q = p)) as [->|Hqp].
    + pose proof (elem_of_dom_2 _ _ _ Hp) as Hpd.
      rewrite elem_of_cons, (tw_edge _ _ _ Hwf) by done.
      destruct (decide (d = c)) as [->|]; [naive_solver|]. naive_solver.
    + destruct (decide (q = c)) as [->|Hqc].
      * split; [by intros ?%elem_of_nil|]. intros [[_ ->]|[_ He]]; [done|].
        apply (edge_dom _ _ _ Hwf) in He as [[e He]%elem_of_dom _]. congruence.
      * assert (q ∈ dom h) as Hqd.
        { unfold attach_heap in Hq. set_solver. }
        rewrite (tw_edge _ _ _ Hwf) by done. split; [|naive_solver].
        intros Hd. right. split; [|done]. intros ->. destruct Hd as (e & ? & _). congruence.
Qed.
End attach.

(** ** The invariant of a world *)

Section inv.
Context {C : Corm} {CL : CormLaws C}.
Implicit Types (w : world) (p q : rptr).

(** What the invariant reads of a world. *)
Definition region_view w :=
  (re_shape <$> w_regions w, rt_region_hd (w_rt w), w_next w).

Definition regions_inv w : Prop :=
  ∃ tbl kids, rt_region_hd (w_rt w) = Some tbl ∧
    tree_wf (w_regions w) tbl kids ∧
    (∀ p, p ∈ dom (w_regions w) → (p < w_next w)%positive).

Lemma regions_inv_view w w' :
  re_shape <$> w_regions w' = re_shape <$> w_regions w →
  rt_region_hd (w_rt w') = rt_region_hd (w_rt w) →
  (w_next w ≤ w_next w')%positive →
  regions_inv w → regions_inv w'.
Proof.
  intros Hs Ht Hn (tbl & kids & Htbl & Hwf & Hb). exists tbl, kids.
  split; [congruence|]. split; [by eapply tree_wf_shape|].
  intros p. rewrite (shape_dom _ _ Hs). intros Hp%Hb. lia.
Qed.

(** The current region of the thread exists. *)
Definition cur_live w : Prop :=
  ∀ p, t_current_region_entry (w_tls w) = Some p → p ∈ dom (w_regions w).

(** The id and the entry of the current region belong together. *)
Definition cur_sync w : Prop :=
  ∃ p e, t_current_region_entry (w_tls w) = Some p ∧ w_regions w !! p = Some e ∧
    re_id e = t_current_region_id (w_tls w).

(** A started runtime. *)
Record booted w : Prop := {
  bt_inited : rt_inited (w_rt w) = true;
  bt_inv : regions_inv w;
  bt_cur : is_Some (t_current_region_entry (w_tls w));
  bt_live : cur_live w
}.

(** [w'] differs from [w] in the caches of regions only: same links, same
    identities, everything else equal. *)
Definition same_but_regions w w' : Prop := ∃ h', w' = w <| w_regions := h' |>.

(** ** Marking the ancestors *)

(** Two walks towards the root, one after the other. *)
Lemma up_twice w tbl kids f g p :
  tree_wf (w_regions w) tbl kids → p ∈ dom (w_regions w) →
  (∀ e, re_shape (f e) = re_shape e) → (∀ e, re_shape (g e) = re_shape e) →
  ∃ h', (up_each chain_fuel f (Some p);; up_each chain_fuel g (Some p)) w =
      Ok tt (w <| w_regions := h' |>) ∧
    re_shape <$> h' = re_shape <$> w_regions w ∧
    (∀ q, sub (w_regions w) q p → h' !! q = g ∘ f <$> w_regions w !! q) ∧
    (∀ q, ¬ sub (w_regions w) q p → h' !! q = w_regions w !! q).
Proof.
  intros Hwf Hp Hf Hg.
  destruct (up_each_total w tbl kids Hwf f p) as (h1 & H1 & Hs1 & Hy1 & Hn1); [done..|].
  assert (Hwf1 : tree_wf h1 tbl kids) by (by eapply tree_wf_shape).
  set (w1 := w <| w_regions := h1 |>).
  destruct (up_each_total w1 tbl kids Hwf1 g p)
    as (h2 & H2 & Hs2 & Hy2 & Hn2); [done|simpl; by rewrite (shape_dom _ _ Hs1)|].
  simpl in Hs2, Hy2, Hn2. exists h2. split_and!.
  - rewrite (bind_Ok _ _ _ _ _ H1). exact H2.
  - by rewrite Hs2.
  - intros q Hq. rewrite Hy2 by (by rewrite (sub_shape _ _ _ _ Hs1)).
    rewrite Hy1 by done. by destruct (w_regions w !! q).
  - intros q Hq. rewrite Hn2 by (by rewrite (sub_shape _ _ _ _ Hs1)). by apply Hn1.
Qed.

(** The invalidation of the caches above [p]. *)
Definition dirtied (e : region_entry) : region_entry :=
  e <| re_dispatch_gen ::= gen_succ |> <| re_subtree_mods_dirty := true |>.

Lemma region_mark_subtree_dirty_spec w tbl kids p :
  tree_wf (w_regions w) tbl kids → p ∈ dom (w_regions w) →
  ∃ h', region_mark_subtree_dirty (Some p) w = Ok tt (w <| w_regions := h' |>) ∧
    re_shape <$> h' = re_shape <$> w_regions w ∧
    (∀ q, sub (w_regions w) q p → h' !! q = dirtied <$> w_regions w !! q) ∧
    (∀ q, ¬ sub (w_regions w) q p → h' !! q = w_regions w !! q).
Proof. intros Hwf Hp. by apply (up_twice w tbl kids). Qed.

(** A deny's mark on the chain: the flag, then a new generation. *)
Definition deny_marked (e : region_entry) : region_entry :=
  e <| re_subtree_flags ::= (λ f, Z.lor f XY_SUBTREE_HAS_DENY) |>
    <| re_dispatch_gen ::= gen_succ |>.

Lemma region_deny_marks_spec w tbl kids p :
  tree_wf (w_regions w) tbl kids → p ∈ dom (w_regions w) →
  ∃ h', (region_propagate_deny (Some p);; region_dispatch_gen_bump (Some p)) w =
      Ok tt (w <| w_regions := h' |>) ∧
    re_shape <$> h' = re_shape <$> w_regions w ∧
    (∀ q, sub (w_regions w) q p → h' !! q = deny_marked <$> w_regions w !! q) ∧
    (∀ q, ¬ sub (w_regions w) q p → h' !! q = w_regions w !! q).
Proof. intros Hwf Hp. by apply (up_twice w tbl kids). Qed.

(** ** Attaching a region *)

Lemma region_attach_spec w tbl kids p pe child :
  rt_region_hd (w_rt w) = Some tbl → tree_wf (w_regions w) tbl kids →
  (∀ q, q ∈ dom (w_regions w) → (q < w_next w)%positive) →
  w_regions w !! p = Some pe →
  re_parent child = Some p → re_plen pe < re_plen child ≤ 64 →
  is_u64 (re_id child) → aligned (re_id child) (re_plen child) →
  re_depth child = re_depth pe + 1 → re_child_bits child = re_plen child - re_plen pe →
  re_children_head child = None →
  corm_get tbl (mk_region_key (re_id child) (re_plen child)) = None →
  let c := w_next w in
  let tbl' := corm_put tbl (mk_region_key (re_id child) (re_plen child)) c in
  ∃ h' kids',
    region_attach p child w =
      Ok c (w <| w_next := Pos.succ (w_next w) |>
              <| w_rt ::= (λ r, r <| rt_region_hd := Some tbl' |>) |>
              <| w_regions := h' |>) ∧
    tree_wf h' tbl' kids' ∧ dom h' = {[c]} ∪ dom (w_regions w) ∧
    kids' p = c :: kids p ∧
    h' !! c = Some (child <| re_sibling_next := re_children_head pe |>) ∧
    (∀ q e, w_regions w !! q = Some e → ∃ e', h' !! q = Some e' ∧
      re_id e' = re_id e ∧ re_plen e' = re_plen e ∧ re_parent e' = re_parent e).
Proof.
  intros Ht Hwf Hb Hp Hpar Hpl Hid Hal Hd Hcb Hch Hnew c tbl'.
  assert (Hc : w_regions w !! c = None).
  { apply not_elem_of_dom. intros Hin%Hb. unfold c in Hin. lia. }
  set (ce := child <| re_sibling_next := re_children_head pe |>).
  pose proof (tree_wf_attach _ _ _ Hwf p c pe ce Hp Hc Hpar Hpl Hid Hal Hd Hcb Hch eq_refl Hnew)
    as Hwf1. fold (attach_heap (w_regions w) p c pe ce) in Hwf1.
  set (h1 := attach_heap (w_regions w) p c pe ce) in *.
  set (w1 := w <| w_next := Pos.succ (w_next w) |>
               <| w_rt ::= (λ r, r <| rt_region_hd := Some tbl' |>) |>
               <| w_regions := h1 |>).
  assert (Hdom1 : dom h1 = {[c]} ∪ dom (w_regions w)).
  { unfold h1, attach_heap. rewrite !dom_insert_L.
    apply elem_of_dom_2 in Hp. set_solver. }
  destruct (region_mark_subtree_dirty_spec w1 _ _ p Hwf1) as (h2 & H2 & Hs2 & Hy2 & Hn2).
  { simpl. rewrite Hdom1. apply elem_of_dom_2 in Hp. set_solver. }
  simpl in Hs2, Hy2, Hn2.
  assert (Hpc : p ≠ c) by congruence. assert (Hpn : w_next w ≠ p) by exact (not_eq_sym Hpc).
  exists h2, (attach_kids kids p c). split_and!.
  - unfold region_attach. run. run. run. run.
    run by (simpl; by rewrite lookup_insert_ne).
    run by (simpl; by rewrite lookup_insert_eq).
    run by (simpl; rewrite !lookup_insert_ne by done; done).
    rewrite (bind_Ok _ _ _ tt (w1 <| w_regions := h2 |>)); [done|].
    rewrite <- H2. f_equal.
    unfold w1, h1, attach_heap, field_over; simpl. by rewrite insert_insert_eq.
  - by eapply tree_wf_shape.
  - by rewrite (shape_dom _ _ Hs2).
  - unfold attach_kids. by rewrite decide_True by done.
  - rewrite Hn2.
    + unfold h1. rewrite attach_lookup by done.
      rewrite decide_False, decide_True by congruence. done.
    + intros Hs. apply (sub_plen _ _ _ Hwf1 _ _ ce (pe <| re_children_head := Some c |>)) in Hs.
      * simpl in Hs. lia.
      * unfold h1. rewrite attach_lookup by done.
        by rewrite decide_False, decide_True by congruence.
      * unfold h1. rewrite attach_lookup by done. by rewrite decide_True by congruence.
  - intros q e He.
    destruct (attach_old (w_regions w) p c pe ce Hp Hc q e He)
      as (e1 & He1 & Hi & Hpl1 & _ & _ & Hpa & _).
    destruct (shape_lookup _ _ Hs2 _ _ He1) as (e2 & He2 & Heq).
    exists e2. unfold re_shape in Heq. split; [done|].
    injection Heq as ? ? _ _ ? _ _. split_and!; congruence.
Qed.
End inv.
