(* ===== verification/RegionSpecs.v ===== *)
(** * What the region interface promises

    The behaviour of the searches and of [xy_claim_at], [xy_region_at],
    [xy_region_exists] and [xy_with_region] on a started runtime, branch by
    branch, in terms of the identities that exist. *)
From S2P Require Import Prelude Words Corm State Regions RegionTree RegionWalks Runtime Env Paths RegionApi RegionInv.

Section specs.
Context {C : Corm} {CL : CormLaws C}.
Implicit Types (w : world) (p q : rptr).

(** ** Identities of a world *)

(** The region [(id, plen)] exists, at [p]. *)
Definition region_is w id plen p : Prop :=
  ∃ e, w_regions w !! p = Some e ∧ re_id e = id ∧ re_plen e = plen.

(** The region [p] covers the point [id]. *)
Definition region_covers w p id : Prop :=
  ∃ e, w_regions w !! p = Some e ∧ covers (re_id e) (re_plen e) id = true.

Definition plen_of w p : Z :=
  match w_regions w !! p with Some e => re_plen e | None => -1 end.
Definition id_of w p : Z :=
  match w_regions w !! p with Some e => re_id e | None => -1 end.
Definition parent_of w p : option rptr := w_regions w !! p ≫= re_parent.

(** [p] is the widest of the regions that satisfy [P]. *)
Definition widest w (P : rptr → Prop) p : Prop :=
  P p ∧ ∀ q, P q → plen_of w q ≤ plen_of w p.

Lemma widest_iff w (P Q : rptr → Prop) p :
  (∀ q, P q ↔ Q q) → widest w P p → widest w Q p.
Proof. unfold widest. naive_solver. Qed.

Lemma region_is_inj w id plen p q :
  regions_inv w → region_is w id plen p → region_is w id plen q → p = q.
Proof.
  intros (tbl & kids & _ & Hwf & _) (e & He & <- & <-) (e' & He' & ? & ?).
  by eapply (tw_inj _ _ _ Hwf).
Qed.

(** ** Running on a started runtime *)

Lemma with_runtime_run {A} (bad : Z → A) (k : M world A) w :
  rt_inited (w_rt w) = true → with_runtime bad k w = k w.
Proof.
  intros Hi. unfold with_runtime, xy_runtime_ensure, rt_get, mbind, M_bind, gets.
  by rewrite Hi.
Qed.

Lemma region_lookup_run w id plen :
  regions_inv w →
  ∃ o, region_lookup id plen w = Ok o w ∧
    match o with
    | Some p => region_is w id plen p
    | None => ∀ p, ¬ region_is w id plen p
    end.
Proof.
  intros (tbl & kids & Ht & Hwf & _). exists (corm_get tbl (mk_region_key id plen)).
  split; [unfold region_lookup; by run|].
  destruct (corm_get tbl (mk_region_key id plen)) as [p|] eqn:Hg.
  - apply (tw_tbl _ _ _ Hwf) in Hg as (e & He & [= -> ->]). by exists e.
  - intros p (e & He & <- & <-). unfold mk_region_key in Hg.
    by rewrite (tw_lookup _ _ _ Hwf _ _ He) in Hg.
Qed.

Lemma root_lookup_run w :
  regions_inv w → ∃ r e, region_lookup XY_REGION_ROOT 0 w = Ok (Some r) w ∧
    w_regions w !! r = Some e ∧ re_id e = XY_REGION_ROOT ∧ re_plen e = 0.
Proof.
  intros Hinv. destruct (region_lookup_run w XY_REGION_ROOT 0 Hinv) as (o & Ho & Hr).
  destruct Hinv as (tbl & kids & _ & Hwf & _).
  destruct (tw_root_entry _ _ _ Hwf) as (r & e & _ & He & Hid & Hpl & _).
  destruct o as [r'|]; [|destruct (Hr r); by exists e].
  destruct Hr as (e' & He' & ? & ?). eauto 10.
Qed.

(** The common part of the two searches. *)
Lemma find_widest w stop id plen r :
  (∀ a b, stop a plen = true → a ≤ b → stop b plen = true) →
  regions_inv w → region_is w XY_REGION_ROOT 0 r →
  ∃ o, find_rec stop (walk_fuel w) r id plen None w = Ok o w ∧
    let P q := region_covers w q id ∧ stop (plen_of w q) plen = false in
    match o with None => ∀ q, ¬ P q | Some p => widest w P p end.
Proof.
  intros Hstop (tbl & kids & _ & Hwf & _) (e & He & Hid & Hpl).
  assert (corm_get tbl (mk_region_key XY_REGION_ROOT 0) = Some r) as Hr.
  { rewrite <- Hid, <- Hpl. by apply (tw_lookup _ _ _ Hwf). }
  destruct (find_rec_root w tbl kids Hwf stop id plen Hstop r Hr) as (o & Ho & Hs).
  exists o. split; [done|].
  assert (Hcand : ∀ q, (region_covers w q id ∧ stop (plen_of w q) plen = false) ↔
    candidate w stop id plen q).
  { intros q. unfold region_covers, plen_of, candidate. split.
    - intros [(eq & Hq & ?) Hn]. rewrite Hq in Hn. eauto.
    - intros (eq & Hq & ? & ?). rewrite Hq. eauto. }
  destruct o as [b|]; simpl; [|by setoid_rewrite Hcand].
  destruct Hs as [Hb Hall]. split; [by apply Hcand|].
  intros q Hq%Hcand%Hall. destruct Hq as (b' & eb & eq & [= <-] & Hb' & Hq & ?).
  unfold plen_of. by rewrite Hb', Hq.
Qed.

Lemma nearest_ancestor_run w id plen :
  regions_inv w → 0 < plen →
  ∃ p, region_nearest_ancestor id plen w = Ok (Some p) w ∧
    widest w (λ q, region_covers w q id ∧ plen_of w q < plen) p.
Proof.
  intros Hinv Hplen. destruct (root_lookup_run w Hinv) as (r & e & Hr & He & Hid & Hpl).
  destruct (find_widest w (λ a b, b <=? a) id plen r) as (o & Ho & Hs);
    [intros a b; rewrite !Z.leb_le; lia|done|by exists e|].
  destruct o as [p|]; simpl in Hs.
  - exists p. split.
    + unfold region_nearest_ancestor. rewrite (bind_Ok _ _ _ _ _ Hr). exact Ho.
    + eapply widest_iff; [|exact Hs]. intros q. cbn beta. by rewrite Z.leb_gt.
  - destruct (Hs r). split; [|unfold plen_of; rewrite He; apply Z.leb_gt; lia].
    exists e. split; [done|]. rewrite Hid, Hpl. apply covers_root.
Qed.

Lemma cover_run w id plen :
  regions_inv w → 0 ≤ plen →
  ∃ r p, region_lookup XY_REGION_ROOT 0 w = Ok (Some r) w ∧
    region_find_cover_rec (walk_fuel w) r id plen None w = Ok (Some p) w ∧
    widest w (λ q, region_covers w q id ∧ plen_of w q ≤ plen) p.
Proof.
  intros Hinv Hplen. destruct (root_lookup_run w Hinv) as (r & e & Hr & He & Hid & Hpl).
  destruct (find_widest w (λ a b, b <? a) id plen r) as (o & Ho & Hs);
    [intros a b; rewrite !Z.ltb_lt; lia|done|by exists e|].
  destruct o as [p|]; simpl in Hs.
  - exists r, p. split; [done|]. split; [exact Ho|].
    eapply widest_iff; [|exact Hs]. intros q. cbn beta. by rewrite Z.ltb_ge.
  - destruct (Hs r). split; [|unfold plen_of; rewrite He; apply Z.ltb_ge; lia].
    exists e. split; [done|]. rewrite Hid, Hpl. apply covers_root.
Qed.

(** The widest cover below a bound is unique. *)
Lemma widest_unique w (P : rptr → Prop) id p q :
  regions_inv w → (∀ r, P r → region_covers w r id) → widest w P p → widest w P q → p = q.
Proof.
  intros Hinv HP [Hp Hall] [Hq Hall']. specialize (Hall q Hq). specialize (Hall' p Hp).
  destruct (HP _ Hp) as (ep & Hep & Hcp). destruct (HP _ Hq) as (eq & Heq & Hcq).
  unfold plen_of in *. rewrite Hep, Heq in *.
  eapply (region_is_inj w (re_id ep) (re_plen ep)); [done|by exists ep|].
  exists eq. split; [done|]. assert (re_plen eq = re_plen ep) as Hpl by lia.
  split; [|done]. rewrite Hpl in Hcq. by eapply covers_functional.
Qed.

(** ** Creating a region *)

(** Everything [xy_claim_at] leaves as it was when it creates [(id, plen)]
    at [c] under [p]. *)
Record created w w' (id plen : Z) (p c : rptr) : Prop := {
  cr_new : w_regions w !! c = None;
  cr_is : region_is w' id plen c;
  cr_parent : parent_of w' c = Some p;
  cr_others q i l : q ≠ c → region_is w' i l q ↔ region_is w i l q;
  cr_parents q : q ≠ c → parent_of w' q = parent_of w q;
  cr_mods : w_mods w' = w_mods w
}.

Lemma attach_created w p pe child :
  regions_inv w → w_regions w !! p = Some pe →
  re_parent child = Some p → re_plen pe < re_plen child ≤ 64 →
  is_u64 (re_id child) → aligned (re_id child) (re_plen child) →
  re_depth child = re_depth pe + 1 → re_child_bits child = re_plen child - re_plen pe →
  re_children_head child = None →
  (∀ q, ¬ region_is w (re_id child) (re_plen child) q) →
  ∃ w' ce, region_attach p child w = Ok (w_next w) w' ∧ regions_inv w' ∧
    created w w' (re_id child) (re_plen child) p (w_next w) ∧
    w_regions w' !! w_next w = Some ce ∧
    re_claim_handler ce = re_claim_handler child ∧
    dom (w_regions w') = {[w_next w]} ∪ dom (w_regions w) ∧
    w_tls w' = w_tls w ∧ rt_inited (w_rt w') = rt_inited (w_rt w).
Proof.
  intros (tbl & kids & Ht & Hwf & Hb) Hp Hpar Hpl Hid Hal Hd Hcb Hch Hnew.
  assert (corm_get tbl (mk_region_key (re_id child) (re_plen child)) = None) as Hnone.
  { destruct (corm_get _ _) as [q|] eqn:Hg; [|done]. destruct (Hnew q).
    apply (tw_tbl _ _ _ Hwf) in Hg as (e & He & [= -> ->]). by exists e. }
  destruct (region_attach_spec w tbl kids p pe child Ht Hwf Hb Hp Hpar Hpl Hid Hal Hd Hcb
    Hch Hnone) as (h' & kids' & Hrun & Hwf' & Hdom & _ & Hc & Hold).
  eexists _, _. split; [exact Hrun|]. assert (w_regions w !! w_next w = None) as Hfresh.
  { apply not_elem_of_dom. intros Hin%Hb. lia. }
  assert (Hinv : ∀ q e', h' !! q = Some e' → q ≠ w_next w → ∃ e, w_regions w !! q = Some e ∧
    re_id e' = re_id e ∧ re_plen e' = re_plen e ∧ re_parent e' = re_parent e).
  { intros q e' He' Hq. assert (q ∈ dom h') as Hin by (by eapply elem_of_dom_2).
    rewrite Hdom in Hin. assert (q ∈ dom (w_regions w)) as [e He]%elem_of_dom by set_solver.
    destruct (Hold q e He) as (e2 & He2 & ?). exists e. simplify_eq. done. }
  split_and!; simpl.
  - eexists _, kids'. split_and!; [done|done|]. simpl. intros q. rewrite Hdom.
    intros [->%elem_of_singleton|Hq%Hb]%elem_of_union; lia.
  - split; simpl; [done|eexists; done|unfold parent_of; simpl; by rewrite Hc| | |done].
    + intros q i l Hq. unfold region_is; simpl. split.
      * intros (e' & He' & <- & <-). destruct (Hinv q e' He' Hq) as (e & He & Hi & Hl & _).
        by exists e.
      * intros (e & He & <- & <-). destruct (Hold q e He) as (e' & He' & Hi & Hl & _).
        by exists e'.
    + intros q Hq. unfold parent_of; simpl.
      destruct (h' !! q) as [e'|] eqn:He'.
      * destruct (Hinv q e' He' Hq) as (e & -> & _ & _ & ?). done.
      * destruct (w_regions w !! q) as [e|] eqn:He; [|done].
        destruct (Hold q e He) as (e2 & ? & _). congruence.
  - exact Hc.
  - done.
  - done.
  - done.
  - done.
Qed.

(** ** [xy_claim_at] *)

(** What a claim leaves of the started runtime. *)
Lemma booted_enter w id p :
  booted w → p ∈ dom (w_regions w) →
  booted (w <| w_tls ::= (λ t, t <| t_current_region_id := id |>
                                 <| t_current_region_entry := Some p |>) |>).
Proof.
  intros [Hi Hinv Hc Hl] Hp. split; simpl; [done|exact Hinv|by eexists|].
  unfold cur_live; simpl. by intros ? [= <-].
Qed.

Lemma booted_view w w' :
  booted w → re_shape <$> w_regions w' = re_shape <$> w_regions w →
  rt_region_hd (w_rt w') = rt_region_hd (w_rt w) →
  rt_inited (w_rt w') = rt_inited (w_rt w) →
  (w_next w ≤ w_next w')%positive → w_tls w' = w_tls w → booted w'.
Proof.
  intros [Hi Hinv Hc Hl] Hs Ht Hi' Hn Htls. split.
  - congruence.
  - by eapply regions_inv_view.
  - by rewrite Htls.
  - unfold cur_live. rewrite Htls, (shape_dom _ _ Hs). exact Hl.
Qed.

Lemma booted_err w e : booted w → booted (w <| w_err := e |>).
Proof. intros H. by eapply booted_view. Qed.

Lemma claim_toobig w id plen fn u {OS : Os} {CB : Callbacks} :
  booted w → 64 < plen →
  xy_claim_at id plen fn u w = Ok XY_ERR_TOOBIG (w <| w_err := XY_ERR_TOOBIG |>).
Proof.
  intros Hb Hp. unfold xy_claim_at. rewrite with_runtime_run by apply Hb.
  destruct (Z.ltb_spec 64 plen); [done|lia].
Qed.

Lemma claim_unaligned w id plen fn u {OS : Os} {CB : Callbacks} :
  booted w → plen ≤ 64 → ¬ aligned id plen →
  xy_claim_at id plen fn u w = Ok XY_ERR_INVALID (w <| w_err := XY_ERR_INVALID |>).
Proof.
  intros Hb Hp Ha. unfold xy_claim_at. rewrite with_runtime_run by apply Hb.
  destruct (Z.ltb_spec 64 plen); [lia|].
  destruct (Z.eqb_spec (Z.land id (region_mask plen)) id); [done|done].
Qed.

(** The state a successful claim of an existing region leaves. *)
Definition enter_existing (id : Z) (x : rptr) (fn : option addr) (u : ud) w : world :=
  w <| w_regions ::= alter (λ e, match fn with
         | Some f => e <| re_claim_handler := Some f |> <| re_claim_handler_ud := u |>
         | None => e
         end) x |>
    <| w_tls ::= (λ t, t <| t_current_region_id := id |>
                         <| t_current_region_entry := Some x |>) |>
    <| w_err := XY_OK |>.

Lemma claim_existing w id plen fn u x {OS : Os} {CB : Callbacks} :
  booted w → plen ≤ 64 → aligned id plen → region_is w id plen x →
  xy_claim_at id plen fn u w = Ok XY_OK (enter_existing id x fn u w) ∧
  booted (enter_existing id x fn u w).
Proof.
  intros Hb Hp Ha Hx. destruct (region_lookup_run w id plen) as (o & Ho & Hs); [apply Hb|].
  assert (o = Some x) as ->.
  { destruct o as [y|]; [|by destruct (Hs x)]. f_equal. eapply region_is_inj; [apply Hb|done..]. }
  destruct Hx as (e & He & _ & _). split.
  - unfold xy_claim_at. rewrite with_runtime_run by apply Hb.
    destruct (Z.ltb_spec 64 plen); [lia|]. rewrite Ha, Z.eqb_refl. simpl.
    rewrite (bind_Ok _ _ _ _ _ Ho). unfold enter_existing. destruct fn as [f|].
    + run. run. unfold set_err_ret. run. unfold field_over; simpl.
      by rewrite (alter_as_insert _ _ _ _ He).
    + run. run. unfold set_err_ret. run. unfold field_over; simpl.
      rewrite (alter_as_insert _ _ _ _ He). by rewrite insert_id.
  - apply booted_err, booted_enter; simpl.
    + eapply booted_view; [exact Hb| |done..]. simpl. apply map_eq. intros q.
      rewrite !lookup_fmap. destruct (decide (q = x)) as [->|].
      * rewrite lookup_alter_eq, He. by destruct fn.
      * by rewrite lookup_alter_ne.
    + rewrite dom_alter_L. by eapply elem_of_dom_2.
Qed.

(** Both remaining branches start by finding the nearest ancestor. *)
Lemma claim_new w id plen fn u {OS : Os} {CB : Callbacks} :
  booted w → is_u64 id → 0 ≤ plen ≤ 64 → aligned id plen →
  (∀ q, ¬ region_is w id plen q) →
  ∃ p, widest w (λ q, region_covers w q id ∧ plen_of w q < plen) p ∧
    if next_alloc w then
      ∃ w', xy_claim_at id plen fn u w = Ok XY_OK w' ∧ booted w' ∧ w_err w' = XY_OK ∧
        created w w' id plen p (w_next w) ∧
        t_current_region_id (w_tls w') = id ∧
        t_current_region_entry (w_tls w') = Some (w_next w) ∧
        re_claim_handler <$> w_regions w' !! w_next w = Some fn
    else xy_claim_at id plen fn u w =
           Ok XY_ERR_TOOBIG (w <| w_mem ::= tail |> <| w_err := XY_ERR_TOOBIG |>).
Proof.
  intros Hb Hid Hp Ha Hnew. assert (0 < plen) as Hp0.
  { destruct (Z.eq_dec plen 0) as [->|]; [|lia].
    destruct (root_lookup_run w (bt_inv _ Hb)) as (r & e & _ & He & Hi & Hl).
    destruct (Hnew r). exists e. split_and!; [done| |done].
    unfold aligned in Ha. rewrite region_mask_0, Z.land_0_r in Ha. by rewrite Hi. }
  destruct (region_lookup_run w id plen (bt_inv _ Hb)) as (o & Ho & Hs).
  assert (o = None) as -> by (destruct o as [x|]; [by destruct (Hnew x)|done]).
  destruct (nearest_ancestor_run w id plen (bt_inv _ Hb) Hp0) as (p & Hrun & Hw).
  exists p. split; [done|]. destruct Hw as [[(pe & Hpe & _) Hlt] _].
  unfold plen_of in Hlt. rewrite Hpe in Hlt.
  assert (Hpre : xy_claim_at id plen fn u w =
    (ok ← alloc_ok;
     if negb ok then set_err_ret XY_ERR_TOOBIG
     else
       c ← region_attach p
         (region_entry_zero
            <| re_id := id |> <| re_plen := plen |>
            <| re_depth := u8 (re_depth pe + 1) |>
            <| re_child_bits := u8 (plen - re_plen pe) |>
            <| re_owner_path := None |> <| re_dispatch_gen := 1 |>
            <| re_parent := Some p |> <| re_claim_handler := fn |>
            <| re_claim_handler_ud := u |>);
       set_current_region id (Some c);; set_err_ret XY_OK) w).
  { unfold xy_claim_at. rewrite with_runtime_run by apply Hb.
    destruct (Z.ltb_spec 64 plen); [lia|]. rewrite Ha, Z.eqb_refl. simpl.
    rewrite (bind_Ok _ _ _ _ _ Ho). rewrite (bind_Ok _ _ _ _ _ Hrun). run.
    destruct (Z.leb_spec plen (re_plen pe)); [lia|done]. }
  rewrite Hpre, (bind_Ok _ _ _ _ _ (alloc_ok_run w)). clear Hpre.
  destruct (next_alloc w); [|done]. simpl.
  set (w1 := w <| w_mem ::= tail |>). set (child := _ : region_entry).
  destruct (bt_inv _ Hb) as (tbl & kids & Htbl & Hwf & Hbd).
  pose proof (tw_depth _ _ _ Hwf _ _ Hpe) as Hdep.
  pose proof (tw_ident _ _ _ Hwf _ _ Hpe) as (_ & Hpl & _).
  destruct (attach_created w1 p pe child) as
    (w' & ce & Hat & Hinv' & Hcr & Hce & Hch & Hdom & Htls & Hini);
    try done.
  { by exists tbl, kids. }
  { unfold child; simpl. lia. }
  { unfold child; simpl. apply u8_small. unfold is_u8. lia. }
  { unfold child; simpl. apply u8_small. unfold is_u8. lia. }
  eexists. rewrite (bind_Ok _ _ _ _ _ Hat). run. unfold set_err_ret. run.
  split; [done|]. split_and!; try done.
  - apply booted_err, booted_enter; [|rewrite Hdom; set_solver].
    split; [by rewrite Hini; apply Hb|done|by rewrite Htls; apply Hb|].
    unfold cur_live. rewrite Htls, Hdom. intros q Hq. apply (bt_live _ Hb) in Hq. set_solver.
  - destruct Hcr as [H1 H2 H3 H4 H5 H6]. by split.
  - simpl. change (w_next w1) with (w_next w) in Hce. by rewrite Hce; simpl; rewrite Hch.
Qed.
End specs.
