(* ===== verification/Boot.v ===== *)
(** * A started runtime

    [xy_init] on a library that has not run yet, and the concrete runtime the
    examples evaluate on: tables are [gmap]s, the file system is empty and
    every callback returns at once. *)
From S2P Require Import Prelude Words Corm State Regions RegionTree RegionWalks Runtime Env Paths RegionApi RegionInv RegionSpecs.

(** The library before its constructor runs, or after a shutdown: no region,
    no current region, and no allocation about to fail. *)
Record fresh_library {C : Corm} (w : world) : Prop := {
  fl_inited : rt_inited (w_rt w) = false;
  fl_regions : w_regions w = ∅;
  fl_cur : t_current_region_entry (w_tls w) = None;
  fl_mem : w_mem w = []
}.

Section boot.
Context {C : Corm} {CL : CormLaws C}.
Implicit Types (w : world).

Lemma open_table_run {T} (empty : T) w :
  w_mem w = [] → open_table empty w = Ok (Some empty) w.
Proof. intros H. unfold open_table. by rewrite (bind_Ok _ _ _ _ _ (alloc_ok_Ok _ H)). Qed.

(** Opening a table that the bootstrap keeps when it is open already. *)
Lemma open_once_run {T} (get : runtime → option T) empty set w :
  w_mem w = [] →
  ∃ rt, open_once get empty set w = Ok tt (w <| w_rt := rt |>) ∧
    (rt = w_rt w ∨ rt = set (Some empty) (w_rt w)).
Proof.
  intros H. unfold open_once. rewrite (bind_Ok _ _ _ (get (w_rt w)) w) by done.
  destruct (get (w_rt w)).
  - exists (w_rt w). split; [|by left]. by destruct w.
  - eexists. split; [|by right]. by rewrite (bind_Ok _ _ _ _ _ (open_table_run _ _ H)).
Qed.

(** The root region as [region_ensure_root] makes it. *)
Definition root_entry : region_entry :=
  region_entry_zero <| re_dispatch_gen := 1 |>.

Lemma root_tree_wf p :
  tree_wf {[p := root_entry]} (corm_put corm_empty (mk_region_key XY_REGION_ROOT 0) p)
    (λ _, []).
Proof.
  assert (Hl : ∀ q e, ({[p := root_entry]} : gmap rptr region_entry) !! q = Some e →
    q = p ∧ e = root_entry).
  { intros q e [<- <-]%lookup_singleton_Some. done. }
  split.
  - intros k q. rewrite corm_get_put_dec, corm_get_empty. split.
    + case_decide; [|done]. intros [= <-]. exists root_entry.
      by rewrite lookup_singleton_eq.
    + intros (e & [-> ->]%Hl & ->). by rewrite decide_True.
  - rewrite corm_get_put_dec, decide_True by done. by eexists.
  - intros q e [-> ->]%Hl. split_and!; simpl; try lia; [split; lia|apply aligned_0].
  - intros q e [-> ->]%Hl. done.
  - intros q e [-> ->]%Hl. done.
  - intros q c _. split; [by intros ?%elem_of_nil|].
    intros (e & [-> ->]%Hl & [=]).
Qed.

(** The state bootstrap leaves. *)
Record started w w' : Prop := {
  st_booted : booted w';
  st_root : w_regions w' = {[w_next w := root_entry]};
  st_cur : t_current_region_entry (w_tls w') = Some (w_next w);
  st_cur_id : t_current_region_id (w_tls w') = XY_REGION_ROOT;
  st_host : w_xy w' = host_ctx (w_xy w);
  st_err : w_err w' = XY_OK;
  st_mem : w_mem w' = [];
  st_mods : w_mods w' = w_mods w;
  st_table : rt_mod_hd (w_rt w') = Some corm_empty
}.

Lemma ensure_root_run w t :
  rt_region_hd (w_rt w) = Some t → corm_get t (mk_region_key XY_REGION_ROOT 0) = None →
  t_current_region_entry (w_tls w) = None → w_mem w = [] →
  region_ensure_root w = Ok tt
    (w <| w_next ::= Pos.succ |> <| w_regions ::= <[w_next w := root_entry]> |>
       <| w_rt ::= (λ r, r <| rt_region_hd :=
            Some (corm_put t (mk_region_key XY_REGION_ROOT 0) (w_next w)) |>) |>
       <| w_tls ::= (λ s, s <| t_current_region_id := XY_REGION_ROOT |>
                            <| t_current_region_entry := Some (w_next w) |>) |>).
Proof.
  intros Ht Hg Hc Hm. unfold region_ensure_root.
  rewrite (bind_Ok _ _ _ None w) by (unfold region_lookup; run; by rewrite Hg).
  erewrite bind_Ok; [|rewrite (bind_Ok _ _ _ _ _ (alloc_ok_Ok _ Hm)); by repeat run].
  run. simpl. erewrite bind_Ok; [|unfold region_current_plen; run; simpl; rewrite Hc; done].
  rewrite Hc. simpl. run by (simpl; by rewrite lookup_insert_eq). done.
Qed.

(** Up to the root region: the tables are open and the host's context is
    filled in, whatever region is current. *)
Lemma bootstrap_run w :
  w_mem w = [] →
  ∃ rt, xy_runtime_bootstrap w =
      (region_ensure_root;; rt_mod (λ r, r <| rt_inited := true |>);; mret XY_OK) (w <| w_rt := rt |> <| w_xy ::= host_ctx |>) ∧
    rt_region_hd rt = Some corm_empty ∧ rt_mod_hd rt = Some corm_empty.
Proof.
  intros Hm.
  destruct (open_once_run rt_sica_hd corm_empty (λ t r, r <| rt_sica_hd := t |>) w Hm)
    as (r1 & E1 & H1).
  destruct (open_once_run rt_hook_id_hd corm_empty (λ t r, r <| rt_hook_id_hd := t |>)
    (w <| w_rt := r1 |>)) as (r2 & E2 & H2); [exact Hm|].
  destruct (open_once_run rt_path_intern_hd corm_empty
    (λ t r, r <| rt_path_intern_hd := t |>) (w <| w_rt := r1 |> <| w_rt := r2 |>)) as (r3 & E3 & H3); [exact Hm|].
  unfold xy_runtime_bootstrap.
  rewrite (bind_Ok _ _ _ _ _ E1); cbv beta; rewrite (bind_Ok _ _ _ _ _ E2); cbv beta.
  rewrite (bind_Ok _ _ _ _ _ E3).
  eexists. split.
  { do 3 (erewrite bind_Ok by (by apply open_table_run); run). by erewrite (bind_Ok (modify _)) by done. }
  done.
Qed.

Lemma ensure_bootstraps w : rt_inited (w_rt w) = false → xy_runtime_ensure w = xy_runtime_bootstrap w.
Proof.
  intros Hi. unfold xy_runtime_ensure. by rewrite (bind_Ok _ _ _ false w) by (unfold rt_get, gets; by rewrite Hi).
Qed.

Lemma xy_init_started w :
  fresh_library w → ∃ w', xy_init w = Ok tt w' ∧ started w w'.
Proof.
  intros [Hi Hr Hc Hm]. destruct (bootstrap_run w Hm) as (rt & Hboot & Hreg & Hmod).
  unfold xy_init. erewrite bind_Ok.
  2: { rewrite (ensure_bootstraps w Hi), Hboot. erewrite bind_Ok.
       2: { eapply ensure_root_run; [exact Hreg|apply corm_get_empty|exact Hc|exact Hm]. }
       run. done. }
  eexists. split; [done|]. split; simpl; try done; [|by rewrite Hr].
  split; simpl; [done| |by eexists|].
  - eexists _, (λ _, []). split_and!; simpl; [done|rewrite Hr; apply root_tree_wf|].
    intros p. rewrite Hr, dom_insert_L. set_unfold. intros [->|[]]. simpl. lia.
  - unfold cur_live; simpl. intros p [= <-]. rewrite dom_insert_L. set_solver.
Qed.
End boot.

(** ** A concrete runtime *)

Section example.
Local Existing Instance gmap_corm.

(** No file resolves and no symbol is found. *)
Definition empty_os : Os := {|
  os_realpath _ := None;
  os_getenv _ := None;
  os_stat _ := None;
  os_copy _ _ _ := None;
  os_main_handle := None;
  os_dlsym _ _ := None;
  os_dladdr _ := None;
  os_dlinfo _ := None;
  os_u8_symbol _ := 0;
  os_state_size _ := 0;
  os_ctx_abi _ := 0;
  os_ctx_ptr _ := None;
  os_adapter_address _ := 0
|}.

(** Modules that do nothing. *)
Definition idle_callbacks : Callbacks := {|
  cb_dlopen _ := mret None;
  cb_install _ := mret tt;
  cb_hook _ _ := mret [];
  cb_claim _ _ _ _ := mret (0, 0);
  cb_each _ _ _ _ := mret 0;
  cb_scope _ _ := mret 0;
  cb_cleanup _ _ := mret tt
|}.

Definition after {A} (m : M world A) (w : world) : world :=
  match m w with Ok _ w' => w' | _ => w end.
Definition result {A} (m : M world A) (w : world) : option A :=
  match m w with Ok a _ => Some a | _ => None end.

Definition boot_world : world := after xy_init world_zero.

Lemma boot_world_started : started world_zero boot_world.
Proof.
  destruct (xy_init_started world_zero) as (w' & Hrun & Hs); [by split|].
  unfold boot_world, after. by rewrite Hrun.
Qed.
End example.
