(* ===== verification/RegionSlots.v ===== *)
(** * Allocation of a child's slot

    [region_alloc_slot] searches the 2^bits children of a region in order for
    the first free slot; the id it answers is canonical and stays inside the
    parent's prefix.  For children of the full 64 bits its bound is 2^64 instead,
    and past 2^bits the id leaves the parent. *)
From S2P Require Import Prelude Words Corm State Regions.

(** The id of the [s]-th child of width [cplen] of [pid]. *)
Definition slot_id (pid cplen s : Z) : Z := Z.lor pid (Z.shiftl s (64 - cplen)).

(** ** Identities of slots *)

Section slot.
Context (pid pplen bits : Z).
Context (Hid : is_u64 pid) (Hal : aligned pid pplen).
Context (Hpp : 0 ≤ pplen) (Hbits : 0 < bits) (Hc : pplen + bits ≤ 64).
Context (s : Z) (Hs : 0 ≤ s < 2 ^ bits).
Abbreviation cplen := (pplen + bits).

Lemma slot_shift_range : 0 ≤ Z.shiftl s (64 - cplen) < 2 ^ (64 - pplen).
Proof using Hpp Hbits Hc Hs.
  rewrite Z.shiftl_mul_pow2 by lia.
  replace (64 - pplen) with (bits + (64 - cplen)) by lia.
  rewrite Z.pow_add_r by lia. nia.
Qed.

Lemma slot_shift_small : u64 (Z.shiftl s (64 - cplen)) = Z.shiftl s (64 - cplen).
Proof using Hpp Hbits Hc Hs.
  apply u64_small. pose proof slot_shift_range. unfold is_u64.
  pose proof (Z.pow_le_mono_r 2 (64 - pplen) 64). lia.
Qed.

(** Bits at and above the child's width come from the parent alone. *)
Lemma slot_high i : 64 - pplen ≤ i → Z.testbit (Z.shiftl s (64 - cplen)) i = false.
Proof using Hpp Hbits Hc Hs.
  intros Hi. pose proof slot_shift_range.
  rewrite <- (Z.mod_small (Z.shiftl s (64 - cplen)) (2 ^ (64 - pplen))) by lia.
  apply Z.mod_pow2_bits_high. lia.
Qed.

Lemma pid_low i : 0 ≤ i < 64 - pplen → Z.testbit pid i = false.
Proof using Hid Hal Hpp Hbits Hc.
  intros Hi. unfold aligned in Hal. rewrite <- Hal, land_mask_testbit by (done || lia).
  by destruct (Z.leb_spec (64 - pplen) i); [lia|].
Qed.

Lemma slot_u64 : is_u64 (slot_id pid cplen s).
Proof using Hid Hpp Hbits Hc Hs.
  replace (slot_id pid cplen s) with (u64 (slot_id pid cplen s)); [apply u64_range|].
  apply Z.bits_inj'. intros i Hi. rewrite u64_testbit by done. unfold slot_id.
  destruct (Z.ltb_spec i 64); simpl; [done|].
  by rewrite Z.lor_spec, slot_high, (is_u64_testbit pid) by (done || lia).
Qed.

Lemma slot_aligned : aligned (slot_id pid cplen s) cplen.
Proof using Hid Hal Hpp Hbits Hc Hs.
  apply Z.bits_inj'. intros i Hi. rewrite land_mask_testbit by (lia || apply slot_u64).
  destruct (Z.leb_spec (64 - cplen) i); [done|]. unfold slot_id. simpl.
  rewrite Z.lor_spec, pid_low, Z.shiftl_spec_low by lia. done.
Qed.

Lemma slot_covered : covers pid pplen (slot_id pid cplen s) = true.
Proof using Hid Hal Hpp Hbits Hc Hs.
  apply Z.eqb_eq. unfold aligned in Hal. rewrite <- Hal at 2.
  apply Z.bits_inj'. intros i Hi. rewrite !land_mask_testbit by (lia || apply slot_u64 || done).
  destruct (Z.leb_spec (64 - pplen) i); [|done]. unfold slot_id.
  by rewrite Z.lor_spec, slot_high, orb_false_r by lia.
Qed.
End slot.

(** ** The loop *)

(** The first index below [n] that satisfies [P], if any. *)
Lemma first_below (P : nat → Prop) `{∀ i, Decision (P i)} n :
  (∃ k, (k < n)%nat ∧ P k ∧ ∀ i, (i < k)%nat → ¬ P i) ∨ ∀ i, (i < n)%nat → ¬ P i.
Proof.
  induction n as [|n [(k & ? & ? & ?)|IH]]; [right; lia|left; exists k; split; [lia|done]|].
  destruct (decide (P n)) as [Hn|Hn]; [left; by exists n; split; [lia|]|].
  right. intros i Hi. destruct (decide (i = n)) as [->|]; [done|]. apply IH. lia.
Qed.

Section alloc.
Context {C : Corm}.
Context (t : corm region_key rptr) (parent : region_entry) (bits : Z).
Context (Hid : is_u64 (re_id parent)) (Hal : aligned (re_id parent) (re_plen parent)).
Context (Hpp : 0 ≤ re_plen parent) (Hbits : 0 < bits) (Hc : re_plen parent + bits ≤ 64).
Abbreviation cplen := (re_plen parent + bits).
Abbreviation slot := (slot_id (re_id parent) cplen).

(** How many slots the loop looks at. *)
Definition slot_count : Z := if decide (cplen = 64) then 2 ^ 64 else 2 ^ bits.

Definition slot_free (s : Z) : Prop := corm_get t (mk_region_key (slot s) cplen) = None.
#[local] Instance slot_free_dec s : Decision (slot_free s) := _.

Lemma slot_count_range : 2 ^ bits ≤ slot_count ≤ 2 ^ 64 ∧ 0 < slot_count.
Proof using Hpp Hbits Hc.
  assert (0 < 2 ^ bits) by (apply Z.pow_pos_nonneg; lia).
  assert (2 ^ bits ≤ 2 ^ 64) by (apply Z.pow_le_mono_r; lia).
  unfold slot_count. case_decide; lia.
Qed.

Lemma slot_shift_u64 i : 0 ≤ i < slot_count → u64 (Z.shiftl i (64 - cplen)) = Z.shiftl i (64 - cplen).
Proof using Hpp Hbits Hc.
  unfold slot_count. case_decide as H64; intros Hi; [|by apply slot_shift_small].
  rewrite H64. apply u64_small. unfold is_u64. by rewrite Z.shiftl_0_r.
Qed.

(** Any slot's id is canonical: at the full width every id is. *)
Lemma slot_canonical i : 0 ≤ i < slot_count → is_u64 (slot i) ∧ aligned (slot i) cplen.
Proof using Hid Hal Hpp Hbits Hc.
  unfold slot_count. case_decide as H64; intros Hi; [|by split; [apply slot_u64|apply slot_aligned]].
  assert (Hu : is_u64 (slot i)).
  { unfold slot_id. rewrite H64, Z.shiftl_0_r.
    replace (Z.lor (re_id parent) i) with (u64 (Z.lor (re_id parent) i)); [apply u64_range|].
    apply Z.bits_inj'. intros b Hb. rewrite u64_testbit by done.
    destruct (Z.ltb_spec b 64); simpl; [done|].
    by rewrite Z.lor_spec, (is_u64_testbit (re_id parent)), (is_u64_testbit i) by (done || lia). }
  split; [done|]. apply Z.bits_inj'. intros b Hb. rewrite land_mask_testbit by (done || lia).
  by destruct (Z.leb_spec (64 - cplen) b); [|lia].
Qed.

Abbreviation step := (alloc_slot_step t (re_id parent) cplen (u64 slot_count) (64 - cplen)).

Lemma alloc_slot_step_run i :
  0 ≤ i < slot_count →
  step i = if decide (slot_free i) then inr (slot i)
           else if i + 1 =? slot_count then inr XY_REGION_INVALID else inl (i + 1).
Proof using Hpp Hbits Hc.
  intros Hi. unfold alloc_slot_step. cbv zeta.
  rewrite slot_shift_u64 by done. fold (slot i). pose proof slot_count_range.
  assert (Hend : (u64 (i + 1) =? u64 slot_count) = (i + 1 =? slot_count)).
  { destruct (Z.eqb_spec (i + 1) slot_count) as [->|Hne]; [apply Z.eqb_refl|]. apply Z.eqb_neq.
    rewrite (u64_small (i + 1)) by (unfold is_u64; lia).
    destruct (decide (slot_count = 2 ^ 64)) as [->|]; [change (u64 (2 ^ 64)) with 0; lia|].
    rewrite (u64_small slot_count) by (unfold is_u64; lia). lia. }
  rewrite Hend. destruct (decide (slot_free i)) as [Hf|Hf]; unfold slot_free in Hf; [by rewrite Hf|].
  destruct (corm_get t (mk_region_key (slot i) cplen)); [|done].
  destruct (Z.eqb_spec (i + 1) slot_count); [done|]. by rewrite u64_small by (unfold is_u64; lia).
Qed.

Lemma alloc_loop_run k b :
  0 ≤ k < slot_count → (∀ i, 0 ≤ i < k → ¬ slot_free i) →
  step k = inr b → until (2 ^ 64) step 0 = inr b.
Proof using Hpp Hbits Hc.
  intros Hk Hbusy Hb. pose proof slot_count_range. rewrite until_until_nat.
  apply (until_nat_exit _ Z.of_nat _ (Z.to_nat k)).
  - assert (Z.of_nat (Pos.to_nat (2 ^ 64)) = 2 ^ 64) by (by rewrite positive_nat_Z). lia.
  - intros i Hi. rewrite alloc_slot_step_run by lia.
    rewrite decide_False by (apply Hbusy; lia).
    destruct (Z.eqb_spec (Z.of_nat i + 1) slot_count); [lia|]. f_equal. lia.
  - rewrite Z2Nat.id by lia. exact Hb.
Qed.

Lemma region_alloc_slot_loop :
  region_alloc_slot t parent bits =
    match until (2 ^ 64) step 0 with inr id => id | inl _ => XY_REGION_INVALID end.
Proof using Hpp Hbits Hc.
  unfold region_alloc_slot, slot_count. rewrite (u8_small cplen) by (unfold is_u8; lia).
  destruct (Z.ltb_spec 64 cplen); [lia|]. case_decide as H64.
  - rewrite (proj2 (Z.eqb_eq _ _) H64), (proj2 (Z.ltb_ge _ _)) by lia. by rewrite H64.
  - rewrite (proj2 (Z.eqb_neq _ _) H64), (proj2 (Z.ltb_lt _ _)) by lia. by rewrite Z.shiftl_1_l.
Qed.

(** The first free slot, or [XY_REGION_INVALID] when there is none. *)
Lemma region_alloc_slot_first :
  (∃ s, 0 ≤ s < slot_count ∧ slot_free s ∧ (∀ i, 0 ≤ i < s → ¬ slot_free i) ∧
    region_alloc_slot t parent bits = slot s) ∨
  (∀ s, 0 ≤ s < slot_count → ¬ slot_free s) ∧
    region_alloc_slot t parent bits = XY_REGION_INVALID.
Proof using Hpp Hbits Hc.
  pose proof slot_count_range as Hpow. rewrite region_alloc_slot_loop.
  destruct (first_below (λ i, slot_free (Z.of_nat i)) (Z.to_nat slot_count))
    as [(k & Hk & Hfree & Hbusy)|Hfull].
  - left. exists (Z.of_nat k). assert (0 ≤ Z.of_nat k < slot_count) by lia.
    assert (∀ i, 0 ≤ i < Z.of_nat k → ¬ slot_free i) as Hb.
    { intros i Hi. rewrite <- (Z2Nat.id i) by lia. apply Hbusy. lia. }
    split_and!; [lia|lia|done|done|].
    rewrite (alloc_loop_run (Z.of_nat k) (slot (Z.of_nat k))); [done..|].
    rewrite alloc_slot_step_run by lia. by rewrite decide_True.
  - right. assert (∀ s, 0 ≤ s < slot_count → ¬ slot_free s) as Hb.
    { intros s Hs. rewrite <- (Z2Nat.id s) by lia. apply Hfull. lia. }
    split; [done|]. rewrite (alloc_loop_run (slot_count - 1) XY_REGION_INVALID); [done|lia|..].
    + intros i Hi. apply Hb. lia.
    + rewrite alloc_slot_step_run by lia. rewrite decide_False by (apply Hb; lia).
      by replace (slot_count - 1 + 1 =? slot_count) with true by lia.
Qed.
End alloc.
