(* ===== verification/RegionDeny.v ===== *)
(** * Denies

    What [xy_deny] stores, and the marks it leaves on the chain of regions the
    dispatcher consults. *)
From S2P Require Import Prelude Words Corm State Regions RegionTree RegionWalks Runtime Env Paths RegionApi RegionInv RegionSpecs Boot.

Section deny.
Context {C : Corm} {CL : CormLaws C} {OS : Os} {CB : Callbacks}.
Implicit Types (w : world) (p q : rptr).

Lemma deny_set_add_run {K} `{Countable K} (set : option (corm K unit)) (v : K) w :
  w_mem w = [] →
  deny_set_add set v w = Ok (Some (corm_put (default corm_empty set) v ())) w.
Proof.
  intros Hm. unfold deny_set_add. destruct set as [s|]; [done|].
  by rewrite (bind_Ok _ _ _ _ _ (open_table_run corm_empty w Hm)).
Qed.

(** The denying region's entry. *)
Definition with_hook_deny (what : string) (e : region_entry) : region_entry :=
  e <| re_denied_hooks ::= cons what |>
    <| re_denied_hooks_set :=
         Some (corm_put (default corm_empty (re_denied_hooks_set e)) what ()) |>.

Lemma deny_store_run w p e what :
  w_mem w = [] → w_regions w !! p = Some e →
  (rmod p (λ e, e <| re_denied_hooks ::= (cons what) |>);;
   e ← rget p;
   s ← deny_set_add (re_denied_hooks_set e) what;
   rmod p (λ e, e <| re_denied_hooks_set := s |>);;
   mret true) w = Ok true (w <| w_regions ::= <[p := with_hook_deny what e]> |>).
Proof.
  intros Hm He. run. run by (simpl; by rewrite lookup_insert_eq).
  erewrite bind_Ok by (by apply deny_set_add_run).
  run by (simpl; by rewrite lookup_insert_eq). unfold mret, M_ret, field_over; simpl.
  by rewrite insert_insert_eq.
Qed.

(** What a deny of a hook does to the region heap. *)
Record hook_denied w w' (p : rptr) (what : string) : Prop := {
  hd_list : re_denied_hooks <$> w_regions w' !! p =
    cons what ∘ re_denied_hooks <$> w_regions w !! p;
  hd_set : ∃ s, re_denied_hooks_set <$> w_regions w' !! p = Some (Some s) ∧
    corm_get s what = Some ();
  (** every region it lies under is flagged, and its cached dispatch is out
      of date *)
  hd_marked q e' : sub (w_regions w) q p → w_regions w' !! q = Some e' →
    ∃ e, w_regions w !! q = Some e ∧ Z.testbit (re_subtree_flags e') 0 = true ∧
      re_dispatch_gen e' = gen_succ (re_dispatch_gen e) ∧ re_dispatch_gen e' ≠ 0 ∧
      (is_u64 (re_dispatch_gen e) → re_dispatch_gen e' ≠ re_dispatch_gen e);
  hd_others q : ¬ sub (w_regions w) q p → w_regions w' !! q = w_regions w !! q;
  hd_modules q : re_denied_modules <$> w_regions w' !! q = re_denied_modules <$> w_regions w !! q
}.

Lemma gen_succ_ne g : is_u64 g → gen_succ g ≠ g.
Proof.
  unfold is_u64, gen_succ, u64. intros Hg. destruct (Z.eq_dec g (2 ^ 64 - 1)) as [->|]; [done|].
  rewrite Z.mod_small by lia. destruct (Z.eqb_spec (g + 1) 0); lia.
Qed.

Lemma gen_succ_pos g : gen_succ g ≠ 0 ∧ is_u64 (gen_succ g).
Proof.
  unfold gen_succ. destruct (Z.eqb_spec (u64 (g + 1)) 0); [done|].
  split; [done|apply u64_range].
Qed.

Lemma deny_marked_flag e : Z.testbit (re_subtree_flags (deny_marked e)) 0 = true.
Proof.
  change (Z.testbit (Z.lor (re_subtree_flags e) XY_SUBTREE_HAS_DENY) 0 = true).
  by rewrite Z.lor_spec, orb_true_r.
Qed.

Lemma deny_marked_gen e f :
  re_dispatch_gen f = re_dispatch_gen e →
  Z.testbit (re_subtree_flags (deny_marked f)) 0 = true ∧
  re_dispatch_gen (deny_marked f) = gen_succ (re_dispatch_gen e) ∧
  re_dispatch_gen (deny_marked f) ≠ 0 ∧
  (is_u64 (re_dispatch_gen e) → re_dispatch_gen (deny_marked f) ≠ re_dispatch_gen e).
Proof.
  intros Hf. split_and!; [apply deny_marked_flag| |apply gen_succ_pos|]; simpl; rewrite Hf;
    [done|apply gen_succ_ne].
Qed.

Lemma deny_hook_run w what p :
  booted w → w_mem w = [] → t_current_region_entry (w_tls w) = Some p →
  ∃ w', xy_deny what XY_DENY_HOOK w = Ok XY_OK w' ∧ booted w' ∧ hook_denied w w' p what.
Proof.
  intros Hb Hm Hcur. pose proof (bt_live _ Hb _ Hcur) as [e He]%elem_of_dom.
  destruct (bt_inv _ Hb) as (tbl & kids & Ht & Hwf & Hbd).
  set (w1 := w <| w_regions ::= <[p := with_hook_deny what e]> |>).
  assert (Hs1 : re_shape <$> w_regions w1 = re_shape <$> w_regions w).
  { simpl. rewrite fmap_insert. apply insert_id. by rewrite lookup_fmap, He. }
  destruct (region_deny_marks_spec w1 tbl kids p) as (h' & Hmark & Hs2 & Hy & Hn);
    [by eapply tree_wf_shape|rewrite (shape_dom _ _ Hs1); by eapply elem_of_dom_2|].
  assert (Hsub : ∀ q, sub (w_regions w1) q p ↔ sub (w_regions w) q p)
    by (intros q; by apply sub_shape).
  assert (Hother : ∀ q, q ≠ p → w_regions w1 !! q = w_regions w !! q)
    by (intros; simpl; by apply lookup_insert_ne).
  assert (He1 : w_regions w1 !! p = Some (with_hook_deny what e))
    by (simpl; by rewrite lookup_insert_eq).
  assert (Hpp : h' !! p = Some (deny_marked (with_hook_deny what e)))
    by (by rewrite Hy, He1 by done).
  exists (w1 <| w_regions := h' |> <| w_err := XY_OK |>). split_and!.
  - unfold xy_deny. rewrite with_runtime_run by apply Hb.
    rewrite (bind_Ok _ _ _ (Some p) w)
      by (unfold region_lookup_current, tls_get, gets; by rewrite Hcur).
    run. simpl. run. rewrite (bind_Ok _ _ _ _ _ (deny_store_run w p e what Hm He)).
    fold w1.
    cbn [negb]. rewrite <- bind_assoc. by rewrite (bind_Ok _ _ _ _ _ Hmark).
  - apply booted_err. eapply booted_view; [exact Hb| |done..]. simpl. by rewrite Hs2.
  - split; simpl.
    + by rewrite Hpp, He.
    + rewrite Hpp. eexists. split; [done|]. simpl. apply corm_get_put.
    + intros q e' Hq He'. rewrite Hy in He' by (by apply Hsub).
      destruct (decide (q = p)) as [->|Hne].
      * rewrite He1 in He'. injection He' as <-. exists e. split; [done|by apply deny_marked_gen].
      * rewrite Hother in He' by done. destruct (w_regions w !! q) as [eq|]; [|done].
        injection He' as <-. exists eq. split; [done|by apply deny_marked_gen].
    + intros q Hq. rewrite Hn by (by rewrite Hsub). apply Hother. intros ->. by apply Hq.
    + intros q. destruct (decide (q = p)) as [->|Hne]; [by rewrite Hpp, He|].
      rewrite <- (Hother q Hne). destruct (sub_em _ tbl kids Hwf p q) as [Hq|Hq];
        [by eapply elem_of_dom_2|apply Hsub in Hq|rewrite <- Hsub in Hq].
      * rewrite Hy by done. by destruct (w_regions w1 !! q).
      * by rewrite Hn.
Qed.
End deny.
