(* ===== verification/RegionProps.v ===== *)
(** * Theorems about the region interface

    The contract of [xy_claim_at], [xy_region_at], [xy_region_exists],
    [xy_with_region], the ancestor chain and the slot allocator, on any started
    runtime and over any implementation of the tables. *)
From S2P Require Import Prelude Words Corm State Regions RegionTree RegionWalks Runtime Env Paths RegionApi RegionInv RegionSpecs Boot RegionSlots RegionDeny.

Section contract.
Context {C : Corm} {OS : Os} {CB : Callbacks}.
Implicit Types (w : world) (p x : rptr).

(** The outcomes of [xy_claim_at id plen fn u] from [w], by case. *)
Inductive claim_outcome w (id plen : Z) (fn : option addr) (u : ud) : Z → world → Prop :=
  | claim_too_wide :
      64 < plen →
      claim_outcome w id plen fn u XY_ERR_TOOBIG (w <| w_err := XY_ERR_TOOBIG |>)
  | claim_not_canonical :
      plen ≤ 64 → ¬ aligned id plen →
      claim_outcome w id plen fn u XY_ERR_INVALID (w <| w_err := XY_ERR_INVALID |>)
  | claim_again x :
      plen ≤ 64 → aligned id plen → region_is w id plen x →
      claim_outcome w id plen fn u XY_OK (enter_existing id x fn u w)
  | claim_no_memory :
      plen ≤ 64 → aligned id plen → (∀ x, ¬ region_is w id plen x) →
      next_alloc w = false →
      claim_outcome w id plen fn u XY_ERR_TOOBIG
        (w <| w_mem ::= tail |> <| w_err := XY_ERR_TOOBIG |>)
  | claim_created p w' :
      plen ≤ 64 → aligned id plen → (∀ x, ¬ region_is w id plen x) →
      next_alloc w = true →
      (** its parent is the deepest wider region that contains it *)
      widest w (λ q, region_covers w q id ∧ plen_of w q < plen) p →
      created w w' id plen p (w_next w) →
      t_current_region_id (w_tls w') = id →
      t_current_region_entry (w_tls w') = Some (w_next w) →
      re_claim_handler <$> w_regions w' !! w_next w = Some fn →
      w_err w' = XY_OK →
      claim_outcome w id plen fn u XY_OK w'.
End contract.

Section props.
Context {C : Corm} {CL : CormLaws C} {OS : Os} {CB : Callbacks}.
Implicit Types (w : world) (p q x : rptr).

Lemma claim_outcome_exists w id plen fn u :
  booted w → is_u64 id → is_u8 plen →
  ∃ ret w', xy_claim_at id plen fn u w = Ok ret w' ∧
    claim_outcome w id plen fn u ret w' ∧ booted w' ∧ w_err w' = ret.
Proof.
  intros Hb Hid Hp. destruct (Z_lt_le_dec 64 plen) as [Hbig|Hle].
  { do 2 eexists. split; [by apply claim_toobig|].
    split_and!; [by constructor|by apply booted_err|done]. }
  destruct (Z.eq_dec (Z.land id (region_mask plen)) id) as [Ha|Ha].
  2: { do 2 eexists. split; [by apply claim_unaligned|].
       split_and!; [by constructor|by apply booted_err|done]. }
  destruct (region_lookup_run w id plen (bt_inv _ Hb)) as ([x|] & _ & Hx).
  { destruct (claim_existing w id plen fn u x Hb Hle Ha Hx) as [Hrun Hb'].
    do 2 eexists. split; [exact Hrun|]. split_and!; [by constructor|done|done]. }
  unfold is_u8 in Hp.
  destruct (claim_new w id plen fn u Hb Hid ltac:(lia) Ha Hx) as (p & Hw & Hrest).
  destruct (next_alloc w) eqn:Hal.
  - destruct Hrest as (w' & Hrun & Hb' & Herr & Hcr & Hci & Hce & Hh).
    do 2 eexists. split; [exact Hrun|]. split_and!; [by eapply claim_created|done|done].
  - do 2 eexists. split; [exact Hrest|].
    split_and!; [by apply claim_no_memory| |done].
    by eapply booted_view.
Qed.

(** C4. [xy_claim_at] always returns, and its result and final state are one
    of five outcomes: a width over 64 and a non-canonical id are refused with
    no change but the error code; an existing region is entered again; a
    missing one is refused for lack of memory or created under the deepest
    region that contains it, leaving every other region and its parent alone,
    and entered.  Whatever the outcome the runtime stays well formed and the
    error code is the result. *)
Theorem xy_claim_at_contract w id plen fn u :
  booted w → is_u64 id → is_u8 plen →
  ∃ ret w', xy_claim_at id plen fn u w = Ok ret w' ∧
    claim_outcome w id plen fn u ret w' ∧ booted w' ∧ w_err w' = ret.
Proof. apply claim_outcome_exists. Qed.

(** A successful claim has entered the region it names. *)
Lemma claim_entered w id plen fn u w' :
  claim_outcome w id plen fn u XY_OK w' →
  aligned id plen ∧ plen ≤ 64 ∧ t_current_region_id (w_tls w') = id ∧
  ∃ x e, t_current_region_entry (w_tls w') = Some x ∧ w_regions w' !! x = Some e ∧
    re_id e = id ∧ re_plen e = plen.
Proof.
  inversion 1; subst.
  - split_and!; try done.
    match goal with H : region_is _ _ _ ?x |- _ => destruct H as (e & He & ? & ?); exists x end.
    eexists. split; [done|]. simpl. rewrite lookup_alter_eq, He. split; [done|].
    by destruct fn.
  - split_and!; try done.
    match goal with H : created _ _ _ _ _ _ |- _ => destruct (cr_is _ _ _ _ _ _ H) as (e & He & ? & ?) end.
    by exists (w_next w), e.
Qed.

Lemma xy_region_exists_run w id plen :
  booted w →
  (∃ x, region_is w id plen x) ∧ xy_region_exists id plen w = Ok XY_OK (w <| w_err := XY_OK |>) ∨
  (∀ x, ¬ region_is w id plen x) ∧
    xy_region_exists id plen w = Ok XY_ERR_NOTFOUND (w <| w_err := XY_ERR_NOTFOUND |>).
Proof.
  intros Hb. destruct (region_lookup_run w id plen (bt_inv _ Hb)) as (o & Ho & Hs).
  unfold xy_region_exists. rewrite with_runtime_run by apply Hb.
  rewrite (bind_Ok _ _ _ _ _ Ho). destruct o as [x|]; [left|right]; eauto.
Qed.

Lemma xy_region_at_run w id plen :
  booted w → 0 ≤ plen →
  if 64 <? plen then
    xy_region_at id plen w = Ok (XY_REGION_INVALID, 0) (w <| w_err := XY_ERR_TOOBIG |>)
  else
    ∃ p, widest w (λ q, region_covers w q id ∧ plen_of w q ≤ plen) p ∧
      xy_region_at id plen w = Ok (id_of w p, plen_of w p) (w <| w_err := XY_OK |>).
Proof.
  intros Hb Hp. unfold xy_region_at. rewrite with_runtime_run by apply Hb.
  destruct (Z.ltb_spec 64 plen); [done|].
  destruct (cover_run w id plen (bt_inv _ Hb) Hp) as (r & p & Hr & Hrun & Hw).
  exists p. split; [done|]. rewrite (bind_Ok _ _ _ _ _ Hr).
  rewrite (bind_Ok _ _ _ (Some p) w) by exact Hrun.
  destruct Hw as [[(e & He & _) _] _]. run. run. unfold id_of, plen_of. by rewrite He.
Qed.

(** C6. Claiming and locating agree: after a claim that succeeds, the
    identity exists, [xy_region_at] of the same prefix and width answers
    exactly it, and it is the current region. *)
Theorem claim_then_locate w id plen fn u w' :
  booted w → is_u64 id → is_u8 plen →
  xy_claim_at id plen fn u w = Ok XY_OK w' →
  xy_region_exists id plen w' = Ok XY_OK w' ∧
  xy_region_at id plen w' = Ok (id, plen) w' ∧
  xy_current_region w' = Ok id w' ∧ xy_current_region_plen w' = Ok plen w'.
Proof.
  intros Hb Hid Hp Hrun.
  destruct (claim_outcome_exists w id plen fn u Hb Hid Hp)
    as (ret & w2 & Hrun2 & Hout & Hb' & Herr).
  rewrite Hrun in Hrun2. injection Hrun2 as <- <-.
  assert (Hsame : w' <| w_err := XY_OK |> = w') by (destruct w'; simpl in Herr; by subst).
  destruct (claim_entered _ _ _ _ _ _ Hout) as (Ha & Hle & Hci & x & e & Hce & He & Hi & Hl).
  assert (Hx : region_is w' id plen x) by (by exists e). unfold is_u8 in Hp. split_and!.
  - destruct (xy_region_exists_run w' id plen Hb') as [[_ ->]|[Hno _]];
      [by rewrite Hsame|by destruct (Hno x)].
  - pose proof (xy_region_at_run w' id plen Hb' ltac:(lia)) as Hat.
    destruct (Z.ltb_spec 64 plen); [lia|]. destruct Hat as (p & Hw & Hat).
    assert (p = x) as ->.
    { apply (widest_unique w' _ id p x (bt_inv _ Hb')) with (2 := Hw); [by intros r [? _]|].
      split; [|intros q [_ Hq]].
      - split; [exists e; split; [done|]; by rewrite Hi, Hl, covers_self|].
        unfold plen_of. rewrite He. lia.
      - unfold plen_of at 2. by rewrite He, Hl. }
    rewrite Hat, Hsame. unfold id_of, plen_of. by rewrite He, Hi, Hl.
  - unfold xy_current_region. rewrite with_runtime_run by apply Hb'.
    unfold tls_get, gets. by rewrite Hci.
  - unfold xy_current_region_plen. rewrite with_runtime_run by apply Hb'.
    run. rewrite Hsame. unfold region_current_plen. run. rewrite Hce. run.
    unfold mret, M_ret. by rewrite Hl.
Qed.

(** C7. [xy_region_at] finds the deepest covering region: among the regions
    no wider than [plen] whose prefix contains [id], it answers the identity
    of the widest; a width over 64 is refused. *)
Theorem xy_region_at_deepest w id plen :
  booted w → 0 ≤ plen →
  if 64 <? plen then
    xy_region_at id plen w = Ok (XY_REGION_INVALID, 0) (w <| w_err := XY_ERR_TOOBIG |>)
  else
    ∃ p, widest w (λ q, region_covers w q id ∧ plen_of w q ≤ plen) p ∧
      xy_region_at id plen w = Ok (id_of w p, plen_of w p) (w <| w_err := XY_OK |>).
Proof. apply xy_region_at_run. Qed.

(** C23. [xy_with_region] runs its body in the region named and restores the
    caller's region whatever the body did to it; the body's result is the
    result and, when it is not [XY_OK], the error code.  A NULL body and an
    unknown region are refused without entering. *)
Theorem xy_with_region_restores w id plen fn u :
  booted w →
  match fn with
  | None => xy_with_region id plen fn u w = Ok XY_ERR_INVALID (w <| w_err := XY_ERR_INVALID |>)
  | Some f =>
      ((∀ x, ¬ region_is w id plen x) →
        xy_with_region id plen fn u w =
          Ok XY_ERR_NOTFOUND (w <| w_err := XY_ERR_NOTFOUND |>)) ∧
      (∀ x ret w2, region_is w id plen x →
        cb_scope f u (w <| w_tls ::= (λ t, t <| t_current_region_id := id |>
                                             <| t_current_region_entry := Some x |>) |>)
          = Ok ret w2 →
        xy_with_region id plen fn u w =
          Ok ret (w2 <| w_tls ::= (λ t,
                      t <| t_current_region_id := t_current_region_id (w_tls w) |>
                        <| t_current_region_entry := t_current_region_entry (w_tls w) |>) |>
                     <| w_err := ret |>))
  end.
Proof.
  intros Hb. unfold xy_with_region. rewrite with_runtime_run by apply Hb.
  destruct fn as [f|]; [|done].
  destruct (region_lookup_run w id plen (bt_inv _ Hb)) as (o & Ho & Hs).
  rewrite (bind_Ok _ _ _ _ _ Ho). split.
  - intros Hno. by destruct o as [x|]; [destruct (Hno x)|].
  - intros x ret w2 Hx Hrun.
    destruct o as [y|]; [|by destruct (Hs x)].
    assert (y = x) as -> by (eapply region_is_inj; [apply Hb|done..]).
    run. run. run. rewrite (bind_Ok _ _ _ _ _ Hrun). run. run.
    unfold mret, M_ret. f_equal. destruct (Z.eqb_spec ret XY_OK) as [->|]; done.
Qed.

(** The ancestor chain the dispatcher consults is complete: with the 65
    slots it is given, [region_ancestor_chain] lists exactly the regions the
    start lies under, each once, the root first and the start last. *)
Theorem region_ancestor_chain_complete w p :
  booted w → p ∈ dom (w_regions w) →
  ∃ l r, region_ancestor_chain (Some p) 65 w = Ok l w ∧
    head l = Some r ∧ region_is w XY_REGION_ROOT 0 r ∧ last l = Some p ∧
    (∀ q, q ∈ l ↔ sub (w_regions w) q p) ∧ NoDup l ∧ (length l ≤ 65)%nat.
Proof.
  intros Hb Hp. destruct (bt_inv _ Hb) as (tbl & kids & Ht & Hwf & _).
  destruct (region_ancestor_chain_total w tbl kids Hwf p Hp)
    as (l & r & Hrun & Hh & Hr & Hl & Hin & Hnd & Hlen).
  exists l, r. split_and!; try done.
  apply (tw_tbl _ _ _ Hwf) in Hr as (e & He & [= Hi Hpl]). by exists e.
Qed.


(** [xy_init] starts the library: from a fresh one it returns, and leaves
    exactly the root region, empty, current, under a well-formed tree, with
    the error code clear. *)
Theorem xy_init_starts w :
  fresh_library w → ∃ w', xy_init w = Ok tt w' ∧ started w w'.
Proof. apply xy_init_started. Qed.

(** C24. Denying a hook in the current region records it there, flags the
    whole chain up to the root, which is where the dispatcher looks, and gives
    every region of the chain a new generation, so that no dispatch cached
    before the deny is used again; no other region changes. *)
Theorem xy_deny_hook_contract w what p :
  booted w → w_mem w = [] → t_current_region_entry (w_tls w) = Some p →
  ∃ w', xy_deny what XY_DENY_HOOK w = Ok XY_OK w' ∧ booted w' ∧ hook_denied w w' p what.
Proof.
  intros Hb Hm Hcur. destruct (deny_hook_run w what p Hb Hm Hcur) as (w' & Hrun & Hb' & Hd).
  eauto.
Qed.
End props.

(** ** The theorems on concrete runtimes *)

Section witnesses.
Local Existing Instances gmap_corm gmap_corm_laws empty_os idle_callbacks.

Lemma boot_booted : booted boot_world.
Proof. apply boot_world_started. Qed.

(** [0xAA00...] at width 8 *)
Definition sample_id : Z := 0xAA * 2 ^ 56.

Lemma xy_claim_at_contract_witness :
  ∃ ret w', xy_claim_at sample_id 8 None 0 boot_world = Ok ret w' ∧
    claim_outcome boot_world sample_id 8 None 0 ret w' ∧ booted w' ∧ w_err w' = ret.
Proof.
  apply (xy_claim_at_contract boot_world sample_id 8 None 0);
    [exact boot_booted|by vm_compute|by vm_compute].
Defined.

(** A runtime with that region, current. *)
Definition claimed_world : world := after (xy_claim_at sample_id 8 None 0) boot_world.

Lemma claim_then_locate_witness :
  xy_claim_at sample_id 8 None 0 boot_world = Ok XY_OK claimed_world ∧
  xy_region_at sample_id 8 claimed_world = Ok (sample_id, 8) claimed_world.
Proof.
  assert (xy_claim_at sample_id 8 None 0 boot_world = Ok XY_OK claimed_world) as Hrun
    by (vm_compute; reflexivity).
  split; [exact Hrun|].
  exact (proj1 (proj2 (claim_then_locate boot_world sample_id 8 None 0 claimed_world
    boot_booted ltac:(by vm_compute) ltac:(by vm_compute) Hrun))).
Defined.

Lemma claimed_booted : booted claimed_world.
Proof.
  destruct (claim_outcome_exists boot_world sample_id 8 None 0) as (ret & w' & Hrun & _ & Hb & _);
    [exact boot_booted|by vm_compute..|].
  unfold claimed_world, after. by rewrite Hrun.
Qed.

(** A point of the region is found in it, at any width from 8 up. *)
Lemma xy_region_at_deepest_witness :
  booted claimed_world ∧
  ∃ p, widest claimed_world
         (λ q, region_covers claimed_world q (sample_id + 5) ∧ plen_of claimed_world q ≤ 64) p ∧
    xy_region_at (sample_id + 5) 64 claimed_world =
      Ok (id_of claimed_world p, plen_of claimed_world p) (claimed_world <| w_err := XY_OK |>).
Proof.
  split; [exact claimed_booted|].
  apply (xy_region_at_deepest claimed_world (sample_id + 5) 64); [exact claimed_booted|lia].
Defined.

Lemma xy_with_region_restores_witness :
  xy_with_region XY_REGION_ROOT 0 (Some 7%positive) 0 claimed_world =
    Ok XY_OK (claimed_world <| w_err := XY_OK |>).
Proof.
  destruct (xy_with_region_restores claimed_world XY_REGION_ROOT 0 (Some 7%positive) 0
    claimed_booted) as [_ Hrun].
  eapply eq_trans; [eapply (Hrun 1%positive XY_OK); [|reflexivity]|vm_compute; reflexivity].
  eexists. split; [vm_compute; reflexivity|by vm_compute].
Defined.

Lemma region_ancestor_chain_complete_witness :
  ∃ l r, region_ancestor_chain (Some 2%positive) 65 claimed_world = Ok l claimed_world ∧
    head l = Some r ∧ region_is claimed_world XY_REGION_ROOT 0 r ∧ last l = Some 2%positive ∧
    (∀ q, q ∈ l ↔ sub (w_regions claimed_world) q 2%positive) ∧ NoDup l ∧ (length l ≤ 65)%nat.
Proof.
  apply (region_ancestor_chain_complete claimed_world 2%positive); [exact claimed_booted|].
  apply elem_of_dom. eexists. vm_compute. reflexivity.
Defined.



Lemma xy_init_starts_witness :
  ∃ w', xy_init world_zero = Ok tt w' ∧ started world_zero w'.
Proof. apply (xy_init_starts world_zero). by split. Defined.

Lemma xy_deny_hook_contract_witness :
  ∃ w', xy_deny "look_at" XY_DENY_HOOK claimed_world = Ok XY_OK w' ∧ booted w' ∧
    hook_denied claimed_world w' 2%positive "look_at".
Proof.
  apply (xy_deny_hook_contract claimed_world "look_at" 2%positive);
    [exact claimed_booted|vm_compute; reflexivity|vm_compute; reflexivity].
Defined.
End witnesses.
