(* ===== verification/Hooks.v ===== *)
(** * A module's hooks

    Per module: the growing array of resolved listeners ([fn_cache]), the bit
    vector of implemented hooks, and the lazy and eager resolution that fill
    them (src/libxylem.c, src/libxylem-internal.h, src/libxylem-dispatch.c).
    Hook ids are C [int]s; they are handed out from 0 upwards by [xy_areg]. *)
From S2P Require Import Prelude Words Corm State Env.

(** The result of [fn_cache_resolve]: NULL, a listener, or
    [XY_FN_RESOLVE_OOM]. *)
Inductive fn_resolved :=
  | FnNone
  | FnFound (cb : addr)
  | FnOom.

(** [cb ? cb : XY_FN_NOT_FOUND] *)
Definition fn_slot_of (cb : option addr) : fn_slot :=
  match cb with Some a => FnPtr a | None => FnNotFound end.

(** [if (!fn_cache[i])] *)
Definition fn_slot_unset (s : fn_slot) : bool :=
  match s with FnNull => true | _ => false end.

(** ** The bit vector *)

(** [module_has_hook_implemented] *)
Definition module_has_hook_implemented (me : mod_entry) (hook_id : Z) : bool :=
  if hook_id <? 0 then false
  else
    let word := hook_id / 64 in
    match me_hook_impl_bits me !! Z.to_nat word with
    | None => false
    | Some bits => negb (Z.land bits (Z.shiftl 1 (hook_id mod 64)) =? 0)
    end.

(** The zeroed tail of a grown vector. *)
Definition grow_words (bits : list Z) (needed_words : nat) : list Z :=
  bits ++ replicate (needed_words - length bits) 0.

Section hooks.
Context {C : Corm} {OS : Os}.
Abbreviation M := (M world).

(** [module_ensure_hook_impl_words] *)
Definition module_ensure_hook_impl_words (me : mptr) (hook_id : Z) : M Z :=
  if hook_id <? 0 then mret (-1)
  else
    let needed_words := Z.to_nat (hook_id / 64 + 1) in
    m ← mget me;
    if decide (needed_words ≤ length (me_hook_impl_bits m))%nat then mret 0
    else
      ok ← alloc_ok;
      if negb ok then mret (-1)
      else
        mput me (m <| me_hook_impl_bits ::= (λ b, grow_words b needed_words) |>);;
        mret 0.

(** [module_mark_hook_implemented] *)
Definition module_mark_hook_implemented (me : mptr) (hook_id : Z) : M unit :=
  if hook_id <? 0 then mret tt
  else
    r ← module_ensure_hook_impl_words me hook_id;
    if r <? 0 then mret tt
    else
      mmod me (λ m, m <| me_hook_impl_bits ::=
        alter (λ b, Z.lor b (Z.shiftl 1 (hook_id mod 64))) (Z.to_nat (hook_id / 64)) |>).

(** ** The listener cache *)

(** [module_ensure_fn_cache_cap] *)
Definition module_ensure_fn_cache_cap (me : mptr) (needed : Z) : M Z :=
  m ← mget me;
  if needed <=? Z.of_nat (length (me_fn_cache m)) then mret 0
  else
    ok ← alloc_ok;
    if negb ok then mret (-1)
    else
      mput me (m <| me_fn_cache ::= (λ c,
        c ++ replicate (Z.to_nat needed - length c) FnNull) |>);;
      mret 0.

(** A [dlsym] hit that the module defines itself. *)
Definition module_own_symbol (m : mod_entry) (name : string) : option addr :=
  match me_handle m with
  | None => None
  | Some h =>
      match module_lookup_symbol_raw h name with
      | Some cb => if module_symbol_is_local m cb then Some cb else None
      | None => None
      end
  end.

(** [me->fn_cache[hook_id] = ...] and the mark in the bit vector *)
Definition fn_cache_store (me : mptr) (hook_id : Z) (cb : option addr) : M unit :=
  mmod me (λ m, m <| me_fn_cache ::= <[Z.to_nat hook_id := fn_slot_of cb]> |>);;
  match cb with
  | Some _ => module_mark_hook_implemented me hook_id
  | None => mret tt
  end.

(** [fn_cache_resolve] *)
Definition fn_cache_resolve (me : mptr) (hook_id : Z) (name : string) : M fn_resolved :=
  m ← mget me;
  let lookup :=
    m ← mget me;
    let cb := module_own_symbol m name in
    (if 0 <=? hook_id then fn_cache_store me hook_id cb else mret tt);;
    mret (match cb with Some a => FnFound a | None => FnNone end) in
  if (0 <=? hook_id) && (hook_id <? Z.of_nat (length (me_fn_cache m))) then
    match me_fn_cache m !! Z.to_nat hook_id with
    | Some (FnPtr cb) => mret (FnFound cb)
    | Some FnNotFound => mret FnNone
    | _ => lookup
    end
  else if 0 <=? hook_id then
    r ← module_ensure_fn_cache_cap me (hook_id + 16);
    if r <? 0 then mret FnOom else lookup
  else lookup.

(** One round of the loop of [fn_cache_prewarm]. *)
Definition prewarm_one (me : mptr) (name : string) (hook_id : Z) : M unit :=
  m ← mget me;
  if (hook_id <? 0) || (Z.of_nat (length (me_fn_cache m)) <=? hook_id) then mret tt
  else
    match me_fn_cache m !! Z.to_nat hook_id with
    | Some FnNull => fn_cache_store me hook_id (module_own_symbol m name)
    | _ => mret tt
    end.

(** [fn_cache_prewarm] *)
Definition fn_cache_prewarm (me : mptr) : M Z :=
  m ← mget me;
  match me_handle m with
  | None => mret 0
  | Some _ =>
      needed ← rt_get rt_hook_id_counter;
      if needed <=? 0 then mret 0
      else
        r ← module_ensure_fn_cache_cap me (needed + 16);
        if r <? 0 then mret (-1)
        else
          t ← table rt_hook_id_hd;
          for_each (corm_list t) (λ kv, prewarm_one me kv.1 kv.2);;
          mret 0
  end.
End hooks.
