(* ===== verification/HookSpecs.v ===== *)
(** * A module's hooks, specified

    The bit vector is a set of hook ids, and the two caches together are
    transparent: under [cache_ok], lazy resolution, eager resolution and a
    direct symbol lookup answer the same. *)
From S2P Require Import Prelude Words Corm State Env Hooks.

(** ** The bit vector as a set *)

Lemma land_bit b k : 0 ≤ k → negb (Z.land b (Z.shiftl 1 k) =? 0) = Z.testbit b k.
Proof.
  intros Hk. rewrite Z.shiftl_1_l. destruct (Z.testbit b k) eqn:Hb.
  - destruct (Z.eqb_spec (Z.land b (2 ^ k)) 0) as [H0|]; [|done].
    apply (f_equal (λ x, Z.testbit x k)) in H0.
    rewrite Z.land_spec, Hb, Z.pow2_bits_true, Z.bits_0 in H0 by done. done.
  - destruct (Z.eqb_spec (Z.land b (2 ^ k)) 0) as [|H0]; [done|]. destruct H0.
    apply Z.bits_inj'. intros i Hi. rewrite Z.land_spec, Z.pow2_bits_eqb, Z.bits_0 by lia.
    destruct (Z.eqb_spec k i) as [<-|]; [by rewrite Hb|by rewrite andb_false_r].
Qed.

(** The word of a hook, and 0 beyond the vector. *)
Definition word_of (m : mod_entry) (i : nat) : Z := default 0 (me_hook_impl_bits m !! i).

Lemma has_hook_bit m h :
  0 ≤ h → module_has_hook_implemented m h = Z.testbit (word_of m (Z.to_nat (h / 64))) (h mod 64).
Proof.
  intros Hh. unfold module_has_hook_implemented, word_of.
  destruct (Z.ltb_spec h 0); [lia|]. cbv zeta.
  destruct (me_hook_impl_bits m !! Z.to_nat (h / 64)); simpl; [|by rewrite Z.bits_0].
  apply land_bit. by apply Z.mod_pos_bound.
Qed.

Lemma grow_words_lookup b n i : default 0 (grow_words b n !! i) = default 0 (b !! i).
Proof.
  unfold grow_words. destruct (decide (i < length b)%nat).
  - by rewrite lookup_app_l.
  - rewrite lookup_app_r, (lookup_ge_None_2 b) by lia.
    destruct (replicate _ _ !! _) as [x|] eqn:Hx; [|done].
    by apply lookup_replicate in Hx as [-> _].
Qed.

(** The entry after [module_mark_hook_implemented], if memory allows. *)
Definition marked (h : Z) (m : mod_entry) : mod_entry :=
  m <| me_hook_impl_bits ::= (λ b,
    alter (λ x, Z.lor x (Z.shiftl 1 (h mod 64))) (Z.to_nat (h / 64))
      (grow_words b (Z.to_nat (h / 64 + 1)))) |>.

Lemma marked_has h h' m :
  0 ≤ h → 0 ≤ h' →
  module_has_hook_implemented (marked h m) h' =
    (h' =? h) || module_has_hook_implemented m h'.
Proof.
  intros Hh Hh'. rewrite !has_hook_bit by done. unfold marked, word_of; simpl.
  set (g := grow_words _ _).
  assert (Hlen : (Z.to_nat (h / 64) < length g)%nat).
  { unfold g, grow_words. rewrite length_app, length_replicate.
    pose proof (Z.div_pos h 64). lia. }
  pose proof (Z.div_mod h 64) as E. pose proof (Z.div_mod h' 64) as E'.
  pose proof (Z.mod_pos_bound h 64) as B. pose proof (Z.mod_pos_bound h' 64) as B'.
  pose proof (Z.div_pos h 64). pose proof (Z.div_pos h' 64).
  destruct (decide (h' / 64 = h / 64)) as [Hw|Hw].
  - rewrite Hw, list_lookup_alter_eq.
    destruct (lookup_lt_is_Some_2 g _ Hlen) as [x Hx].
    assert (x = default 0 (me_hook_impl_bits m !! Z.to_nat (h / 64))) as ->.
    { rewrite <- (grow_words_lookup _ (Z.to_nat (h / 64 + 1))). fold g. by rewrite Hx. }
    rewrite Hx. simpl. rewrite Z.lor_spec, Z.shiftl_1_l, Z.pow2_bits_eqb, orb_comm by lia.
    f_equal. destruct (Z.eqb_spec (h mod 64) (h' mod 64)), (Z.eqb_spec h' h); lia.
  - rewrite list_lookup_alter_ne by lia.
    rewrite <- (grow_words_lookup (me_hook_impl_bits m) (Z.to_nat (h / 64 + 1))).
    fold g. destruct (Z.eqb_spec h' h); [congruence|done].
Qed.

Section specs.
Context {C : Corm} {OS : Os}.
Implicit Types (w : world) (m : mod_entry).

Lemma mput_mods w p m : mput p m w = Ok tt (w <| w_mods ::= <[p := m]> |>).
Proof. done. Qed.

Lemma module_mark_run w p m h :
  w_mem w = [] → w_mods w !! p = Some m → 0 ≤ h →
  module_mark_hook_implemented p h w = Ok tt (w <| w_mods ::= <[p := marked h m]> |>).
Proof.
  intros Hm Hp Hh. unfold module_mark_hook_implemented, module_ensure_hook_impl_words.
  destruct (Z.ltb_spec h 0); [lia|]. cbv zeta.
  set (n := Z.to_nat (h / 64 + 1)).
  destruct (decide (n ≤ length (me_hook_impl_bits m))%nat) as [Hn|Hn].
  - erewrite bind_Ok by (run; rewrite decide_True by done; done).
    simpl. rewrite (mmod_Ok _ _ m) by done. unfold marked. fold n.
    unfold grow_words, field_over; simpl.
    replace (n - length (me_hook_impl_bits m))%nat with 0%nat by lia.
    by rewrite app_nil_r.
  - erewrite bind_Ok.
    2: { run. rewrite decide_False by done. run. simpl.
         rewrite (bind_Ok _ _ _ _ _ (mput_mods _ _ _)). done. }
    simpl. erewrite mmod_Ok by (simpl; by rewrite lookup_insert_eq).
    unfold field_over; simpl. by rewrite insert_insert_eq.
Qed.

(** ** The listener cache *)

Definition grown_cache (needed : Z) (m : mod_entry) : mod_entry :=
  m <| me_fn_cache ::= (λ c, c ++ replicate (Z.to_nat needed - length c) FnNull) |>.

Lemma ensure_cap_run w p m needed :
  w_mem w = [] → w_mods w !! p = Some m →
  module_ensure_fn_cache_cap p needed w =
    Ok 0 (w <| w_mods ::= <[p := grown_cache needed m]> |>).
Proof.
  intros Hm Hp. unfold module_ensure_fn_cache_cap. run.
  destruct (Z.leb_spec needed (Z.of_nat (length (me_fn_cache m)))).
  - unfold mret, M_ret. f_equal. unfold grown_cache, field_over; simpl.
    replace (Z.to_nat needed - length (me_fn_cache m))%nat with 0%nat by lia. simpl.
    rewrite app_nil_r, insert_id; [by destruct w|by destruct m].
  - run. simpl. by rewrite (bind_Ok _ _ _ _ _ (mput_mods _ _ _)).
Qed.

(** The entry after a resolution has been stored. *)
Definition stored (h : Z) (cb : option addr) (m : mod_entry) : mod_entry :=
  let m' := m <| me_fn_cache ::= <[Z.to_nat h := fn_slot_of cb]> |> in
  match cb with Some _ => marked h m' | None => m' end.

Lemma fn_cache_store_run w p m h cb :
  w_mem w = [] → w_mods w !! p = Some m → 0 ≤ h →
  fn_cache_store p h cb w = Ok tt (w <| w_mods ::= <[p := stored h cb m]> |>).
Proof.
  intros Hm Hp Hh. unfold fn_cache_store. run. unfold stored. destruct cb as [a|]; [|done].
  erewrite module_mark_run; [|done|simpl; by rewrite lookup_insert_eq|done].
  unfold field_over; simpl. by rewrite insert_insert_eq.
Qed.

(** ** Transparency *)

(** The cell and the bit of the hook [name] with id [h] agree with each other
    and with the module: resolved, resolved to nothing, or not resolved. *)
Definition cell_ok (m : mod_entry) (name : string) (h : Z) : Prop :=
  match me_fn_cache m !! Z.to_nat h with
  | Some (FnPtr a) =>
      module_own_symbol m name = Some a ∧ module_has_hook_implemented m h = true
  | Some FnNotFound =>
      module_own_symbol m name = None ∧ module_has_hook_implemented m h = false
  | Some FnNull | None => module_has_hook_implemented m h = false
  end.

(** Every registered hook's cell tells the truth. *)
Definition cache_ok (m : mod_entry) (hooks : string → option Z) : Prop :=
  ∀ name h, hooks name = Some h → 0 ≤ h ∧ cell_ok m name h.

(** Hook ids name one hook each. *)
Definition hooks_inj (hooks : string → option Z) : Prop :=
  ∀ n1 n2 h, hooks n1 = Some h → hooks n2 = Some h → n1 = n2.

Lemma own_symbol_handle m m' name :
  me_handle m' = me_handle m → module_own_symbol m' name = module_own_symbol m name.
Proof.
  intros Hh. unfold module_own_symbol. unfold module_symbol_is_local. by rewrite Hh.
Qed.

Lemma grown_cache_ok needed m hooks : cache_ok m hooks → cache_ok (grown_cache needed m) hooks.
Proof.
  intros Hok name h Hh. destruct (Hok name h Hh) as [H0 Hc]. split; [done|].
  unfold cell_ok in *. rewrite (own_symbol_handle m (grown_cache _ _)) by done. simpl.
  destruct (decide (Z.to_nat h < length (me_fn_cache m))%nat).
  - by rewrite lookup_app_l.
  - rewrite (lookup_ge_None_2 (me_fn_cache m)) in Hc by lia.
    rewrite lookup_app_r by lia. destruct (replicate _ _ !! _) as [x|] eqn:Hx; [|done].
    by apply lookup_replicate in Hx as [-> _].
Qed.

Lemma stored_handle h cb m : me_handle (stored h cb m) = me_handle m.
Proof. unfold stored. by destruct cb. Qed.
Lemma stored_cache h cb m :
  me_fn_cache (stored h cb m) = <[Z.to_nat h := fn_slot_of cb]> (me_fn_cache m).
Proof. unfold stored. by destruct cb. Qed.
Lemma stored_has h cb m h' :
  0 ≤ h → 0 ≤ h' →
  module_has_hook_implemented (stored h cb m) h' =
    match cb with Some _ => (h' =? h) | None => false end || module_has_hook_implemented m h'.
Proof. intros. unfold stored. destruct cb; [by rewrite marked_has|done]. Qed.

Lemma stored_cache_ok m hooks name h :
  hooks_inj hooks → hooks name = Some h → cache_ok m hooks →
  (Z.to_nat h < length (me_fn_cache m))%nat → me_fn_cache m !! Z.to_nat h = Some FnNull →
  cache_ok (stored h (module_own_symbol m name) m) hooks.
Proof.
  intros Hinj Hn Hok Hlen Hnull name' h' Hn'. destruct (Hok name' h' Hn') as [H0 Hc].
  destruct (Hok name h Hn) as [H1 Hc1]. split; [done|]. unfold cell_ok in *.
  rewrite (own_symbol_handle m (stored _ _ _)) by apply stored_handle.
  rewrite stored_cache, stored_has by done.
  destruct (decide (h' = h)) as [->|Hne].
  - assert (name' = name) as -> by (by eapply Hinj).
    rewrite list_lookup_insert_eq by done. rewrite Hnull in Hc1.
    destruct (module_own_symbol m name); simpl; [by rewrite Z.eqb_refl|done].
  - rewrite list_lookup_insert_ne by lia. destruct (Z.eqb_spec h' h); [done|].
    by destruct (module_own_symbol m name).
Qed.

(** Two states of one module that differ in its caches only. *)
Definition same_module m m' : Prop :=
  ∃ c b, m' = m <| me_fn_cache := c |> <| me_hook_impl_bits := b |>.

Lemma same_module_refl m : same_module m m.
Proof. exists (me_fn_cache m), (me_hook_impl_bits m). by destruct m. Qed.
Lemma same_module_grown needed m : same_module m (grown_cache needed m).
Proof. exists (me_fn_cache (grown_cache needed m)), (me_hook_impl_bits m). by destruct m. Qed.
Lemma same_module_stored h cb m : same_module m (stored h cb m).
Proof.
  exists (me_fn_cache (stored h cb m)), (me_hook_impl_bits (stored h cb m)).
  unfold stored. destruct m. by destruct cb.
Qed.
Lemma same_module_trans m1 m2 m3 : same_module m1 m2 → same_module m2 m3 → same_module m1 m3.
Proof. intros (c & b & ->) (c' & b' & ->). by exists c', b'. Qed.

Definition resolved_of (cb : option addr) : fn_resolved :=
  match cb with Some a => FnFound a | None => FnNone end.

(** Resolving a registered hook answers the module's own symbol, whatever the
    caches held, and leaves the answer cached. *)
Lemma fn_cache_resolve_run w p m hooks name h :
  w_mem w = [] → w_mods w !! p = Some m →
  hooks_inj hooks → hooks name = Some h → cache_ok m hooks →
  ∃ m', fn_cache_resolve p h name w =
      Ok (resolved_of (module_own_symbol m name)) (w <| w_mods ::= <[p := m']> |>) ∧
    same_module m m' ∧ cache_ok m' hooks ∧
    me_fn_cache m' !! Z.to_nat h = Some (fn_slot_of (module_own_symbol m name)).
Proof.
  intros Hm Hp Hinj Hn Hok. destruct (Hok name h Hn) as [Hh Hc]. unfold cell_ok in Hc.
  assert (Hid : w <| w_mods ::= <[p := m]> |> = w).
  { unfold field_over; simpl. rewrite insert_id by done. by destruct w. }
  (* the lookup after a miss, from an entry whose cell exists and is empty *)
  assert (Hmiss : ∀ w1 m1, w_mem w1 = [] → w_mods w1 !! p = Some m1 → cache_ok m1 hooks →
    same_module m m1 → me_fn_cache m1 !! Z.to_nat h = Some FnNull →
    ∃ m', (m0 ← mget p; let cb := module_own_symbol m0 name in
           (if 0 <=? h then fn_cache_store p h cb else mret tt);;
           mret (match cb with Some a => FnFound a | None => FnNone end)) w1 =
        Ok (resolved_of (module_own_symbol m name)) (w1 <| w_mods ::= <[p := m']> |>) ∧
      same_module m m' ∧ cache_ok m' hooks ∧
      me_fn_cache m' !! Z.to_nat h = Some (fn_slot_of (module_own_symbol m name))).
  { intros w1 m1 Hm1 Hp1 Hok1 Hsame Hnull.
    assert (Hown : module_own_symbol m1 name = module_own_symbol m name).
    { apply own_symbol_handle. by destruct Hsame as (c & b & ->). }
    pose proof (lookup_lt_Some _ _ _ Hnull) as Hlen.
    exists (stored h (module_own_symbol m1 name) m1). split_and!.
    - run. cbv zeta. destruct (Z.leb_spec 0 h); [|lia].
      by rewrite (bind_Ok _ _ _ _ _ (fn_cache_store_run _ _ _ _ _ Hm1 Hp1 Hh)), Hown.
    - eapply same_module_trans; [exact Hsame|apply same_module_stored].
    - by apply stored_cache_ok.
    - rewrite stored_cache, Hown. by rewrite list_lookup_insert_eq. }
  unfold fn_cache_resolve. destruct (Z.leb_spec 0 h) as [_|]; [|lia]. cbn [andb].
  destruct (Z.ltb_spec h (Z.of_nat (length (me_fn_cache m)))) as [Hlt|Hge].
  - destruct (lookup_lt_is_Some_2 (me_fn_cache m) (Z.to_nat h)) as [s Hs]; [lia|].
    rewrite Hs in Hc. destruct s as [| |a].
    + destruct (Hmiss w m Hm Hp Hok (same_module_refl m) Hs) as (m' & Hrun & ?).
      exists m'. split; [|done]. run. rewrite (proj2 (Z.ltb_lt _ _) Hlt), Hs. exact Hrun.
    + exists m. rewrite Hid. destruct Hc as [-> _]. split_and!; try done; [|apply same_module_refl].
      run. by rewrite (proj2 (Z.ltb_lt _ _) Hlt), Hs.
    + exists m. rewrite Hid. destruct Hc as [-> _]. split_and!; try done; [|apply same_module_refl].
      run. by rewrite (proj2 (Z.ltb_lt _ _) Hlt), Hs.
  - set (m1 := grown_cache (h + 16) m).
    destruct (Hmiss (w <| w_mods ::= <[p := m1]> |>) m1) as (m' & Hrun & ?);
      [done|simpl; by rewrite lookup_insert_eq|by apply grown_cache_ok|apply same_module_grown|..].
    { unfold m1; simpl. rewrite lookup_app_r by lia. apply lookup_replicate_2. lia. }
    exists m'. split; [|done]. run. rewrite (proj2 (Z.ltb_ge _ _) Hge).
    rewrite (bind_Ok _ _ _ _ _ (ensure_cap_run _ _ _ (h + 16) Hm Hp)). simpl.
    fold m1. etrans; [exact Hrun|]. unfold field_over; simpl. by rewrite insert_insert_eq.
Qed.
End specs.
