(* ===== verification/Dispatch.v ===== *)
(** * Dispatch

    src/libxylem-dispatch.c: the adapters' call functions, the bookkeeping
    behind [xy_last], the per-region dispatch vectors, [xy_call] and
    [xy_call_self], and the registration of adapters. *)
From S2P Require Import Prelude Words Corm State Env Regions Runtime Hooks.

(** [module_is_denied]; a region and a path are not NULL where it is called. *)
Definition module_is_denied {C : Corm} (re : region_entry) (path : pptr) : bool :=
  match re_denied_modules_set re with
  | Some set =>
      match corm_get set path with
      | Some _ => true
      | None => bool_decide (path ∈ re_denied_modules re)
      end
  | None => bool_decide (path ∈ re_denied_modules re)
  end.

Section dispatch.
Context {C : Corm} {OS : Os} {CB : Callbacks}.
Abbreviation M := (M world).

(** ** Return values *)

(** [memset(p, 0, n)] *)
Definition zero_buf (p : bptr) (n : Z) : M unit := buf_write p (replicate (Z.to_nat n) 0).

(** The first [n] bytes at [p]. *)
Definition read_bytes (p : bptr) (n : Z) : M (list Z) :=
  b ← buf_get p;
  if decide (Z.to_nat n ≤ length b)%nat then mret (take (Z.to_nat n) b) else crash.

(** [xy_zero_ret] *)
Definition xy_zero_ret (retp : option bptr) (reg : option aptr) : M unit :=
  match retp, reg with
  | Some p, Some r => a ← aget r; zero_buf p (ad_ret_size a)
  | _, _ => mret tt
  end.

(** Bytes at the start of [xy_last_retbuf]. *)
Definition retbuf_write (bs : list Z) : M unit :=
  tls_mod (λ t, t <| t_last_retbuf ::= (λ b, bs ++ drop (length bs) b) |>).

(** [xy_set_last_ret]: a value of at most eight bytes is copied as a whole
    zero-extended word. *)
Definition xy_set_last_ret (retp : option bptr) (ret_size : Z) : M unit :=
  match retp with
  | Some p =>
      if 0 <? ret_size then
        bs ← read_bytes p ret_size;
        retbuf_write (if ret_size <=? 8 then bs ++ replicate (8 - length bs) 0 else bs);;
        tls_mod (λ t, t <| t_last_retp := RetTls |>)
      else tls_mod (λ t, t <| t_last_retp := RetNull |>)
  | None => tls_mod (λ t, t <| t_last_retp := RetNull |>)
  end.

Definition ret_loc_of (retp : option bptr) : ret_loc :=
  match retp with Some p => RetBuf p | None => RetNull end.

(** [xy_last_publish] *)
Definition xy_last_publish (ran : Z) (retp : option bptr) (reg : aptr) : M unit :=
  tls_mod (λ t, t <| t_last_ran := ran |>);;
  modify (λ w, w <| w_xy ::= (λ x, x <| x_adapter := Some reg |>) |>);;
  tls_mod (λ t, t <| t_last_retp := ret_loc_of retp |>).

(** [memcpy(ret, xy_last_retp, n)] *)
Definition copy_last (ret : bptr) (from : ret_loc) (n : Z) : M unit :=
  match from with
  | RetNull => mret tt
  | RetBuf p => bs ← read_bytes p n; buf_write ret bs
  | RetTls => b ← tls_get t_last_retbuf; buf_write ret (take (Z.to_nat n) b)
  end.

(** [xy_last] *)
Definition xy_last (ret : option bptr) : M Z :=
  with_runtime id (
    adapter ← gets (λ w, x_adapter (w_xy w));
    match adapter with
    | None => set_err_ret XY_ERR_INVALID
    | Some a =>
        ran ← tls_get t_last_ran;
        if ran =? 0 then set_err_ret XY_ERR_NOTFOUND
        else
          retp ← tls_get t_last_retp;
          (match ret with
           | Some p => ad ← aget a; copy_last p retp (ad_ret_size ad)
           | None => mret tt
           end);;
          set_err_ret XY_OK
    end).

(** The function [XY_DEF] and [XY_IMPL] give an adapter.  A listener's value
    is the bytes of an [ftype], i.e. [ret_size] many. *)
Definition adapter_call (f : adapter_fn) (res : option bptr) (fn : option addr) (arg : Z)
    : M unit :=
  match (match fn with Some l => Some l | None => af_self f end) with
  | None =>
      (match res with Some p => zero_buf p (af_ret_size f) | None => mret tt end);;
      emit (EvWarn "wasn't defined")
  | Some l =>
      region_id ← tls_get t_current_region_id;
      region ← tls_get t_current_region_entry;
      emit (EvHook l arg (region_id, region));;
      result ← cb_hook l arg;
      match res with
      | Some p => buf_write p (resize (Z.to_nat (af_ret_size f)) 0 result)
      | None => mret tt
      end
  end.

(** ** The vectors *)

(** [region_ensure_hook_dispatch_cap] *)
Definition region_ensure_hook_dispatch_cap (re : rptr) (hook_id : Z) : M Z :=
  if hook_id <? 0 then mret XY_ERR_INVALID
  else
    e ← rget re;
    if hook_id <? Z.of_nat (length (re_hook_dispatch e)) then mret XY_OK
    else
      let new_cap := Z.to_nat (hook_id + 16) in
      ok ← alloc_ok;
      if negb ok then mret XY_ERR_INVALID
      else
        rput re (e <| re_hook_dispatch ::= (λ l,
          l ++ replicate (new_cap - length l) (HookDispatchCache None 0 0 0)) |>);;
        mret XY_OK.

(** The ancestor test both scopes make. *)
Fixpoint denied_by (anc : list rptr) (path : pptr) : M bool :=
  match anc with
  | [] => mret false
  | a :: anc' =>
      e ← rget a;
      if module_is_denied e path then mret true else denied_by anc' path
  end.

(** [module_denied_by_ancestors] *)
Definition module_denied_by_ancestors (anc : list rptr) (me : mod_entry) : M bool :=
  match me_load_path me with
  | None => mret false
  | Some path => denied_by anc path
  end.

(** [&re->hook_dispatch[hook_id]] *)
Definition cache_get (re : rptr) (hook_id : Z) : M hook_dispatch_cache :=
  e ← rget re; deref (re_hook_dispatch e !! Z.to_nat hook_id).
Definition cache_mod (re : rptr) (hook_id : Z)
    (f : hook_dispatch_cache → hook_dispatch_cache) : M unit :=
  rmod re (λ e, e <| re_hook_dispatch ::= alter f (Z.to_nat hook_id) |>).

(** Appending one slot to a vector: [realloc] when it is full.  Cells that
    are not written yet are never read. *)
Definition cache_push (re : rptr) (hook_id : Z) (slot : dispatch_slot) : M bool :=
  c ← cache_get re hook_id;
  grown ← (if decide (hc_cap c ≤ hc_count c)%nat then
      let new_cap := if decide (hc_cap c = 0)%nat then 8%nat else (hc_cap c * 2)%nat in
      ok ← alloc_ok;
      (if (ok : bool) then
         old ← match hc_slots c with Some s => slots_get s | None => mret [] end;
         p ← fresh_ptr;
         modify (λ w, w <| w_slots ::= (λ h,
           match hc_slots c with Some s => delete s h | None => h end) |>);;
         slots_put p (old ++ replicate (new_cap - length old) (DispatchSlot None FnNull));;
         cache_mod re hook_id (λ c, c <| hc_slots := Some p |> <| hc_cap := new_cap |>);;
         mret true
       else mret false)
    else mret true);
  if negb grown then mret false
  else
    c ← cache_get re hook_id;
    s ← deref (hc_slots c);
    l ← slots_get s;
    slots_put s (<[hc_count c := slot]> l);;
    cache_mod re hook_id (λ c, c <| hc_count ::= S |>);;
    mret true.

(** Whether one module of the subtree gets a slot, and its push. *)
Definition rebuild_one (re : rptr) (hook_id : Z) (hook_name : string) (anc : list rptr)
    (me : mptr) : M bool :=
  m ← mget me;
  match me_ctx m with
  | None => mret true
  | Some _ =>
      denied ← module_denied_by_ancestors anc m;
      if (denied : bool) then mret true
      else
        listens ← (if module_has_hook_implemented m hook_id then mret (Some true)
          else
            r ← fn_cache_resolve me hook_id hook_name;
            match r with
            | FnOom => mret None
            | FnNone => mret (Some false)
            | FnFound _ => mret (Some true)
            end);
        match listens with
        | None => mret false
        | Some false => mret true
        | Some true =>
            m' ← mget me;
            if negb (module_has_hook_implemented m' hook_id) then mret true
            else
              cb ← deref (me_fn_cache m' !! Z.to_nat hook_id);
              cache_push re hook_id (DispatchSlot (Some me) cb)
        end
  end.

Fixpoint rebuild_loop (re : rptr) (hook_id : Z) (hook_name : string) (anc : list rptr)
    (mods : list mptr) : M bool :=
  match mods with
  | [] => mret true
  | me :: mods' =>
      ok ← rebuild_one re hook_id hook_name anc me;
      if (ok : bool) then rebuild_loop re hook_id hook_name anc mods' else mret false
  end.

(** [region_rebuild_hook_dispatch] *)
Definition region_rebuild_hook_dispatch (re : rptr) (hook_id : Z) (hook_name : string)
    (anc : list rptr) : M Z :=
  if hook_id <? 0 then mret XY_ERR_INVALID
  else
    e ← rget re;
    stale ← (if re_subtree_mods_dirty e
             then r ← region_rebuild_subtree_mods (Some re); mret (r <? 0)
             else mret false);
    if (stale : bool) then mret XY_ERR_INVALID
    else
      r ← region_ensure_hook_dispatch_cap re hook_id;
      if negb (r =? XY_OK) then mret XY_ERR_INVALID
      else
        cache ← cache_get re hook_id;
        e ← rget re;
        if hc_region_gen cache =? re_dispatch_gen e then mret XY_OK
        else
          cache_mod re hook_id (λ c, c <| hc_count := 0%nat |>);;
          ok ← rebuild_loop re hook_id hook_name anc (re_subtree_mods e);
          if negb ok then mret XY_ERR_INVALID
          else
            e ← rget re;
            cache_mod re hook_id (λ c, c <| hc_region_gen := re_dispatch_gen e |>);;
            mret XY_OK.

(** ** Dispatching *)

(** The address a cell holds; [XY_FN_NOT_FOUND] is not callable. *)
Definition call_target (s : fn_slot) : M (option addr) :=
  match s with
  | FnNull => mret None
  | FnNotFound => crash
  | FnPtr a => mret (Some a)
  end.

(** [fail:] *)
Definition dispatch_fail (retp : option bptr) (reg : aptr) (ret : Z) : M Z :=
  tls_mod (λ t, t <| t_last_ran := 0 |>);;
  a ← aget reg;
  xy_set_last_ret None (ad_ret_size a);;
  xy_zero_ret retp (Some reg);;
  modify (λ w, w <| w_xy ::= (λ x, x <| x_adapter := Some reg |>) |>);;
  set_err_ret ret.

(** The entry of [xy_adapter_by_id] at a hook id. *)
Definition canonical_adapter (hook_id : Z) : M (option adapter) :=
  by_id ← rt_get rt_adapter_by_id;
  if (0 <=? hook_id) && (hook_id <? Z.of_nat (length by_id)) then
    match by_id !! Z.to_nat hook_id with
    | Some (Some p) => a ← aget p; mret (Some a)
    | _ => mret None
    end
  else mret None.

(** Which hook, and through which function: an error code or both. *)
Definition dispatch_resolve (reg : aptr) : M (Z + Z * adapter_fn) :=
  a ← aget reg;
  resolved ← (if ad_hook_id a <? 0 then
      t ← table rt_hook_id_hd;
      match corm_get t (ad_name a) with
      | None => mret None
      | Some hook_id =>
          amod reg (λ a, a <| ad_hook_id := hook_id |>);;
          canonical ← canonical_adapter hook_id;
          match canonical, ad_call a with
          | Some c, None =>
              amod reg (λ a, a <| ad_call := ad_call c |>
                               <| ad_ret_size := ad_ret_size c |>
                               <| ad_arg_size := ad_arg_size c |>);;
              mret (Some (hook_id, ad_call c))
          | _, _ => mret (Some (hook_id, ad_call a))
          end
      end
    else mret (Some (ad_hook_id a, ad_call a)));
  match resolved with
  | None => mret (inl XY_ERR_NOTFOUND)
  | Some (hook_id, call) =>
      a ← aget reg;
      if XY_MAX_RET_SIZE <? ad_ret_size a then mret (inl XY_ERR_TOOBIG)
      else
        call ← match call with
               | Some f => mret (Some f)
               | None =>
                   canonical ← canonical_adapter hook_id;
                   mret (canonical ≫= ad_call)
               end;
        match call with
        | None => mret (inl XY_ERR_NOTFOUND)
        | Some f => mret (inr (hook_id, f))
        end
  end.

(** Whether a strict ancestor denies the hook. *)
Fixpoint hook_denied_by (anc : list rptr) (name : string) : M bool :=
  match anc with
  | [] => mret false
  | a :: anc' =>
      e ← rget a;
      match re_denied_hooks_set e with
      | Some s =>
          match corm_get s name with
          | Some _ => mret true
          | None => hook_denied_by anc' name
          end
      | None => hook_denied_by anc' name
      end
  end.

(** The deny gate: the flag is read at the root of the chain, and the
    caller's own region, the last of the chain, is not consulted. *)
Definition dispatch_denied (anc : list rptr) (name : string) : M bool :=
  sflags ← match anc with
           | [] => mret 0
           | r :: _ => e ← rget r; mret (re_subtree_flags e)
           end;
  if Z.land sflags XY_SUBTREE_SECURITY_MASK =? 0 then mret false
  else hook_denied_by (take (length anc - 1) anc) name.

(** [ctx->adapter = reg; ctx->region_state = me->region_state;] *)
Definition inject_ctx (ctx : cptr) (reg : aptr) (m : mod_entry) : M unit :=
  cmod ctx (λ x, x <| x_adapter := Some reg |> <| x_region_state := me_region_state m |>).

(** The exact-region loop; the list is read as it is when each module is
    reached.  [ran], or the error to fail with. *)
Fixpoint self_loop (fuel : nat) (retp : option bptr) (reg : aptr) (call : adapter_fn)
    (hook_id : Z) (arg : Z) (anc : list rptr) (me : option mptr) (ran : Z) : M (Z + Z) :=
  match me with
  | None => mret (inr ran)
  | Some p =>
      match fuel with
      | O => nofuel
      | S n =>
          m ← mget p;
          let skip ran :=
            m ← mget p; self_loop n retp reg call hook_id arg anc (me_region_next m) ran in
          match me_ctx m with
          | None => skip ran
          | Some ctx =>
              denied ← module_denied_by_ancestors anc m;
              if (denied : bool) then skip ran
              else
                a ← aget reg;
                listens ← (if module_has_hook_implemented m hook_id then mret (inr true)
                  else
                    r ← fn_cache_resolve p hook_id (ad_name a);
                    match r with
                    | FnOom => mret (inl XY_ERR_INVALID)
                    | FnNone => mret (inr false)
                    | FnFound _ =>
                        m ← mget p; mret (inr (module_has_hook_implemented m hook_id))
                    end);
                match listens with
                | inl err => mret (inl err)
                | inr false => skip ran
                | inr true =>
                    m ← mget p;
                    inject_ctx ctx reg m;;
                    cell ← deref (me_fn_cache m !! Z.to_nat hook_id);
                    fn ← call_target cell;
                    adapter_call call retp fn arg;;
                    xy_last_publish (u32 (ran + 1)) retp reg;;
                    skip (u32 (ran + 1))
                end
          end
      end
  end.

(** Running one slot: the module's region becomes current for the call, and
    the caller's comes back after it. *)
Definition run_slot (retp : option bptr) (reg : aptr) (call : adapter_fn) (arg : Z)
    (caller : rptr) (region_id : Z) (me : mptr) (m : mod_entry) (ctx : cptr) (cb : fn_slot)
    : M unit :=
  inject_ctx ctx reg m;;
  prev_rentry ← tls_get t_current_region_entry;
  let region_changed := negb (bool_decide (me_region_entry m = Some caller)) in
  (if region_changed
   then x ← cget ctx; set_current_region (x_region_id x) (me_region_entry m)
   else mret tt);;
  fn ← call_target cb;
  adapter_call call retp fn arg;;
  (if region_changed then set_current_region region_id prev_rentry else mret tt).

(** A slot that can run: [me && me->ctx && cb]. *)
Definition slot_live (s : dispatch_slot) : M (option (mptr * mod_entry * cptr)) :=
  match ds_me s with
  | None => mret None
  | Some p =>
      m ← mget p;
      match me_ctx m with
      | None => mret None
      | Some ctx => mret (if fn_slot_unset (ds_cb s) then None else Some (p, m, ctx))
      end
  end.

(** The loop over [slots[mi..n)]; the array is read as each slot is reached. *)
Fixpoint slots_loop (todo : nat) (mi : nat) (retp : option bptr) (reg : aptr)
    (call : adapter_fn) (arg : Z) (caller : rptr) (region_id : Z) (slots : sptr)
    (ran : Z) : M Z :=
  match todo with
  | O => mret ran
  | S todo' =>
      l ← slots_get slots;
      s ← deref (l !! mi);
      live ← slot_live s;
      match live with
      | None => slots_loop todo' (S mi) retp reg call arg caller region_id slots ran
      | Some (p, m, ctx) =>
          run_slot retp reg call arg caller region_id p m ctx (ds_cb s);;
          xy_last_publish (u32 (ran + 1)) retp reg;;
          slots_loop todo' (S mi) retp reg call arg caller region_id slots (u32 (ran + 1))
      end
  end.

(** The fast path for a vector of one, as it is written out next to the loop. *)
Definition one_slot (retp : option bptr) (reg : aptr) (call : adapter_fn) (arg : Z)
    (caller : rptr) (region_id : Z) (slots : sptr) : M Z :=
  l ← slots_get slots;
  s ← deref (l !! 0%nat);
  live ← slot_live s;
  match live with
  | None => mret 0
  | Some (p, m, ctx) =>
      inject_ctx ctx reg m;;
      (if negb (bool_decide (me_region_entry m = Some caller)) then
         prev_rentry ← tls_get t_current_region_entry;
         x ← cget ctx;
         set_current_region (x_region_id x) (me_region_entry m);;
         fn ← call_target (ds_cb s);
         adapter_call call retp fn arg;;
         set_current_region region_id prev_rentry
       else
         fn ← call_target (ds_cb s);
         adapter_call call retp fn arg);;
      let ran := 1 in
      xy_last_publish ran retp reg;;
      mret ran
  end.

(** The subtree scope, first half: bring the region's vector up to date. *)
Definition dispatch_prepare (reg : aptr) (hook_id : Z) (caller : rptr) (anc : list rptr)
    : M bool :=
  e ← rget caller;
  stale ← (if re_subtree_mods_dirty e
           then r ← region_rebuild_subtree_mods (Some caller); mret (r <? 0)
           else mret false);
  if (stale : bool) then mret false
  else
    e ← rget caller;
    capped ← (if Z.of_nat (length (re_hook_dispatch e)) <=? hook_id
              then r ← region_ensure_hook_dispatch_cap caller hook_id; mret (r =? XY_OK)
              else mret true);
    if negb capped then mret false
    else
      c ← cache_get caller hook_id;
      e ← rget caller;
      a ← aget reg;
      if hc_region_gen c =? re_dispatch_gen e then mret true
      else r ← region_rebuild_hook_dispatch caller hook_id (ad_name a) anc;
           mret (r =? XY_OK).

(** The second half: run what the vector holds. *)
Definition dispatch_run (retp : option bptr) (reg : aptr) (call : adapter_fn)
    (hook_id : Z) (arg : Z) (caller : rptr) (region_id : Z) : M Z :=
  c ← cache_get caller hook_id;
  match hc_slots c with
  | None => mret 0
  | Some slots =>
      if decide (hc_count c = 1%nat)
      then one_slot retp reg call arg caller region_id slots
      else slots_loop (hc_count c) 0 retp reg call arg caller region_id slots 0
  end.

Definition subtree_scope (retp : option bptr) (reg : aptr) (call : adapter_fn)
    (hook_id : Z) (arg : Z) (caller : rptr) (region_id : Z) (anc : list rptr)
    : M (Z + Z) :=
  ready ← dispatch_prepare reg hook_id caller anc;
  if negb ready then mret (inl XY_ERR_INVALID)
  else ran ← dispatch_run retp reg call hook_id arg caller region_id; mret (inr ran).

(** What follows the loops. *)
Definition dispatch_finish (retp : option bptr) (reg : aptr) (ran : Z) : M Z :=
  tls_mod (λ t, t <| t_last_ran := ran |>);;
  a ← aget reg;
  if ran =? 0 then
    xy_set_last_ret None (ad_ret_size a);;
    (match retp with Some p => zero_buf p (ad_ret_size a) | None => mret tt end);;
    set_err_ret XY_ERR_NOTFOUND
  else
    xy_set_last_ret retp (ad_ret_size a);;
    set_err_ret XY_OK.

(** [xy_dispatch].  [fuel] bounds the exact-region loop alone, whose list a
    listener may extend while it runs. *)
Definition xy_dispatch (fuel : nat) (retp : option bptr) (reg : option aptr) (arg : Z)
    (self_only : bool) : M Z :=
  inited ← rt_get rt_inited;
  enter ← (if (inited : bool) then mret XY_OK else xy_runtime_ensure);
  if negb (enter =? XY_OK) then xy_zero_ret retp reg;; set_err_ret enter
  else
    match reg with
    | None => set_err_ret XY_ERR_NOTFOUND
    | Some r =>
        region_id ← tls_get t_current_region_id;
        region_plen ← region_current_plen;
        entry ← tls_get t_current_region_entry;
        resolved ← dispatch_resolve r;
        match resolved with
        | inl err => dispatch_fail retp r err
        | inr (hook_id, call) =>
            caller ← match entry with
                     | Some p => mret (Some p)
                     | None => region_lookup region_id region_plen
                     end;
            anc ← match caller with
                  | Some p => region_ancestor_chain (Some p) 65
                  | None => mret []
                  end;
            a ← aget r;
            denied ← dispatch_denied anc (ad_name a);
            if (denied : bool) then dispatch_fail retp r XY_ERR_EPERM
            else
              tls_mod (λ t, t <| t_last_ran := 0 |> <| t_last_retp := ret_loc_of retp |>);;
              modify (λ w, w <| w_xy ::= (λ x, x <| x_adapter := Some r |>) |>);;
              outcome ← match caller with
                | None => mret (inr 0)
                | Some p =>
                    if (self_only : bool) then
                      e ← rget p;
                      self_loop fuel retp r call hook_id arg anc (re_mods_head e) 0
                    else subtree_scope retp r call hook_id arg p region_id anc
                end;
              match outcome with
              | inl err => dispatch_fail retp r err
              | inr ran => dispatch_finish retp r ran
              end
        end
    end.

(** [xy_call] and [xy_call_self] *)
Definition xy_call (retp : option bptr) (reg : option aptr) (arg : Z) : M Z :=
  xy_dispatch 0 retp reg arg false.
Definition xy_call_self (fuel : nat) (retp : option bptr) (reg : option aptr) (arg : Z) : M Z :=
  xy_dispatch fuel retp reg arg true.

(** ** Registration *)

(** The value of a sum of [int]s, which has none outside their range. *)
Definition no_overflow (x : Z) : M unit := if x <? 2 ^ 31 then mret tt else crash.

(** [xy_areg]; [name] is what the generated constructor passes, the name in
    the adapter. *)
Definition xy_areg (name : string) (adapter : aptr) : M Z :=
  with_runtime (λ _, XY_INVALID) (
    a ← aget adapter;
    if XY_MAX_RET_SIZE <? ad_ret_size a then XY_SET_ERR XY_ERR_TOOBIG;; mret XY_INVALID
    else
      sica ← table rt_sica_hd;
      match corm_get sica name with
      | Some existing => mret (u32 (os_adapter_address existing))
      | None =>
          rt_mod (λ r, r <| rt_sica_hd := Some (corm_put sica name adapter) |>);;
          hook_id ← rt_get rt_hook_id_counter;
          no_overflow (hook_id + 1);;
          rt_mod (λ r, r <| rt_hook_id_counter ::= Z.succ |>);;
          hooks ← table rt_hook_id_hd;
          rt_mod (λ r, r <| rt_hook_id_hd := Some (corm_put hooks name hook_id) |>);;
          amod adapter (λ a, a <| ad_hook_id := hook_id |>);;
          by_id ← rt_get rt_adapter_by_id;
          grown ← (if Z.of_nat (length by_id) <=? hook_id then
              no_overflow (hook_id + 16);;
              ok ← alloc_ok;
              (if (ok : bool) then
                 rt_mod (λ r, r <| rt_adapter_by_id :=
                   by_id ++ replicate (Z.to_nat (hook_id + 16) - length by_id) None |>);;
                 mret true
               else mret false)
            else mret true);
          if negb grown then XY_SET_ERR XY_ERR_INVALID;; mret (u32 XY_ERR_INVALID)
          else
            rt_mod (λ r, r <| rt_adapter_by_id ::= <[Z.to_nat hook_id := Some adapter]> |>);;
            mods ← rt_get rt_mod_hd;
            (match mods with
             | None => mret tt
             | Some t => for_each (corm_list t) (λ kv, fn_cache_prewarm kv.2;; mret tt)
             end);;
            XY_SET_ERR XY_OK;;
            mret 0
      end).
End dispatch.
