(* ===== verification/Subtree.v ===== *)
(** * The modules of a subtree

    [region_rebuild_subtree_mods] computes the preorder of the region tree: a
    region's own modules in load order, then each child's subtree.  [preorder]
    is that list as a function of the tree. *)
From S2P Require Import Prelude Words Corm State Regions RegionTree RegionWalks.

(** The modules at and below [p], to depth [n]. *)
Fixpoint preorder (n : nat) (kids : rptr → list rptr) (own : rptr → list mptr) (p : rptr)
    : list mptr :=
  match n with
  | O => []
  | S n' => own p ++ concat (map (preorder n' kids own) (kids p))
  end.

Lemma preorder_S n kids own p :
  preorder (S n) kids own p = own p ++ concat (map (preorder n kids own) (kids p)).
Proof. done. Qed.

(** The module lists of the regions: doubly linked from head and tail, each
    module pointing back at its region. *)
Record mods_wf {C : Corm} (h : gmap rptr region_entry) (ms : gmap mptr mod_entry)
    (own : rptr → list mptr) : Prop := {
  mw_next p e : h !! p = Some e → chain ms me_region_next (re_mods_head e) (own p);
  mw_prev p e : h !! p = Some e → chain ms me_region_prev (re_mods_tail e) (reverse (own p));
  mw_entry p q m : p ∈ dom h → q ∈ own p → ms !! q = Some m → me_region_entry m = Some p
}.

Section collect.
Context {C : Corm}.
Implicit Types (w : world) (p root : rptr).

(** ** Pushing *)

(** What the walk reads of a region. *)
Definition re_walk (e : region_entry) := (re_shape e, re_mods_head e).

(** The state after [l] has been pushed on [root]'s vector. *)
Definition pushed w root (l : list mptr) w' : Prop :=
  ∃ r cap, w_regions w !! root = Some r ∧
    w' = w <| w_regions ::= <[root := r <| re_subtree_mods := re_subtree_mods r ++ l |>
                                       <| re_subtree_mods_cap := cap |>]> |>.

Lemma pushed_nil w root r : w_regions w !! root = Some r → pushed w root [] w.
Proof.
  intros Hr. exists r, (re_subtree_mods_cap r). split; [done|]. unfold field_over; simpl.
  rewrite app_nil_r, insert_id; [by destruct w|by destruct r].
Qed.

Lemma pushed_trans w root l1 l2 w1 w2 :
  pushed w root l1 w1 → pushed w1 root l2 w2 → pushed w root (l1 ++ l2) w2.
Proof.
  intros (r & cap & Hr & ->) (r' & cap' & Hr' & ->). simpl in Hr'.
  rewrite lookup_insert_eq in Hr'. injection Hr' as <-. exists r, cap'. split; [done|].
  unfold field_over; simpl. by rewrite insert_insert_eq, app_assoc.
Qed.

(** The walk's view of a state, which pushing does not change. *)
Definition walk_view w := (re_walk <$> w_regions w, w_mods w, w_mem w).

Lemma pushed_view w root l w' : pushed w root l w' → walk_view w' = walk_view w.
Proof.
  intros (r & cap & Hr & ->). unfold walk_view; simpl. f_equal. f_equal.
  rewrite fmap_insert. apply insert_id. by rewrite lookup_fmap, Hr.
Qed.

Lemma view_lookup w w' p e :
  walk_view w' = walk_view w → w_regions w !! p = Some e →
  ∃ e', w_regions w' !! p = Some e' ∧ re_walk e' = re_walk e.
Proof.
  unfold walk_view. intros [= Hv _ _] He.
  assert (Hf : (re_walk <$> w_regions w') !! p = Some (re_walk e)).
  { by rewrite Hv, lookup_fmap, He. }
  rewrite lookup_fmap in Hf. destruct (w_regions w' !! p) as [e'|]; [|done].
  exists e'. split; [done|]. simpl in Hf. congruence.
Qed.

Lemma subtree_push_run w root r me :
  w_mem w = [] → w_regions w !! root = Some r →
  ∃ w', region_subtree_mods_push root me w = Ok 0 w' ∧ pushed w root [me] w'.
Proof.
  intros Hm Hr. unfold region_subtree_mods_push. run.
  destruct (decide (re_subtree_mods_cap r ≤ length (re_subtree_mods r))%nat).
  - erewrite bind_Ok by (run; simpl; run; done). simpl.
    run by (simpl; by rewrite lookup_insert_eq). eexists. split; [done|].
    eexists r, _. split; [done|]. unfold field_over; simpl. rewrite insert_insert_eq. done.
  - run. simpl. run. eexists. split; [done|]. exists r, (re_subtree_mods_cap r).
    split; [done|]. unfold field_over; simpl. by destruct r.
Qed.

Lemma push_mods_run fuel root o l w r :
  w_mem w = [] → w_regions w !! root = Some r →
  chain (w_mods w) me_region_next o l → (length l ≤ fuel)%nat →
  ∃ w', push_mods fuel root o w = Ok 0 w' ∧ pushed w root l w'.
Proof.
  revert fuel o w r. induction l as [|m l IH]; intros fuel o w r Hm Hr Hc Hf.
  { simpl in Hc; subst. exists w. split; [by destruct fuel|by eapply pushed_nil]. }
  destruct Hc as (-> & em & Hem & Hc). destruct fuel as [|fuel]; [simpl in Hf; lia|].
  destruct (subtree_push_run w root r m Hm Hr) as (w1 & H1 & P1).
  pose proof (pushed_view _ _ _ _ P1) as Hv. unfold walk_view in Hv.
  injection Hv as _ Hmods Hmem. assert (∃ r1, w_regions w1 !! root = Some r1) as [r1 Hr1].
  { destruct P1 as (? & ? & _ & ->). simpl. rewrite lookup_insert_eq. eauto. }
  destruct (IH fuel (me_region_next em) w1 r1) as (w2 & H2 & P2);
    [congruence|done|by rewrite Hmods|simpl in Hf; lia|].
  exists w2. split; [|by eapply (pushed_trans _ _ [m])]. simpl.
  rewrite (bind_Ok _ _ _ _ _ H1). simpl. run by (rewrite Hmods; done). exact H2.
Qed.

(** ** The walk *)

Section walk.
Context w0 tbl kids (Hwf : tree_wf (w_regions w0) tbl kids).
Context (own : rptr → list mptr).
Context (Hown : ∀ p e, w_regions w0 !! p = Some e →
  chain (w_mods w0) me_region_next (re_mods_head e) (own p)).
Context (Hmem : w_mem w0 = []).
Context (root : rptr) (Hroot : root ∈ dom (w_regions w0)).
Abbreviation h := (w_regions w0).
Abbreviation K := (S (size h)).

(** A state of the walk. *)
Definition walking w : Prop := walk_view w = walk_view w0.

Lemma walking_lookup w p e :
  walking w → h !! p = Some e → ∃ e', w_regions w !! p = Some e' ∧ re_walk e' = re_walk e.
Proof using Type. apply view_lookup. Qed.

Lemma walking_root w : walking w → ∃ r, w_regions w !! root = Some r.
Proof using Hroot.
  intros Hw. apply elem_of_dom in Hroot as [r Hr].
  destruct (walking_lookup w root r Hw Hr) as (r' & ? & _). eauto.
Qed.

Lemma walking_pushed w l w' : walking w → pushed w root l w' → walking w'.
Proof using Type. intros Hw Hp. unfold walking. by rewrite (pushed_view _ _ _ _ Hp). Qed.

(** What one call of [region_collect_subtree_mods] achieves. *)
Definition collects (fuel : nat) (p : rptr) (l : list mptr) : Prop :=
  ∀ w, walking w → ∃ w', region_collect_subtree_mods fuel root p w = Ok 0 w' ∧
    pushed w root l w'.

Lemma collect_children_run (d : rptr → list mptr) f :
  ∀ l o fuel, chain h re_sibling_next o l →
    (∀ c fuel, c ∈ l → (f ≤ fuel)%nat → collects fuel c (d c)) →
    (length l + f ≤ fuel)%nat →
    ∀ w, walking w → ∃ w', collect_children fuel root o w = Ok 0 w' ∧
      pushed w root (concat (map d l)) w'.
Proof using Hroot.
  induction l as [|c l IH]; intros o fuel Hc Hd Hf w Hw.
  { simpl in Hc; subst. exists w. split; [by destruct fuel|].
    destruct (walking_root w Hw) as [r Hr]. by eapply pushed_nil. }
  destruct Hc as (-> & e & He & Hc). destruct fuel as [|fuel]; [simpl in Hf; lia|].
  destruct (Hd c fuel ltac:(left) ltac:(simpl in Hf; lia) w Hw) as (w1 & H1 & P1).
  pose proof (walking_pushed _ _ _ Hw P1) as Hw1.
  destruct (walking_lookup w1 c e Hw1 He) as (e1 & He1 & Heq).
  destruct (IH (re_sibling_next e) fuel) with (w := w1) as (w2 & H2 & P2);
    [done|intros; apply Hd; [by right|done]|simpl in Hf; lia|done|].
  exists w2. split; [|by eapply pushed_trans]. simpl.
  rewrite (bind_Ok _ _ _ _ _ H1). simpl. run.
  unfold re_walk, re_shape in Heq. injection Heq as _ _ _ _ _ _ Hs _. by rewrite Hs.
Qed.

Lemma collect_run n p e fuel :
  h !! p = Some e → 64 - re_plen e ≤ Z.of_nat n → (n * K + 1 ≤ fuel)%nat →
  collects fuel p (preorder (S n) kids own p).
Proof using Hwf Hown Hmem Hroot.
  revert p e fuel. induction n as [|n IH]; intros p e fuel He Hn Hf w Hw;
    (destruct fuel as [|fuel]; [simpl in Hf; lia|]);
    destruct (walking_lookup w p e Hw He) as (e1 & He1 & Heq);
    unfold re_walk, re_shape in Heq; injection Heq as _ _ _ _ _ Hch _ Hmh;
    pose proof Hw as Hv; unfold walking, walk_view in Hv; injection Hv as _ Hmods Hmemw;
    destruct (walking_root w Hw) as [r Hr];
    (destruct (push_mods_run (S (size (w_mods w))) root (re_mods_head e) (own p) w r)
       as (w1 & H1 & P1);
       [congruence|done|rewrite Hmods; by apply Hown|
        rewrite Hmods; pose proof (chain_length _ _ _ _ (Hown _ _ He)); lia|]);
    pose proof (walking_pushed _ _ _ Hw P1) as Hw1;
    destruct (walking_lookup w1 p e Hw1 He) as (e2 & He2 & Heq2);
    unfold re_walk, re_shape in Heq2; injection Heq2 as _ _ _ _ _ Hch2 _ _;
    pose proof (tw_kids _ _ _ Hwf _ _ He) as Hkids.
  - assert (kids p = []) as Hnil.
    { destruct (kids p) as [|c l] eqn:Hk; [done|].
      destruct (kids_entry _ _ _ Hwf p e c) as (? & _ & ?);
        [done|rewrite Hk; by left|]. simpl in Hn. lia. }
    exists w1. split; [|simpl; rewrite Hnil; simpl; by rewrite app_nil_r].
    cbn [region_collect_subtree_mods]. run.
    rewrite (bind_Ok _ _ _ (size (w_mods w)) w) by done. rewrite Hmh.
    rewrite (bind_Ok _ _ _ _ _ H1). simpl. run. rewrite Hnil in Hkids. simpl in Hkids.
    rewrite Hch2, Hkids. by destruct fuel.
  - pose proof (chain_length _ _ _ _ Hkids) as Hlen.
    destruct (collect_children_run (preorder (S n) kids own) (n * K + 1) (kids p)
      (re_children_head e) fuel) with (w := w1) as (w2 & H2 & P2); [done| |simpl in Hf; lia|done|].
    { intros c fuel' Hc Hf'. destruct (kids_entry _ _ _ Hwf _ _ _ He Hc) as (ec & Hec & ?).
      apply (IH c ec); [done|lia|done]. }
    exists w2. split; [|by eapply pushed_trans].
    cbn [region_collect_subtree_mods]. run.
    rewrite (bind_Ok _ _ _ (size (w_mods w)) w) by done. rewrite Hmh.
    rewrite (bind_Ok _ _ _ _ _ H1). simpl. run. rewrite Hch2. exact H2.
Qed.

End walk.

(** ** The rebuild *)

(** The state after a rebuild of [root]'s vector to [l]. *)
Definition rebuilt w root (l : list mptr) w' : Prop :=
  ∃ r cap, w_regions w !! root = Some r ∧
    w' = w <| w_regions ::= <[root := r <| re_subtree_mods := l |>
                                       <| re_subtree_mods_cap := cap |>
                                       <| re_subtree_mods_dirty := false |>]> |>.

Lemma rebuild_subtree_run w tbl kids own root :
  tree_wf (w_regions w) tbl kids →
  (∀ p e, w_regions w !! p = Some e →
    chain (w_mods w) me_region_next (re_mods_head e) (own p)) →
  w_mem w = [] → root ∈ dom (w_regions w) →
  ∃ w', region_rebuild_subtree_mods (Some root) w = Ok 0 w' ∧
    rebuilt w root (preorder 65 kids own root) w'.
Proof.
  intros Hwf Hown Hmem Hdom. pose proof Hdom as [r Hr]%elem_of_dom.
  set (r0 := r <| re_subtree_mods := [] |>). set (w1 := w <| w_regions ::= <[root := r0]> |>).
  assert (Hshape : re_shape <$> w_regions w1 = re_shape <$> w_regions w).
  { simpl. rewrite fmap_insert. apply insert_id. by rewrite lookup_fmap, Hr. }
  assert (Hr1 : w_regions w1 !! root = Some r0) by (simpl; by rewrite lookup_insert_eq).
  destruct (collect_run w1 tbl kids) with (own := own) (root := root) (n := 64%nat) (p := root)
    (e := r0) (fuel := walk_fuel w1) (w := w1) as (w2 & H2 & P2); try done.
  - by eapply tree_wf_shape.
  - intros p e Hp. simpl in Hp. destruct (decide (p = root)) as [->|].
    + rewrite lookup_insert_eq in Hp. injection Hp as <-. by apply (Hown root r).
    + rewrite lookup_insert_ne in Hp by done. by apply Hown.
  - by eapply elem_of_dom_2.
  - pose proof (tw_ident _ _ _ Hwf _ _ Hr). simpl. lia.
  - unfold walk_fuel. lia.
  - destruct P2 as (r' & cap & Hr' & ->). rewrite Hr1 in Hr'. injection Hr' as <-.
    eexists. split.
    + unfold region_rebuild_subtree_mods. run. fold r0. fold w1.
      rewrite (bind_Ok _ _ _ (walk_fuel w1) w1) by done.
      rewrite (bind_Ok _ _ _ _ _ H2). simpl. run by (simpl; by rewrite lookup_insert_eq). done.
    + exists r, cap. split; [done|]. unfold field_over; simpl. by rewrite !insert_insert_eq.
Qed.
End collect.
