(* ===== verification/Vector.v ===== *)
(** * The dispatch vectors, specified

    [region_rebuild_hook_dispatch] fills a region's vector for a hook with the
    listeners of its subtree: the modules, in preorder, that define the hook
    themselves and that no region of the ancestor chain denies.  Filling it
    changes caches only. *)
From S2P Require Import Prelude Words Corm State Env Regions RegionTree RegionWalks Runtime Hooks HookSpecs Subtree Dispatch.

Section vector.
Context {C : Corm} {OS : Os} {CB : Callbacks}.
Implicit Types (w : world) (re : rptr) (q : mptr) (anc : list rptr).

(** ** Listeners *)

(** Whether some region of [anc] denies the module. *)
Definition chain_denies w anc (m : mod_entry) : bool :=
  match me_load_path m with
  | None => false
  | Some path =>
      existsb (λ a, match w_regions w !! a with
                    | Some e => module_is_denied e path
                    | None => false
                    end) anc
  end.

(** The function through which module [q] listens to a hook, if it does. *)
Definition listener w anc (name : string) q : option addr :=
  m ← w_mods w !! q;
  if bool_decide (me_ctx m = None) || chain_denies w anc m then None
  else module_own_symbol m name.

(** Its slot in a vector. *)
Definition listener_slot w anc name q : option dispatch_slot :=
  a ← listener w anc name q; Some (DispatchSlot (Some q) (FnPtr a)).

Definition listener_slots w anc name (l : list mptr) : list dispatch_slot :=
  omap (listener_slot w anc name) l.

(** ** Changing caches only *)

(** A region without what dispatching may fill in. *)
Definition re_uncached (e : region_entry) : region_entry :=
  e <| re_hook_dispatch := [] |> <| re_subtree_mods := [] |>
    <| re_subtree_mods_cap := 0%nat |> <| re_subtree_mods_dirty := false |>.
Definition me_uncached (m : mod_entry) : mod_entry :=
  m <| me_fn_cache := [] |> <| me_hook_impl_bits := [] |>.

Record cache_only w w' : Prop := {
  co_world : ∃ h ms sl n, w' = w <| w_regions := h |> <| w_mods := ms |>
                                 <| w_slots := sl |> <| w_next := n |>;
  co_regions : re_uncached <$> w_regions w' = re_uncached <$> w_regions w;
  co_mods : me_uncached <$> w_mods w' = me_uncached <$> w_mods w;
  co_next : (w_next w ≤ w_next w')%positive
}.

#[global] Instance cache_only_preorder : PreOrder cache_only.
Proof.
  split.
  - intros w. split; [|done..|lia].
    exists (w_regions w), (w_mods w), (w_slots w), (w_next w). by destruct w.
  - intros w1 w2 w3 [(h & ms & sl & n & E) H1 H2 H3] [(h' & ms' & sl' & n' & E') H1' H2' H3'].
    split; [|congruence..|lia]. exists h', ms', sl', n'. by subst.
Qed.

Lemma cache_only_regions w h :
  re_uncached <$> h = re_uncached <$> w_regions w → cache_only w (w <| w_regions := h |>).
Proof.
  intros H. split; [|done|done|simpl; lia].
  exists h, (w_mods w), (w_slots w), (w_next w). by destruct w.
Qed.

Lemma cache_only_mods w ms :
  me_uncached <$> ms = me_uncached <$> w_mods w → cache_only w (w <| w_mods := ms |>).
Proof.
  intros H. split; [|done|done|simpl; lia].
  exists (w_regions w), ms, (w_slots w), (w_next w). by destruct w.
Qed.

Lemma cache_only_slots w sl n :
  (w_next w ≤ n)%positive → cache_only w (w <| w_slots := sl |> <| w_next := n |>).
Proof.
  intros H. split; [|done|done|done].
  exists (w_regions w), (w_mods w), sl, n. by destruct w.
Qed.

(** Updating one region or module without touching more than its caches. *)
Lemma uncached_insert (h : gmap rptr region_entry) re e e' :
  h !! re = Some e → re_uncached e' = re_uncached e →
  re_uncached <$> <[re := e']> h = re_uncached <$> h.
Proof.
  intros He Heq. rewrite fmap_insert, Heq. apply insert_id. by rewrite lookup_fmap, He.
Qed.

Lemma me_uncached_insert (ms : gmap mptr mod_entry) q m m' :
  ms !! q = Some m → same_module m m' → me_uncached <$> <[q := m']> ms = me_uncached <$> ms.
Proof.
  intros Hq (c & b & ->). rewrite fmap_insert.
  apply insert_id. by rewrite lookup_fmap, Hq.
Qed.

Lemma cache_only_region_lookup w w' p e :
  cache_only w w' → w_regions w !! p = Some e →
  ∃ e', w_regions w' !! p = Some e' ∧ re_uncached e' = re_uncached e.
Proof.
  intros [_ Hr _ _] He. assert (Hf : (re_uncached <$> w_regions w') !! p = Some (re_uncached e)).
  { by rewrite Hr, lookup_fmap, He. }
  rewrite lookup_fmap in Hf. destruct (w_regions w' !! p) as [e'|]; [|done].
  exists e'. split; [done|]. by apply (inj Some).
Qed.

Lemma cache_only_mod_lookup w w' q m :
  cache_only w w' → w_mods w !! q = Some m →
  ∃ m', w_mods w' !! q = Some m' ∧ me_uncached m' = me_uncached m.
Proof.
  intros [_ _ Hm _] He. assert (Hf : (me_uncached <$> w_mods w') !! q = Some (me_uncached m)).
  { by rewrite Hm, lookup_fmap, He. }
  rewrite lookup_fmap in Hf. destruct (w_mods w' !! q) as [m'|]; [|done].
  exists m'. split; [done|]. by apply (inj Some).
Qed.

Lemma cache_only_region_none w w' p :
  cache_only w w' → w_regions w !! p = None → w_regions w' !! p = None.
Proof.
  intros [_ Hr _ _] He. apply (f_equal (λ h, h !! p)) in Hr. rewrite !lookup_fmap, He in Hr.
  by destruct (w_regions w' !! p).
Qed.

Lemma cache_only_mod_none w w' q :
  cache_only w w' → w_mods w !! q = None → w_mods w' !! q = None.
Proof.
  intros [_ _ Hr _] He. apply (f_equal (λ h, h !! q)) in Hr. rewrite !lookup_fmap, He in Hr.
  by destruct (w_mods w' !! q).
Qed.

(** Filling caches changes nobody's denies and nobody's listeners. *)
Lemma region_uncached_denied e e' path :
  re_uncached e' = re_uncached e → module_is_denied e' path = module_is_denied e path.
Proof.
  intros Hu. unfold module_is_denied.
  assert (re_denied_modules e' = re_denied_modules e) as -> by (by injection Hu).
  by assert (re_denied_modules_set e' = re_denied_modules_set e) as -> by (by injection Hu).
Qed.

Lemma cache_only_chain_denies w w' anc m m' :
  cache_only w w' → me_load_path m' = me_load_path m →
  chain_denies w' anc m' = chain_denies w anc m.
Proof.
  intros Hco Hl. unfold chain_denies. rewrite Hl. destruct (me_load_path m) as [path|]; [|done].
  induction anc as [|a anc IH]; [done|]. cbn [existsb]. rewrite IH. f_equal.
  destruct (w_regions w !! a) as [e|] eqn:He.
  - destruct (cache_only_region_lookup _ _ _ _ Hco He) as (e' & -> & Hu).
    by apply region_uncached_denied.
  - by rewrite (cache_only_region_none _ _ _ Hco He).
Qed.

Lemma me_uncached_fields m m' :
  me_uncached m' = me_uncached m →
  me_ctx m' = me_ctx m ∧ me_load_path m' = me_load_path m ∧ me_handle m' = me_handle m ∧
  me_region_next m' = me_region_next m ∧ me_region_entry m' = me_region_entry m ∧
  me_region_state m' = me_region_state m.
Proof. intros H. injection H. auto 10. Qed.

Lemma cache_only_listener w w' anc name q :
  cache_only w w' → listener w' anc name q = listener w anc name q.
Proof.
  intros Hco. unfold listener. destruct (w_mods w !! q) as [m|] eqn:Hm.
  - destruct (cache_only_mod_lookup _ _ _ _ Hco Hm) as (m' & -> & Heq). simpl.
    apply me_uncached_fields in Heq as (Hc & Hl & Hh & _).
    by rewrite Hc, (cache_only_chain_denies _ _ _ _ _ Hco Hl), (own_symbol_handle m m').
  - by rewrite (cache_only_mod_none _ _ _ Hco Hm).
Qed.

Lemma cache_only_listener_slots w w' anc name l :
  cache_only w w' → listener_slots w' anc name l = listener_slots w anc name l.
Proof.
  intros Hco. unfold listener_slots, listener_slot. induction l as [|q l IH]; [done|].
  cbn [omap list_omap]. by rewrite (cache_only_listener _ _ _ _ _ Hco), IH.
Qed.

(** ** What preparing a vector relies on *)

(** The registered hooks. *)
Definition hook_ids w (name : string) : option Z :=
  rt_hook_id_hd (w_rt w) ≫= λ t, corm_get t name.

(** Every module's caches tell the truth, and hook ids are not shared. *)
Definition hooks_ok w : Prop :=
  hooks_inj (hook_ids w) ∧ ∀ q m, w_mods w !! q = Some m → cache_ok m (hook_ids w).

(** The contents of a vector's array. *)
Definition array_of w (c : hook_dispatch_cache) (arr : list dispatch_slot) : Prop :=
  match hc_slots c with
  | None => arr = []
  | Some s => w_slots w !! s = Some arr
  end.

(** The vector of [re] for hook [h] holds [slots]. *)
Definition vector_holds w re (h : Z) (slots : list dispatch_slot) : Prop :=
  ∃ e c arr, w_regions w !! re = Some e ∧ re_hook_dispatch e !! Z.to_nat h = Some c ∧
    array_of w c arr ∧ length arr = hc_cap c ∧
    hc_count c = length slots ∧ take (length slots) arr = slots.

(** ** Steps *)

Lemma denied_by_run w anc path :
  (∀ a, a ∈ anc → a ∈ dom (w_regions w)) →
  denied_by anc path w =
    Ok (existsb (λ a, match w_regions w !! a with
                      | Some e => module_is_denied e path
                      | None => false
                      end) anc) w.
Proof.
  induction anc as [|a anc IH]; intros Ha; [done|]. simpl.
  destruct (elem_of_dom (w_regions w) a) as [[e He] _]; [apply Ha; by left|].
  run. rewrite He. destruct (module_is_denied e path); [done|].
  apply IH. intros b Hb. apply Ha. by right.
Qed.

Lemma module_denied_run w anc m :
  (∀ a, a ∈ anc → a ∈ dom (w_regions w)) →
  module_denied_by_ancestors anc m w = Ok (chain_denies w anc m) w.
Proof.
  intros Ha. unfold module_denied_by_ancestors, chain_denies.
  destruct (me_load_path m); [by apply denied_by_run|done].
Qed.
End vector.
