(* ===== verification/VectorBuild.v ===== *)
(** * Building a vector

    The steps of [region_rebuild_hook_dispatch] and the whole of it: from any
    state of the caches, the vector it leaves is the list of listeners. *)
From S2P Require Import Prelude Words Corm State Env Regions RegionTree RegionWalks Runtime Hooks HookSpecs Subtree Dispatch Vector.

Section build.
Context {C : Corm} {CL : CormLaws C} {OS : Os} {CB : Callbacks}.
Implicit Types (w : world) (re : rptr) (q : mptr) (anc : list rptr).

Lemma cache_get_run w re h e c :
  w_regions w !! re = Some e → re_hook_dispatch e !! Z.to_nat h = Some c →
  cache_get re h w = Ok c w.
Proof. intros He Hc. unfold cache_get. run. by rewrite Hc. Qed.

(** The region after one cell of its vectors changed. *)
Definition with_cell (e : region_entry) (h : Z) (c : hook_dispatch_cache) : region_entry :=
  e <| re_hook_dispatch ::= <[Z.to_nat h := c]> |>.

Lemma cache_mod_run w re h e c f :
  w_regions w !! re = Some e → re_hook_dispatch e !! Z.to_nat h = Some c →
  cache_mod re h f w = Ok tt (w <| w_regions ::= <[re := with_cell e h (f c)]> |>).
Proof.
  intros He Hc. unfold cache_mod. erewrite rmod_Ok by done. unfold with_cell, field_over; simpl.
  do 4 f_equal. apply list_eq. intros i. rewrite list_lookup_alter, list_lookup_insert.
  repeat case_decide; subst; try done.
  - by rewrite Hc.
  - apply lookup_lt_Some in Hc. naive_solver.
  - naive_solver.
Qed.

Lemma with_cell_lookup e h c c' :
  re_hook_dispatch e !! Z.to_nat h = Some c →
  re_hook_dispatch (with_cell e h c') !! Z.to_nat h = Some c'.
Proof. intros Hc. simpl. apply list_lookup_insert_eq. by eapply lookup_lt_Some. Qed.

(** A cell of the array is written and the count goes up. *)
Lemma cache_write_run w re h e c s arr slots slot :
  w_regions w !! re = Some e → re_hook_dispatch e !! Z.to_nat h = Some c →
  hc_slots c = Some s → w_slots w !! s = Some arr → length arr = hc_cap c →
  hc_count c = length slots → take (length slots) arr = slots →
  (length slots < length arr)%nat →
  ∃ w', (c ← cache_get re h;
         s ← deref (hc_slots c);
         l ← slots_get s;
         slots_put s (<[hc_count c := slot]> l);;
         cache_mod re h (λ c, c <| hc_count ::= S |>);;
         mret true) w = Ok true w' ∧
    cache_only w w' ∧ w_mods w' = w_mods w ∧ vector_holds w' re h (slots ++ [slot]).
Proof.
  intros He Hc Hs Harr Hcap Hcnt Htake Hlt.
  eexists. split.
  - erewrite bind_Ok by (by eapply cache_get_run). rewrite Hs.
    rewrite (bind_Ok _ _ _ s w) by done.
    rewrite (bind_Ok _ _ _ arr w) by (unfold slots_get, mbind, M_bind, gets, deref; by rewrite Harr).
    rewrite (bind_Ok (slots_put _ _) _ _ _ _ eq_refl).
    erewrite bind_Ok by (by eapply cache_mod_run). done.
  - split_and!; [|done|].
    + transitivity (w <| w_slots := <[s := <[hc_count c := slot]> arr]> (w_slots w) |>
                      <| w_next := w_next w |>); [apply cache_only_slots; lia|].
      apply cache_only_regions. simpl. by apply uncached_insert with (e := e).
    + exists (with_cell e h (c <| hc_count ::= S |>)), (c <| hc_count ::= S |>),
        (<[hc_count c := slot]> arr). split_and!.
      * simpl. by rewrite lookup_insert_eq.
      * by eapply with_cell_lookup.
      * unfold array_of; simpl. rewrite Hs. simpl. by rewrite lookup_insert_eq.
      * simpl. by rewrite length_insert.
      * simpl. rewrite length_app, Hcnt. simpl. lia.
      * rewrite length_app; simpl. rewrite Nat.add_1_r, Hcnt.
        rewrite (take_S_r _ _ slot) by (by rewrite list_lookup_insert_eq).
        by rewrite take_insert_ge, Htake by lia.
Qed.

Lemma cache_push_run w re h slots slot :
  w_mem w = [] → vector_holds w re h slots →
  ∃ w', cache_push re h slot w = Ok true w' ∧
    cache_only w w' ∧ w_mods w' = w_mods w ∧ vector_holds w' re h (slots ++ [slot]).
Proof.
  intros Hm (e & c & arr & He & Hc & Harr & Hcap & Hcnt & Htake). unfold cache_push.
  assert (length slots ≤ length arr)%nat as Hle.
  { rewrite <- Htake, length_take. lia. }
  erewrite bind_Ok by (by eapply cache_get_run).
  destruct (decide (hc_cap c ≤ hc_count c)%nat) as [Hfull|Hroom].
  - set (new_cap := if decide (hc_cap c = 0)%nat then 8%nat else (hc_cap c * 2)%nat).
    assert (hc_cap c < new_cap)%nat as Hnew by (unfold new_cap; case_decide; lia).
    set (arr' := arr ++ replicate (new_cap - length arr) (DispatchSlot None FnNull)).
    set (c' := c <| hc_slots := Some (w_next w) |> <| hc_cap := new_cap |>).
    set (sl := match hc_slots c with Some s => delete s (w_slots w) | None => w_slots w end).
    set (w1 := w <| w_slots := <[w_next w := arr']> sl |> <| w_next := Pos.succ (w_next w) |>).
    set (w2 := w1 <| w_regions ::= <[re := with_cell e h c']> |>).
    assert (Hold : (match hc_slots c with Some s => slots_get s | None => mret [] end) w = Ok arr w).
    { unfold array_of in Harr. destruct (hc_slots c); [|by subst].
      unfold slots_get, mbind, M_bind, gets, deref. by rewrite Harr. }
    erewrite bind_Ok.
    2: { cbv zeta. fold new_cap. run. simpl. rewrite (bind_Ok _ _ _ _ _ Hold). run. run.
         rewrite (bind_Ok (slots_put _ _) _ _ _ _ eq_refl).
         erewrite bind_Ok by (eapply cache_mod_run; [simpl; exact He|exact Hc]). done. }
    cbn [negb].
    destruct (cache_write_run w2 re h (with_cell e h c') c' (w_next w) arr' slots slot)
      as (w' & Hrun & Hco & Hmods & Hv); try done.
    + simpl. by rewrite lookup_insert_eq.
    + by eapply with_cell_lookup.
    + simpl. by rewrite lookup_insert_eq.
    + unfold arr'. rewrite length_app, length_replicate. simpl. lia.
    + unfold arr'. rewrite take_app_le; [done|lia].
    + unfold arr'. rewrite length_app, length_replicate. lia.
    + exists w'. split.
      * etrans; [|exact Hrun]. unfold w2, w1, sl, field_over; simpl. by destruct (hc_slots c).
      * split_and!; [|by rewrite Hmods|done]. transitivity w2; [|done].
        transitivity w1; [by apply cache_only_slots; lia|].
        apply cache_only_regions. simpl. by apply uncached_insert with (e := e).
  - run. cbn [negb]. unfold array_of in Harr. destruct (hc_slots c) as [s|] eqn:Hs.
    + destruct (cache_write_run w re h e c s arr slots slot) as (w' & Hrun & Hco & Hmods & Hv);
        try done; [lia|]. by exists w'.
    + subst arr. simpl in Hcap. lia.
Qed.

(** ** One module, then all of them *)

Lemma cache_only_rt w w' :
  cache_only w w' → w_rt w' = w_rt w ∧ w_mem w' = w_mem w ∧ w_tls w' = w_tls w ∧
    w_adapters w' = w_adapters w ∧ w_ctxs w' = w_ctxs w ∧ w_bufs w' = w_bufs w ∧
    w_trace w' = w_trace w ∧ w_xy w' = w_xy w.
Proof. by intros [(h & ms & sl & n & ->) _ _ _]. Qed.

Lemma cache_only_hook_ids w w' name : cache_only w w' → hook_ids w' name = hook_ids w name.
Proof. intros H. unfold hook_ids. by destruct (cache_only_rt _ _ H) as [-> _]. Qed.

Lemma hooks_ok_mods w w' : cache_only w w' → w_mods w' = w_mods w → hooks_ok w → hooks_ok w'.
Proof.
  intros Hco Hm [Hinj Hok]. split.
  - intros n1 n2 h. rewrite !(cache_only_hook_ids _ _ _ Hco). apply Hinj.
  - intros q m. rewrite Hm. intros Hq n h. rewrite (cache_only_hook_ids _ _ _ Hco).
    by apply Hok with (q := q).
Qed.

Lemma hooks_ok_insert w q m' :
  cache_ok m' (hook_ids w) → hooks_ok w → hooks_ok (w <| w_mods ::= <[q := m']> |>).
Proof.
  intros Hm [Hinj Hok]. split; [exact Hinj|]. intros p m. simpl.
  destruct (decide (p = q)) as [->|].
  - rewrite lookup_insert_eq. by intros [= <-].
  - rewrite lookup_insert_ne by done. apply Hok.
Qed.

(** In a truthful cache, a set bit means the cell is resolved. *)
Lemma cell_ok_has m name h :
  cell_ok m name h → module_has_hook_implemented m h = true →
  ∃ a, me_fn_cache m !! Z.to_nat h = Some (FnPtr a) ∧ module_own_symbol m name = Some a.
Proof.
  unfold cell_ok. intros Hc Hb.
  destruct (me_fn_cache m !! Z.to_nat h) as [[| |a]|]; try congruence;
    destruct Hc as [Hown Hbit]; [congruence|by exists a].
Qed.

Lemma cell_ok_found m name h a :
  cell_ok m name h → me_fn_cache m !! Z.to_nat h = Some (FnPtr a) →
  module_has_hook_implemented m h = true.
Proof. unfold cell_ok. intros Hc Hs. rewrite Hs in Hc. by destruct Hc. Qed.

Section one.
Context w re (h : Z) (name : string) anc (slots : list dispatch_slot).
Context (Hm : w_mem w = []) (Hanc : ∀ a, a ∈ anc → a ∈ dom (w_regions w)).
Context (Hok : hooks_ok w) (Hid : hook_ids w name = Some h).
Context (Hv : vector_holds w re h slots).

(** What one round achieves for the slots it may add. *)
Definition built (new : list dispatch_slot) (m : M world bool) : Prop :=
  ∃ w', m w = Ok true w' ∧ cache_only w w' ∧ hooks_ok w' ∧ vector_holds w' re h (slots ++ new).

Lemma built_nothing m : m w = Ok true w → built [] m.
Proof using Hok Hv.
  intros Hrun. exists w. split_and!; [done|reflexivity|done|by rewrite app_nil_r].
Qed.

(** Pushing the resolved listener of an entry in a state that differs from
    [w] by that entry's caches. *)
Lemma push_resolved q m m' a :
  w_mods w !! q = Some m → same_module m m' → cache_ok m' (hook_ids w) →
  me_fn_cache m' !! Z.to_nat h = Some (FnPtr a) →
  built [DispatchSlot (Some q) (FnPtr a)] (λ _,
    (m ← mget q;
     if negb (module_has_hook_implemented m h) then mret true
     else cb ← deref (me_fn_cache m !! Z.to_nat h);
          cache_push re h (DispatchSlot (Some q) cb)) (w <| w_mods ::= <[q := m']> |>)).
Proof using Hm Hok Hid Hv.
  intros Hq Hsame Hcok Hcell. set (w1 := w <| w_mods ::= <[q := m']> |>).
  assert (Hco1 : cache_only w w1).
  { apply cache_only_mods. simpl. by eapply me_uncached_insert. }
  destruct (cache_push_run w1 re h slots (DispatchSlot (Some q) (FnPtr a)))
    as (w' & Hrun & Hco & Hmods & Hv'); [done|exact Hv|].
  exists w'. split_and!; [|by transitivity w1| |done].
  - run by (simpl; by rewrite lookup_insert_eq).
    rewrite (cell_ok_found m' name h a) by (done || by apply Hcok).
    cbn [negb]. rewrite Hcell. exact Hrun.
  - eapply hooks_ok_mods; [exact Hco|done|by apply hooks_ok_insert].
Qed.

Lemma rebuild_one_run q m :
  w_mods w !! q = Some m →
  built (from_option (λ s, [s]) [] (listener_slot w anc name q))
    (rebuild_one re h name anc q).
Proof using Hm Hanc Hok Hid Hv.
  intros Hq. pose proof (proj2 Hok q m Hq) as Hcok. pose proof (Hcok name h Hid) as [Hh Hcell].
  unfold listener_slot, listener. rewrite Hq. simpl.
  assert (Hrun : ∀ k, (m ← mget q; k m) w = (k m w : res world bool)) by (intros; by run).
  destruct (me_ctx m) as [ctx|] eqn:Hctx; simpl.
  2: { apply built_nothing. unfold rebuild_one. by rewrite Hrun, Hctx. }
  destruct (chain_denies w anc m) eqn:Hden; simpl.
  { apply built_nothing. unfold rebuild_one.
    by rewrite Hrun, Hctx, (bind_Ok _ _ _ _ _ (module_denied_run w anc m Hanc)), Hden. }
  assert (Hpre : ∀ r w1, (if module_has_hook_implemented m h then mret (Some true)
      else r ← fn_cache_resolve q h name;
           match r with
           | FnOom => mret None
           | FnNone => mret (Some false)
           | FnFound _ => mret (Some true)
           end) w = Ok r w1 →
    rebuild_one re h name anc q w =
      match r with
      | None => mret false
      | Some false => mret true
      | Some true =>
          m' ← mget q;
          if negb (module_has_hook_implemented m' h) then mret true
          else cb ← deref (me_fn_cache m' !! Z.to_nat h);
               cache_push re h (DispatchSlot (Some q) cb)
      end w1).
  { intros r w1 Hr. unfold rebuild_one.
    rewrite Hrun, Hctx, (bind_Ok _ _ _ _ _ (module_denied_run w anc m Hanc)), Hden.
    by rewrite (bind_Ok _ _ _ _ _ Hr). }
  destruct (module_has_hook_implemented m h) eqn:Hhas.
  - destruct (cell_ok_has m name h Hcell Hhas) as (a & Ha & ->). simpl.
    destruct (push_resolved q m m a Hq (same_module_refl m) Hcok Ha) as (w' & Hpush & ?).
    exists w'. split; [|done]. rewrite (Hpre (Some true) w eq_refl).
    rewrite <- Hpush. f_equal. unfold field_over; simpl.
    rewrite insert_id by done. by destruct w.
  - destruct (fn_cache_resolve_run w q m (hook_ids w) name h)
      as (m' & Hres & Hsame & Hcok' & Hcell'); [done|done|apply Hok|done|done|].
    set (w1 := w <| w_mods ::= <[q := m']> |>) in *.
    destruct (module_own_symbol m name) as [a|] eqn:Hown; simpl.
    + destruct (push_resolved q m m' a Hq Hsame Hcok' Hcell') as (w' & Hpush & ?).
      exists w'. split; [|done].
      by rewrite (Hpre (Some true) w1) by (by rewrite (bind_Ok _ _ _ _ _ Hres)).
    + exists w1. split_and!.
      * by rewrite (Hpre (Some false) w1) by (by rewrite (bind_Ok _ _ _ _ _ Hres)).
      * apply cache_only_mods. simpl. by eapply me_uncached_insert.
      * by apply hooks_ok_insert.
      * by rewrite app_nil_r.
Qed.
End one.

Lemma rebuild_loop_run w re h name anc mods slots :
  w_mem w = [] → (∀ a, a ∈ anc → a ∈ dom (w_regions w)) → hooks_ok w →
  hook_ids w name = Some h → vector_holds w re h slots →
  (∀ q, q ∈ mods → q ∈ dom (w_mods w)) →
  built w re h slots (listener_slots w anc name mods) (rebuild_loop re h name anc mods).
Proof.
  revert w slots. induction mods as [|q mods IH]; intros w slots Hm Hanc Hok Hid Hv Hq.
  { by apply built_nothing. }
  destruct (elem_of_dom (w_mods w) q) as [[m Hqm] _]; [apply Hq; by left|].
  destruct (rebuild_one_run w re h name anc slots Hm Hanc Hok Hid Hv q m Hqm)
    as (w1 & H1 & Hco1 & Hok1 & Hv1).
  destruct (cache_only_rt _ _ Hco1) as (_ & Hm1 & _).
  destruct (IH w1 (slots ++ from_option (λ s, [s]) [] (listener_slot w anc name q)))
    as (w2 & H2 & Hco2 & Hok2 & Hv2); try done; [congruence| | |..].
  - intros a Ha. destruct (elem_of_dom (w_regions w) a) as [[e He] _]; [by apply Hanc|].
    destruct (cache_only_region_lookup _ _ _ _ Hco1 He) as (e' & ? & _). by apply elem_of_dom.
  - by rewrite (cache_only_hook_ids _ _ _ Hco1).
  - intros q' Hq'. destruct (elem_of_dom (w_mods w) q') as [[m' Hm'] _]; [apply Hq; by right|].
    destruct (cache_only_mod_lookup _ _ _ _ Hco1 Hm') as (m2 & ? & _). by apply elem_of_dom.
  - exists w2. split_and!; [|by transitivity w1|done|].
    + simpl. by rewrite (bind_Ok _ _ _ _ _ H1).
    + rewrite (cache_only_listener_slots _ _ _ _ _ Hco1), <- app_assoc in Hv2.
      unfold listener_slots in *. cbn [omap list_omap].
      by destruct (listener_slot w anc name q).
Qed.
End build.
