(* ===== verification/Prepare.v ===== *)
(** * Preparing a dispatch

    [dispatch_prepare] leaves in the caller's vector exactly the listeners of
    its subtree: a vector of the current generation is trusted, any other is
    rebuilt, after the subtree's module list if that is stale too. *)
From S2P Require Import Prelude Words Corm State Env Regions RegionTree RegionWalks Runtime Hooks HookSpecs Subtree Dispatch Vector VectorBuild.

Section prepare.
Context {C : Corm} {CL : CormLaws C} {OS : Os} {CB : Callbacks}.
Implicit Types (w : world) (re : rptr) (q : mptr) (anc : list rptr).

(** The region's vectors for [h], when there is a cell, are well formed. *)
Definition vector_wf w re (h : Z) : Prop :=
  ∀ e c, w_regions w !! re = Some e → re_hook_dispatch e !! Z.to_nat h = Some c →
    ∃ slots, vector_holds w re h slots.

(** A cell of the current generation holds [slots]. *)
Definition vector_current w re (h : Z) (slots : list dispatch_slot) : Prop :=
  ∀ e c, w_regions w !! re = Some e → re_hook_dispatch e !! Z.to_nat h = Some c →
    hc_region_gen c = re_dispatch_gen e → vector_holds w re h slots.

(** The region's module list is up to date unless it is marked dirty. *)
Definition subtree_current w re (l : list mptr) : Prop :=
  ∀ e, w_regions w !! re = Some e → re_subtree_mods_dirty e = false → re_subtree_mods e = l.

(** ** A region whose list is up to date *)

Lemma uncached_gen e e' : re_uncached e' = re_uncached e → re_dispatch_gen e' = re_dispatch_gen e.
Proof. intros H. by injection H. Qed.

Lemma ensure_dispatch_cap_run w re h e :
  w_mem w = [] → w_regions w !! re = Some e → 0 ≤ h →
  ∃ e' c, region_ensure_hook_dispatch_cap re h w =
      Ok XY_OK (w <| w_regions ::= <[re := e']> |>) ∧
    re_uncached e' = re_uncached e ∧ re_subtree_mods e' = re_subtree_mods e ∧
    re_subtree_mods_dirty e' = re_subtree_mods_dirty e ∧
    re_hook_dispatch e' !! Z.to_nat h = Some c ∧
    (re_hook_dispatch e !! Z.to_nat h = Some c ∨ c = HookDispatchCache None 0 0 0).
Proof.
  intros Hm He Hh. unfold region_ensure_hook_dispatch_cap.
  destruct (Z.ltb_spec h 0); [lia|].
  destruct (Z.ltb_spec h (Z.of_nat (length (re_hook_dispatch e)))) as [Hlt|Hge].
  - destruct (lookup_lt_is_Some_2 (re_hook_dispatch e) (Z.to_nat h)) as [c Hc]; [lia|].
    exists e, c. split_and!; try done; [|by left]. run.
    rewrite (proj2 (Z.ltb_lt _ _) Hlt). unfold mret, M_ret, field_over; simpl.
    rewrite insert_id by done. by destruct w.
  - set (l := replicate (Z.to_nat (h + 16) - length (re_hook_dispatch e))
                (HookDispatchCache None 0 0 0)).
    exists (e <| re_hook_dispatch ::= (λ d, d ++ l) |>), (HookDispatchCache None 0 0 0).
    split_and!; try done; [| |by right].
    + run. rewrite (proj2 (Z.ltb_ge _ _) Hge). run. cbn [negb]. by run.
    + simpl. rewrite lookup_app_r by lia. apply lookup_replicate_2. lia.
Qed.

Section ready.
Context w re (h : Z) (name : string) anc (l : list mptr) (e : region_entry).
Context (Hm : w_mem w = []) (Hre : w_regions w !! re = Some e).
Context (Hanc : ∀ a, a ∈ anc → a ∈ dom (w_regions w)).
Context (Hok : hooks_ok w) (Hid : hook_ids w name = Some h).
Context (Hl : ∀ q, q ∈ l → q ∈ dom (w_mods w)).
Context (Hmods : re_subtree_mods e = l) (Hclean : re_subtree_mods_dirty e = false).

(** With a cell that is well formed but out of date. *)
Lemma rebuild_dispatch_run c slots :
  re_hook_dispatch e !! Z.to_nat h = Some c → vector_holds w re h slots →
  hc_region_gen c ≠ re_dispatch_gen e → 0 ≤ h →
  ∃ w', region_rebuild_hook_dispatch re h name anc w = Ok XY_OK w' ∧
    cache_only w w' ∧ hooks_ok w' ∧ vector_holds w' re h (listener_slots w anc name l).
Proof using CL Hm Hre Hanc Hok Hid Hl Hmods Hclean.
  intros Hc Hv Hgen Hh. unfold region_rebuild_hook_dispatch.
  destruct (Z.ltb_spec h 0); [lia|].
  assert (Hcap : region_ensure_hook_dispatch_cap re h w = Ok XY_OK w).
  { unfold region_ensure_hook_dispatch_cap. destruct (Z.ltb_spec h 0); [lia|]. run.
    apply lookup_lt_Some in Hc.
    destruct (Z.ltb_spec h (Z.of_nat (length (re_hook_dispatch e)))); [done|lia]. }
  run. rewrite Hclean. run. cbv iota. rewrite (bind_Ok _ _ _ _ _ Hcap). cbn [negb Z.eqb XY_OK].
  erewrite bind_Ok by (by eapply cache_get_run). run.
  destruct (Z.eqb_spec (hc_region_gen c) (re_dispatch_gen e)); [done|].
  set (c0 := c <| hc_count := 0%nat |>). set (w1 := w <| w_regions ::= <[re := with_cell e h c0]> |>).
  erewrite bind_Ok by (by eapply cache_mod_run). fold c0. fold w1.
  assert (Hco1 : cache_only w w1).
  { apply cache_only_regions. simpl. by apply uncached_insert with (e := e). }
  assert (Hv1 : vector_holds w1 re h []).
  { destruct Hv as (e' & c' & arr & He' & Hc' & Harr & Hlen & _ & _). simplify_eq.
    exists (with_cell e h c0), c0, arr. split_and!; try done.
    - simpl. by rewrite lookup_insert_eq.
    - by eapply with_cell_lookup. }
  destruct (rebuild_loop_run w1 re h name anc (re_subtree_mods e) [])
    as (w2 & H2 & Hco2 & Hok2 & Hv2); try done.
  - intros a Ha. simpl. rewrite dom_insert_L. apply Hanc in Ha. set_solver.
  - rewrite Hmods. exact Hl.
  - rewrite (bind_Ok _ _ _ _ _ H2). cbn [negb].
    rewrite app_nil_l, (cache_only_listener_slots _ _ _ _ _ Hco1), Hmods in Hv2.
    destruct Hv2 as (e2 & c2 & arr2 & He2 & Hc2 & Harr2 & Hlen2 & Hcnt2 & Htk2).
    run. erewrite bind_Ok by (by eapply cache_mod_run).
    set (c3 := c2 <| hc_region_gen := re_dispatch_gen e2 |>).
    assert (Hco : cache_only w (w2 <| w_regions ::= <[re := with_cell e2 h c3]> |>)).
    { transitivity w1; [done|]. transitivity w2; [done|]. apply cache_only_regions. simpl.
      by apply uncached_insert with (e := e2). }
    eexists. split; [done|]. split_and!; [done| |].
    + eapply (hooks_ok_mods w2); [|done|done]. apply cache_only_regions. simpl.
      by apply uncached_insert with (e := e2).
    + exists (with_cell e2 h c3), c3, arr2. split_and!; try done.
      * simpl. by rewrite lookup_insert_eq.
      * by eapply with_cell_lookup.
Qed.
End ready.

(** ** Whichever of them are stale *)

(** What preparing a dispatch of [name] from region [re] relies on: the region
    tree and the module lists are well formed, the caches tell the truth, and
    what they claim to be current is. *)
Record dispatch_ok w (tbl : corm region_key rptr) (kids : rptr → list rptr)
    (own : rptr → list mptr) re (h : Z) (name : string) anc : Prop := {
  do_tree : tree_wf (w_regions w) tbl kids;
  do_mods : mods_wf (w_regions w) (w_mods w) own;
  do_own p q : p ∈ dom (w_regions w) → q ∈ own p → q ∈ dom (w_mods w);
  do_mem : w_mem w = [];
  do_re : re ∈ dom (w_regions w);
  do_anc a : a ∈ anc → a ∈ dom (w_regions w);
  do_hooks : hooks_ok w;
  do_id : hook_ids w name = Some h;
  do_subtree : subtree_current w re (preorder 65 kids own re);
  do_wf : vector_wf w re h;
  do_current : vector_current w re h (listener_slots w anc name (preorder 65 kids own re));
  do_gen e : w_regions w !! re = Some e → re_dispatch_gen e ≠ 0
}.

#[local] Arguments do_tree {_ _ _ _ _ _ _ _}.
#[local] Arguments do_mods {_ _ _ _ _ _ _ _}.
#[local] Arguments do_own {_ _ _ _ _ _ _ _}.
#[local] Arguments do_mem {_ _ _ _ _ _ _ _}.
#[local] Arguments do_re {_ _ _ _ _ _ _ _}.
#[local] Arguments do_anc {_ _ _ _ _ _ _ _}.
#[local] Arguments do_hooks {_ _ _ _ _ _ _ _}.
#[local] Arguments do_id {_ _ _ _ _ _ _ _}.
#[local] Arguments do_subtree {_ _ _ _ _ _ _ _}.
#[local] Arguments do_wf {_ _ _ _ _ _ _ _}.
#[local] Arguments do_current {_ _ _ _ _ _ _ _}.
#[local] Arguments do_gen {_ _ _ _ _ _ _ _}.

Lemma preorder_dom w tbl kids own n p q :
  tree_wf (w_regions w) tbl kids →
  (∀ p q, p ∈ dom (w_regions w) → q ∈ own p → q ∈ dom (w_mods w)) →
  p ∈ dom (w_regions w) → q ∈ preorder n kids own p → q ∈ dom (w_mods w).
Proof.
  intros Hwf Hown. revert p. induction n as [|n IH]; intros p Hp; [by intros ?%elem_of_nil|].
  simpl. intros [Hq|Hq]%elem_of_app; [by eapply Hown|].
  apply list_elem_of_In, in_concat in Hq as (l & Hl%list_elem_of_In & Hq%list_elem_of_In).
  apply list_elem_of_fmap in Hl as (c & -> & Hc). apply (IH c); [|done].
  apply (edge_dom _ _ _ Hwf p). by apply (tw_edge _ _ _ Hwf).
Qed.

(** The clean-up of a stale module list, as the first step of a preparation. *)
Lemma freshen_run w tbl kids own re h name anc e :
  dispatch_ok w tbl kids own re h name anc → w_regions w !! re = Some e →
  ∃ w1 e1, (if re_subtree_mods_dirty e
            then r ← region_rebuild_subtree_mods (Some re); mret (r <? 0)
            else mret false) w = Ok false w1 ∧
    cache_only w w1 ∧ w_mods w1 = w_mods w ∧ w_slots w1 = w_slots w ∧
    w_regions w1 !! re = Some e1 ∧ re_subtree_mods e1 = preorder 65 kids own re ∧
    re_subtree_mods_dirty e1 = false ∧ re_hook_dispatch e1 = re_hook_dispatch e ∧
    re_dispatch_gen e1 = re_dispatch_gen e.
Proof.
  intros Hok He. destruct (re_subtree_mods_dirty e) eqn:Hd.
  - destruct (rebuild_subtree_run w tbl kids own re) as (w1 & Hrun & r & cap & Hr & ->);
      [exact (do_tree Hok)| |exact (do_mem Hok)|exact (do_re Hok)|].
    { intros x ex. apply (mw_next _ _ _ (do_mods Hok)). }
    rewrite He in Hr. injection Hr as <-.
    set (e1 := e <| re_subtree_mods := preorder 65 kids own re |> <| re_subtree_mods_cap := cap |>
                 <| re_subtree_mods_dirty := false |>) in *.
    exists (w <| w_regions ::= <[re := e1]> |>), e1.
    split_and!; try done; [by rewrite (bind_Ok _ _ _ _ _ Hrun)| |simpl; by rewrite lookup_insert_eq].
    apply cache_only_regions. simpl. by apply uncached_insert with (e := e).
  - exists w, e. split_and!; try done. by apply (do_subtree Hok).
Qed.

Lemma dispatch_prepare_run w tbl kids own re h name anc reg a :
  dispatch_ok w tbl kids own re h name anc → 0 ≤ h →
  w_adapters w !! reg = Some a → ad_name a = name →
  ∃ w', dispatch_prepare reg h re anc w = Ok true w' ∧ cache_only w w' ∧ hooks_ok w' ∧
    vector_holds w' re h (listener_slots w anc name (preorder 65 kids own re)).
Proof.
  intros Hok Hh Ha Hn. destruct (elem_of_dom (w_regions w) re) as [[e He] _]; [apply Hok|].
  destruct (freshen_run _ _ _ _ _ _ _ _ e Hok He)
    as (w1 & e1 & Hrun1 & Hco1 & Hms1 & Hsl1 & He1 & Hl1 & Hd1 & Hhd1 & Hg1).
  destruct (cache_only_rt _ _ Hco1) as (Hrt1 & Hm1 & _ & Had1 & _).
  assert (Hmem1 : w_mem w1 = []) by (rewrite Hm1; apply Hok).
  destruct (ensure_dispatch_cap_run w1 re h e1 Hmem1 He1 Hh)
    as (e2 & c & Hrun2 & Hu2 & Hl2 & Hd2 & Hc2 & Hor).
  set (w2 := w1 <| w_regions ::= <[re := e2]> |>).
  assert (Hco2 : cache_only w w2).
  { transitivity w1; [done|]. apply cache_only_regions. simpl.
    by apply uncached_insert with (e := e1). }
  assert (He2 : w_regions w2 !! re = Some e2) by (simpl; by rewrite lookup_insert_eq).
  assert (Hok2 : hooks_ok w2) by (eapply hooks_ok_mods; [done|simpl; exact Hms1|apply Hok]).
  assert (Hg2 : re_dispatch_gen e2 = re_dispatch_gen e)
    by (rewrite (uncached_gen _ _ Hu2); done).
  (* the cell is the old one, or new and out of date *)
  assert (Hv2 : ∃ slots, vector_holds w2 re h slots ∧
    (hc_region_gen c = re_dispatch_gen e →
      slots = listener_slots w anc name (preorder 65 kids own re))).
  { assert (Hmove : ∀ slots, re_hook_dispatch e !! Z.to_nat h = Some c →
      vector_holds w re h slots → vector_holds w2 re h slots).
    { intros slots Hold (e' & c' & arr & He' & Hc' & Harr & Hrest). simplify_eq.
      exists e2, c, arr. split_and!; try done; try apply Hrest.
      unfold array_of in *. simpl. by rewrite Hsl1. }
    destruct Hor as [Hold| ->].
    - rewrite Hhd1 in Hold. destruct (decide (hc_region_gen c = re_dispatch_gen e)) as [Hg|Hg].
      + eexists. split; [|done]. apply Hmove; [done|].
        by apply (do_current Hok e c).
      + destruct (do_wf Hok e c He Hold) as [slots Hs].
        exists slots. split; [by apply Hmove|done].
    - exists []. split; [by exists e2, (HookDispatchCache None 0 0 0), []|].
      simpl. intros Hg. by destruct (do_gen Hok e He). }
  destruct Hv2 as (slots & Hv2 & Hcur).
  unfold dispatch_prepare. run. rewrite (bind_Ok _ _ _ _ _ Hrun1). cbv iota. run.
  assert (Hcap : (if Z.of_nat (length (re_hook_dispatch e1)) <=? h
      then r ← region_ensure_hook_dispatch_cap re h; mret (r =? XY_OK)
      else mret true) w1 = Ok true w2).
  { destruct (Z.leb_spec (Z.of_nat (length (re_hook_dispatch e1))) h).
    - by rewrite (bind_Ok _ _ _ _ _ Hrun2).
    - unfold region_ensure_hook_dispatch_cap in Hrun2. destruct (Z.ltb_spec h 0); [lia|].
      erewrite bind_Ok in Hrun2 by (by apply rget_Ok).
      destruct (Z.ltb_spec h (Z.of_nat (length (re_hook_dispatch e1)))); [|lia].
      unfold mret, M_ret in Hrun2. injection Hrun2 as Hw. by rewrite Hw at 1. }
  rewrite (bind_Ok _ _ _ _ _ Hcap). cbn [negb].
  erewrite bind_Ok by (by eapply cache_get_run). run.
  rewrite (bind_Ok _ _ _ a w2)
    by (unfold aget, mbind, M_bind, gets, deref; simpl; by rewrite Had1, Ha).
  rewrite Hg2, Hn. destruct (Z.eqb_spec (hc_region_gen c) (re_dispatch_gen e)) as [Hg|Hg].
  - exists w2. split_and!; try done. by rewrite <- Hcur.
  - destruct (rebuild_dispatch_run w2 re h name anc (preorder 65 kids own re) e2)
      with (c := c) (slots := slots) as (w3 & Hrun3 & Hco3 & Hok3 & Hv3); try done.
    + intros x Hx. destruct (elem_of_dom (w_regions w) x) as [[ex Hex] _]; [by apply Hok|].
      destruct (cache_only_region_lookup _ _ _ _ Hco2 Hex) as (e' & ? & _). by apply elem_of_dom.
    + by rewrite (cache_only_hook_ids _ _ _ Hco2); apply Hok.
    + intros q Hq. simpl. rewrite Hms1. eapply preorder_dom; [apply Hok|apply Hok|apply Hok|done].
    + by rewrite Hl2.
    + by rewrite Hd2.
    + by rewrite Hg2.
    + exists w3. split_and!; [|by transitivity w2|done|].
      * by rewrite (bind_Ok _ _ _ _ _ Hrun3).
      * by rewrite (cache_only_listener_slots _ _ _ _ _ Hco2) in Hv3.
Qed.
End prepare.
