(* ===== verification/SlotRun.v ===== *)
(** * Running a vector

    The loop over a dispatch vector runs its listeners in order, each in its
    module's region, and comes back to the caller's region after each.  A
    listener is arbitrary code.  It may rely on an invariant, which the library's
    own steps between two listeners keep ([hosted]) and which it keeps in turn;
    what it must leave alone is [kept].  So a listener may call back into the
    library, under an invariant that says what it needs of it. *)
From S2P Require Import Prelude Words Corm State Env Regions Runtime Hooks Dispatch Vector.

Section slot_run.
Context {C : Corm} {OS : Os} {CB : Callbacks}.
Implicit Types (w : world) (q : mptr) (sl : dispatch_slot).

(** The vector of region [p] for hook [h]: its array's address and contents. *)
Definition vector_at w (p : rptr) (h : Z) : option (sptr * list dispatch_slot) :=
  e ← w_regions w !! p;
  c ← re_hook_dispatch e !! Z.to_nat h;
  s ← hc_slots c;
  arr ← w_slots w !! s;
  Some (s, arr).

Lemma vector_at_slots w p h s arr : vector_at w p h = Some (s, arr) → w_slots w !! s = Some arr.
Proof.
  unfold vector_at. destruct (w_regions w !! p) as [e|]; simpl; [|done].
  destruct (re_hook_dispatch e !! Z.to_nat h) as [c|]; simpl; [|done].
  destruct (hc_slots c) as [s'|]; simpl; [|done].
  destruct (w_slots w !! s') as [arr'|] eqn:Hs; simpl; [|done]. by intros [= <- <-].
Qed.

(** What a listener must leave alone: the context and the region of each
    loaded module, the contexts, the buffers' sizes and the return size of the
    adapter that is dispatched. *)
Record settled (reg : aptr) w w' : Prop := {
  se_mods q m : w_mods w !! q = Some m → ∃ m', w_mods w' !! q = Some m' ∧
    me_ctx m' = me_ctx m ∧ me_region_entry m' = me_region_entry m;
  se_ctxs c : c ∈ dom (w_ctxs w) → c ∈ dom (w_ctxs w');
  se_bufs p b : w_bufs w !! p = Some b →
    ∃ b', w_bufs w' !! p = Some b' ∧ length b' = length b;
  se_reg a : w_adapters w !! reg = Some a →
    ∃ a', w_adapters w' !! reg = Some a' ∧ ad_ret_size a' = ad_ret_size a
}.

#[global] Instance settled_preorder reg : PreOrder (settled reg).
Proof.
  split.
  - intros w. split; eauto.
  - intros w1 w2 w3 [M1 C1 B1 R1] [M2 C2 B2 R2]. split.
    + intros q m (m' & H1 & ? & ?)%M1. apply M2 in H1 as (m2 & ? & ? & ?).
      exists m2. split_and!; congruence.
    + auto.
    + intros p b (b' & H1 & ?)%B1. apply B2 in H1 as (b2 & ? & ?). exists b2. split; congruence.
    + intros a (a' & H1 & ?)%R1. apply R2 in H1 as (a2 & ? & ?). exists a2. split; congruence.
Qed.

(** Where the listeners of other regions run as well, the region ids the contexts
    name. *)
Definition ids_kept w w' : Prop :=
  ∀ c x, w_ctxs w !! c = Some x → ∃ x', w_ctxs w' !! c = Some x' ∧ x_region_id x' = x_region_id x.
Definition lasting (reg : aptr) w w' : Prop := settled reg w w' ∧ ids_kept w w'.

#[global] Instance ids_kept_preorder : PreOrder ids_kept.
Proof.
  split; [intros w; unfold ids_kept; eauto|]. intros w1 w2 w3 H1 H2 c x (x' & Hx & ?)%H1.
  apply H2 in Hx as (x2 & ? & ?). exists x2. split; congruence.
Qed.
#[global] Instance lasting_preorder reg : PreOrder (lasting reg).
Proof. split; [by split|]. intros w1 w2 w3 [? ?] [? ?]. split; by transitivity w2. Qed.

(** The current region of the thread. *)
Definition cur w := (t_current_region_id (w_tls w), t_current_region_entry (w_tls w)).

(** ** The library's own steps *)

(** The region that is current in the listener of a module, when the call is made
    from [here]: the caller's where they are the same, else the one its context
    names. *)
Definition entered (here : Z * option rptr) (m : mod_entry) (x : xy_ctx) : Z * option rptr :=
  if bool_decide (me_region_entry m = here.2) then here else (x_region_id x, me_region_entry m).

(** The regions a call from [here] makes current. *)
Definition passes (here : Z * option rptr) w (r : Z * option rptr) : Prop :=
  r = here ∨ ∃ q m c x, w_mods w !! q = Some m ∧ me_ctx m = Some c ∧ w_ctxs w !! c = Some x ∧ r = entered here m x.

(** What the library itself changes from the start of a call made from [here] to
    its end, besides its caches: the trace, the contents of buffers, what
    [xy_last] will need, what it tells a module in its context, and the current
    region. *)
Record between (here : Z * option rptr) w w' : Prop := {
  bt_world : ∃ tr bufs tl cs x, w' = w <| w_trace := tr |> <| w_bufs := bufs |> <| w_tls := tl |>
                                       <| w_ctxs := cs |> <| w_xy := x |>;
  bt_bufs : (λ b, length b) <$> w_bufs w' = (λ b, length b) <$> w_bufs w;
  bt_ctxs : (λ x, x <| x_adapter := None |> <| x_region_state := None |>) <$> w_ctxs w' =
            (λ x, x <| x_adapter := None |> <| x_region_state := None |>) <$> w_ctxs w;
  bt_load : t_loading_mod (w_tls w') = t_loading_mod (w_tls w) ∧ t_pending_ctx (w_tls w') = t_pending_ctx (w_tls w);
  bt_cur : cur w' = cur w ∨ passes here w (cur w')
}.

(** An invariant that a call from [here] keeps by itself. *)
Definition hosted (here : Z * option rptr) (I : world → Prop) : Prop :=
  ∀ w w', between here w w' → I w → I w'.

Lemma between_fields here w w' : between here w w' →
  w_regions w' = w_regions w ∧ w_slots w' = w_slots w ∧ w_mods w' = w_mods w ∧ w_adapters w' = w_adapters w ∧
  w_rt w' = w_rt w ∧ w_mem w' = w_mem w.
Proof. intros [(tr & bufs & tl & cs & x & ->) _ _ _ _]. done. Qed.

(** Steps that write no buffer and no context. *)
Lemma between_tls here w tr t x :
  t_loading_mod t = t_loading_mod (w_tls w) → t_pending_ctx t = t_pending_ctx (w_tls w) →
  (t_current_region_id t, t_current_region_entry t) = cur w ∨
    passes here w (t_current_region_id t, t_current_region_entry t) →
  between here w (w <| w_trace := tr |> <| w_tls := t |> <| w_xy := x |>).
Proof.
  intros Hl Hp Hc. split; [|done..]. eexists tr, (w_bufs w), t, (w_ctxs w), x. by destruct w.
Qed.
Lemma between_trace here w tr : between here w (w <| w_trace := tr |>).
Proof.
  pose proof (between_tls here w tr (w_tls w) (w_xy w) eq_refl eq_refl (or_introl eq_refl)) as H.
  by destruct w.
Qed.
Lemma between_bufs here w p b b' :
  w_bufs w !! p = Some b → length b' = length b → between here w (w <| w_bufs ::= <[p := b']> |>).
Proof.
  intros Hb Hl. split; [|simpl|done|done|by left].
  - exists (w_trace w), (<[p := b']> (w_bufs w)), (w_tls w), (w_ctxs w), (w_xy w). by destruct w.
  - rewrite fmap_insert, Hl. apply insert_id. by rewrite lookup_fmap, Hb.
Qed.

Lemma between_ctxs here w cs :
  (λ x, x <| x_adapter := None |> <| x_region_state := None |>) <$> cs =
    (λ x, x <| x_adapter := None |> <| x_region_state := None |>) <$> w_ctxs w →
  between here w (w <| w_ctxs := cs |>).
Proof.
  intros H. split; [|done|exact H|done|by left].
  exists (w_trace w), (w_bufs w), (w_tls w), cs, (w_xy w). by destruct w.
Qed.

(** They settle. *)
Lemma ids_between here w w' : between here w w' → ids_kept w w'.
Proof.
  intros Hbt c x Hx. pose proof (f_equal (λ h, h !! c) (bt_ctxs _ _ _ Hbt)) as H. rewrite !lookup_fmap, Hx in H.
  destruct (w_ctxs w' !! c) as [x'|]; [|done]. exists x'. split; [done|]. apply (inj Some) in H.
  by apply (f_equal x_region_id) in H.
Qed.
Lemma ids_live w w' c : ids_kept w w' → c ∈ dom (w_ctxs w) → c ∈ dom (w_ctxs w').
Proof. intros Hi [x Hx]%elem_of_dom. apply Hi in Hx as (x' & ? & _). by eapply elem_of_dom_2. Qed.
Lemma settled_between here reg w w' : between here w w' → settled reg w w'.
Proof.
  intros Hbt. destruct (between_fields _ _ _ Hbt) as (_ & _ & Hm & Ha & _).
  split; rewrite ?Hm, ?Ha; eauto.
  - intros c. eapply ids_live, ids_between, Hbt.
  - intros p b Hb. pose proof (f_equal (λ h, h !! p) (bt_bufs _ _ _ Hbt)) as H. rewrite !lookup_fmap, Hb in H.
    destruct (w_bufs w' !! p) as [b'|]; [|done]. exists b'. split; [done|]. by apply (inj Some) in H.
Qed.

Lemma lasting_between here reg w w' : between here w w' → lasting reg w w'.
Proof. intros Hb. split; [by eapply settled_between|by eapply ids_between]. Qed.

Section run.
(** The region the call is made from, and what its listeners may rely on. *)
Context (here : Z * option rptr) (I : world → Prop) (HI : hosted here I).

(** Everything the loop over the vector of [p] for [h] relies on. *)
Definition kept (p : rptr) (h : Z) (reg : aptr) w w' : Prop :=
  lasting reg w w' ∧ vector_at w' p h = vector_at w p h ∧ (I w → I w').

#[global] Instance kept_preorder p h reg : PreOrder (kept p h reg).
Proof using.
  split; [by split|]. intros w1 w2 w3 (? & ? & ?) (? & ? & ?). split_and!; [by transitivity w2|congruence|auto].
Qed.

(** The library's own steps keep it. *)
Lemma kept_between p h reg w w' : between here w w' → kept p h reg w w'.
Proof using HI.
  intros Hb. destruct (between_fields _ _ _ Hb) as (Hr & Hs & _). split; [by eapply lasting_between|]. split.
  - unfold vector_at. by rewrite Hr, Hs.
  - by apply HI.
Qed.

(** The listener at [a] returns, in the region it was called in, having moved
    along [R] and having added to the trace what it caused. *)
Definition answers (R : relation world) (a : addr) (arg : Z) w0 : Prop :=
  ∃ v w1 inner, cb_hook a arg w0 = Ok v w1 ∧ R w0 w1 ∧
    t_current_region_entry (w_tls w1) = t_current_region_entry (w_tls w0) ∧
    t_current_region_id (w_tls w1) = t_current_region_id (w_tls w0) ∧
    w_trace w1 = w_trace w0 ++ inner.

(** The listener at [a] is well behaved in the states of the invariant that
    [lasting] reaches from [w], and keeps what it must. *)
Definition tame (p : rptr) (h : Z) (reg : aptr) w (a : addr) (arg : Z) : Prop :=
  ∀ w0, lasting reg w w0 → I w0 → answers (kept p h reg) a arg w0.

Lemma tame_lasting p h reg w w' a arg :
  lasting reg w w' → tame p h reg w a arg → tame p h reg w' a arg.
Proof using. intros Hk Ht w0 Hw0. apply Ht. by transitivity w'. Qed.

(** The caller's buffer can hold the value. *)
Definition ret_fits w (retp : option bptr) (n : Z) : Prop :=
  ∀ p, retp = Some p → ∃ b, w_bufs w !! p = Some b ∧ (Z.to_nat n ≤ length b)%nat.

Lemma ret_fits_settled reg w w' retp n :
  settled reg w w' → ret_fits w retp n → ret_fits w' retp n.
Proof.
  intros Hk Hf p Hp. destruct (Hf p Hp) as (b & Hb & ?).
  destruct (se_bufs _ _ _ Hk p b Hb) as (b' & ? & ?). exists b'. split; [done|lia].
Qed.

(** A slot that runs: the listener at [a], for module [q] with its context. *)
Definition slot_ok w sl q a m ctx (x : xy_ctx) : Prop :=
  sl = DispatchSlot (Some q) (FnPtr a) ∧ w_mods w !! q = Some m ∧
  me_ctx m = Some ctx ∧ w_ctxs w !! ctx = Some x.

(** The trace of running one listener. *)
Definition ran_as w w' (ev : event) : Prop := ∃ inner, w_trace w' = w_trace w ++ ev :: inner.

(** ** One listener *)

(** The caller's buffer starts with the value some run of the listener at [a]
    gave, cut or zero-extended to the size of the adapter's return type. *)
Definition returned (f : adapter_fn) (retp : option bptr) (a : addr) (arg : Z) w : Prop :=
  ∀ p, retp = Some p → ∃ w0 v w1 b, cb_hook a arg w0 = Ok v w1 ∧ w_bufs w !! p = Some b ∧
    take (Z.to_nat (af_ret_size f)) b = resize (Z.to_nat (af_ret_size f)) 0 v.

Lemma returned_frame f retp a arg w w' :
  w_bufs w' = w_bufs w → returned f retp a arg w → returned f retp a arg w'.
Proof. intros Hb Hr. unfold returned. by rewrite Hb. Qed.

(** Emitting an event and writing a buffer move along [R]. *)
Record io_frames (reg : aptr) (R : relation world) : Prop := {
  io_settled w w' : R w w' → settled reg w w';
  io_trans w1 w2 w3 : R w1 w2 → R w2 w3 → R w1 w3;
  io_trace w t : R w (w <| w_trace := t |>);
  io_bufs w p b b' : w_bufs w !! p = Some b → length b' = length b →
    R w (w <| w_bufs ::= <[p := b']> |>)
}.

Lemma kept_frames p h reg : io_frames reg (kept p h reg).
Proof using HI.
  split; [by intros w w' ([? _] & _)|by intros w1 w2 w3 ? ?; transitivity w2|..].
  - intros. apply kept_between, between_trace.
  - intros. eapply kept_between, between_bufs; done.
Qed.

Lemma adapter_call_gen reg R w f retp a arg :
  io_frames reg R →
  answers R a arg (w <| w_trace ::= (λ t, t ++ [EvHook a arg (cur w)]) |>) →
  ret_fits w retp (af_ret_size f) →
  ∃ w', adapter_call f retp (Some a) arg w = Ok tt w' ∧ R w w' ∧ cur w' = cur w ∧
    ran_as w w' (EvHook a arg (cur w)) ∧ returned f retp a arg w'.
Proof.
  intros HR Ht Hf. unfold adapter_call. set (ev := EvHook a arg (cur w)) in *.
  set (w0 := w <| w_trace ::= (λ t, t ++ [ev]) |>) in *.
  destruct Ht as (v & w1 & inner & Hcb & Hk & Hce & Hci & Htr).
  assert (Hk1 : R w w1) by (eapply (io_trans _ _ HR); [apply (io_trace _ _ HR)|exact Hk]).
  assert (Htrace : w_trace w1 = w_trace w ++ ev :: inner).
  { rewrite Htr. simpl. by rewrite <- app_assoc. }
  assert (Hcur : cur w1 = cur w) by (unfold cur; by rewrite Hce, Hci).
  do 2 (erewrite bind_Ok by done). rewrite (bind_Ok (emit _) _ _ tt w0) by done.
  rewrite (bind_Ok _ _ _ _ _ Hcb). destruct retp as [p|].
  - destruct (ret_fits_settled _ _ _ _ _ (io_settled _ _ HR _ _ Hk1) Hf p eq_refl) as (b & Hb & Hlen).
    set (bs := resize (Z.to_nat (af_ret_size f)) 0 v).
    assert (Hlb : length bs = Z.to_nat (af_ret_size f)) by (unfold bs; apply length_resize).
    exists (w1 <| w_bufs ::= <[p := bs ++ drop (length bs) b]> |>). split_and!.
    + unfold buf_write. fold bs.
      rewrite (bind_Ok _ _ _ b w1) by (unfold buf_get, mbind, M_bind, gets, deref; by rewrite Hb).
      rewrite decide_True by lia. done.
    + eapply (io_trans _ _ HR); [exact Hk1|]. eapply (io_bufs _ _ HR); [exact Hb|].
      rewrite length_app, length_drop. lia.
    + done.
    + by exists inner.
    + intros p' [= <-]. exists w0, v, w1, (bs ++ drop (length bs) b). split_and!; [done| |].
      * simpl. by rewrite lookup_insert_eq.
      * by rewrite take_app_le, take_ge by lia.
  - exists w1. split_and!; [done..|by exists inner|done].
Qed.

Lemma adapter_call_run vp h reg w f retp a arg :
  tame vp h reg w a arg → I w → ret_fits w retp (af_ret_size f) →
  ∃ w', adapter_call f retp (Some a) arg w = Ok tt w' ∧ kept vp h reg w w' ∧ cur w' = cur w ∧
    ran_as w w' (EvHook a arg (cur w)) ∧ returned f retp a arg w'.
Proof.
  intros Ht HIw Hf. apply (adapter_call_gen reg); [apply kept_frames| |done].
  assert (Hb : ∀ tr, between here w (w <| w_trace := tr |>)) by (intros; apply between_trace).
  apply Ht; [by eapply lasting_between, Hb|]. by apply (HI w _ (Hb _)).
Qed.

Lemma inject_ctx_run w ctx x reg m :
  w_ctxs w !! ctx = Some x →
  ∃ cs, inject_ctx ctx reg m w = Ok tt (w <| w_ctxs := cs |>) ∧ between here w (w <| w_ctxs := cs |>).
Proof.
  intros Hx. unfold inject_ctx, cmod, cget. eexists. split.
  - erewrite bind_Ok by (unfold mbind, M_bind, gets, deref; by rewrite Hx). done.
  - apply between_ctxs. rewrite fmap_insert. apply insert_id. by rewrite lookup_fmap, Hx.
Qed.

(** The region of the call is the one [entered] says, and the caller's current
    region is back after it. *)
Lemma run_slot_run vp h reg w f retp arg caller rid sl q a m ctx x :
  slot_ok w sl q a m ctx x → here = (rid, Some caller) → cur w = here → I w →
  tame vp h reg w a arg → ret_fits w retp (af_ret_size f) →
  ∃ w', run_slot retp reg f arg caller rid q m ctx (ds_cb sl) w = Ok tt w' ∧
    kept vp h reg w w' ∧ cur w' = cur w ∧ ran_as w w' (EvHook a arg (entered here m x)) ∧
    returned f retp a arg w'.
Proof.
  intros (-> & Hq & Hctx & Hx) Hhere Hcur HIw Ht Hf. unfold run_slot.
  destruct (inject_ctx_run w ctx x reg m Hx) as (cs & Hin & Hb1).
  rewrite (bind_Ok _ _ _ _ _ Hin). set (w1 := w <| w_ctxs := cs |>) in *.
  pose proof (kept_between vp h reg _ _ Hb1) as Hk1.
  rewrite Hhere in Hcur. assert (Hce : t_current_region_entry (w_tls w) = Some caller) by (by injection Hcur).
  rewrite (bind_Ok _ _ _ (Some caller) w1) by (unfold tls_get, gets; simpl; by rewrite Hce).
  cbn [ds_cb call_target]. unfold entered. rewrite Hhere. cbn [snd].
  destruct (bool_decide_reflect (me_region_entry m = Some caller)) as [Hr|Hr]; cbn [negb].
  - run. run. destruct (adapter_call_run vp h reg w1 f retp a arg) as (w2 & H2 & Hk2 & Hc2 & Htr & Hret);
      [eapply tame_lasting, Ht; apply Hk1|by apply Hk1|eapply ret_fits_settled, Hf; apply Hk1|].
    rewrite (bind_Ok _ _ _ _ _ H2). exists w2. split_and!; [done|by transitivity w1|done| |done].
    change (cur w1) with (cur w) in Htr. by rewrite Hcur in Htr.
  - destruct (proj2 (proj1 Hk1) ctx x Hx) as (x1 & Hx1 & Hid).
    set (w2 := w1 <| w_tls ::= (λ t, t <| t_current_region_id := x_region_id x1 |>
                                       <| t_current_region_entry := me_region_entry m |>) |>).
    assert (Hb2 : between here w1 w2).
    { pose proof (between_tls here w1 (w_trace w1) (w_tls w2) (w_xy w1) eq_refl eq_refl) as H.
      apply H. right. right. exists q, m, ctx, x1. split_and!; [done..|]. unfold entered.
      rewrite Hhere. cbn [snd]. by rewrite bool_decide_eq_false_2. }
    assert (Hk2 : kept vp h reg w w2) by (transitivity w1; [done|by apply kept_between]).
    rewrite (bind_Ok _ _ _ tt w2).
    2: { erewrite bind_Ok by (unfold cget, mbind, M_bind, gets, deref; by rewrite Hx1). done. }
    run. destruct (adapter_call_run vp h reg w2 f retp a arg) as (w3 & H3 & Hk3 & Hc3 & Htr & Hret);
      [eapply tame_lasting, Ht; apply Hk2|by apply Hk2|eapply ret_fits_settled, Hf; apply Hk2|].
    rewrite (bind_Ok _ _ _ _ _ H3). eexists. split_and!; [done| |by rewrite Hcur| |exact Hret].
    + transitivity w3; [by transitivity w2|]. apply kept_between.
      pose proof (between_tls here w3 (w_trace w3) (w_tls w3 <| t_current_region_id := rid |>
        <| t_current_region_entry := Some caller |>) (w_xy w3) eq_refl eq_refl) as H.
      apply H. right. left. by rewrite Hhere.
    + change (cur w2) with (x_region_id x1, me_region_entry m) in Htr. by rewrite Hid in Htr.
Qed.

(** ** The loop *)

(** The state [xy_last_publish] leaves. *)
Definition after_publish w (ran : Z) (retp : option bptr) (reg : aptr) : world :=
  w <| w_tls ::= (λ t, t <| t_last_ran := ran |>) |>
    <| w_xy ::= (λ x, x <| x_adapter := Some reg |>) |>
    <| w_tls ::= (λ t, t <| t_last_retp := ret_loc_of retp |>) |>.

Lemma slot_live_run w sl q a m ctx x :
  slot_ok w sl q a m ctx x → slot_live sl w = Ok (Some (q, m, ctx)) w.
Proof.
  intros (-> & Hq & Hctx & _). unfold slot_live. cbn [ds_me ds_cb].
  rewrite (bind_Ok _ _ _ _ _ (mget_Ok _ _ _ Hq)), Hctx. done.
Qed.

Lemma slot_ok_lasting reg w w' sl q a m ctx x :
  lasting reg w w' → slot_ok w sl q a m ctx x →
  ∃ m' x', slot_ok w' sl q a m' ctx x' ∧ entered here m' x' = entered here m x.
Proof.
  intros [Hk Hids] (-> & Hq & Hctx & Hx). destruct (se_mods _ _ _ Hk q m Hq) as (m' & Hm' & Hc & Hr).
  destruct (Hids ctx x Hx) as (x' & Hx' & Hid).
  exists m', x'. split; [split_and!; [done|done|congruence|done]|]. unfold entered. by rewrite Hr, Hid.
Qed.

(** The slots of a vector, each with the event of its run. *)
Inductive runnable (vp : rptr) (h : Z) (reg : aptr) w (arg : Z) : list dispatch_slot → list event → Prop :=
  | runnable_nil : runnable vp h reg w arg [] []
  | runnable_cons sl q a m ctx x l evs :
      slot_ok w sl q a m ctx x → tame vp h reg w a arg → runnable vp h reg w arg l evs →
      runnable vp h reg w arg (sl :: l) (EvHook a arg (entered here m x) :: evs).

Lemma runnable_lasting vp h reg w w' arg l evs :
  lasting reg w w' → runnable vp h reg w arg l evs → runnable vp h reg w' arg l evs.
Proof.
  intros Hk. induction 1 as [|sl q a m ctx x l evs Hs Ht _ IH]; [constructor|].
  destruct (slot_ok_lasting _ _ _ _ _ _ _ _ _ Hk Hs) as (m' & x' & Hs' & <-).
  econstructor; [done|by eapply tame_lasting|done].
Qed.

Lemma runnable_length vp h reg w arg l evs : runnable vp h reg w arg l evs → length evs = length l.
Proof. induction 1; simpl; congruence. Qed.

(** The trace of running several listeners: each event, then what the
    listener itself caused. *)
Fixpoint woven (evs : list event) (tr : list event) : Prop :=
  match evs with
  | [] => tr = []
  | ev :: evs' => ∃ inner tr', tr = ev :: inner ++ tr' ∧ woven evs' tr'
  end.

Definition ran_all w w' (evs : list event) : Prop :=
  ∃ tr, w_trace w' = w_trace w ++ tr ∧ woven evs tr.

Lemma slots_loop_run vp h s reg f retp arg caller rid arr :
  ∀ l evs mi ran w,
    runnable vp h reg w arg l evs → here = (rid, Some caller) → cur w = here → I w →
    ret_fits w retp (af_ret_size f) →
    vector_at w vp h = Some (s, arr) → (∀ i sl, l !! i = Some sl → arr !! (mi + i)%nat = Some sl) →
    0 ≤ ran → ran + Z.of_nat (length l) < 2 ^ 32 →
    ∃ w', slots_loop (length l) mi retp reg f arg caller rid s ran w =
        Ok (ran + Z.of_nat (length l)) w' ∧
      kept vp h reg w w' ∧ cur w' = cur w ∧ ran_all w w' evs ∧
      (x_adapter (w_xy w) = Some reg → x_adapter (w_xy w') = Some reg) ∧
      (∀ a r, last evs = Some (EvHook a arg r) → returned f retp a arg w').
Proof.
  induction l as [|sl l IH]; intros evs mi ran w Hr Hhere Hcur HIw Hf Harr Hi H0 Hlt.
  { inversion Hr; subst evs. exists w. simpl. rewrite Z.add_0_r. split_and!; [done..| |done|done].
    exists []. by rewrite app_nil_r. }
  inversion Hr as [|? q a m ctx x ? evs' Hs Ht Hl E1 E2]; subst sl0 l0 evs; clear Hr.
  destruct (run_slot_run vp h reg w f retp arg caller rid sl q a m ctx x Hs Hhere Hcur HIw Ht Hf)
    as (w1 & H1 & Hk1 & Hc1 & (inner & Htr1) & Hret1).
  set (w2 := after_publish w1 (u32 (ran + 1)) retp reg).
  assert (Hk2 : kept vp h reg w w2).
  { transitivity w1; [done|]. apply kept_between.
    pose proof (between_tls here w1 (w_trace w1) (w_tls w2) (w_xy w2) eq_refl eq_refl (or_introl eq_refl)) as H. exact H. }
  assert (Hu : u32 (ran + 1) = ran + 1) by (unfold u32; apply Z.mod_small; simpl in Hlt; lia).
  destruct (IH evs' (S mi) (u32 (ran + 1)) w2) as (w3 & H3 & Hk3 & Hc3 & (tr & Htr3 & Hwov) & Had3 & Hret3).
  - eapply runnable_lasting; [apply Hk2|done].
  - done.
  - by rewrite <- Hcur, <- Hc1.
  - by apply Hk2.
  - eapply ret_fits_settled; [apply Hk2|done].
  - by rewrite (proj1 (proj2 Hk2)).
  - intros i y Hy. replace (S mi + i)%nat with (mi + S i)%nat by lia. by apply Hi.
  - lia.
  - rewrite Hu. simpl in Hlt. lia.
  - exists w3. split_and!.
    + cbn [length slots_loop]. rewrite (bind_Ok _ _ _ arr w)
        by (unfold slots_get, mbind, M_bind, gets, deref; by rewrite (vector_at_slots _ _ _ _ _ Harr)).
      pose proof (Hi 0%nat sl eq_refl) as Hsl. rewrite Nat.add_0_r in Hsl. rewrite Hsl.
      rewrite (bind_Ok (deref _) _ _ sl w) by done.
      rewrite (bind_Ok _ _ _ _ _ (slot_live_run _ _ _ _ _ _ _ Hs)).
      rewrite (bind_Ok _ _ _ _ _ H1), (bind_Ok (xy_last_publish _ _ _) _ _ tt w2) by done.
      rewrite H3, Hu. simpl. f_equal. lia.
    + by transitivity w2.
    + by rewrite Hc3, <- Hc1.
    + exists (EvHook a arg (entered here m x) :: inner ++ tr). split; [|by exists inner, tr].
      rewrite Htr3. simpl. rewrite Htr1. by rewrite <- app_assoc.
    + intros _. by apply Had3.
    + intros a' r Hlast. destruct evs' as [|ev evs']; [|by eapply Hret3].
      injection Hlast as <- _. inversion Hl; subst l. injection H3 as _ <-.
      by eapply returned_frame.
Qed.
End run.

(** The code written out for a vector of one does what the loop does. *)
Lemma one_slot_loop retp reg f arg caller rid s w :
  one_slot retp reg f arg caller rid s w = slots_loop 1 0 retp reg f arg caller rid s 0 w.
Proof.
  unfold one_slot, slots_loop, run_slot, mbind, M_bind.
  destruct (slots_get s w) as [l w1| |]; [|done..].
  destruct (deref (l !! 0%nat) w1) as [sl w2| |]; [|done..].
  destruct (slot_live sl w2) as [[[[p m] ctx]|] w3| |]; [|done..].
  destruct (inject_ctx ctx reg m w3) as [[] w4| |]; [|done..].
  destruct (bool_decide (me_region_entry m = Some caller)); cbn [negb].
  - simpl. destruct (call_target (ds_cb sl) w4) as [fn w5| |]; [|done..].
    by destruct (adapter_call f retp fn arg w5) as [[] w6| |].
  - destruct (tls_get t_current_region_entry w4) as [prev w5| |]; [|done..].
    destruct (cget ctx w5) as [x w6| |]; [|done..].
    destruct (set_current_region (x_region_id x) _ w6) as [[] w7| |]; [|done..].
    destruct (call_target (ds_cb sl) w7) as [fn w8| |]; [|done..].
    destruct (adapter_call f retp fn arg w8) as [[] w9| |]; [|done..].
    by destruct (set_current_region rid prev w9) as [[] w10| |].
Qed.
End slot_run.
