(* ===== verification/Call.v ===== *)
(** * Calling a hook

    [xy_call] from the resolution of its adapter to its return code: the deny
    gate, and the run of exactly the listeners of the caller's subtree. *)
From S2P Require Import Prelude Words Corm State Env Regions RegionTree RegionWalks Runtime RegionInv Hooks HookSpecs Subtree Dispatch Vector VectorBuild Prepare SlotRun.

Section call.
Context {C : Corm} {CL : CormLaws C} {OS : Os} {CB : Callbacks}.
Implicit Types (w : world) (q : mptr) (anc : list rptr).

(** ** The deny gate *)

Definition denies_hook (e : region_entry) (name : string) : bool :=
  match re_denied_hooks_set e with
  | Some s => bool_decide (is_Some (corm_get s name))
  | None => false
  end.

(** Whether the gate stops hook [name] on the chain [anc]: the root's flag,
    then the sets of the regions above the caller's. *)
Definition gate_shut w anc (name : string) : bool :=
  match anc with
  | [] => false
  | r :: _ =>
      match w_regions w !! r with
      | Some e => negb (Z.land (re_subtree_flags e) XY_SUBTREE_SECURITY_MASK =? 0)
      | None => false
      end &&
      existsb (λ a, match w_regions w !! a with
                    | Some e => denies_hook e name
                    | None => false
                    end) (take (length anc - 1) anc)
  end.

Lemma hook_denied_by_run w anc name :
  (∀ a, a ∈ anc → a ∈ dom (w_regions w)) →
  hook_denied_by anc name w =
    Ok (existsb (λ a, match w_regions w !! a with
                      | Some e => denies_hook e name
                      | None => false
                      end) anc) w.
Proof.
  induction anc as [|a anc IH]; intros Ha; [done|]. simpl.
  destruct (elem_of_dom (w_regions w) a) as [[e He] _]; [apply Ha; by left|].
  assert (hook_denied_by anc name w = _) as IH' by (apply IH; intros; apply Ha; by right).
  run. rewrite He. unfold denies_hook. destruct (re_denied_hooks_set e) as [s|]; [|done].
  destruct (corm_get s name); [done|]. exact IH'.
Qed.

Lemma dispatch_denied_run w anc name :
  (∀ a, a ∈ anc → a ∈ dom (w_regions w)) →
  dispatch_denied anc name w = Ok (gate_shut w anc name) w.
Proof.
  intros Ha. unfold dispatch_denied, gate_shut. destruct anc as [|r anc]; [done|].
  destruct (elem_of_dom (w_regions w) r) as [[e He] _]; [apply Ha; by left|].
  rewrite (bind_Ok _ _ _ (re_subtree_flags e) w) by (by run). rewrite He.
  destruct (Z.land (re_subtree_flags e) XY_SUBTREE_SECURITY_MASK =? 0); [done|].
  apply hook_denied_by_run. intros a Hin%elem_of_take. destruct Hin as (i & Hi & _).
  apply Ha. by eapply list_elem_of_lookup_2.
Qed.

(** ** Resolving the adapter *)

(** The adapter registered for a hook id. *)
Definition canonical w (h : Z) : option adapter :=
  if (0 <=? h) && (h <? Z.of_nat (length (rt_adapter_by_id (w_rt w)))) then
    match rt_adapter_by_id (w_rt w) !! Z.to_nat h with
    | Some (Some p) => w_adapters w !! p
    | _ => None
    end
  else None.

(** The registry's pointers are live. *)
Definition registry_live w : Prop :=
  ∀ i p, rt_adapter_by_id (w_rt w) !! i = Some (Some p) → p ∈ dom (w_adapters w).

Lemma canonical_run w h : registry_live w → canonical_adapter h w = Ok (canonical w h) w.
Proof.
  intros Hl. unfold canonical_adapter, canonical.
  rewrite (bind_Ok _ _ _ (rt_adapter_by_id (w_rt w)) w) by done.
  destruct ((0 <=? h) && (h <? Z.of_nat (length (rt_adapter_by_id (w_rt w))))); [|done].
  destruct (rt_adapter_by_id (w_rt w) !! Z.to_nat h) as [[p|]|] eqn:Hp; [|done..].
  apply Hl in Hp as [a Ha]%elem_of_dom.
  rewrite (bind_Ok _ _ _ a w) by (unfold aget, mbind, M_bind, gets, deref; by rewrite Ha).
  by rewrite Ha.
Qed.

(** The adapter once its hook is known: a host's own copy without a call
    function takes the registered adapter's, sizes included. *)
Definition adapted w (a : adapter) (h : Z) : adapter :=
  let a1 := a <| ad_hook_id := h |> in
  match canonical w h, ad_call a with
  | Some c, None =>
      a1 <| ad_call := ad_call c |> <| ad_ret_size := ad_ret_size c |>
         <| ad_arg_size := ad_arg_size c |>
  | _, _ => a1
  end.

(** What resolving answers, and the adapter it leaves. *)
Definition resolution w (a : adapter) : (Z + Z * adapter_fn) * adapter :=
  match (if ad_hook_id a <? 0 then (λ h, (h, adapted w a h)) <$> hook_ids w (ad_name a)
         else Some (ad_hook_id a, a)) with
  | None => (inl XY_ERR_NOTFOUND, a)
  | Some (h, a') =>
      (if XY_MAX_RET_SIZE <? ad_ret_size a' then inl XY_ERR_TOOBIG
       else match (match ad_call a' with
                   | Some f => Some f
                   | None => canonical w h ≫= ad_call
                   end) with
            | Some f => inr (h, f)
            | None => inl XY_ERR_NOTFOUND
            end, a')
  end.

Lemma aget_Ok w p a : w_adapters w !! p = Some a → aget p w = Ok a w.
Proof. unfold aget, mbind, M_bind, gets, deref. by intros ->. Qed.
Lemma amod_Ok w p a f :
  w_adapters w !! p = Some a → amod p f w = Ok tt (w <| w_adapters ::= <[p := f a]> |>).
Proof. intros H. unfold amod. by rewrite (bind_Ok _ _ _ _ _ (aget_Ok _ _ _ H)). Qed.

(** Storing an adapter that has no call function changes no function. *)
Lemma canonical_stored w reg a a' h :
  w_adapters w !! reg = Some a → ad_call a = None → ad_call a' = None →
  canonical (w <| w_adapters ::= <[reg := a']> |>) h ≫= ad_call = canonical w h ≫= ad_call.
Proof.
  intros Ha Hn Hn'. unfold canonical; simpl.
  destruct ((0 <=? h) && (h <? Z.of_nat (length (rt_adapter_by_id (w_rt w))))); [|done].
  destruct (rt_adapter_by_id (w_rt w) !! Z.to_nat h) as [[p|]|]; [|done..].
  destruct (decide (p = reg)) as [->|].
  - rewrite lookup_insert_eq, Ha. simpl. congruence.
  - by rewrite lookup_insert_ne.
Qed.

(** What one adapter copies from another. *)
Definition ad_proto (a : adapter) := (ad_call a, ad_ret_size a, ad_arg_size a).

Lemma canonical_proto w reg a a' h :
  w_adapters w !! reg = Some a → ad_proto a' = ad_proto a →
  ad_proto <$> canonical (w <| w_adapters ::= <[reg := a']> |>) h = ad_proto <$> canonical w h.
Proof.
  intros Ha Hp. unfold canonical; simpl.
  destruct ((0 <=? h) && (h <? Z.of_nat (length (rt_adapter_by_id (w_rt w))))); [|done].
  destruct (rt_adapter_by_id (w_rt w) !! Z.to_nat h) as [[p|]|]; [|done..].
  destruct (decide (p = reg)) as [->|].
  - rewrite lookup_insert_eq, Ha. simpl. by f_equal.
  - by rewrite lookup_insert_ne.
Qed.

Lemma adapted_call w a h : ad_call (adapted w a h) = None → ad_call a = None.
Proof. unfold adapted. destruct (canonical w h), (ad_call a) eqn:Hc; simpl; congruence. Qed.

Lemma registry_live_stored w reg a' :
  registry_live w → registry_live (w <| w_adapters ::= <[reg := a']> |>).
Proof. intros Hl i p Hp. simpl. rewrite dom_insert_L. apply Hl in Hp. set_solver. Qed.

(** What follows once the hook is known. *)
Lemma resolve_finish w reg a a' h :
  registry_live w → w_adapters w !! reg = Some a → (ad_call a' = None → ad_call a = None) →
  let w' := w <| w_adapters ::= <[reg := a']> |> in
  (a ← aget reg;
   if XY_MAX_RET_SIZE <? ad_ret_size a then mret (inl XY_ERR_TOOBIG)
   else
     call ← match ad_call a' with
            | Some f => mret (Some f)
            | None => canonical ← canonical_adapter h; mret (canonical ≫= ad_call)
            end;
     match call with
     | None => mret (inl XY_ERR_NOTFOUND)
     | Some f => mret (inr (h, f))
     end) w' =
  Ok (if XY_MAX_RET_SIZE <? ad_ret_size a' then inl XY_ERR_TOOBIG
      else match (match ad_call a' with
                  | Some f => Some f
                  | None => canonical w h ≫= ad_call
                  end) with
           | Some f => inr (h, f)
           | None => inl XY_ERR_NOTFOUND
           end) w'.
Proof.
  intros Hl Ha Hn w'. rewrite (bind_Ok _ _ _ a' w')
    by (apply aget_Ok; simpl; by rewrite lookup_insert_eq).
  destruct (XY_MAX_RET_SIZE <? ad_ret_size a'); [done|].
  destruct (ad_call a') as [f|] eqn:Hc; [done|].
  rewrite bind_assoc. erewrite bind_Ok by (apply canonical_run; by apply registry_live_stored).
  rewrite (bind_Ok (mret _) _ _ _ _ eq_refl). unfold w'. rewrite canonical_stored with (a := a) by auto.
  by destruct (canonical w h ≫= ad_call).
Qed.

Lemma dispatch_resolve_run w reg a :
  registry_live w → is_Some (rt_hook_id_hd (w_rt w)) → w_adapters w !! reg = Some a →
  dispatch_resolve reg w =
    Ok (resolution w a).1 (w <| w_adapters ::= <[reg := (resolution w a).2]> |>).
Proof.
  intros Hl [t Ht] Ha. unfold dispatch_resolve, resolution, hook_ids.
  rewrite (bind_Ok _ _ _ a w) by (by apply aget_Ok).
  assert (Hsame : w = w <| w_adapters ::= <[reg := a]> |>).
  { unfold field_over; simpl. rewrite insert_id by done. by destruct w. }
  rewrite Ht. cbn [mbind option_bind]. destruct (ad_hook_id a <? 0).
  - rewrite (bind_Ok _ _ _ (match corm_get t (ad_name a) with
        | None => None
        | Some h => Some (h, ad_call (adapted w a h))
        end) (w <| w_adapters ::= <[reg := match corm_get t (ad_name a) with
        | None => a
        | Some h => adapted w a h
        end]> |>)).
    + destruct (corm_get t (ad_name a)) as [h|] eqn:Hg; simpl; [|done].
      apply resolve_finish with (a := a); [done..|]. apply adapted_call.
    + unfold table. rewrite (bind_Ok _ _ _ t w) by (unfold rt_get, mbind, M_bind, gets; by rewrite Ht).
      destruct (corm_get t (ad_name a)) as [h|]; [|by rewrite <- Hsame].
      rewrite (bind_Ok _ _ _ _ _ (amod_Ok _ _ _ _ Ha)).
      set (a1 := a <| ad_hook_id := h |>). set (w1 := w <| w_adapters ::= <[reg := a1]> |>).
      erewrite bind_Ok by (apply canonical_run; by apply registry_live_stored).
      pose proof (canonical_proto w reg a a1 h Ha eq_refl) as Hp. fold w1 in Hp. fold w1.
      unfold adapted. fold a1.
      destruct (canonical w h) as [c|], (canonical w1 h) as [c1|]; try discriminate;
        [|unfold w1, a1, field_over; simpl; by destruct (ad_call a)].
      destruct (ad_call a) eqn:Hca; [by unfold w1, a1, field_over; simpl; rewrite Hca|].
      injection Hp as Hp1 Hp2 Hp3. rewrite Hp1, Hp2, Hp3.
      erewrite bind_Ok by (apply amod_Ok; simpl; by rewrite lookup_insert_eq).
      unfold mret, M_ret, w1, a1, field_over; simpl. by rewrite insert_insert_eq.
  - rewrite (bind_Ok _ _ _ (Some (ad_hook_id a, ad_call a)) w) by done. simpl.
    rewrite Hsame at 1. by apply resolve_finish with (a := a).
Qed.

(** ** The run *)

(** An invariant that bringing the vector up to date keeps. *)
Definition prepared (reg : aptr) (h : Z) (p : rptr) anc (I : world → Prop) : Prop :=
  ∀ w w', dispatch_prepare reg h p anc w = Ok true w' → cache_only w w' → I w → I w'.

(** The event of module [q]'s listener: it runs in the module's region. *)
Definition listener_event w anc (name : string) (arg : Z) q : option event :=
  a ← listener w anc name q;
  m ← w_mods w !! q;
  c ← me_ctx m;
  x ← w_ctxs w !! c;
  Some (EvHook a arg (entered (cur w) m x)).
Definition listener_events w anc name arg (l : list mptr) : list event :=
  omap (listener_event w anc name arg) l.

Lemma listener_events_hook w anc name arg l ev :
  ev ∈ listener_events w anc name arg l → ∃ x r, ev = EvHook x arg r.
Proof.
  intros (q & _ & H)%list_elem_of_omap. unfold listener_event in H.
  destruct (listener w anc name q) as [x|]; [|done]. simpl in H. destruct (w_mods w !! q) as [m|]; [|done].
  simpl in H. destruct (me_ctx m) as [c|]; [|done]. simpl in H. destruct (w_ctxs w !! c) as [y|]; [|done].
  injection H as <-. eauto.
Qed.

(** Contexts of loaded modules are live. *)
Definition contexts_live w : Prop :=
  ∀ q m ctx, w_mods w !! q = Some m → me_ctx m = Some ctx → ctx ∈ dom (w_ctxs w).

Lemma listener_inv w anc name q a :
  listener w anc name q = Some a → ∃ m ctx, w_mods w !! q = Some m ∧ me_ctx m = Some ctx ∧
    chain_denies w anc m = false ∧ module_own_symbol m name = Some a.
Proof.
  unfold listener. destruct (w_mods w !! q) as [m|] eqn:Hq; simpl; [|done].
  destruct (me_ctx m) as [ctx|] eqn:Hc; simpl; [|done].
  destruct (chain_denies w anc m) eqn:Hd; simpl; [done|]. intros Ha. by exists m, ctx.
Qed.

(** The event of a listener of a live module. *)
Lemma listener_event_Some w anc name arg q a m c x :
  listener w anc name q = Some a → w_mods w !! q = Some m → me_ctx m = Some c → w_ctxs w !! c = Some x →
  listener_event w anc name arg q = Some (EvHook a arg (entered (cur w) m x)).
Proof. intros Hl Hq Hc Hx. unfold listener_event. rewrite Hl, Hq. simpl. rewrite Hc. simpl. by rewrite Hx. Qed.

Lemma runnable_listeners (I : world → Prop) w w2 vp h reg anc name arg l :
  lasting reg w w2 → contexts_live w →
  (∀ q a, q ∈ l → listener w anc name q = Some a → tame I vp h reg w a arg) →
  runnable (cur w) I vp h reg w2 arg (listener_slots w anc name l) (listener_events w anc name arg l).
Proof.
  intros Hs Hctx Ht. induction l as [|q l IH]; [constructor|].
  assert (IH' := IH (λ q' a Hq', Ht q' a (list_elem_of_further _ _ _ Hq'))). clear IH.
  unfold listener_slots, listener_events in *. cbn [omap list_omap].
  destruct (listener w anc name q) as [a|] eqn:Hl.
  2: { assert (listener_slot w anc name q = None) as -> by (unfold listener_slot; by rewrite Hl).
       assert (listener_event w anc name arg q = None) as -> by (unfold listener_event; by rewrite Hl). done. }
  assert (listener_slot w anc name q = Some (DispatchSlot (Some q) (FnPtr a))) as ->
    by (unfold listener_slot; by rewrite Hl).
  destruct (listener_inv _ _ _ _ _ Hl) as (m & ctx & Hq & Hc & _ & _).
  destruct (elem_of_dom (w_ctxs w) ctx) as [[x Hx] _]; [by eapply Hctx|].
  rewrite (listener_event_Some _ _ _ _ _ _ _ _ _ Hl Hq Hc Hx).
  assert (Hok : slot_ok w (DispatchSlot (Some q) (FnPtr a)) q a m ctx x) by (by split_and!).
  destruct (slot_ok_lasting (cur w) reg w w2 _ _ _ _ _ _ Hs Hok) as (m2 & x2 & Hok2 & <-).
  econstructor; [exact Hok2| |exact IH']. eapply tame_lasting; [done|]. by apply (Ht q); [left|].
Qed.

Lemma cache_only_lasting reg w w' : cache_only w w' → lasting reg w w'.
Proof.
  intros Hco. split; [|intros c x; destruct (cache_only_rt _ _ Hco) as (_ & _ & _ & _ & -> & _); eauto].
  destruct (cache_only_rt _ _ Hco) as (_ & _ & _ & Ha & Hc & Hb & _).
  split; rewrite ?Ha, ?Hc, ?Hb; eauto.
  intros q m Hq. destruct (cache_only_mod_lookup _ _ _ _ Hco Hq) as (m' & Hq' & Hu).
  destruct (me_uncached_fields _ _ Hu) as (? & _ & _ & _ & ? & _). eauto.
Qed.

Lemma vector_holds_at w p h slots s e c :
  w_regions w !! p = Some e → re_hook_dispatch e !! Z.to_nat h = Some c → hc_slots c = Some s →
  vector_holds w p h slots → ∃ arr, vector_at w p h = Some (s, arr) ∧
    (∀ i sl, slots !! i = Some sl → arr !! i = Some sl) ∧ hc_count c = length slots.
Proof.
  intros He Hc Hs (e' & c' & arr & He' & Hc' & Harr & _ & Hcnt & Htk). simplify_eq.
  unfold array_of in Harr. rewrite Hs in Harr. exists arr. split_and!; [| |done].
  - unfold vector_at. rewrite He. simpl. rewrite Hc. simpl. rewrite Hs. simpl. by rewrite Harr.
  - intros i sl Hi. rewrite <- Htk in Hi. by apply lookup_take_Some in Hi as [? _].
Qed.

(** Running a vector that holds [slots]: the loop, the single slot and the
    empty vector alike. *)
Lemma dispatch_run_run (I : world → Prop) w p h reg f retp arg rid slots evs :
  hosted (cur w) I → I w →
  vector_holds w p h slots → runnable (cur w) I p h reg w arg slots evs → cur w = (rid, Some p) →
  ret_fits w retp (af_ret_size f) → Z.of_nat (length slots) < 2 ^ 32 →
  ∃ w', dispatch_run retp reg f h arg p rid w = Ok (Z.of_nat (length slots)) w' ∧
    lasting reg w w' ∧ cur w' = cur w ∧ ran_all w w' evs ∧
    (x_adapter (w_xy w) = Some reg → x_adapter (w_xy w') = Some reg) ∧
    (∀ a r, last evs = Some (EvHook a arg r) → returned f retp a arg w').
Proof.
  intros HI HIw Hv Hr Hcur Hf Hlt. pose proof Hv as (e & c & arr & He & Hc & Harr & Hlen & Hcnt & Htk).
  unfold dispatch_run. rewrite (bind_Ok _ _ _ _ _ (cache_get_run _ _ _ _ _ He Hc)).
  destruct (hc_slots c) as [s|] eqn:Hs.
  - destruct (vector_holds_at _ _ _ _ _ _ _ He Hc Hs Hv) as (arr' & Hat & Hi & _).
    destruct (slots_loop_run (cur w) I HI p h s reg f retp arg p rid arr' slots evs 0 0 w)
      as (w' & Hrun & [Hk _] & Hc' & Ht & Had & Hret); [done..|lia|lia|].
    exists w'. split_and!; [|done..]. rewrite Hcnt. rewrite Z.add_0_l in Hrun.
    case_decide as H1; [|exact Hrun]. rewrite one_slot_loop. rewrite H1 in Hrun. rewrite H1. exact Hrun.
  - unfold array_of in Harr. rewrite Hs in Harr. subst arr.
    assert (slots = []) as -> by (by rewrite <- Htk, take_nil).
    inversion Hr; subst. exists w. split_and!; [done..| |done|done]. exists []. by rewrite app_nil_r.
Qed.
End call.
