(* ===== verification/CallRun.v ===== *)
(** * From [xy_call] to its answer

    The end of a dispatch, what [xy_last] recalls of it, and [xy_call] as a
    whole: the setting it runs in and its three outcomes. *)
From S2P Require Import Prelude Words Corm State Env Regions RegionTree RegionWalks Runtime RegionInv RegionSpecs Hooks HookSpecs Subtree Dispatch Vector VectorBuild Prepare SlotRun Call.

Section call_run.
Context {C : Corm} {CL : CormLaws C} {OS : Os} {CB : Callbacks}.
Implicit Types (w : world) (q : mptr) (anc : list rptr).

(** ** Buffers *)

Lemma buf_get_Ok w p b : w_bufs w !! p = Some b → buf_get p w = Ok b w.
Proof. unfold buf_get, mbind, M_bind, gets, deref. by intros ->. Qed.

Lemma read_bytes_Ok w p b n :
  w_bufs w !! p = Some b → (Z.to_nat n ≤ length b)%nat →
  read_bytes p n w = Ok (take (Z.to_nat n) b) w.
Proof.
  intros Hb Hn. unfold read_bytes. rewrite (bind_Ok _ _ _ _ _ (buf_get_Ok _ _ _ Hb)).
  by rewrite decide_True.
Qed.

Lemma buf_write_Ok w p b bs :
  w_bufs w !! p = Some b → (length bs ≤ length b)%nat →
  buf_write p bs w = Ok tt (w <| w_bufs ::= <[p := bs ++ drop (length bs) b]> |>).
Proof.
  intros Hb Hn. unfold buf_write. rewrite (bind_Ok _ _ _ _ _ (buf_get_Ok _ _ _ Hb)).
  by rewrite decide_True.
Qed.

(** The first [n] bytes of a buffer are zero. *)
Definition zeroed w (retp : option bptr) (n : Z) : Prop :=
  ∀ p, retp = Some p → ∃ b, w_bufs w !! p = Some b ∧
    take (Z.to_nat n) b = replicate (Z.to_nat n) 0.

Lemma zero_buf_run w retp n :
  ret_fits w retp n →
  ∃ bufs, (match retp with Some p => zero_buf p n | None => mret tt end) w =
      Ok tt (w <| w_bufs := bufs |>) ∧ zeroed (w <| w_bufs := bufs |>) retp n ∧
    length <$> bufs = length <$> w_bufs w.
Proof.
  intros Hf. destruct retp as [p|].
  - destruct (Hf p eq_refl) as (b & Hb & Hn). eexists. split_and!.
    + unfold zero_buf. erewrite buf_write_Ok by (by rewrite ?length_replicate). done.
    + intros p' [= <-]. eexists. split; [simpl; by rewrite lookup_insert_eq|].
      by rewrite take_app_le, take_ge by (by rewrite length_replicate).
    + rewrite fmap_insert, length_app, length_drop, length_replicate. apply insert_id.
      rewrite lookup_fmap, Hb. simpl. f_equal. lia.
  - exists (w_bufs w). split_and!; [by destruct w|by intros p|done].
Qed.

(** What ends a dispatch settles: no module, context or adapter changes, and no
    buffer its size. *)
Lemma settled_end reg w w' :
  w_mods w' = w_mods w → w_ctxs w' = w_ctxs w → w_adapters w' = w_adapters w →
  length <$> w_bufs w' = length <$> w_bufs w → settled reg w w'.
Proof.
  intros Hm Hc Ha Hl. split; rewrite ?Hm, ?Hc, ?Ha; eauto. intros p b Hb.
  pose proof (f_equal (λ h, h !! p) Hl) as H. rewrite !lookup_fmap, Hb in H.
  destruct (w_bufs w' !! p) as [b'|]; [|done]. exists b'. split; [done|]. by apply (inj Some) in H.
Qed.

(** ** The end of a dispatch *)

(** What [xy_last] will answer: [n] listeners ran, and the [size] bytes the
    caller's buffer holds are remembered. *)
Record concluded w (retp : option bptr) (reg : aptr) (n size : Z) : Prop := {
  cc_ran : t_last_ran (w_tls w) = n;
  cc_adapter : x_adapter (w_xy w) = Some reg;
  cc_none : n = 0 → t_last_retp (w_tls w) = RetNull ∧ zeroed w retp size;
  cc_null : retp = None ∨ size ≤ 0 → t_last_retp (w_tls w) = RetNull;
  cc_some p : n ≠ 0 → 0 < size → retp = Some p → t_last_retp (w_tls w) = RetTls ∧
    ∃ b, w_bufs w !! p = Some b ∧
      take (Z.to_nat size) (t_last_retbuf (w_tls w)) = take (Z.to_nat size) b ∧
      length (take (Z.to_nat size) b) = Z.to_nat size
}.

Lemma set_last_ret_run w retp n :
  ret_fits w retp n →
  ∃ rb lr, xy_set_last_ret retp n w =
      Ok tt (w <| w_tls ::= (λ t, t <| t_last_retbuf := rb |> <| t_last_retp := lr |>) |>) ∧
    (retp = None ∨ n ≤ 0 → lr = RetNull) ∧
    (∀ p, 0 < n → retp = Some p → lr = RetTls ∧ ∃ b, w_bufs w !! p = Some b ∧
      take (Z.to_nat n) rb = take (Z.to_nat n) b ∧ length (take (Z.to_nat n) b) = Z.to_nat n).
Proof.
  intros Hf. destruct retp as [p|].
  - destruct (Hf p eq_refl) as (b & Hb & Hn). unfold xy_set_last_ret.
    destruct (Z.ltb_spec 0 n) as [Hpos|]; [|].
    + set (bs := take (Z.to_nat n) b).
      assert (Hlen : length bs = Z.to_nat n) by (unfold bs; rewrite length_take; lia).
      rewrite (bind_Ok _ _ _ _ _ (read_bytes_Ok _ _ _ _ Hb Hn)). fold bs.
      set (word := if n <=? 8 then bs ++ replicate (8 - length bs) 0 else bs).
      exists (word ++ drop (length word) (t_last_retbuf (w_tls w))), RetTls.
      split; [done|]. split; [intros [|]; [done|lia]|].
      intros p' _ [= <-]. split; [done|]. exists b. split; [done|]. split; [|done]. fold bs.
      unfold word. destruct (n <=? 8); rewrite <- ?app_assoc, take_app_le, take_ge by lia; done.
    + exists (t_last_retbuf (w_tls w)), RetNull. split; [done|]. split; [done|]. lia.
  - exists (t_last_retbuf (w_tls w)), RetNull. split; [done|]. by split.
Qed.

Lemma dispatch_finish_run w retp reg a n :
  w_adapters w !! reg = Some a → ret_fits w retp (ad_ret_size a) →
  x_adapter (w_xy w) = Some reg →
  ∃ w', dispatch_finish retp reg n w = Ok (if n =? 0 then XY_ERR_NOTFOUND else XY_OK) w' ∧
    cur w' = cur w ∧ w_trace w' = w_trace w ∧ (n ≠ 0 → w_bufs w' = w_bufs w) ∧
    w_err w' = (if n =? 0 then XY_ERR_NOTFOUND else XY_OK) ∧
    concluded w' retp reg n (ad_ret_size a) ∧ settled reg w w'.
Proof.
  intros Ha Hf Hx. unfold dispatch_finish.
  set (w1 := w <| w_tls ::= (λ t, t <| t_last_ran := n |>) |>).
  rewrite (bind_Ok _ _ _ tt w1) by done. rewrite (bind_Ok _ _ _ a w1) by (by apply aget_Ok).
  destruct (Z.eqb_spec n 0) as [->|Hn].
  - set (w2 := w1 <| w_tls ::= (λ t, t <| t_last_retp := RetNull |>) |>).
    rewrite (bind_Ok _ _ _ tt w2) by done.
    destruct (zero_buf_run w2 retp (ad_ret_size a) Hf) as (bufs & Hz & Hzero & Hlen).
    rewrite (bind_Ok _ _ _ _ _ Hz). eexists. split; [done|]. split_and!; [done..| |by apply settled_end]. by split.
  - destruct (set_last_ret_run w1 retp (ad_ret_size a) Hf) as (rb & lr & Hs & Hnull & Hv).
    rewrite (bind_Ok _ _ _ _ _ Hs). eexists. split; [done|]. split_and!; [done..| |by apply settled_end].
    split; simpl; [done..|exact Hnull|]. intros p _ Hpos Hp. by apply Hv.
Qed.

(** What [fail:] leaves. *)
Lemma dispatch_fail_run w retp reg a err :
  w_adapters w !! reg = Some a → ret_fits w retp (ad_ret_size a) →
  ∃ w', dispatch_fail retp reg err w = Ok err w' ∧ cur w' = cur w ∧ w_trace w' = w_trace w ∧
    w_err w' = err ∧ concluded w' retp reg 0 (ad_ret_size a) ∧ settled reg w w'.
Proof.
  intros Ha Hf. unfold dispatch_fail.
  set (w1 := w <| w_tls ::= (λ t, t <| t_last_ran := 0 |>) |>).
  rewrite (bind_Ok _ _ _ tt w1) by done. rewrite (bind_Ok _ _ _ a w1) by (by apply aget_Ok).
  set (w2 := w1 <| w_tls ::= (λ t, t <| t_last_retp := RetNull |>) |>).
  rewrite (bind_Ok _ _ _ tt w2) by done.
  destruct (zero_buf_run w2 retp (ad_ret_size a) Hf) as (bufs & Hz & Hzero & Hlen).
  rewrite (bind_Ok (xy_zero_ret _ _) _ _ tt (w2 <| w_bufs := bufs |>)).
  2: { unfold xy_zero_ret. destruct retp as [p|]; [|exact Hz].
       rewrite (bind_Ok _ _ _ a w2) by (by apply aget_Ok). exact Hz. }
  eexists. split; [done|]. split_and!; [done..| |by apply settled_end]. by split.
Qed.

(** ** [xy_last] *)

(** Whatever else happened from [w] on, nothing was dispatched, and the adapter
    is there. *)
Record undisturbed (reg : aptr) w w2 : Prop := {
  un_inited : rt_inited (w_rt w2) = true;
  un_ran : t_last_ran (w_tls w2) = t_last_ran (w_tls w);
  un_retp : t_last_retp (w_tls w2) = t_last_retp (w_tls w);
  un_retbuf : t_last_retbuf (w_tls w2) = t_last_retbuf (w_tls w);
  un_adapter : x_adapter (w_xy w2) = x_adapter (w_xy w);
  un_size : ad_ret_size <$> w_adapters w2 !! reg = ad_ret_size <$> w_adapters w !! reg
}.

Lemma last_of_concluded w w2 retp reg n a ret :
  concluded w retp reg n (ad_ret_size a) → w_adapters w !! reg = Some a →
  undisturbed reg w w2 → ret_fits w2 ret (ad_ret_size a) →
  (n = 0 → xy_last ret w2 = Ok XY_ERR_NOTFOUND (w2 <| w_err := XY_ERR_NOTFOUND |>)) ∧
  (n ≠ 0 → ∃ w3, xy_last ret w2 = Ok XY_OK w3 ∧ w_err w3 = XY_OK ∧
    (retp = None ∨ ret = None ∨ ad_ret_size a ≤ 0 → w_bufs w3 = w_bufs w2) ∧
    (∀ p b q, 0 < ad_ret_size a → retp = Some p → w_bufs w !! p = Some b → ret = Some q →
      ∃ c, w_bufs w3 !! q = Some c ∧ take (Z.to_nat (ad_ret_size a)) c = take (Z.to_nat (ad_ret_size a)) b)).
Proof.
  intros Hc Ha [Hi Hran Hrp Hrb Had Hsz] Hf. unfold xy_last. rewrite with_runtime_run by done.
  rewrite (bind_Ok _ _ _ (Some reg) w2) by (unfold gets; by rewrite Had, (cc_adapter _ _ _ _ _ Hc)).
  rewrite (bind_Ok _ _ _ n w2) by (unfold tls_get, gets; by rewrite Hran, (cc_ran _ _ _ _ _ Hc)).
  rewrite Ha in Hsz. destruct (w_adapters w2 !! reg) as [a2|] eqn:Ha2; [|done]. apply (inj Some) in Hsz.
  split; [by intros ->|]. intros Hn. destruct (Z.eqb_spec n 0) as [|_]; [done|].
  erewrite (bind_Ok (tls_get _)) by done. rewrite Hrp. destruct ret as [q|].
  2: { eexists. by split_and!. }
  destruct (Hf q eq_refl) as (c & Hq & Hfit).
  destruct (decide (retp = None ∨ ad_ret_size a ≤ 0)) as [Hnull|Hsome].
  { rewrite (cc_null _ _ _ _ _ Hc Hnull). exists (w2 <| w_err := XY_OK |>). split_and!; [|done..|].
    - erewrite bind_Ok by (by rewrite (bind_Ok _ _ _ a2 w2) by (by apply aget_Ok)). done.
    - intros p b q' Hpos ->. destruct Hnull; [done|lia]. }
  destruct retp as [p|]; [|destruct Hsome; by left].
  assert (Hpos : 0 < ad_ret_size a) by (apply Z.nle_gt; intros ?; apply Hsome; by right).
  destruct (cc_some _ _ _ _ _ Hc p Hn Hpos eq_refl) as (Hrt & b' & Hb' & Htake & Hlen).
  rewrite Hrt. erewrite bind_Ok.
  2: { rewrite (bind_Ok _ _ _ a2 w2) by (by apply aget_Ok). unfold copy_last. rewrite Hsz.
       erewrite (bind_Ok (tls_get _)) by done. rewrite Hrb, Htake.
       eapply buf_write_Ok; [done|]. lia. }
  eexists. split_and!; [done|done|intros [?|[?|?]]; [done|done|lia]|].
  intros p' b q' _ [= <-] Hb [= <-]. rewrite Hb in Hb'. injection Hb' as <-. eexists.
  split; [simpl; by rewrite lookup_insert_eq|]. by rewrite take_app_le, take_ge by lia.
Qed.

(** ** [xy_call] *)

(** The setting of a call: a started runtime with region [p] current and
    [anc] above it, and an adapter that resolves to hook [h] and function [f]
    and is none the different for it. *)
Record call_setting w (reg : aptr) (a : adapter) (h : Z) (f : adapter_fn)
    (rid : Z) (p : rptr) anc : Prop := {
  cs_inited : rt_inited (w_rt w) = true;
  cs_cur : cur w = (rid, Some p);
  cs_adapter : w_adapters w !! reg = Some a;
  cs_registry : registry_live w;
  cs_hooks : is_Some (rt_hook_id_hd (w_rt w));
  cs_resolves : resolution w a = (inr (h, f), a);
  cs_chain : region_ancestor_chain (Some p) 65 w = Ok anc w;
  cs_anc q : q ∈ anc → q ∈ dom (w_regions w)
}.

Context w reg a h f rid p anc (Hset : call_setting w reg a h f rid p anc).

(** Up to the deny gate, which is passed or not. *)
Lemma xy_dispatch_gate fuel retp arg self_only :
  p ∈ dom (w_regions w) →
  xy_dispatch fuel retp (Some reg) arg self_only w =
    (if gate_shut w anc (ad_name a) then dispatch_fail retp reg XY_ERR_EPERM
     else
       tls_mod (λ t, t <| t_last_ran := 0 |> <| t_last_retp := ret_loc_of retp |>);;
       modify (λ w, w <| w_xy ::= (λ x, x <| x_adapter := Some reg |>) |>);;
       outcome ← (if (self_only : bool) then
                    e ← rget p; self_loop fuel retp reg f h arg anc (re_mods_head e) 0
                  else subtree_scope retp reg f h arg p rid anc);
       match outcome with
       | inl err => dispatch_fail retp reg err
       | inr ran => dispatch_finish retp reg ran
       end) w.
Proof using CL Hset.
  intros [e He]%elem_of_dom. destruct Hset as [Hi Hcur Ha Hl Hh Hr Hch Hanc].
  unfold cur in Hcur. injection Hcur as Hrid Hp.
  assert (Hsame : w <| w_adapters ::= <[reg := a]> |> = w).
  { unfold field_over; simpl. rewrite insert_id by done. by destruct w. }
  pose proof (dispatch_resolve_run w reg a Hl Hh Ha) as Hres. rewrite Hr in Hres. simpl in Hres.
  unfold field_over in Hsame; simpl in Hsame. rewrite Hsame in Hres.
  unfold xy_dispatch. rewrite (bind_Ok _ _ _ true w) by (unfold rt_get, gets; by rewrite Hi).
  rewrite (bind_Ok _ _ _ XY_OK w) by done. cbn [negb Z.eqb XY_OK].
  rewrite (bind_Ok _ _ _ rid w) by (unfold tls_get, gets; by rewrite Hrid).
  rewrite (bind_Ok _ _ _ (re_plen e) w).
  2: { unfold region_current_plen. rewrite (bind_Ok _ _ _ (Some p) w)
         by (unfold tls_get, gets; by rewrite Hp). by run. }
  rewrite (bind_Ok _ _ _ (Some p) w) by (unfold tls_get, gets; by rewrite Hp).
  rewrite (bind_Ok _ _ _ _ _ Hres).
  rewrite (bind_Ok _ _ _ (Some p) w) by done. cbv iota.
  rewrite (bind_Ok _ _ _ _ _ Hch). rewrite (bind_Ok _ _ _ a w) by (by apply aget_Ok).
  rewrite (bind_Ok _ _ _ _ _ (dispatch_denied_run w anc (ad_name a) Hanc)).
  by destruct (gate_shut w anc (ad_name a)).
Qed.

(** The gate shut: nothing runs. *)
Lemma xy_call_denied retp arg :
  p ∈ dom (w_regions w) → gate_shut w anc (ad_name a) = true → ret_fits w retp (ad_ret_size a) →
  ∃ w', xy_call retp (Some reg) arg w = Ok XY_ERR_EPERM w' ∧ cur w' = cur w ∧
    w_trace w' = w_trace w ∧ w_err w' = XY_ERR_EPERM ∧ concluded w' retp reg 0 (ad_ret_size a) ∧
    settled reg w w'.
Proof using CL Hset.
  intros Hp Hg Hf. unfold xy_call. rewrite xy_dispatch_gate, Hg by done.
  by apply dispatch_fail_run; [apply Hset|].
Qed.

(** The gate open: the listeners run, and may rely on [I]. *)
Lemma xy_call_runs (I : world → Prop) tbl kids own retp arg :
  hosted (cur w) I → prepared reg h p anc I → I w →
  dispatch_ok w tbl kids own p h (ad_name a) anc → 0 ≤ h → contexts_live w →
  gate_shut w anc (ad_name a) = false →
  ret_fits w retp (ad_ret_size a) → ret_fits w retp (af_ret_size f) →
  let mods := preorder 65 kids own p in
  let evs := listener_events w anc (ad_name a) arg mods in
  (∀ q x, q ∈ mods → listener w anc (ad_name a) q = Some x → tame I p h reg w x arg) →
  Z.of_nat (length evs) < 2 ^ 32 →
  ∃ w', xy_call retp (Some reg) arg w = Ok (if decide (evs = []) then XY_ERR_NOTFOUND else XY_OK) w' ∧
    cur w' = cur w ∧ ran_all w w' evs ∧
    w_err w' = (if decide (evs = []) then XY_ERR_NOTFOUND else XY_OK) ∧
    concluded w' retp reg (Z.of_nat (length evs)) (ad_ret_size a) ∧ settled reg w w' ∧
    (∀ x r, last evs = Some (EvHook x arg r) → returned f retp x arg w').
Proof using Hset CL.
  intros HI Hpr HIw Hok Hh Hctx Hg Hfa Hff mods evs Htame Hlt. unfold xy_call.
  rewrite xy_dispatch_gate, Hg by apply Hok.
  set (w1 := w <| w_tls ::= (λ t, t <| t_last_ran := 0 |> <| t_last_retp := ret_loc_of retp |>) |>
               <| w_xy ::= (λ x, x <| x_adapter := Some reg |>) |>).
  rewrite (bind_Ok (tls_mod _) _ _ tt _ eq_refl), (bind_Ok (modify _) _ _ tt w1 eq_refl).
  assert (Hok1 : dispatch_ok w1 tbl kids own p h (ad_name a) anc) by (by destruct Hok; split).
  assert (Hb1 : between (cur w) w w1) by (by apply (between_tls (cur w) w (w_trace w) (w_tls w1) (w_xy w1)); [..|left]).
  assert (Hs1 : lasting reg w w1) by (by eapply lasting_between).
  destruct (dispatch_prepare_run w1 tbl kids own p h (ad_name a) anc reg a Hok1 Hh)
    as (w2 & Hprep & Hco & _ & Hv); [apply Hset|done|].
  assert (Hs2 : lasting reg w w2) by (transitivity w1; [done|by apply cache_only_lasting]).
  destruct (cache_only_rt _ _ Hco) as (_ & _ & Htls & Had & _ & _ & Htr & Hxy).
  assert (Hc2 : cur w2 = cur w) by (unfold cur; by rewrite Htls).
  assert (HI2 : I w2) by (by eapply Hpr, HI).
  pose proof (runnable_listeners I w w2 p h reg anc (ad_name a) arg mods Hs2 Hctx Htame) as Hrun.
  pose proof (runnable_length _ _ _ _ _ _ _ _ _ Hrun) as Hlen. fold evs in Hrun, Hlen.
  rewrite <- Hc2 in Hrun, HI.
  destruct (dispatch_run_run I w2 p h reg f retp arg rid (listener_slots w anc (ad_name a) mods) evs)
    as (w3 & H3 & Hs3 & Hc3 & (tr & Htr3 & Hwov) & Had3 & Hret3);
    [exact HI|exact HI2|exact Hv|exact Hrun|by rewrite Hc2; apply Hset|by eapply ret_fits_settled; [apply Hs2|]|by rewrite <- Hlen|].
  rewrite (bind_Ok _ _ _ (inr (Z.of_nat (length evs))) w3).
  2: { unfold subtree_scope. rewrite (bind_Ok _ _ _ _ _ Hprep). cbn [negb].
       rewrite (bind_Ok _ _ _ _ _ H3). by rewrite Hlen. }
  assert (Hs : settled reg w w3) by (transitivity w2; [apply Hs2|apply Hs3]).
  destruct (se_reg _ _ _ Hs a) as (a' & Ha' & Hsz); [apply Hset|].
  destruct (dispatch_finish_run w3 retp reg a' (Z.of_nat (length evs)))
    as (w4 & H4 & Hc4 & Ht4 & Hb4 & He4 & Hcc & Hs4); [done| | |].
  { rewrite Hsz. by eapply ret_fits_settled. }
  { apply Had3. by rewrite Hxy. }
  assert (Hcode : (if Z.of_nat (length evs) =? 0 then XY_ERR_NOTFOUND else XY_OK) =
    (if decide (evs = []) then XY_ERR_NOTFOUND else XY_OK)).
  { by destruct evs. }
  rewrite Hcode in H4, He4. rewrite Hsz in Hcc.
  exists w4. split_and!; [done|congruence| |done|done|by transitivity w3|].
  - exists tr. split; [|done]. by rewrite Ht4, Htr3, Htr.
  - intros x r Hx. eapply returned_frame; [|by eapply Hret3]. apply Hb4.
    by destruct evs.
Qed.
End call_run.
