(* ===== verification/SelfCall.v ===== *)
(** * Calling one region's own modules

    The exact-region scope of [xy_call_self]: the loop walks the region's
    module list itself, resolves what was never resolved, and runs the
    listeners of that list, each found as the loop reaches it. *)
From S2P Require Import Prelude Words Corm State Env Regions RegionTree RegionWalks Runtime RegionInv RegionSpecs Hooks HookSpecs Subtree Dispatch Vector VectorBuild Prepare SlotRun Call CallRun.

Section self_call.
Context {C : Corm} {CL : CormLaws C} {OS : Os} {CB : Callbacks}.
Implicit Types (w : world) (q : mptr).

Section scope.
Context (reg : aptr) (name : string) (h : Z) (anc : list rptr) (Hh : 0 ≤ h).

(** What the loop finds in order at every module: memory, truthful cells for
    the hook, and a live ancestor chain. *)
Record ready w : Prop := {
  rd_mem : w_mem w = [];
  rd_cells q m : w_mods w !! q = Some m → cell_ok m name h;
  rd_anc a : a ∈ anc → a ∈ dom (w_regions w)
}.

(** What a listener must leave alone besides what [settled] says: the modules'
    links, objects and denies, and the hook's name. *)
Record steady w w' : Prop := {
  st_settled : settled reg w w';
  st_mods q m : w_mods w !! q = Some m → ∃ m', w_mods w' !! q = Some m' ∧
    me_region_next m' = me_region_next m ∧ module_own_symbol m' name = module_own_symbol m name ∧
    chain_denies w' anc m' = chain_denies w anc m;
  st_name a : w_adapters w !! reg = Some a →
    ∃ a', w_adapters w' !! reg = Some a' ∧ ad_name a' = ad_name a;
  st_ready : ready w → ready w'
}.

#[global] Instance steady_preorder : PreOrder steady.
Proof.
  split.
  - intros w. split; [reflexivity|eauto..].
  - intros w1 w2 w3 [S1 M1 N1 R1] [S2 M2 N2 R2]. split.
    + by transitivity w2.
    + intros q m (m' & H1 & ? & ? & ?)%M1. apply M2 in H1 as (m2 & ? & ? & ? & ?).
      exists m2. split_and!; congruence.
    + intros a (a' & H1 & ?)%N1. apply N2 in H1 as (a2 & ? & ?). exists a2. split; congruence.
    + auto.
Qed.

Lemma chain_denies_regions w w' m : w_regions w' = w_regions w → chain_denies w' anc m = chain_denies w anc m.
Proof. intros Hr. unfold chain_denies. by rewrite Hr. Qed.

(** The library's own steps keep it. *)
Lemma steady_between here w w' : between here w w' → steady w w'.
Proof.
  intros Hb. destruct (between_fields _ _ _ Hb) as (Hr & _ & Hm & Ha & _ & Hmem).
  split; [by eapply settled_between| | |].
  - intros q m Hq. exists m. rewrite Hm. split_and!; [done..|]. by apply chain_denies_regions.
  - intros a Hreg. exists a. by rewrite Ha.
  - intros [R1 R2 R3]. split; [congruence|by rewrite Hm|by rewrite Hr].
Qed.

(** Resolving the hook in a module. *)
Lemma steady_resolved w q m m' :
  w_mods w !! q = Some m → same_module m m' → cell_ok m' name h →
  steady w (w <| w_mods ::= <[q := m']> |>).
Proof.
  intros Hq (c & b & ->) Hcell. set (m' := m <| me_fn_cache := c |> <| me_hook_impl_bits := b |>) in *.
  assert (Hl : ∀ x mx, w_mods w !! x = Some mx → ∃ mx', <[q := m']> (w_mods w) !! x = Some mx' ∧
    me_ctx mx' = me_ctx mx ∧ me_region_entry mx' = me_region_entry mx ∧
    me_region_next mx' = me_region_next mx ∧ me_handle mx' = me_handle mx ∧ me_load_path mx' = me_load_path mx).
  { intros x mx Hx. destruct (decide (x = q)) as [->|].
    - rewrite lookup_insert_eq. assert (mx = m) as -> by congruence. by eexists.
    - rewrite lookup_insert_ne by done. by exists mx. }
  split; simpl.
  - split; simpl; eauto. intros x mx (mx' & ? & ? & ? & _)%Hl. eauto.
  - intros x mx (mx' & ? & _ & _ & ? & Hhd & Hlp)%Hl. exists mx'. split_and!; [done|done| |].
    + unfold module_own_symbol, module_symbol_is_local. by rewrite Hhd.
    + unfold chain_denies. by rewrite Hlp.
  - eauto.
  - intros [R1 R2 R3]. split; simpl; [done| |done]. intros x mx. destruct (decide (x = q)) as [->|].
    + rewrite lookup_insert_eq. by intros [= <-].
    + rewrite lookup_insert_ne by done. apply R2.
Qed.

Lemma steady_frames : io_frames reg steady.
Proof.
  split.
  - by intros w w' [].
  - intros w1 w2 w3 ? ?. by transitivity w2.
  - intros w t. eapply (steady_between (cur w)), between_trace.
  - intros w p b b' Hb Hl. by eapply (steady_between (cur w)), between_bufs.
Qed.

Lemma steady_listener w w' q m :
  steady w w' → w_mods w !! q = Some m → listener w' anc name q = listener w anc name q.
Proof.
  intros Hs Hq. destruct (st_mods _ _ Hs q m Hq) as (m' & Hq' & _ & Ho & Hd).
  destruct (se_mods _ _ _ (st_settled _ _ Hs) q m Hq) as (m2 & Hq2 & Hc & _).
  assert (m2 = m') as -> by congruence. unfold listener. rewrite Hq, Hq'. simpl. by rewrite Hc, Hd, Ho.
Qed.

(** The listener at [a] is well behaved wherever the loop may reach it. *)
Definition steadfast w (a : addr) (arg : Z) : Prop :=
  ∀ w0, steady w w0 → ready w0 → answers steady a arg w0.

(** ** One module *)

Lemma listens_run w q m :
  ready w → w_mods w !! q = Some m →
  ∃ m1, same_module m m1 ∧ cell_ok m1 name h ∧
    (if module_has_hook_implemented m h then mret (inr true)
     else r ← fn_cache_resolve q h name;
          match r with
          | FnOom => mret (inl XY_ERR_INVALID)
          | FnNone => mret (inr false)
          | FnFound _ => m ← mget q; mret (inr (module_has_hook_implemented m h))
          end : M world (Z + bool)) w =
      Ok (inr (bool_decide (is_Some (module_own_symbol m name)))) (w <| w_mods ::= <[q := m1]> |>) ∧
    (∀ a, module_own_symbol m name = Some a → me_fn_cache m1 !! Z.to_nat h = Some (FnPtr a)).
Proof using Hh.
  intros [Hmem Hcells _] Hq. pose proof (Hcells _ _ Hq) as Hcell.
  destruct (module_has_hook_implemented m h) eqn:Hhas.
  - destruct (cell_ok_has m name h Hcell Hhas) as (a & Ha & Hown). exists m. rewrite Hown.
    split_and!; [apply same_module_refl|done| |by intros a' [= <-]].
    rewrite bool_decide_eq_true_2 by done. unfold field_over; simpl. rewrite insert_id by done. by destruct w.
  - set (hooks := λ n, if decide (n = name) then Some h else None).
    assert (Hhn : hooks name = Some h) by (unfold hooks; by rewrite decide_True).
    destruct (fn_cache_resolve_run w q m hooks name h Hmem Hq) as (m1 & Hres & Hsame & Hok & Hc).
    { intros n1 n2 x. unfold hooks. repeat case_decide; congruence. }
    { done. }
    { intros n x. unfold hooks. case_decide; [intros [= <-]; by subst|done]. }
    pose proof (proj2 (Hok name h Hhn)) as Hcell1. exists m1. split_and!; [done|done| |].
    + rewrite (bind_Ok _ _ _ _ _ Hres). destruct (module_own_symbol m name) as [a|] eqn:Hown; simpl; [|done].
      erewrite bind_Ok by (apply mget_Ok; simpl; by rewrite lookup_insert_eq).
      unfold cell_ok in Hcell1. rewrite Hc in Hcell1. simpl in Hcell1. by rewrite (proj2 Hcell1).
    + intros a Hown. by rewrite Hc, Hown.
Qed.

(** The module's listener, run in the region that is current. *)
Lemma self_run_one w f retp arg q m c x a (k : M world (Z + Z)) ran :
  w_mods w !! q = Some m → w_ctxs w !! c = Some x → me_fn_cache m !! Z.to_nat h = Some (FnPtr a) →
  steadfast w a arg → ready w → ret_fits w retp (af_ret_size f) →
  ∃ w', (m ← mget q;
         inject_ctx c reg m;;
         cell ← deref (me_fn_cache m !! Z.to_nat h);
         fn ← call_target cell;
         adapter_call f retp fn arg;;
         xy_last_publish ran retp reg;;
         k) w = k w' ∧
    steady w w' ∧ cur w' = cur w ∧ ran_as w w' (EvHook a arg (cur w)) ∧
    returned f retp a arg w' ∧ x_adapter (w_xy w') = Some reg.
Proof.
  intros Hq Hc Hcell Ha Hrd Hf. rewrite (bind_Ok _ _ _ _ _ (mget_Ok _ _ _ Hq)).
  destruct (inject_ctx_run (cur w) w c x reg m Hc) as (cs & Hin & Hcs). rewrite (bind_Ok _ _ _ _ _ Hin).
  set (w1 := w <| w_ctxs := cs |>). rewrite Hcell.
  rewrite (bind_Ok (deref _) _ _ (FnPtr a) w1) by done. rewrite (bind_Ok (call_target _) _ _ (Some a) w1) by done.
  assert (H1 : steady w w1) by (by eapply steady_between).
  set (wt := w1 <| w_trace ::= (λ t, t ++ [EvHook a arg (cur w1)]) |>).
  assert (Ht : steady w wt) by (transitivity w1; [done|eapply (steady_between (cur w1)), between_trace]).
  destruct (adapter_call_gen reg steady w1 f retp a arg) as (w2 & H2 & Hs2 & Hc2 & Htr & Hret).
  { apply steady_frames. }
  { apply Ha; [done|]. by apply (st_ready _ _ Ht). }
  { eapply ret_fits_settled; [apply (st_settled _ _ H1)|done]. }
  rewrite (bind_Ok _ _ _ _ _ H2). set (w3 := after_publish w2 ran retp reg).
  rewrite (bind_Ok (xy_last_publish _ _ _) _ _ tt w3) by done.
  exists w3. split_and!; [done| |done|exact Htr|exact Hret|done].
  transitivity w2; [by transitivity w1|]. apply (steady_between (cur w2)).
  by apply (between_tls (cur w2) w2 (w_trace w2) (w_tls w3) (w_xy w3)); [..|left].
Qed.

(** Contexts of the modules of a list are live. *)
Definition list_live w (l : list mptr) : Prop :=
  ∀ q m c, q ∈ l → w_mods w !! q = Some m → me_ctx m = Some c → c ∈ dom (w_ctxs w).

Lemma list_live_steady w w' l :
  steady w w' → (∀ q, q ∈ l → q ∈ dom (w_mods w)) → list_live w l → list_live w' l.
Proof.
  intros Hs Hd Hl q m' c Hq Hm' Hc. destruct (elem_of_dom (w_mods w) q) as [[m Hm] _]; [by apply Hd|].
  destruct (se_mods _ _ _ (st_settled _ _ Hs) q m Hm) as (m2 & Hm2 & Hc2 & _).
  apply (se_ctxs _ _ _ (st_settled _ _ Hs)). eapply Hl; [done|done|congruence].
Qed.

Lemma chain_steady w w' o l :
  steady w w' → chain (w_mods w) me_region_next o l → chain (w_mods w') me_region_next o l.
Proof.
  intros Hs Hch. eapply chain_frame; [done|]. intros q m _ Hq.
  destruct (st_mods _ _ Hs q m Hq) as (m' & ? & ? & _). eauto.
Qed.

Lemma listeners_steady w w' arg l :
  steady w w' → cur w' = cur w → list_live w l → (∀ q, q ∈ l → q ∈ dom (w_mods w)) →
  (∀ q m, q ∈ l → w_mods w !! q = Some m → me_region_entry m = (cur w).2) →
  listener_events w' anc name arg l = listener_events w anc name arg l.
Proof.
  intros Hs Hcur Hl Hd Hown. apply list_omap_ext, Forall_Forall2_diag, Forall_forall. intros q Hq.
  destruct (elem_of_dom (w_mods w) q) as [[m Hm] _]; [by apply Hd|].
  unfold listener_event. rewrite (steady_listener w w' q m Hs Hm), Hm.
  destruct (se_mods _ _ _ (st_settled _ _ Hs) q m Hm) as (m2 & -> & Hc2 & Hr2). simpl. rewrite Hc2.
  destruct (me_ctx m) as [c|] eqn:Hc; [|done]. simpl.
  destruct (elem_of_dom (w_ctxs w) c) as [[x Hx] _]; [by eapply Hl|].
  pose proof (se_ctxs _ _ _ (st_settled _ _ Hs) c (elem_of_dom_2 _ _ _ Hx)) as [x' Hx']%elem_of_dom.
  rewrite Hx, Hx'. simpl. unfold entered. by rewrite Hr2, Hcur, !bool_decide_eq_true_2 by (by eapply Hown).
Qed.

(** What the loop still needs of the list ahead of it. *)
Record ahead w (p : rptr) (rid : Z) (retp : option bptr) (n arg : Z) (l : list mptr) : Prop := {
  ah_ready : ready w;
  ah_live : list_live w l;
  ah_cur : cur w = (rid, Some p);
  ah_fits : ret_fits w retp n;
  ah_name : ∃ a, w_adapters w !! reg = Some a ∧ ad_name a = name;
  ah_own q m : q ∈ l → w_mods w !! q = Some m → me_region_entry m = Some p;
  ah_dom q : q ∈ l → q ∈ dom (w_mods w);
  ah_good q a : q ∈ l → listener w anc name q = Some a → steadfast w a arg
}.

Lemma ahead_steady w w' p rid retp n arg q l :
  steady w w' → cur w' = cur w → ahead w p rid retp n arg (q :: l) → ahead w' p rid retp n arg l.
Proof.
  intros Hs Hc [Hr Hl Hcu Hf (a & Ha & Hn) Ho Hd Hg].
  assert (Hd' : ∀ x, x ∈ l → x ∈ dom (w_mods w)) by (intros; apply Hd; by right).
  split.
  - by apply (st_ready _ _ Hs).
  - eapply list_live_steady; [done|done|]. intros x m c Hx. apply Hl. by right.
  - congruence.
  - eapply ret_fits_settled; [apply (st_settled _ _ Hs)|done].
  - destruct (st_name _ _ Hs a Ha) as (a' & ? & ?). exists a'. split; congruence.
  - intros x m' Hx Hm'. destruct (elem_of_dom (w_mods w) x) as [[m Hm] _]; [by apply Hd'|].
    destruct (se_mods _ _ _ (st_settled _ _ Hs) x m Hm) as (m2 & Hm2 & _ & Hr2).
    assert (m2 = m') as -> by congruence. rewrite Hr2. eapply Ho; [by right|done].
  - intros x Hx. destruct (elem_of_dom (w_mods w) x) as [[m Hm] _]; [by apply Hd'|].
    destruct (st_mods _ _ Hs x m Hm) as (m' & ? & _). by eapply elem_of_dom_2.
  - intros x y Hx Hy w0 Hw0 Hr0. destruct (elem_of_dom (w_mods w) x) as [[m Hm] _]; [by apply Hd'|].
    rewrite (steady_listener w w' x m Hs Hm) in Hy. apply (Hg x y); [by right|done| |done].
    by transitivity w'.
Qed.

(** What a part of the loop that ran [evs] leaves. *)
Record looped (f : adapter_fn) (retp : option bptr) (arg : Z) (evs : list event) w w' : Prop := {
  lp_steady : steady w w';
  lp_cur : cur w' = cur w;
  lp_ran : ran_all w w' evs;
  lp_adapter : x_adapter (w_xy w) = Some reg → x_adapter (w_xy w') = Some reg;
  lp_bufs : evs = [] → w_bufs w' = w_bufs w;
  lp_ret a r : last evs = Some (EvHook a arg r) → returned f retp a arg w'
}.

Lemma looped_quiet f retp arg evs w w1 w' :
  steady w w1 → cur w1 = cur w → w_trace w1 = w_trace w → w_xy w1 = w_xy w → w_bufs w1 = w_bufs w →
  looped f retp arg evs w1 w' → looped f retp arg evs w w'.
Proof.
  intros Hs Hc Ht Hx Hb [S' C' (tr & Htr & Hw) A' B' R'].
  split; [by transitivity w1|congruence| | | |done].
  - exists tr. split; [congruence|done].
  - rewrite <- Hx. done.
  - rewrite <- Hb. done.
Qed.

Lemma looped_event f retp arg a r evs w w1 w' :
  steady w w1 → cur w1 = cur w → ran_as w w1 (EvHook a arg r) → returned f retp a arg w1 →
  x_adapter (w_xy w1) = Some reg →
  looped f retp arg evs w1 w' → looped f retp arg (EvHook a arg r :: evs) w w'.
Proof.
  intros Hs Hc (inner & Ht) Hr Hx [S' C' (tr & Htr & Hw) A' B' R'].
  split; [by transitivity w1|congruence| |by intros _; apply A'|done|].
  - exists (EvHook a arg r :: inner ++ tr). split; [|by exists inner, tr].
    rewrite Htr, Ht. by rewrite <- app_assoc.
  - intros a' r' Hlast. destruct evs as [|ev evs]; [|by eapply R'].
    injection Hlast as <- _. eapply returned_frame; [by apply B'|done].
Qed.

Lemma self_loop_run p rid retp f arg : ∀ l fuel o ran w,
  ahead w p rid retp (af_ret_size f) arg l → chain (w_mods w) me_region_next o l →
  (length l ≤ fuel)%nat → 0 ≤ ran → ran + Z.of_nat (length l) < 2 ^ 32 →
  let evs := listener_events w anc name arg l in
  ∃ w', self_loop fuel retp reg f h arg anc o ran w = Ok (inr (ran + Z.of_nat (length evs))) w' ∧
    looped f retp arg evs w w'.
Proof.
  induction l as [|q l IH]; intros fuel o ran w Hah Hch Hfuel H0 Hlt.
  { simpl in Hch. subst o. exists w. split; [destruct fuel; simpl; by rewrite Z.add_0_r|].
    split; [reflexivity|done| |done..]. exists []. by rewrite app_nil_r. }
  destruct Hch as (-> & m & Hq & Hch). destruct fuel as [|n]; [simpl in Hfuel; lia|].
  simpl in Hfuel, Hlt.
  (* the rest of the loop, from a later state *)
  assert (Hrest : ∀ w1 ran1, steady w w1 → cur w1 = cur w → 0 ≤ ran1 → ran1 + Z.of_nat (length l) < 2 ^ 32 →
    ∃ w', (m ← mget q; self_loop n retp reg f h arg anc (me_region_next m) ran1) w1 =
        Ok (inr (ran1 + Z.of_nat (length (listener_events w anc name arg l)))) w' ∧
      looped f retp arg (listener_events w anc name arg l) w1 w').
  { intros w1 ran1 Hs1 Hc1 Hr0 Hr1. destruct (st_mods _ _ Hs1 q m Hq) as (m1 & Hq1 & Hn1 & _).
    rewrite (bind_Ok _ _ _ _ _ (mget_Ok _ _ _ Hq1)), Hn1.
    rewrite <- (listeners_steady w w1 arg l Hs1 Hc1) by
      first [intros; apply (ah_dom _ _ _ _ _ _ _ Hah); by right
            |intros ??? Hx; apply (ah_live _ _ _ _ _ _ _ Hah); by right
            |intros ?? Hx Hm; rewrite (ah_cur _ _ _ _ _ _ _ Hah); eapply (ah_own _ _ _ _ _ _ _ Hah); [by right|exact Hm]].
    apply IH; [by eapply ahead_steady|by eapply chain_steady|lia|done|done]. }
  (* nothing of [q] runs *)
  assert (Hskip : ∀ w1, steady w w1 → cur w1 = cur w → w_trace w1 = w_trace w → w_xy w1 = w_xy w →
    w_bufs w1 = w_bufs w → listener w anc name q = None →
    ∃ w', (m ← mget q; self_loop n retp reg f h arg anc (me_region_next m) ran) w1 =
        Ok (inr (ran + Z.of_nat (length (listener_events w anc name arg (q :: l))))) w' ∧
      looped f retp arg (listener_events w anc name arg (q :: l)) w w').
  { intros w1 Hs1 Hc1 Ht1 Hx1 Hb1 Hnone.
    assert (listener_events w anc name arg (q :: l) = listener_events w anc name arg l) as ->.
    { unfold listener_events. cbn [omap list_omap]. unfold listener_event at 1. by rewrite Hnone. }
    destruct (Hrest w1 ran) as (w' & Hrun & Hlp); [done|done|lia|lia|].
    exists w'. split; [exact Hrun|by apply (looped_quiet f retp arg _ w w1 w')]. }
  assert (Hself : ∃ w', self_loop (S n) retp reg f h arg anc (Some q) ran w =
    Ok (inr (ran + Z.of_nat (length (listener_events w anc name arg (q :: l))))) w' ∧
    looped f retp arg (listener_events w anc name arg (q :: l)) w w'); [|exact Hself].
  cbn [self_loop]. rewrite (bind_Ok _ _ _ _ _ (mget_Ok _ _ _ Hq)). cbv zeta.
  assert (Hlis : listener w anc name q =
    if bool_decide (me_ctx m = None) || chain_denies w anc m then None else module_own_symbol m name)
    by (unfold listener; by rewrite Hq).
  destruct (me_ctx m) as [c|] eqn:Hctx; [|by apply Hskip].
  destruct Hah as [Hrd Hlive Hcur Hfits (ad & Had & Hname) Hown Hdom Hgood].
  rewrite (bind_Ok _ _ _ _ _ (module_denied_run w anc m (rd_anc _ Hrd))).
  destruct (chain_denies w anc m) eqn:Hden; [by apply Hskip|].
  rewrite (bind_Ok _ _ _ _ _ (aget_Ok _ _ _ Had)), Hname.
  destruct (listens_run w q m Hrd Hq) as (m1 & Hsame & Hcell1 & Hl & Hptr). rewrite (bind_Ok _ _ _ _ _ Hl).
  pose proof (steady_resolved w q m m1 Hq Hsame Hcell1) as Hs1. set (w1 := w <| w_mods ::= <[q := m1]> |>) in *.
  destruct (module_own_symbol m name) as [a|] eqn:Hsym; [|by apply Hskip].
  rewrite bool_decide_eq_true_2 by done.
  assert (Hq1 : w_mods w1 !! q = Some m1) by (simpl; by rewrite lookup_insert_eq).
  destruct (elem_of_dom (w_ctxs w) c) as [[x Hx] _]; [by apply (Hlive q m); [left|..]|].
  destruct (self_run_one w1 f retp arg q m1 c x a
    (m ← mget q; self_loop n retp reg f h arg anc (me_region_next m) (u32 (ran + 1))) (u32 (ran + 1)))
    as (w2 & H2 & Hs2 & Hc2 & Htr2 & Hret2 & Hx2); [done|done|by apply Hptr| |by apply (st_ready _ _ Hs1)|done|].
  { intros w0 Hw0 Hr0. apply (Hgood q a); [by left|done| |done]. by transitivity w1. }
  assert (Hs02 : steady w w2) by (by transitivity w1).
  assert (Hu : u32 (ran + 1) = ran + 1) by (unfold u32; apply Z.mod_small; lia).
  destruct (Hrest w2 (u32 (ran + 1))) as (w3 & H3 & Hlp); [done|done|lia|lia|].
  assert (Hevs : listener_events w anc name arg (q :: l) =
    EvHook a arg (cur w) :: listener_events w anc name arg l).
  { unfold listener_events. cbn [omap list_omap]. rewrite (listener_event_Some w anc name arg q a m c x) by done.
    unfold entered. by rewrite bool_decide_eq_true_2 by (rewrite Hcur; simpl; apply (Hown q m); [by left|done]). }
  exists w3. split.
  - rewrite H2, H3, Hevs, Hu. simpl. do 2 f_equal. lia.
  - rewrite Hevs. apply (looped_event f retp arg a (cur w) _ w w2 w3); done.
Qed.
End scope.

(** ** The whole call *)

Lemma xy_call_self_runs w reg a h f rid p anc own retp arg fuel :
  call_setting w reg a h f rid p anc → 0 ≤ h →
  mods_wf (w_regions w) (w_mods w) own → p ∈ dom (w_regions w) →
  ready (ad_name a) h anc w → list_live w (own p) → gate_shut w anc (ad_name a) = false →
  ret_fits w retp (ad_ret_size a) → ret_fits w retp (af_ret_size f) →
  (∀ q x, q ∈ own p → listener w anc (ad_name a) q = Some x → steadfast reg (ad_name a) h anc w x arg) →
  (length (own p) ≤ fuel)%nat → Z.of_nat (length (own p)) < 2 ^ 32 →
  let evs := listener_events w anc (ad_name a) arg (own p) in
  ∃ w', xy_call_self fuel retp (Some reg) arg w =
      Ok (if decide (evs = []) then XY_ERR_NOTFOUND else XY_OK) w' ∧
    cur w' = cur w ∧ ran_all w w' evs ∧
    w_err w' = (if decide (evs = []) then XY_ERR_NOTFOUND else XY_OK) ∧
    concluded w' retp reg (Z.of_nat (length evs)) (ad_ret_size a) ∧
    (∀ x r, last evs = Some (EvHook x arg r) → returned f retp x arg w').
Proof.
  intros Hset Hh Hms Hp Hrd Hlive Hg Hfa Hff Hgood Hfuel Hlt evs. unfold xy_call_self.
  rewrite (xy_dispatch_gate w reg a h f rid p anc Hset) by done. rewrite Hg.
  pose proof Hp as [e He]%elem_of_dom.
  set (w1 := w <| w_tls ::= (λ t, t <| t_last_ran := 0 |> <| t_last_retp := ret_loc_of retp |>) |>
               <| w_xy ::= (λ x, x <| x_adapter := Some reg |>) |>).
  rewrite (bind_Ok (tls_mod _) _ _ tt _ eq_refl), (bind_Ok (modify _) _ _ tt w1 eq_refl).
  assert (Hs1 : steady reg (ad_name a) h anc w w1).
  { apply (steady_between _ _ _ _ (cur w)). by apply (between_tls (cur w) w (w_trace w) (w_tls w1) (w_xy w1)); [..|left]. }
  destruct (self_loop_run reg (ad_name a) h anc Hh p rid retp f arg (own p) fuel (re_mods_head e) 0 w1)
    as (w2 & H2 & Hlp); [|by apply (mw_next _ _ _ Hms)|done|lia|lia|].
  { split; try done.
    - by apply (st_ready _ _ _ _ _ _ Hs1).
    - apply Hset.
    - exists a. split; [apply Hset|done].
    - intros q m Hq Hm. by apply (mw_entry _ _ _ Hms p q m).
    - intros q Hq. by eapply chain_dom; [apply (mw_next _ _ _ Hms p e He)|].
    - intros q x Hq Hx w0 Hw0. apply (Hgood q x Hq Hx). by transitivity w1. }
  rewrite (bind_Ok _ _ _ (inr (Z.of_nat (length evs))) w2).
  2: { assert (He1 : w_regions w1 !! p = Some e) by done.
       rewrite (bind_Ok _ _ _ _ _ (rget_Ok _ _ _ He1)). exact H2. }
  destruct Hlp as [Hst Hc2 (tr & Htr & Hw) Hx2 _ Hret].
  assert (Hs : settled reg w w2) by (transitivity w1; [apply Hs1|apply Hst]).
  destruct (se_reg _ _ _ Hs a) as (a' & Ha' & Hsz); [apply Hset|].
  destruct (dispatch_finish_run w2 retp reg a' (Z.of_nat (length evs)))
    as (w4 & H4 & Hc4 & Ht4 & Hb4 & He4 & Hcc & _); [done|rewrite Hsz; by eapply ret_fits_settled|by apply Hx2|].
  assert (Hcode : (if Z.of_nat (length evs) =? 0 then XY_ERR_NOTFOUND else XY_OK) =
    (if decide (evs = []) then XY_ERR_NOTFOUND else XY_OK)) by (by destruct evs).
  rewrite Hcode in H4, He4. rewrite Hsz in Hcc.
  exists w4. split_and!; [done|by rewrite Hc4, Hc2| |done|done|].
  - exists tr. split; [|done]. by rewrite Ht4, Htr.
  - intros x r Hx. eapply returned_frame; [|by eapply Hret]. apply Hb4. by destruct evs.
Qed.
End self_call.
