(* ===== verification/Sample.v ===== *)
(** * A runtime with modules

    A concrete runtime the dispatch examples evaluate on: the root region and
    region [sample_id] below it, module 10 in the root, modules 11 and 12 in
    the region, and one registered hook, which 10 and 11 define themselves and
    12 only sees through a dependency. *)
From S2P Require Import Prelude Words Corm State Regions RegionTree Runtime Env Paths RegionApi RegionInv RegionSpecs Boot RegionProps Hooks HookSpecs Subtree Dispatch Vector VectorBuild Prepare SlotRun Call CallRun.

Local Existing Instances gmap_corm gmap_corm_laws.

(** Handles 30, 31 and 32 are loaded at 300, 310 and 320; [look_at] resolves
    to 50, 51 and, through 31, to 51 again. *)
Definition sample_os : Os := {|
  os_realpath p := Some p;
  os_getenv _ := None;
  os_stat _ := None;
  os_copy _ _ _ := None;
  os_main_handle := None;
  os_dlsym h s :=
    if bool_decide (s = "look_at") then
      match h with
      | 30%positive => Some 50%positive
      | 31%positive | 32%positive => Some 51%positive
      | _ => None
      end
    else None;
  os_dladdr a := if bool_decide (a = 50%positive) then Some 300 else Some 310;
  os_dlinfo h := Some (Zpos h * 10);
  os_u8_symbol _ := 0;
  os_state_size _ := 0;
  os_ctx_abi _ := 0;
  os_ctx_ptr _ := None;
  os_adapter_address _ := 0
|}.

(** A listener answers its address and its argument. *)
Definition sample_callbacks : Callbacks := {|
  cb_dlopen _ := mret None;
  cb_install _ := mret tt;
  cb_hook a arg := mret [Zpos a; arg];
  cb_claim _ _ _ _ := mret (0, 0);
  cb_each _ _ _ _ := mret 0;
  cb_scope _ _ := mret 0;
  cb_cleanup _ _ := mret tt
|}.
Local Existing Instances sample_os sample_callbacks.

Definition sample_mod (h : handle) (ctx : cptr) (re : rptr) (next prev : option mptr) : mod_entry :=
  mod_entry_zero <| me_handle := Some h |> <| me_ctx := Some ctx |>
    <| me_region_entry := Some re |> <| me_region_next := next |> <| me_region_prev := prev |>.

Definition sample_fn : adapter_fn := AdapterFn 4 None.
Definition sample_adapter : adapter := Adapter "look_at" 8 4 (Some sample_fn) 0.

Definition sample_world : world :=
  claimed_world
    <| w_regions ::= alter (λ e, e <| re_mods_head := Some 10%positive |>
                                   <| re_mods_tail := Some 10%positive |>) 1%positive |>
    <| w_regions ::= alter (λ e, e <| re_mods_head := Some 11%positive |>
                                   <| re_mods_tail := Some 12%positive |>) 2%positive |>
    <| w_mods := {[10%positive := sample_mod 30 20 1 None None;
                   11%positive := sample_mod 31 21 2 (Some 12%positive) None;
                   12%positive := sample_mod 32 22 2 None (Some 11%positive)]} |>
    <| w_ctxs := {[20%positive := xy_ctx_zero;
                   21%positive := xy_ctx_zero <| x_region_id := sample_id |>;
                   22%positive := xy_ctx_zero <| x_region_id := sample_id |>]} |>
    <| w_adapters := {[40%positive := sample_adapter]} |>
    <| w_bufs := {[60%positive := [9; 9; 9; 9]; 61%positive := [1; 2; 3; 4; 5]]} |>
    <| w_rt ::= (λ r, r <| rt_hook_id_hd := Some {["look_at" := 0]} |>
                        <| rt_hook_id_counter := 1 |>
                        <| rt_adapter_by_id := [Some 40%positive] |>) |>
    <| w_tls ::= (λ t, t <| t_current_region_id := 0 |>
                         <| t_current_region_entry := Some 1%positive |>) |>.

(** The two regions and what is in them. *)
Definition sample_own (p : rptr) : list mptr :=
  match p with
  | 1%positive => [10%positive]
  | 2%positive => [11%positive; 12%positive]
  | _ => []
  end.

Lemma sample_domain : dom (w_regions sample_world) = {[1%positive; 2%positive]}.
Proof. by vm_compute. Qed.

Lemma sample_tree : ∃ tbl kids, tree_wf (w_regions sample_world) tbl kids ∧
  kids 1%positive = [2%positive] ∧ kids 2%positive = [].
Proof.
  assert (regions_inv sample_world) as (tbl & kids & _ & Hwf & _).
  { apply (regions_inv_view claimed_world); [vm_compute; reflexivity|vm_compute; reflexivity|vm_compute; discriminate|apply claimed_booted]. }
  exists tbl, kids. split; [done|].
  assert (H : ∀ p e l, w_regions sample_world !! p = Some e →
    chain (w_regions sample_world) re_sibling_next (re_children_head e) l → kids p = l).
  { intros p e l He Hl. eapply chain_det; [|exact Hl]. by apply (tw_kids _ _ _ Hwf). }
  split; eapply H; try by vm_compute.
  - vm_compute. split; [reflexivity|]. by eexists.
Qed.

Lemma sample_cases p : p ∈ dom (w_regions sample_world) → p = 1%positive ∨ p = 2%positive.
Proof. rewrite sample_domain. set_solver. Qed.

(** The state of each region and module, evaluated. *)
Lemma sample_root : ∃ e, w_regions sample_world !! 1%positive = Some e ∧
  re_mods_head e = Some 10%positive ∧ re_mods_tail e = Some 10%positive ∧
  re_subtree_mods_dirty e = true ∧ re_hook_dispatch e = [] ∧ re_dispatch_gen e ≠ 0.
Proof. eexists. split; [vm_compute; reflexivity|]. by vm_compute. Qed.

Lemma sample_child : ∃ e, w_regions sample_world !! 2%positive = Some e ∧
  re_mods_head e = Some 11%positive ∧ re_mods_tail e = Some 12%positive.
Proof. eexists. split; [vm_compute; reflexivity|]. by vm_compute. Qed.

Lemma sample_root_dom : 1%positive ∈ dom (w_regions sample_world).
Proof. destruct sample_root as (e & He & _). by eapply elem_of_dom_2. Qed.

Lemma sample_chain_dom a : a ∈ [1%positive] → a ∈ dom (w_regions sample_world).
Proof. intros ->%list_elem_of_singleton. apply sample_root_dom. Qed.

Lemma sample_mods_cases q m : w_mods sample_world !! q = Some m →
  q = 10%positive ∧ m = sample_mod 30 20 1 None None ∨
  q = 11%positive ∧ m = sample_mod 31 21 2 (Some 12%positive) None ∨
  q = 12%positive ∧ m = sample_mod 32 22 2 None (Some 11%positive).
Proof.
  unfold sample_world; simpl.
  intros [[<- <-]|[_ H]]%lookup_insert_Some; [by left|right].
  apply lookup_insert_Some in H as [[<- <-]|[_ H]]; [by left|right].
  by apply lookup_singleton_Some in H as [<- <-].
Qed.

Lemma sample_mods_wf : mods_wf (w_regions sample_world) (w_mods sample_world) sample_own.
Proof.
  destruct sample_root as (e1 & He1 & Hh1 & Ht1 & _), sample_child as (e2 & He2 & Hh2 & Ht2).
  assert (Hcase : ∀ p e, w_regions sample_world !! p = Some e →
    p = 1%positive ∧ e = e1 ∨ p = 2%positive ∧ e = e2).
  { intros p e He. pose proof (elem_of_dom_2 _ _ _ He) as Hp. rewrite sample_domain in Hp.
    set_unfold in Hp. destruct Hp as [->| ->]; [left|right]; split; congruence. }
  split.
  - intros p e [[-> ->]|[-> ->]]%Hcase; rewrite ?Hh1, ?Hh2; repeat (split; [done|eexists; split; [done|]]); done.
  - intros p e [[-> ->]|[-> ->]]%Hcase; rewrite ?Ht1, ?Ht2; repeat (split; [done|eexists; split; [done|]]); done.
  - intros p q m [-> | ->]%sample_cases Hq Hm; unfold sample_own in Hq; set_unfold in Hq;
      clear - Hq Hm; destruct (sample_mods_cases q m Hm) as [[-> ->]|[[-> ->]|[-> ->]]]; clear Hm;
      first [reflexivity|destruct_or? Hq; (contradiction || discriminate)].
Qed.

Lemma sample_hooks name h : hook_ids sample_world name = Some h → name = "look_at" ∧ h = 0.
Proof. unfold hook_ids; simpl. intros [<- <-]%lookup_singleton_Some. done. Qed.

Lemma sample_dispatch_ok : ∃ tbl kids,
  dispatch_ok sample_world tbl kids sample_own 1%positive 0 "look_at" [1%positive] ∧
  preorder 65 kids sample_own 1%positive = [10; 11; 12]%positive.
Proof.
  destruct sample_tree as (tbl & kids & Hwf & Hk1 & Hk2). exists tbl, kids.
  split; [|by rewrite preorder_S, Hk1; cbn [map]; rewrite preorder_S, Hk2].
  destruct sample_root as (e1 & He1 & _ & _ & Hd & Hhd & Hg). split.
  - done.
  - apply sample_mods_wf.
  - intros p q [-> | ->]%sample_cases Hq; unfold sample_own in Hq; set_unfold in Hq;
      destruct_or?; subst; by vm_compute.
  - by vm_compute.
  - apply sample_root_dom.
  - apply sample_chain_dom.
  - split.
    + intros n1 n2 h [-> _]%sample_hooks [-> _]%sample_hooks. done.
    + intros q m Hq name h [-> ->]%sample_hooks. split; [done|].
      by destruct (sample_mods_cases q m Hq) as [[-> ->]|[[-> ->]|[-> ->]]].
  - by vm_compute.
  - intros e He. rewrite He1 in He. injection He as <-. congruence.
  - intros e c He. rewrite He1 in He. injection He as <-. by rewrite Hhd.
  - intros e c He. rewrite He1 in He. injection He as <-. by rewrite Hhd.
  - intros e He. rewrite He1 in He. by injection He as <-.
Qed.

Lemma sample_setting :
  call_setting sample_world 40%positive sample_adapter 0 sample_fn 0 1%positive [1%positive].
Proof.
  split; [by vm_compute..| | | | |].
  - intros i p Hp. destruct i as [|i]; [|done]. injection Hp as <-. by vm_compute.
  - by eexists.
  - by vm_compute.
  - by vm_compute.
  - apply sample_chain_dom.
Qed.

(** Listeners that ask the library whether region [sample_id] exists, and answer
    what it says; they rely on its regions being there. *)
Definition asking_callbacks : Callbacks := {|
  cb_dlopen _ := mret None;
  cb_install _ := mret tt;
  cb_hook a _ := code ← xy_region_exists sample_id 8; mret [Zpos a; code];
  cb_claim _ _ _ _ := mret (0, 0);
  cb_each _ _ _ _ := mret 0;
  cb_scope _ _ := mret 0;
  cb_cleanup _ _ := mret tt
|}.
Definition sample_regions (w : world) : Prop :=
  rt_inited (w_rt w) = true ∧ rt_region_hd (w_rt w) = rt_region_hd (w_rt sample_world).

Lemma sample_regions_exist w :
  sample_regions w → xy_region_exists sample_id 8 w = Ok XY_OK (w <| w_err := XY_OK |>).
Proof.
  intros [Hi Ht]. unfold xy_region_exists. rewrite with_runtime_run by done.
  assert (Hl : region_lookup sample_id 8 w = Ok (Some 2%positive) w).
  { unfold region_lookup, table, rt_get, mbind, M_bind, gets. rewrite Ht. by vm_compute. }
  by rewrite (bind_Ok _ _ _ _ _ Hl).
Qed.

Lemma sample_regions_hosted here : hosted here sample_regions.
Proof. intros w w' Hb. unfold sample_regions. destruct (between_fields _ _ _ Hb) as (_ & _ & _ & _ & -> & _). done. Qed.

Lemma sample_regions_prepared reg h p anc : prepared reg h p anc sample_regions.
Proof. intros w w' _ Hco. unfold sample_regions. destruct (cache_only_rt _ _ Hco) as [-> _]. done. Qed.

Lemma asking_tame vp h reg w a arg :
  tame (CB := asking_callbacks) sample_regions vp h reg w a arg.
Proof.
  intros w0 _ HI. exists [Zpos a; XY_OK], (w0 <| w_err := XY_OK |>), [].
  split; [|split_and!; try done; [|by rewrite app_nil_r]].
  - unfold cb_hook, asking_callbacks. by rewrite (bind_Ok _ _ _ _ _ (sample_regions_exist _ HI)).
  - split; [split; [split; simpl; eauto|intros c x Hx; by exists x]|by split].
Qed.

(** Listeners that change nothing. *)
Lemma sample_tame (I : world → Prop) p h reg a arg : tame I p h reg sample_world a arg.
Proof.
  intros w0 _ _. exists [Zpos a; arg], w0, []. split_and!; [done|reflexivity|done|done|].
  by rewrite app_nil_r.
Qed.
