(* ===== verification/Registry.v ===== *)
(** * The registry of hooks

    [xy_areg] hands out hook ids from a counter and keeps three tables in
    step: adapters by name, ids by name, adapters by id.  [registry_inv] is
    what they promise together with the modules' caches, and every
    registration keeps it. *)
From S2P Require Import Prelude Words Corm State Env Regions Runtime RegionSpecs Hooks HookSpecs Dispatch Vector VectorBuild Call.

Section registry.
Context {C : Corm} {CL : CormLaws C} {OS : Os} {CB : Callbacks}.
Implicit Types (w : world) (m : mod_entry) (q : mptr).

(** ** Warming one module's cache *)

(** No cell of an id from [c] up is resolved. *)
Definition blank_from (c : Z) m : Prop :=
  ∀ h, c ≤ h → 0 ≤ h → module_has_hook_implemented m h = false ∧
    ∀ s, me_fn_cache m !! Z.to_nat h = Some s → s = FnNull.

(** [m'] is [m] with some of its cells resolved. *)
Record warmer m m' : Prop := {
  wm_same : same_module m m';
  wm_len : (length (me_fn_cache m) ≤ length (me_fn_cache m'))%nat;
  wm_keep h s : s ≠ FnNull → me_fn_cache m !! h = Some s → me_fn_cache m' !! h = Some s
}.

#[global] Instance warmer_preorder : PreOrder warmer.
Proof.
  split.
  - intros m. split; [apply same_module_refl|lia|done].
  - intros m1 m2 m3 [S1 L1 K1] [S2 L2 K2]. split; [by eapply same_module_trans|lia|eauto].
Qed.

Lemma warmer_grown needed m : warmer m (grown_cache needed m).
Proof.
  split; [apply same_module_grown| |].
  - simpl. rewrite length_app. lia.
  - intros h s _ Hs. simpl. by apply lookup_app_l_Some.
Qed.

Lemma blank_grown c needed m : blank_from c m → blank_from c (grown_cache needed m).
Proof.
  intros Hb h Hc H0. destruct (Hb h Hc H0) as [Hbit Hcell]. split; [exact Hbit|]. simpl.
  intros s [Hs|[_ Hs]]%lookup_app_Some; [auto|]. by apply lookup_replicate in Hs as [-> _].
Qed.

Lemma warmer_stored h cb m :
  me_fn_cache m !! Z.to_nat h = Some FnNull → warmer m (stored h cb m).
Proof.
  intros Hn. split; [apply same_module_stored|by rewrite stored_cache, length_insert|].
  intros i s Hs Hi. rewrite stored_cache. rewrite list_lookup_insert_ne; [done|]. congruence.
Qed.

Lemma blank_stored c h cb m : 0 ≤ h < c → blank_from c m → blank_from c (stored h cb m).
Proof.
  intros Hh Hb h' Hc H0. destruct (Hb h' Hc H0) as [Hbit Hcell].
  rewrite stored_has, stored_cache by lia. split.
  - rewrite Hbit. destruct (Z.eqb_spec h' h); [lia|]. by destruct cb.
  - intros s. rewrite list_lookup_insert_ne by lia. apply Hcell.
Qed.

Section warm.
Context (hooks : string → option Z) (c : Z).
Context (Hinj : hooks_inj hooks) (Hlt : ∀ n h, hooks n = Some h → 0 ≤ h < c).

(** A module whose caches are in order. *)
Definition caches_ok m : Prop := cache_ok m hooks ∧ blank_from c m.

Lemma prewarm_one_run w p m name h :
  w_mem w = [] → w_mods w !! p = Some m → hooks name = Some h → caches_ok m →
  ∃ m', prewarm_one p name h w = Ok tt (w <| w_mods ::= <[p := m']> |>) ∧
    warmer m m' ∧ caches_ok m' ∧
    ((Z.to_nat h < length (me_fn_cache m))%nat →
      me_fn_cache m' !! Z.to_nat h = Some (fn_slot_of (module_own_symbol m name))).
Proof using Hinj Hlt.
  intros Hm Hp Hn [Hok Hb]. destruct (Hok name h Hn) as [H0 Hc]. unfold cell_ok in Hc.
  assert (Hid : w <| w_mods ::= <[p := m]> |> = w).
  { unfold field_over; simpl. rewrite insert_id by done. by destruct w. }
  unfold prewarm_one. destruct (Z.ltb_spec h 0); [lia|]. cbn [orb].
  destruct (Z.leb_spec (Z.of_nat (length (me_fn_cache m))) h) as [Hle|Hlen].
  { exists m. rewrite Hid. split_and!; [|reflexivity|done|lia].
    run. by rewrite (proj2 (Z.leb_le _ _) Hle). }
  destruct (lookup_lt_is_Some_2 (me_fn_cache m) (Z.to_nat h)) as [s Hs]; [lia|].
  rewrite Hs in Hc. destruct s as [| |a].
  - exists (stored h (module_own_symbol m name) m). split_and!.
    + run. rewrite (proj2 (Z.leb_gt _ _) Hlen), Hs. by apply fn_cache_store_run.
    + by apply warmer_stored.
    + split; [by apply stored_cache_ok; [..|lia|]|apply blank_stored; [by eapply Hlt|done]].
    + intros _. rewrite stored_cache. apply list_lookup_insert_eq. lia.
  - exists m. rewrite Hid. destruct Hc as [-> _]. split_and!; [|reflexivity|done|done].
    run. by rewrite (proj2 (Z.leb_gt _ _) Hlen), Hs.
  - exists m. rewrite Hid. destruct Hc as [-> _]. split_and!; [|reflexivity|done|done].
    run. by rewrite (proj2 (Z.leb_gt _ _) Hlen), Hs.
Qed.

Lemma warmer_own m m' name : warmer m m' → module_own_symbol m' name = module_own_symbol m name.
Proof. intros [(x & b & ->) _ _]. by apply own_symbol_handle. Qed.

Lemma prewarm_loop_run l : ∀ w p m,
  w_mem w = [] → w_mods w !! p = Some m → (∀ n h, (n, h) ∈ l → hooks n = Some h) → caches_ok m →
  ∃ m', for_each l (λ kv, prewarm_one p kv.1 kv.2) w = Ok tt (w <| w_mods ::= <[p := m']> |>) ∧
    warmer m m' ∧ caches_ok m' ∧
    (∀ n h, (n, h) ∈ l → (Z.to_nat h < length (me_fn_cache m))%nat →
      me_fn_cache m' !! Z.to_nat h = Some (fn_slot_of (module_own_symbol m n))).
Proof using Hinj Hlt.
  induction l as [|[n h] l IH]; intros w p m Hm Hp Hl Hok.
  { exists m. split_and!; [|reflexivity|done|by intros n h ?%elem_of_nil].
    unfold field_over; simpl. rewrite insert_id by done. by destruct w. }
  destruct (prewarm_one_run w p m n h Hm Hp) as (m1 & H1 & W1 & Ok1 & C1);
    [apply Hl; by left|done|].
  destruct (IH (w <| w_mods ::= <[p := m1]> |>) p m1) as (m2 & H2 & W2 & Ok2 & C2);
    [done|simpl; by rewrite lookup_insert_eq|intros; apply Hl; by right|done|].
  exists m2. split_and!; [|by transitivity m1|done|].
  - simpl. rewrite (bind_Ok _ _ _ _ _ H1), H2. unfold field_over; simpl.
    by rewrite insert_insert_eq.
  - intros n' h' [[= -> ->]|Hin]%elem_of_cons Hlen.
    + apply (wm_keep _ _ W2); [by destruct (module_own_symbol m n)|auto].
    + rewrite <- (warmer_own m m1) by done. apply C2; [done|].
      pose proof (wm_len _ _ W1). lia.
Qed.
End warm.

(** ** The whole cache of a module *)

(** Every registered hook is resolved. *)
Definition warm (hooks : string → option Z) m : Prop :=
  ∀ n h, hooks n = Some h → me_fn_cache m !! Z.to_nat h = Some (fn_slot_of (module_own_symbol m n)).

Lemma warm_warmer hooks m m' : warmer m m' → warm hooks m → warm hooks m'.
Proof.
  intros W Hw n h Hn. rewrite (warmer_own _ m' n W). apply (wm_keep _ _ W); [|by apply Hw].
  by destruct (module_own_symbol m n).
Qed.

(** The hooks of a world and their number. *)
Record hook_table w (hooks : string → option Z) (c : Z) : Prop := {
  ht_open : ∃ t, rt_hook_id_hd (w_rt w) = Some t ∧ corm_get t = hooks;
  ht_count : rt_hook_id_counter (w_rt w) = c;
  ht_inj : hooks_inj hooks;
  ht_range n h : hooks n = Some h → 0 ≤ h < c
}.

Lemma fn_cache_prewarm_run w p m hooks c :
  hook_table w hooks c → w_mem w = [] → w_mods w !! p = Some m → caches_ok hooks c m →
  ∃ m', fn_cache_prewarm p w = Ok 0 (w <| w_mods ::= <[p := m']> |>) ∧
    warmer m m' ∧ caches_ok hooks c m' ∧ (is_Some (me_handle m) → warm hooks m').
Proof.
  intros [(t & Ht & Hg) Hcount Hinj Hrange] Hm Hp Hok. unfold fn_cache_prewarm.
  assert (Hid : w <| w_mods ::= <[p := m]> |> = w).
  { unfold field_over; simpl. rewrite insert_id by done. by destruct w. }
  rewrite (bind_Ok _ _ _ _ _ (mget_Ok _ _ _ Hp)).
  destruct (me_handle m) as [hd|] eqn:Hh.
  2: { exists m. rewrite Hid. split_and!; [done|reflexivity|done|]. by intros []. }
  rewrite (bind_Ok _ _ _ c w) by (unfold rt_get, gets; by rewrite Hcount).
  destruct (Z.leb_spec c 0) as [Hc|Hc].
  { exists m. rewrite Hid. split_and!; [done|reflexivity|done|].
    intros _ n h Hn%Hrange. lia. }
  rewrite (bind_Ok _ _ _ _ _ (ensure_cap_run _ _ _ _ Hm Hp)). cbn [Z.ltb Z.compare].
  set (m1 := grown_cache (c + 16) m). set (w1 := w <| w_mods ::= <[p := m1]> |>).
  rewrite (bind_Ok _ _ _ t w1) by (unfold table, rt_get, mbind, M_bind, gets; simpl; by rewrite Ht).
  assert (Hlist : ∀ n h, (n, h) ∈ corm_list t ↔ hooks n = Some h).
  { intros n h. by rewrite corm_list_spec, Hg. }
  destruct (prewarm_loop_run hooks c Hinj Hrange (corm_list t) w1 p m1)
    as (m' & Hrun & Hw & Hok' & Hcell); [done|simpl; by rewrite lookup_insert_eq|by intros n h ?%Hlist| |].
  { destruct Hok. split; [by apply grown_cache_ok|by apply blank_grown]. }
  assert (Hw' : warmer m m') by (transitivity m1; [apply warmer_grown|done]).
  exists m'. split_and!; [|done|done|].
  - rewrite (bind_Ok _ _ _ _ _ Hrun). unfold w1, field_over; simpl. by rewrite insert_insert_eq.
  - intros _ n h Hn. rewrite (warmer_own m m') by done.
    rewrite <- (warmer_own m m1) by apply warmer_grown.
    apply Hcell; [by apply Hlist|]. pose proof (Hrange _ _ Hn). unfold m1; simpl.
    rewrite length_app, length_replicate. lia.
Qed.

(** ** Every module's *)

(** [w'] is [w] with modules' caches warmer. *)
Definition modules_warmer w w' : Prop :=
  ∃ ms, w' = w <| w_mods := ms |> ∧ dom ms = dom (w_mods w) ∧
    ∀ q m, w_mods w !! q = Some m → ∃ m', ms !! q = Some m' ∧ warmer m m'.

Definition modules_ok hooks c w : Prop := ∀ q m, w_mods w !! q = Some m → caches_ok hooks c m.

Lemma modules_warmer_one w p m m' :
  w_mods w !! p = Some m → warmer m m' → modules_warmer w (w <| w_mods ::= <[p := m']> |>).
Proof.
  intros Hp Hw. exists (<[p := m']> (w_mods w)). split; [done|]. split.
  - rewrite dom_insert_L. apply elem_of_dom_2 in Hp. set_solver.
  - intros q m0 Hq. destruct (decide (q = p)) as [->|].
    + rewrite lookup_insert_eq. exists m'. split; [done|congruence].
    + rewrite lookup_insert_ne by done. by exists m0.
Qed.

#[global] Instance modules_warmer_preorder : PreOrder modules_warmer.
Proof.
  split.
  - intros w. exists (w_mods w). split_and!; [by destruct w|done|]. intros q m ?. by exists m.
  - intros w1 w2 w3 (ms & -> & D & H) (ms' & -> & D' & H'). simpl in *. exists ms'.
    split_and!; [done|congruence|]. intros q m (m1 & H1 & W1)%H.
    apply H' in H1 as (m2 & ? & ?). exists m2. split; [done|by transitivity m1].
Qed.

Lemma prewarm_all_run hooks c (l : list (string * mptr)) : ∀ w,
  hook_table w hooks c → w_mem w = [] → modules_ok hooks c w →
  (∀ kv, kv ∈ l → kv.2 ∈ dom (w_mods w)) →
  ∃ w', for_each l (λ kv, fn_cache_prewarm kv.2;; mret tt) w = Ok tt w' ∧
    modules_warmer w w' ∧ modules_ok hooks c w' ∧
    (∀ kv m, kv ∈ l → w_mods w' !! kv.2 = Some m → is_Some (me_handle m) → warm hooks m).
Proof.
  induction l as [|[k p] l IH]; intros w Ht Hm Hok Hl.
  { exists w. split_and!; [done|reflexivity|done|]. by intros kv m ?%elem_of_nil. }
  destruct (elem_of_dom (w_mods w) p) as [[m Hp] _]; [apply (Hl (k, p)); by left|].
  destruct (fn_cache_prewarm_run w p m hooks c Ht Hm Hp (Hok _ _ Hp)) as (m' & H1 & W1 & Ok1 & Hwarm).
  set (w1 := w <| w_mods ::= <[p := m']> |>) in *.
  assert (Hmw1 : modules_warmer w w1) by (by eapply modules_warmer_one).
  destruct (IH w1) as (w2 & H2 & Hmw2 & Ok2 & Hwarm2).
  - by destruct Ht; split.
  - done.
  - intros q m0. simpl. destruct (decide (q = p)) as [->|].
    + rewrite lookup_insert_eq. by intros [= <-].
    + rewrite lookup_insert_ne by done. apply Hok.
  - intros kv Hkv. simpl. rewrite dom_insert_L. apply elem_of_union_r, Hl. by right.
  - exists w2. split_and!; [|by transitivity w1|done|].
    + simpl. rewrite bind_assoc, (bind_Ok _ _ _ _ _ H1). exact H2.
    + intros kv m0 [->|Hkv]%elem_of_cons Hq Hh; [|by eapply Hwarm2].
      destruct Hmw2 as (ms & -> & _ & Hms).
      destruct (Hms p m') as (m2 & Hm2 & W2); [simpl; by rewrite lookup_insert_eq|].
      simpl in Hq. rewrite Hm2 in Hq. injection Hq as <-. apply (warm_warmer _ m'); [done|].
      apply Hwarm. destruct W2 as [(x & b & E2) _ _], W1 as [(y & d & E1) _ _].
      by rewrite E2, E1 in Hh.
Qed.

(** ** Registration *)

Definition adapter_named w (name : string) : option aptr :=
  rt_sica_hd (w_rt w) ≫= λ t, corm_get t name.

(** The registry of a started runtime: the tables agree, ids are distinct and
    below the counter, and the modules' caches are in order. *)
Record registry_inv w : Prop := {
  ri_inited : rt_inited (w_rt w) = true;
  ri_count : 0 ≤ rt_hook_id_counter (w_rt w);
  ri_sica : is_Some (rt_sica_hd (w_rt w));
  ri_hooks : hook_table w (hook_ids w) (rt_hook_id_counter (w_rt w));
  ri_named n p : adapter_named w n = Some p → ∃ h a, hook_ids w n = Some h ∧
    w_adapters w !! p = Some a ∧ ad_hook_id a = h ∧
    rt_adapter_by_id (w_rt w) !! Z.to_nat h = Some (Some p);
  ri_ids n h : hook_ids w n = Some h → is_Some (adapter_named w n);
  ri_mods : modules_ok (hook_ids w) (rt_hook_id_counter (w_rt w)) w;
  ri_loaded : ∃ t, rt_mod_hd (w_rt w) = Some t ∧ ∀ k q, corm_get t k = Some q → q ∈ dom (w_mods w)
}.

(** The id table grown so that [h] is in range. *)
Definition ids_for (l : list (option aptr)) (h : Z) : list (option aptr) :=
  if Z.of_nat (length l) <=? h then l ++ replicate (Z.to_nat (h + 16) - length l) None else l.

Lemma ids_for_length l h : 0 ≤ h → (Z.to_nat h < length (ids_for l h))%nat.
Proof.
  intros Hh. unfold ids_for. destruct (Z.leb_spec (Z.of_nat (length l)) h); [|lia].
  rewrite length_app, length_replicate. lia.
Qed.

Lemma ids_for_lookup l h i x : l !! i = Some x → ids_for l h !! i = Some x.
Proof. unfold ids_for. destruct (_ <=? _); [by apply lookup_app_l_Some|done]. Qed.

(** The state when adapter [p] has become hook [c], before modules are warmed. *)
Definition registered w (name : string) (p : aptr) (a : adapter) sica hooks (c : Z) : world :=
  w <| w_rt ::= (λ r, r <| rt_sica_hd := Some (corm_put sica name p) |>
                        <| rt_hook_id_counter := Z.succ c |>
                        <| rt_hook_id_hd := Some (corm_put hooks name c) |>
                        <| rt_adapter_by_id ::= (λ l, <[Z.to_nat c := Some p]> (ids_for l c)) |>) |>
    <| w_adapters ::= <[p := a <| ad_hook_id := c |>]> |>.

Lemma registered_inv w name p a sica hooks c :
  registry_inv w → rt_sica_hd (w_rt w) = Some sica → rt_hook_id_hd (w_rt w) = Some hooks →
  rt_hook_id_counter (w_rt w) = c → w_adapters w !! p = Some a → adapter_named w name = None →
  (∀ n, adapter_named w n ≠ Some p) →
  registry_inv (registered w name p a sica hooks c).
Proof.
  intros [Hi Hc0 _ [(t & Ht & Hg) _ Hinj Hrange] Hnamed Hids Hmods Hld] Hs Hh Hc Ha Hnew Hfresh.
  set (w' := registered w name p a sica hooks c).
  assert (Hnone : hook_ids w name = None).
  { destruct (hook_ids w name) as [h|] eqn:E; [|done]. apply Hids in E as [q E]. congruence. }
  assert (Hids' : ∀ n, hook_ids w' n = if decide (name = n) then Some c else hook_ids w n).
  { intros n. unfold hook_ids; simpl. rewrite corm_get_put_dec, Hh. done. }
  assert (Hna' : ∀ n, adapter_named w' n = if decide (name = n) then Some p else adapter_named w n).
  { intros n. unfold adapter_named; simpl. rewrite corm_get_put_dec, Hs. done. }
  split; simpl.
  - done.
  - lia.
  - by eexists.
  - split; simpl; [eexists; split; [done|]|done|..].
    + by unfold hook_ids.
    + intros n1 n2 h. rewrite !Hids'. repeat case_decide; subst; [done|..].
      * intros [= <-] Hn%Hrange. lia.
      * intros Hn%Hrange [= <-]. lia.
      * apply Hinj.
    + intros n h. rewrite Hids'. case_decide; [intros [= <-]; lia|]. intros Hn%Hrange. lia.
  - intros n q. rewrite Hna', Hids'. case_decide as Hn.
    + intros [= <-]. exists c, (a <| ad_hook_id := c |>). split_and!; [done| |done|].
      * by rewrite lookup_insert_eq.
      * apply list_lookup_insert_eq, ids_for_length. lia.
    + intros Hq. pose proof Hq as (h & a' & Hn' & Ha' & Hh' & Hby)%Hnamed.
      pose proof (Hrange _ _ Hn'). exists h, a'. split_and!; [done| |done|].
      * rewrite lookup_insert_ne; [done|]. intros ->. by eapply Hfresh.
      * rewrite list_lookup_insert_ne by lia. by apply ids_for_lookup.
  - intros n h. rewrite Hids', Hna'. case_decide; [by eexists|apply Hids].
  - intros q m Hq. destruct (Hmods q m Hq) as [Hok Hb]. rewrite Hc in Hb. split.
    + intros n h. rewrite Hids'. case_decide; [|apply Hok]. intros [= <-].
      split; [lia|]. destruct (Hb c) as [Hbit Hcell]; [lia..|]. unfold cell_ok.
      destruct (me_fn_cache m !! Z.to_nat c) as [s|]; [|done]. by rewrite (Hcell s).
    + intros h Hle. apply Hb. lia.
  - done.
Qed.

(** Warming caches keeps the registry's invariant. *)
Lemma registry_inv_warmer w w' :
  registry_inv w → modules_warmer w w' →
  modules_ok (hook_ids w) (rt_hook_id_counter (w_rt w)) w' → registry_inv w'.
Proof.
  intros [Hi Hc Hs Hh Hn Hids _ (t & Ht & Hld)] (ms & -> & Hdom & _) Hok. split; try done.
  - by destruct Hh; split.
  - exists t. split; [done|]. simpl. rewrite Hdom. done.
Qed.

Lemma registry_inv_err w e : registry_inv w → registry_inv (w <| w_err := e |>).
Proof. intros [Hi Hc Hs Hh Hn Hids Hm Ht]. split; try done. by destruct Hh; split. Qed.

(** The [int]s of a registration stay in range: the counter, and the new capacity
    when the table by id has to grow. *)
Definition int_room w : Prop :=
  let c := rt_hook_id_counter (w_rt w) in
  c + 1 < 2 ^ 31 ∧ (Z.of_nat (length (rt_adapter_by_id (w_rt w))) ≤ c → c + 16 < 2 ^ 31).

Lemma no_overflow_run x w : no_overflow x w = if x <? 2 ^ 31 then Ok tt w else Crash.
Proof. unfold no_overflow. by destruct (x <? 2 ^ 31). Qed.

(** Everything [xy_areg] does to the tables. *)
Lemma areg_tables w name p a sica hooks c (k : M world Z) :
  w_mem w = [] → rt_sica_hd (w_rt w) = Some sica → rt_hook_id_hd (w_rt w) = Some hooks →
  rt_hook_id_counter (w_rt w) = c → w_adapters w !! p = Some a →
  (rt_mod (λ r, r <| rt_sica_hd := Some (corm_put sica name p) |>);;
   hook_id ← rt_get rt_hook_id_counter;
   no_overflow (hook_id + 1);;
   rt_mod (λ r, r <| rt_hook_id_counter ::= Z.succ |>);;
   hooks ← table rt_hook_id_hd;
   rt_mod (λ r, r <| rt_hook_id_hd := Some (corm_put hooks name hook_id) |>);;
   amod p (λ a, a <| ad_hook_id := hook_id |>);;
   by_id ← rt_get rt_adapter_by_id;
   grown ← (if Z.of_nat (length by_id) <=? hook_id then
       no_overflow (hook_id + 16);;
       ok ← alloc_ok;
       (if (ok : bool) then
          rt_mod (λ r, r <| rt_adapter_by_id :=
            by_id ++ replicate (Z.to_nat (hook_id + 16) - length by_id) None |>);;
          mret true
        else mret false)
     else mret true);
   if negb grown then XY_SET_ERR XY_ERR_INVALID;; mret (u32 XY_ERR_INVALID)
   else
     rt_mod (λ r, r <| rt_adapter_by_id ::= <[Z.to_nat hook_id := Some p]> |>);; k) w =
  if bool_decide (int_room w) then k (registered w name p a sica hooks c) else Crash.
Proof.
  intros Hm Hs Hh Hc Ha.
  rewrite (bind_Ok (rt_mod _) _ _ tt _ eq_refl).
  erewrite (bind_Ok (rt_get _) _ _ c) by (unfold rt_get, gets; simpl; by rewrite Hc).
  destruct (Z.ltb_spec (c + 1) (2 ^ 31)) as [H1|H1].
  2: { rewrite bool_decide_eq_false_2 by (unfold int_room; rewrite Hc; lia).
       apply bind_crash. by rewrite no_overflow_run, (proj2 (Z.ltb_ge _ _) H1). }
  erewrite (bind_Ok (no_overflow (c + 1)) _ _ tt) by (by rewrite no_overflow_run, (proj2 (Z.ltb_lt _ _) H1)).
  rewrite (bind_Ok (rt_mod _) _ _ tt _ eq_refl).
  erewrite (bind_Ok (table _) _ _ hooks)
    by (unfold table, rt_get, mbind, M_bind, gets; simpl; by rewrite Hh).
  rewrite (bind_Ok (rt_mod _) _ _ tt _ eq_refl).
  erewrite (bind_Ok (amod _ _)) by (by apply amod_Ok).
  erewrite (bind_Ok (rt_get _) _ _ (rt_adapter_by_id (w_rt w))) by done.
  destruct (Z.of_nat (length (rt_adapter_by_id (w_rt w))) <=? c) eqn:Hle.
  - destruct (Z.ltb_spec (c + 16) (2 ^ 31)) as [H2|H2].
    2: { rewrite bool_decide_eq_false_2 by (unfold int_room; rewrite Hc; lia).
         do 2 apply bind_crash. by rewrite no_overflow_run, (proj2 (Z.ltb_ge _ _) H2). }
    rewrite bool_decide_eq_true_2 by (unfold int_room; rewrite Hc; lia).
    erewrite bind_Ok by (erewrite (bind_Ok (no_overflow (c + 16)) _ _ tt) by (by rewrite no_overflow_run, (proj2 (Z.ltb_lt _ _) H2));
      erewrite bind_Ok by (by apply alloc_ok_Ok); done). cbn [negb].
    rewrite (bind_Ok (rt_mod _) _ _ tt _ eq_refl). f_equal.
    unfold registered, ids_for, field_over; simpl. by rewrite Hle.
  - rewrite bool_decide_eq_true_2 by (unfold int_room; rewrite Hc; lia). erewrite bind_Ok by done. cbn [negb].
    rewrite (bind_Ok (rt_mod _) _ _ tt _ eq_refl). f_equal.
    unfold registered, ids_for, field_over; simpl. by rewrite Hle.
Qed.

(** Up to the caches of the modules. *)
Lemma xy_areg_steps w name p a :
  registry_inv w → w_mem w = [] → w_adapters w !! p = Some a → ad_ret_size a ≤ XY_MAX_RET_SIZE →
  adapter_named w name = None →
  ∃ sica hooks, rt_sica_hd (w_rt w) = Some sica ∧ rt_hook_id_hd (w_rt w) = Some hooks ∧
    xy_areg name p w =
      if bool_decide (int_room w) then
        (mods ← rt_get rt_mod_hd;
         (match mods with
          | None => mret tt
          | Some t => for_each (corm_list t) (λ kv, fn_cache_prewarm kv.2;; mret tt)
          end);;
         XY_SET_ERR XY_OK;;
         mret 0) (registered w name p a sica hooks (rt_hook_id_counter (w_rt w)))
      else Crash.
Proof.
  intros [Hi _ [sica Hs] [(hooks & Hh & _) _ _ _] _ _ _ _] Hm Ha Hsz Hnew. exists sica, hooks. split_and!; [done..|].
  unfold xy_areg. rewrite with_runtime_run by done. rewrite (bind_Ok _ _ _ a w) by (by apply aget_Ok).
  destruct (Z.ltb_spec XY_MAX_RET_SIZE (ad_ret_size a)); [lia|].
  rewrite (bind_Ok _ _ _ sica w) by (unfold table, rt_get, mbind, M_bind, gets; by rewrite Hs).
  unfold adapter_named in Hnew. rewrite Hs in Hnew. simpl in Hnew. rewrite Hnew.
  by rewrite (areg_tables w name p a sica hooks (rt_hook_id_counter (w_rt w))) by done.
Qed.

Lemma xy_areg_new w name p a :
  int_room w → registry_inv w → w_mem w = [] → w_adapters w !! p = Some a → ad_ret_size a ≤ XY_MAX_RET_SIZE →
  adapter_named w name = None → (∀ n, adapter_named w n ≠ Some p) →
  ∃ w', xy_areg name p w = Ok 0 w' ∧ registry_inv w' ∧ w_err w' = XY_OK ∧
    adapter_named w' name = Some p ∧ hook_ids w' name = Some (rt_hook_id_counter (w_rt w)) ∧
    (∀ n, n ≠ name → hook_ids w' n = hook_ids w n ∧ adapter_named w' n = adapter_named w n) ∧
    (∀ k q m, rt_mod_hd (w_rt w) ≫= (λ t, corm_get t k) = Some q →
      w_mods w' !! q = Some m → is_Some (me_handle m) → warm (hook_ids w') m).
Proof.
  intros Hroom Hinv Hm Ha Hsz Hnew Hfresh. pose proof Hinv as [_ _ _ _ _ _ _ (t & Ht & Hld)].
  destruct (xy_areg_steps w name p a Hinv Hm Ha Hsz Hnew) as (sica & hooks & Hs & Hh & Hrun).
  set (c := rt_hook_id_counter (w_rt w)).
  set (w1 := registered w name p a sica hooks c).
  assert (Hinv1 : registry_inv w1) by (by apply registered_inv).
  assert (Hlist : ∀ kv, kv ∈ corm_list t → kv.2 ∈ dom (w_mods w1)).
  { intros [k q] Hkv. apply corm_list_spec in Hkv. by apply (Hld k). }
  destruct (prewarm_all_run (hook_ids w1) (Z.succ c) (corm_list t) w1)
    as (w2 & H2 & Hmw & Hok & Hwarm); [apply Hinv1|done|apply Hinv1|done|].
  pose proof (registry_inv_warmer w1 w2 Hinv1 Hmw Hok) as Hinv2.
  pose proof Hmw as (ms & -> & _).
  exists (w1 <| w_mods := ms |> <| w_err := XY_OK |>). split_and!.
  - rewrite Hrun, bool_decide_eq_true_2 by done. fold c w1.
    rewrite (bind_Ok _ _ _ (Some t) w1) by (unfold rt_get, gets; simpl; by rewrite Ht).
    by rewrite (bind_Ok _ _ _ _ _ H2).
  - by apply registry_inv_err.
  - done.
  - unfold adapter_named; simpl. by rewrite corm_get_put.
  - unfold hook_ids; simpl. by rewrite corm_get_put.
  - intros n Hn. unfold hook_ids, adapter_named; simpl. rewrite Hs, Hh. simpl.
    by rewrite !corm_get_put_ne.
  - intros k q m Hk Hq. rewrite Ht in Hk. simpl in Hk. apply (Hwarm (k, q)); [|done].
    by apply corm_list_spec.
Qed.
End registry.
