(* ===== verification/DispatchProps.v ===== *)
(** * Theorems about dispatch

    What [xy_call] and [xy_last] promise, and the parts they are made of, each
    on the concrete runtime of Sample.v as well. *)
From S2P Require Import Prelude Words Corm State Env Regions RegionTree RegionWalks Runtime Paths RegionApi RegionInv RegionSpecs Boot RegionProps Hooks HookSpecs Subtree Dispatch Vector VectorBuild Prepare SlotRun Call CallRun SelfCall Registry Sample.

Section props.
Context {C : Corm} {CL : CormLaws C} {OS : Os} {CB : Callbacks}.
Implicit Types (w : world) (anc : list rptr).

(** C1. [xy_call] runs exactly the listeners of the caller's subtree: the
    modules at and below the current region, in preorder and in load order
    within a region, that define the hook themselves and that no region of the
    caller's ancestor chain denies.  Each runs once, with the call's argument,
    while its own module's region is current, by id and by entry; the caller's
    region is current again when the call returns, the caller's buffer holds the
    last listener's value, and the code is [XY_OK], or [XY_ERR_NOTFOUND] with the
    buffer zeroed when nobody listens.  The module list, the vector and the
    modules' resolved symbols may be stale or never filled, as long as what they
    mark as current or known is so ([dispatch_ok]).  Listeners may call back into
    the library: they may rely on any invariant [I] that the call itself keeps,
    and must leave it, the vector and what [lasting] names as they were. *)
Theorem xy_call_contract w reg a h f rid p anc tbl kids own retp arg (I : world → Prop) :
  call_setting w reg a h f rid p anc →
  dispatch_ok w tbl kids own p h (ad_name a) anc → 0 ≤ h → contexts_live w →
  gate_shut w anc (ad_name a) = false →
  ret_fits w retp (ad_ret_size a) → ret_fits w retp (af_ret_size f) →
  hosted (cur w) I → prepared reg h p anc I → I w →
  let mods := preorder 65 kids own p in
  let evs := listener_events w anc (ad_name a) arg mods in
  (∀ q x, q ∈ mods → listener w anc (ad_name a) q = Some x → tame I p h reg w x arg) →
  Z.of_nat (length evs) < 2 ^ 32 →
  ∃ w', xy_call retp (Some reg) arg w = Ok (if decide (evs = []) then XY_ERR_NOTFOUND else XY_OK) w' ∧
    cur w' = cur w ∧ ran_all w w' evs ∧
    w_err w' = (if decide (evs = []) then XY_ERR_NOTFOUND else XY_OK) ∧
    concluded w' retp reg (Z.of_nat (length evs)) (ad_ret_size a) ∧ settled reg w w' ∧
    (∀ x r, last evs = Some (EvHook x arg r) → returned f retp x arg w').
Proof. intros Hset Hok Hh Hctx Hg Ha Hf HI Hpr HIw. by eapply xy_call_runs. Qed.

(** C18. [xy_call_self] runs the listeners among the current region's own
    modules, in load order, each once and in that region, and none below it;
    it walks the list itself, so it ends when the list has an end, and it
    resolves on the way what was never resolved.  The codes, the buffer and
    what [xy_last] recalls are those of [xy_call].  A listener may change what
    [steadfast] leaves free. *)
Theorem xy_call_self_contract w reg a h f rid p anc own retp arg fuel :
  call_setting w reg a h f rid p anc → 0 ≤ h →
  mods_wf (w_regions w) (w_mods w) own → p ∈ dom (w_regions w) →
  ready (ad_name a) h anc w → list_live w (own p) → gate_shut w anc (ad_name a) = false →
  ret_fits w retp (ad_ret_size a) → ret_fits w retp (af_ret_size f) →
  (∀ q x, q ∈ own p → listener w anc (ad_name a) q = Some x → steadfast reg (ad_name a) h anc w x arg) →
  (length (own p) ≤ fuel)%nat → Z.of_nat (length (own p)) < 2 ^ 32 →
  let evs := listener_events w anc (ad_name a) arg (own p) in
  ∃ w', xy_call_self fuel retp (Some reg) arg w =
      Ok (if decide (evs = []) then XY_ERR_NOTFOUND else XY_OK) w' ∧
    cur w' = cur w ∧ ran_all w w' evs ∧
    w_err w' = (if decide (evs = []) then XY_ERR_NOTFOUND else XY_OK) ∧
    concluded w' retp reg (Z.of_nat (length evs)) (ad_ret_size a) ∧
    (∀ x r, last evs = Some (EvHook x arg r) → returned f retp x arg w').
Proof. intros Hset. by eapply xy_call_self_runs. Qed.

(** C2. A hook that a region above the caller's denies does not run: the call
    answers [XY_ERR_EPERM], no listener is reached, the caller's buffer is
    zeroed and [xy_last] will find nothing. *)
Theorem xy_call_gate_shut w reg a h f rid p anc retp arg :
  call_setting w reg a h f rid p anc → p ∈ dom (w_regions w) →
  gate_shut w anc (ad_name a) = true → ret_fits w retp (ad_ret_size a) →
  ∃ w', xy_call retp (Some reg) arg w = Ok XY_ERR_EPERM w' ∧ cur w' = cur w ∧
    w_trace w' = w_trace w ∧ w_err w' = XY_ERR_EPERM ∧
    concluded w' retp reg 0 (ad_ret_size a) ∧ settled reg w w'.
Proof. intros Hset. by eapply xy_call_denied. Qed.

(** The code written out for a vector of one listener does exactly what
    the loop over the vector does, in every state, crashes included. *)
Theorem one_slot_is_the_loop retp reg f arg caller rid s w :
  one_slot retp reg f arg caller rid s w = slots_loop 1 0 retp reg f arg caller rid s 0 w.
Proof. apply one_slot_loop. Qed.

(** Resolving an adapter: an unresolved one takes the id registered under
    its name and, when it has no function of its own, the registered adapter's
    function and sizes; a hook nobody registered and an adapter without a
    function are [XY_ERR_NOTFOUND], a return value too wide for the library's
    buffer is [XY_ERR_TOOBIG]; nothing but the adapter changes. *)
Theorem dispatch_resolve_contract w reg a :
  registry_live w → is_Some (rt_hook_id_hd (w_rt w)) → w_adapters w !! reg = Some a →
  dispatch_resolve reg w =
    Ok (resolution w a).1 (w <| w_adapters ::= <[reg := (resolution w a).2]> |>).
Proof. apply dispatch_resolve_run. Qed.

(** C25. After a call [xy_last] recalls what it gave: [XY_ERR_NOTFOUND] when no
    listener ran, none being there or the gate being shut; otherwise [XY_OK] and,
    however wide they are, the bytes the last listener answered, cut or
    zero-extended to the adapter's return size.  It does so whatever has happened
    to the caller's buffer and to the rest of the library in the meantime, as long
    as nothing else was dispatched.  A call that was given no buffer left nothing
    to recall: [xy_last] says [XY_OK] and writes nothing. *)
Theorem xy_last_recalls w reg a h f rid p anc tbl kids own retp arg (I : world → Prop) :
  call_setting w reg a h f rid p anc →
  dispatch_ok w tbl kids own p h (ad_name a) anc → 0 ≤ h → contexts_live w →
  let n := ad_ret_size a in
  af_ret_size f = n → ret_fits w retp n →
  hosted (cur w) I → prepared reg h p anc I → I w →
  let mods := preorder 65 kids own p in
  let ran := if gate_shut w anc (ad_name a) then [] else listener_events w anc (ad_name a) arg mods in
  (∀ q x, q ∈ mods → listener w anc (ad_name a) q = Some x → tame I p h reg w x arg) →
  Z.of_nat (length ran) < 2 ^ 32 →
  ∃ code w1, xy_call retp (Some reg) arg w = Ok code w1 ∧
    ∀ w2 ret, undisturbed reg w1 w2 → ret_fits w2 ret n →
      match last ran with
      | None => xy_last ret w2 = Ok XY_ERR_NOTFOUND (w2 <| w_err := XY_ERR_NOTFOUND |>)
      | Some ev => ∃ w3, xy_last ret w2 = Ok XY_OK w3 ∧ w_err w3 = XY_OK ∧
          match retp, ret with
          | Some _, Some q =>
              if 0 <? n then
                ∃ x r w0 v wv c, ev = EvHook x arg r ∧ cb_hook x arg w0 = Ok v wv ∧
                  w_bufs w3 !! q = Some c ∧ take (Z.to_nat n) c = resize (Z.to_nat n) 0 v
              else w_bufs w3 = w_bufs w2
          | _, _ => w_bufs w3 = w_bufs w2
          end
      end.
Proof.
  intros Hset Hok Hh Hctx n Hn Hf HI Hpr HIw mods ran Htame Hlt.
  destruct (gate_shut w anc (ad_name a)) eqn:Hg; subst ran.
  - destruct (xy_call_denied w reg a h f rid p anc Hset retp arg) as (w1 & H1 & _ & _ & _ & Hc & Hs);
      [apply Hok|done|done|]. exists XY_ERR_EPERM, w1. split; [done|]. intros w2 ret Hu Hr.
    destruct (se_reg _ _ _ Hs a) as (a1 & Ha1 & Hsz); [apply Hset|]. unfold n in *. rewrite <- Hsz in Hc, Hr.
    by apply (last_of_concluded w1 w2 retp reg 0 a1 ret Hc Ha1 Hu Hr).
  - destruct (xy_call_runs w reg a h f rid p anc Hset I tbl kids own retp arg) as (w1 & H1 & _ & _ & _ & Hc & Hs & Hret);
      [done..|by rewrite Hn|done|done|]. eexists _, w1. split; [exact H1|]. intros w2 ret Hu Hr.
    destruct (se_reg _ _ _ Hs a) as (a1 & Ha1 & Hsz); [apply Hset|]. unfold n in *. rewrite <- Hsz in *.
    set (evs := listener_events w anc (ad_name a) arg mods) in *.
    destruct (last_of_concluded w1 w2 retp reg _ a1 ret Hc Ha1 Hu Hr) as [Hnone Hsome].
    destruct (last evs) as [ev|] eqn:Hlast; [|apply last_None in Hlast; apply Hnone; change (Z.of_nat (length evs) = 0); by rewrite Hlast].
    assert (Hlen : Z.of_nat (length evs) ≠ 0) by (by destruct evs).
    destruct (Hsome Hlen) as (w3 & H3 & He3 & Hquiet & Hcopy). exists w3. split_and!; [done|done|].
    destruct retp as [pr|]; [|by apply Hquiet; left]. destruct ret as [q|]; [|by apply Hquiet; right; left].
    destruct (Z.ltb_spec 0 (ad_ret_size a1)); [|by apply Hquiet; right; right].
    destruct (listener_events_hook w anc (ad_name a) arg mods ev) as (x & r & ->); [by apply last_Some_elem_of|].
    destruct (Hret x r Hlast pr eq_refl) as (w0 & v & wv & b & Hcb & Hb & Htake). rewrite Hn in Htake.
    destruct (Hcopy pr b q) as (c & Hq & Hcq); [done..|]. exists x, r, w0, v, wv, c. split_and!; [done..|congruence].
Qed.

(** C27. Resolving a hook lazily is invisible: whatever the module's cell and
    bit vector held, as long as they told the truth, the answer is the
    module's own symbol; afterwards the cell holds that answer, every cell
    and bit still tells the truth, and nothing else of the module changed. *)
Theorem fn_cache_resolve_transparent w p m hooks name h :
  w_mem w = [] → w_mods w !! p = Some m →
  hooks_inj hooks → hooks name = Some h → cache_ok m hooks →
  ∃ m', fn_cache_resolve p h name w =
      Ok (resolved_of (module_own_symbol m name)) (w <| w_mods ::= <[p := m']> |>) ∧
    same_module m m' ∧ cache_ok m' hooks ∧
    me_fn_cache m' !! Z.to_nat h = Some (fn_slot_of (module_own_symbol m name)).
Proof. apply fn_cache_resolve_run. Qed.

(** The bit vector of implemented hooks is a set: marking a hook adds it
    and keeps every other hook's membership, whatever the vector's width was. *)
Theorem module_mark_hook_sets_bit w p m h :
  w_mem w = [] → w_mods w !! p = Some m → 0 ≤ h →
  ∃ m', module_mark_hook_implemented p h w = Ok tt (w <| w_mods ::= <[p := m']> |>) ∧
    ∀ h', module_has_hook_implemented m' h' =
      (h' =? h) || module_has_hook_implemented m h'.
Proof.
  intros Hm Hp Hh. exists (marked h m). split; [by apply module_mark_run|].
  intros h'. destruct (decide (0 ≤ h')); [by apply marked_has|].
  unfold module_has_hook_implemented. destruct (Z.ltb_spec h' 0); [|lia].
  destruct (Z.eqb_spec h' h); [lia|done].
Qed.

(** C26. Rebuilding a region's module list makes it the preorder of its
    subtree: the region's own modules in load order, then each child's
    subtree; the walk terminates and fits the fuel it is given. *)
Theorem region_rebuild_subtree_mods_preorder w tbl kids own root :
  tree_wf (w_regions w) tbl kids → mods_wf (w_regions w) (w_mods w) own →
  w_mem w = [] → root ∈ dom (w_regions w) →
  ∃ w', region_rebuild_subtree_mods (Some root) w = Ok 0 w' ∧
    rebuilt w root (preorder 65 kids own root) w'.
Proof.
  intros Hwf Hms Hm Hr. apply (rebuild_subtree_run w tbl); [done| |done|done].
  intros q e. apply (mw_next _ _ _ Hms).
Qed.

End props.

(** ** The theorems on the sample runtime *)

Section witnesses.
Local Existing Instances gmap_corm gmap_corm_laws sample_os sample_callbacks.

Lemma sample_contexts_live : contexts_live sample_world.
Proof.
  intros q m ctx Hq Hc.
  by destruct (sample_mods_cases q m Hq) as [[-> ->]|[[-> ->]|[-> ->]]]; injection Hc as <-.
Qed.

Lemma sample_ret_fits n : n ≤ 4 → ret_fits sample_world (Some 60%positive) n.
Proof. intros Hn p [= <-]. exists [9; 9; 9; 9]. split; [done|simpl; lia]. Qed.

(** Module 10 runs in the root, 11 in its region; 12 does not define the hook. *)
Definition sample_events : list event :=
  [EvHook 50 7 (0, Some 1%positive); EvHook 51 7 (sample_id, Some 2%positive)].

Lemma sample_gate : gate_shut sample_world [1%positive] "look_at" = false.
Proof. by vm_compute. Qed.

Lemma sample_listener_events :
  listener_events sample_world [1%positive] "look_at" 7 [10; 11; 12]%positive = sample_events.
Proof. by vm_compute. Qed.

Lemma sample_has_regions : sample_regions sample_world.
Proof. by split. Qed.

(** The listeners call back into the library. *)
Lemma xy_call_contract_witness :
  ∃ w', xy_call (CB := asking_callbacks) (Some 60%positive) (Some 40%positive) 7 sample_world = Ok XY_OK w' ∧
    ran_all sample_world w' sample_events ∧
    concluded w' (Some 60%positive) 40%positive 2 4 ∧
    returned (CB := asking_callbacks) sample_fn (Some 60%positive) 51%positive 7 w'.
Proof.
  destruct sample_dispatch_ok as (tbl & kids & Hok & Hpre).
  destruct (xy_call_contract (CB := asking_callbacks) sample_world 40%positive sample_adapter 0 sample_fn 0 1%positive
    [1%positive] tbl kids sample_own (Some 60%positive) 7 sample_regions)
    as (w' & Hrun & _ & Hran & _ & Hc & _ & Hret).
  - exact sample_setting.
  - exact Hok.
  - done.
  - exact sample_contexts_live.
  - exact sample_gate.
  - by apply sample_ret_fits.
  - by apply sample_ret_fits.
  - apply sample_regions_hosted.
  - apply sample_regions_prepared.
  - exact sample_has_regions.
  - intros q x _ _. apply asking_tame.
  - rewrite Hpre. simpl ad_name. by rewrite sample_listener_events.
  - rewrite Hpre in *. simpl ad_name in *. rewrite sample_listener_events in *.
    exists w'. split; [exact Hrun|]. split; [exact Hran|]. split; [exact Hc|].
    by apply (Hret 51%positive (sample_id, Some 2%positive)).
Defined.

(** The root denies the hook; the region below it calls. *)
Definition denied_world : world :=
  after (xy_deny "look_at" XY_DENY_HOOK) sample_world
    <| w_tls ::= (λ t, t <| t_current_region_id := sample_id |>
                         <| t_current_region_entry := Some 2%positive |>) |>.

Lemma denied_chain_dom a : a ∈ [1; 2]%positive → a ∈ dom (w_regions denied_world).
Proof.
  assert (dom (w_regions denied_world) = dom (w_regions sample_world)) as -> by (by vm_compute).
  intros [->|Ha]%elem_of_cons; [apply sample_root_dom|]. apply list_elem_of_singleton in Ha as ->.
  destruct sample_child as (e & He & _). by eapply elem_of_dom_2.
Qed.

(** A registry with the one adapter of the sample. *)
Lemma one_registered w :
  rt_adapter_by_id (w_rt w) = [Some 40%positive] → 40%positive ∈ dom (w_adapters w) →
  registry_live w.
Proof.
  intros Hr Ha [|i] p; rewrite Hr; [|done]. by intros [= <-].
Qed.

Lemma denied_setting :
  call_setting denied_world 40%positive sample_adapter 0 sample_fn sample_id 2%positive [1; 2]%positive.
Proof.
  split; [by vm_compute..| | | | |].
  - apply one_registered; by vm_compute.
  - eexists. vm_compute. reflexivity.
  - by vm_compute.
  - by vm_compute.
  - apply denied_chain_dom.
Qed.

(** Only the root's module 10 runs. *)
Lemma xy_call_self_contract_witness :
  ∃ w', xy_call_self 1 (Some 60%positive) (Some 40%positive) 7 sample_world = Ok XY_OK w' ∧
    ran_all sample_world w' [EvHook 50 7 (0, Some 1%positive)] ∧
    returned sample_fn (Some 60%positive) 50%positive 7 w'.
Proof.
  assert (Hevs : listener_events sample_world [1%positive] "look_at" 7 (sample_own 1%positive) =
    [EvHook 50 7 (0, Some 1%positive)]) by (vm_compute; reflexivity).
  destruct (xy_call_self_contract sample_world 40%positive sample_adapter 0 sample_fn 0 1%positive
    [1%positive] sample_own (Some 60%positive) 7 1)
    as (w' & Hrun & _ & Hran & _ & _ & Hret).
  - exact sample_setting.
  - lia.
  - exact sample_mods_wf.
  - exact sample_root_dom.
  - split; [vm_compute; reflexivity| |exact sample_chain_dom].
    intros q m Hq. destruct (sample_mods_cases q m Hq) as [[-> ->]|[[-> ->]|[-> ->]]]; reflexivity.
  - intros q m c _. apply sample_contexts_live.
  - exact sample_gate.
  - apply sample_ret_fits. vm_compute. discriminate.
  - apply sample_ret_fits. vm_compute. discriminate.
  - intros q x _ _ w0 _ _. exists [Zpos x; 7], w0, []. split; [reflexivity|]. split; [reflexivity|].
    split; [reflexivity|]. split; [reflexivity|]. symmetry. apply app_nil_r.
  - apply Nat.le_refl.
  - reflexivity.
  - change (ad_name sample_adapter) with "look_at" in *. rewrite Hevs in *.
    exists w'. split; [exact Hrun|]. split; [exact Hran|]. apply (Hret 50%positive (0, Some 1%positive)). reflexivity.
Defined.

Lemma xy_call_gate_shut_witness :
  ∃ w', xy_call (Some 60%positive) (Some 40%positive) 7 denied_world = Ok XY_ERR_EPERM w' ∧
    cur w' = cur denied_world ∧ w_trace w' = w_trace denied_world ∧
    w_err w' = XY_ERR_EPERM ∧ concluded w' (Some 60%positive) 40%positive 0 4 ∧
    settled 40%positive denied_world w'.
Proof.
  apply (xy_call_gate_shut denied_world 40%positive sample_adapter 0 sample_fn sample_id 2%positive
    [1; 2]%positive).
  - exact denied_setting.
  - apply denied_chain_dom. by right; left.
  - by vm_compute.
  - intros q [= <-]. exists [9; 9; 9; 9]. split; [by vm_compute|simpl; lia].
Defined.

(** A host's adapter of the same name, without id, size or function. *)
Definition host_adapter : adapter := Adapter "look_at" 0 0 None (-1).
Definition host_world : world := sample_world <| w_adapters ::= <[41%positive := host_adapter]> |>.

Lemma dispatch_resolve_contract_witness :
  dispatch_resolve 41%positive host_world =
    Ok (inr (0, sample_fn)) (host_world <| w_adapters ::= <[41%positive := sample_adapter]> |>).
Proof.
  apply (dispatch_resolve_contract host_world 41%positive host_adapter).
  - apply one_registered; by vm_compute.
  - eexists. vm_compute. reflexivity.
  - by vm_compute.
Defined.

(** The call's buffer is overwritten before [xy_last] is asked; buffer 61 is five
    bytes wide, and its last byte stays. *)
Definition overwritten (w : world) : world := w <| w_bufs ::= <[60%positive := [0; 0; 0; 0]]> |>.

Lemma xy_last_recalls_witness :
  ∃ w1 w3, xy_call (Some 60%positive) (Some 40%positive) 7 sample_world = Ok XY_OK w1 ∧
    xy_last (Some 61%positive) (overwritten w1) = Ok XY_OK w3 ∧
    w_bufs w3 !! 61%positive = Some [51; 7; 0; 0; 5] ∧
    ∃ c, w_bufs w3 !! 61%positive = Some c ∧ ∃ v, take 4 c = resize 4 0 v.
Proof.
  destruct sample_dispatch_ok as (tbl & kids & Hok & Hpre).
  destruct (xy_last_recalls sample_world 40%positive sample_adapter 0 sample_fn 0 1%positive
    [1%positive] tbl kids sample_own (Some 60%positive) 7 (λ _, True)) as (code & w1 & H1 & Hlast).
  - exact sample_setting.
  - exact Hok.
  - done.
  - exact sample_contexts_live.
  - reflexivity.
  - by apply sample_ret_fits.
  - by intros ?.
  - by intros ?.
  - done.
  - intros q x _ _. apply sample_tame.
  - rewrite Hpre. simpl ad_name. rewrite sample_gate. by rewrite sample_listener_events.
  - rewrite Hpre in Hlast. simpl ad_name in Hlast. rewrite sample_gate, sample_listener_events in Hlast.
    assert (Hcall : ∃ w1, xy_call (Some 60%positive) (Some 40%positive) 7 sample_world = Ok XY_OK w1 ∧
      rt_inited (w_rt w1) = true ∧ w_bufs w1 !! 61%positive = Some [1; 2; 3; 4; 5] ∧
      ∃ w3, xy_last (Some 61%positive) (overwritten w1) = Ok XY_OK w3 ∧ w_bufs w3 !! 61%positive = Some [51; 7; 0; 0; 5]).
    { eexists. split; [vm_compute; reflexivity|]. split; [reflexivity|]. split; [reflexivity|].
      eexists. split; vm_compute; reflexivity. }
    destruct Hcall as (w1' & Hw1' & Hi & Hb & w3' & H3' & Hb3). rewrite H1 in Hw1'.
    assert (code = XY_OK) as -> by congruence. assert (w1' = w1) as -> by congruence.
    destruct (Hlast (overwritten w1) (Some 61%positive)) as (w3 & H3 & _ & x & r & w0 & v & wv & c & _ & _ & Hc & Htake).
    + by split.
    + intros q [= <-]. exists [1; 2; 3; 4; 5]. split; [|simpl; lia]. simpl. by rewrite lookup_insert_ne.
    + assert (w3' = w3) as -> by congruence. exists w1, w3. split; [exact H1|]. split; [exact H3|]. split; [exact Hb3|].
      exists c. split; [exact Hc|]. exists v. exact Htake.
Defined.

Lemma sample_hook_ids : hooks_inj (hook_ids sample_world).
Proof. by intros n1 n2 h [-> _]%sample_hooks [-> _]%sample_hooks. Qed.

Lemma sample_cache_ok m : me_fn_cache m = [] → me_hook_impl_bits m = [] →
  cache_ok m (hook_ids sample_world).
Proof.
  intros Hc Hb name h [-> ->]%sample_hooks. split; [done|]. unfold cell_ok. rewrite Hc. simpl.
  unfold module_has_hook_implemented. by rewrite Hb.
Qed.

Lemma fn_cache_resolve_transparent_witness :
  ∃ m', fn_cache_resolve 12%positive 0 "look_at" sample_world =
      Ok FnNone (sample_world <| w_mods ::= <[12%positive := m']> |>) ∧
    same_module (sample_mod 32 22 2 None (Some 11%positive)) m' ∧
    cache_ok m' (hook_ids sample_world) ∧
    me_fn_cache m' !! 0%nat = Some FnNotFound.
Proof.
  assert (module_own_symbol (sample_mod 32 22 2 None (Some 11%positive)) "look_at" = None) as Hown
    by (by vm_compute).
  pose proof (fn_cache_resolve_transparent sample_world 12%positive
    (sample_mod 32 22 2 None (Some 11%positive)) (hook_ids sample_world) "look_at" 0) as H.
  rewrite Hown in H. apply H.
  - by vm_compute.
  - by vm_compute.
  - exact sample_hook_ids.
  - by vm_compute.
  - by apply sample_cache_ok.
Defined.

Lemma module_mark_hook_sets_bit_witness :
  ∃ m', module_mark_hook_implemented 10%positive 130 sample_world =
      Ok tt (sample_world <| w_mods ::= <[10%positive := m']> |>) ∧
    ∀ h', module_has_hook_implemented m' h' =
      (h' =? 130) || module_has_hook_implemented (sample_mod 30 20 1 None None) h'.
Proof.
  apply (module_mark_hook_sets_bit sample_world 10%positive (sample_mod 30 20 1 None None));
    [by vm_compute|by vm_compute|lia].
Defined.

Lemma region_rebuild_subtree_mods_preorder_witness :
  ∃ w', region_rebuild_subtree_mods (Some 1%positive) sample_world = Ok 0 w' ∧
    rebuilt sample_world 1%positive [10; 11; 12]%positive w'.
Proof.
  destruct sample_dispatch_ok as (tbl & kids & Hok & <-).
  apply (region_rebuild_subtree_mods_preorder sample_world tbl kids sample_own 1%positive);
    [apply Hok|exact sample_mods_wf|by vm_compute|exact sample_root_dom].
Defined.



End witnesses.
