(* ===== verification/HookMacros.v ===== *)
(** * What the hook macros generate

    XY_DECL, XY_DEF, XY_IMPL and XY_LISTENER_TAG of src/include/ttypt/xy.h turn
    the declaration of a hook into an adapter, exported symbols, a constructor
    and a function that calls like any other.  Together with Macros (the
    argument struct) and CallRun ([xy_call]) this follows a call from its C
    syntax to the listeners and back. *)
From S2P Require Import Prelude Macros Words Corm State Env Regions RegionTree RegionWalks Runtime RegionInv RegionSpecs Boot RegionProps Hooks HookSpecs Subtree Dispatch Vector VectorBuild Prepare SlotRun Call CallRun Sample DispatchProps.

Section macros.
(** [sizeof] of a type, [None] for one that no variable can have; the size of a
    struct of these fields. *)
Context (type_size : string → option Z) (fields_size : list (string * string) → Z).

(** What a use of a macro adds to an object: an adapter, whether a constructor
    registers it, and the symbols other objects can find. *)
Record hook_unit := HookUnit { hu_adapter : adapter; hu_registers : bool; hu_exports : list string }.

(** [XY_DECL]; [None] when it does not compile, as when the names of its
    parameters clash, with each other or with the locals of the function. *)
Definition XY_DECL (ftype fname : string) (args : list string) : option hook_unit :=
  params ← XY_FA args;
  fields ← XY_PG args;
  inits ← XY_DA args;
  ret_size ← type_size ftype;
  if decide (names_fit params) then
    Some (HookUnit (Adapter fname (fields_size fields) ret_size None (-1)) false [])
  else None.

(** The adapter function and adapter of [XY_DEF] and [XY_IMPL], under the
    assertion on the size of the return type; two fields of a struct have two
    names. *)
Definition emit_adapter (ftype fname : string) (args : list string) (self : option addr)
    (exports : list string) : option hook_unit :=
  params ← XY_FA args;
  fields ← XY_PG args;
  reads ← XY_NP args;
  ret_size ← type_size ftype;
  if decide (ret_size ≤ XY_MAX_RET_SIZE ∧ NoDup (snd <$> fields)) then
    Some (HookUnit (Adapter fname (fields_size fields) ret_size (Some (AdapterFn ret_size self)) (-1)) true
      (exports ++ [fname +:+ "_adapter_call"; fname +:+ "_adapter"; fname +:+ "_adapter_reg"; fname +:+ "_adapter_reg_p"]))
  else None.

(** [XY_DEF]: what [XY_DECL] declares, and the adapter that is registered. *)
Definition XY_DEF (ftype fname : string) (args : list string) : option (hook_unit * hook_unit) :=
  decl ← XY_DECL ftype fname args;
  def ← emit_adapter ftype fname args None [];
  Some (decl, def).

(** [XY_IMPL]; [self] is the address of the listener it declares. *)
Definition XY_IMPL (ftype fname : string) (args : list string) (self : addr) : option hook_unit :=
  emit_adapter ftype fname args (Some self) [fname].

(** [XY_LISTENER_TAG]: the same, static but for the pointer of its constructor,
    and without the assertion. *)
Definition XY_LISTENER_TAG (ftype fname tag : string) (args : list string) (self : addr) : option hook_unit :=
  params ← XY_FA args;
  fields ← XY_PG args;
  reads ← XY_NP args;
  ret_size ← type_size ftype;
  if decide (NoDup (snd <$> fields)) then
    Some (HookUnit (Adapter fname (fields_size fields) ret_size (Some (AdapterFn ret_size (Some self))) (-1)) true
      [fname +:+ "_" +:+ tag +:+ "_adapter_reg_p"])
  else None.

(** The adapter that is registered comes from one of these. *)
Definition hook_emits (ftype fname : string) (args : list string) (emitted : hook_unit) : Prop :=
  (∃ decl, XY_DEF ftype fname args = Some (decl, emitted)) ∨ ∃ self, XY_IMPL ftype fname args self = Some emitted.

Lemma emit_adapter_inv ftype fname args self exports u :
  emit_adapter ftype fname args self exports = Some u →
  ∃ fields n, XY_PG args = Some fields ∧ type_size ftype = Some n ∧ n ≤ XY_MAX_RET_SIZE ∧
    hu_adapter u = Adapter fname (fields_size fields) n (Some (AdapterFn n self)) (-1).
Proof.
  unfold emit_adapter. intros (params & _ & (fields & Hf & (reads & _ & (n & Hn & H)%bind_Some)%bind_Some)%bind_Some)%bind_Some.
  case_decide as Hfit; [|done]. injection H as <-. by exists fields, n; split_and!; [..|apply Hfit|].
Qed.

(** A declaration and a definition of the same hook agree, whatever object they
    are in; the adapter function returns what the declaration makes room for. *)
Lemma macros_agree ftype fname args decl emitted :
  XY_DECL ftype fname args = Some decl → hook_emits ftype fname args emitted →
  ∃ f, ad_call (hu_adapter decl) = None ∧ ad_hook_id (hu_adapter decl) = -1 ∧ ad_name (hu_adapter decl) = fname ∧
    ad_ret_size (hu_adapter decl) ≤ XY_MAX_RET_SIZE ∧ af_ret_size f = ad_ret_size (hu_adapter decl) ∧
    hu_adapter emitted = hu_adapter decl <| ad_call := Some f |>.
Proof.
  unfold XY_DECL. intros (params & _ & (fields & Hf & (inits & _ & (n & Hn & Hd)%bind_Some)%bind_Some)%bind_Some)%bind_Some Hem.
  case_decide as Hfit; [|done]. injection Hd as <-.
  assert (H : ∃ self exports, emit_adapter ftype fname args self exports = Some emitted).
  { destruct Hem as [[d H]|[self H]]; [|by eexists _, _]. exists None, []. unfold XY_DEF in H.
    apply bind_Some in H as (d' & _ & (e & He & [= _ ->])%bind_Some). exact He. }
  destruct H as (self & exports & (fields' & n' & Hf' & Hn' & Hle & He)%emit_adapter_inv).
  simplify_eq. exists (AdapterFn n self). rewrite He. simpl. by split_and!.
Qed.

(** The names of a declaration that compiles. *)
Lemma XY_DECL_names ftype fname ps decl :
  (length ps ≤ XY_RUNG_MAX)%nat → XY_DECL ftype fname (flat_pairs ps) = Some decl → names_fit ps.
Proof.
  intros Hmax. unfold XY_DECL, XY_FA. rewrite paste_pairs by (unfold XY_RUNG_MAX in Hmax; lia).
  rewrite decide_True by done. rewrite (list_fmap_ext _ id) by (by intros ? []). rewrite list_fmap_id.
  intros (ps' & [= <-] & (fields & _ & (inits & _ & (n & _ & H)%bind_Some)%bind_Some)%bind_Some)%bind_Some.
  by case_decide.
Qed.

(** A listener of [XY_IMPL] can be found under the hook's name; a tagged one can
    not: only its constructor reaches it. *)
Lemma tagged_is_hidden ftype fname tag args self u t :
  XY_IMPL ftype fname args self = Some u → XY_LISTENER_TAG ftype fname tag args self = Some t →
  (fname ∈ hu_exports u) ∧ (fname ∉ hu_exports t) ∧
  ad_call (hu_adapter t) = ad_call (hu_adapter u) ∧ ad_name (hu_adapter t) = ad_name (hu_adapter u).
Proof.
  unfold XY_IMPL, emit_adapter, XY_LISTENER_TAG.
  destruct (XY_FA args), (XY_PG args), (XY_NP args), (type_size ftype) as [n|]; try done. cbn [mbind option_bind].
  case_decide; [|done]. case_decide; [|done]. intros [= <-] [= <-]. split_and!; [by left| |done..].
  intros Hx%list_elem_of_singleton. apply (f_equal String.length) in Hx. rewrite str_length_app in Hx. simpl in Hx. lia.
Qed.

(** ** The argument struct *)

Section values.
Context {V : Type}.

(** [struct fname_args args = { XY_DA(...) }] in the function, whose parameters
    hold [vals]. *)
Definition args_struct (args : list string) (vals : list V) : option (list (string * V)) :=
  params ← XY_FA args;
  if decide (length params = length vals ∧ names_fit params) then
    inits ← XY_DA args ≫= mapM (value_of (zip (snd <$> params) vals));
    fields ← XY_PG args;
    Some (zip (snd <$> fields) inits)
  else None.

(** The arguments of [cast_fn(XY_NP(...))] in the adapter function. *)
Definition args_read (args : list string) (s : list (string * V)) : option (list V) :=
  XY_NP args ≫= mapM (value_of s).

(** Together they are the passage of Macros. *)
Lemma hook_call_struct args vals : hook_call args vals = args_struct args vals ≫= args_read args.
Proof.
  unfold hook_call, args_struct, args_read. destruct (XY_FA args) as [params|]; [|done]. cbn [mbind option_bind].
  case_decide; [|done]. destruct (XY_DA args ≫= _) as [inits|]; [|done]. cbn [mbind option_bind].
  by destruct (XY_PG args).
Qed.

Lemma args_struct_pairs (ps : list (string * string)) (vals : list V) :
  (length ps ≤ XY_RUNG_MAX)%nat → names_fit ps → length vals = length ps →
  args_struct (flat_pairs ps) vals = Some (zip (snd <$> ps) vals) ∧
  args_read (flat_pairs ps) (zip (snd <$> ps) vals) = Some vals.
Proof.
  intros Hmax Hfit Hvals. pose proof (names_fit_NoDup _ Hfit) as Hnd. unfold args_struct, args_read, XY_FA, XY_DA, XY_PG, XY_NP.
  assert (length ps ≤ 31)%nat by (unfold XY_RUNG_MAX in Hmax; lia).
  rewrite !paste_pairs by done. rewrite !decide_True by done. cbn [mbind option_bind].
  assert (Hid : (λ p : string * string, (p.1, p.2)) <$> ps = ps).
  { rewrite <- (list_fmap_id ps) at 2. apply list_fmap_ext. by intros ? [] _. }
  assert (Hz : mapM (value_of (zip (snd <$> ps) vals)) (snd <$> ps) = Some vals)
    by (by apply value_of_zip; rewrite ?length_fmap).
  rewrite Hid. rewrite decide_True by done.
  change ((λ p : string * string, p.2) <$> ps) with (snd <$> ps). rewrite Hz. by split.
Qed.

(** The listener at [arg], reached through the adapter function: it reads the
    struct [frame] the caller left there and runs the code behind it. *)
Definition compiled_listener (args : list string) (frame : option (list (string * V)))
    {S A} (code : list V → M S A) : M S A :=
  match frame ≫= args_read args with Some vals => code vals | None => crash end.
End values.
End macros.

(** ** A call *)

Section call.
Context {C : Corm} {CL : CormLaws C} {OS : Os} {CB : Callbacks}.
Implicit Types (w : world) (q : mptr) (anc : list rptr).

(** The function [fname] of [XY_DECL], in a frame that has its [ret] at [ret] and
    its [args] at [argp]; the code of the dispatch is not looked at. *)
Definition hook_function (ret_size : Z) (reg : aptr) (ret : bptr) (argp : Z) : M world (list Z) :=
  xy_call (Some ret) (Some reg) argp;;
  read_bytes ret ret_size.

(** [XY_CALL] of a host *)
Definition XY_CALL (retp : option bptr) (reg : aptr) (argp : Z) : M world unit :=
  xy_call retp (Some reg) argp;; mret tt.

(** The setting of a call through a declaration: region [p] current under [anc],
    the declared adapter [a] at [reg], and [c] registered for its hook under [h]; an
    earlier call has made [a] a copy of [c]. *)
Record declared_setting w (reg : aptr) (a c : adapter) (h : Z) (rid : Z) (p : rptr) anc : Prop := {
  ds_inited : rt_inited (w_rt w) = true;
  ds_cur : cur w = (rid, Some p);
  ds_adapter : w_adapters w !! reg = Some a ∨ w_adapters w !! reg = Some (c <| ad_hook_id := h |>);
  ds_registry : registry_live w;
  ds_hooks : is_Some (rt_hook_id_hd (w_rt w));
  ds_id : hook_ids w (ad_name a) = Some h;
  ds_pos : 0 ≤ h;
  ds_canonical : canonical w h = Some (c <| ad_hook_id := h |>);
  ds_chain : region_ancestor_chain (Some p) 65 w = Ok anc w;
  ds_anc q : q ∈ anc → q ∈ dom (w_regions w)
}.

Context w reg a c h (f : adapter_fn) rid p anc (Hset : declared_setting w reg a c h rid p anc).
(** What [macros_agree] says of [a] and [c]. *)
Context (Hcall : ad_call a = None) (Hid : ad_hook_id a = -1) (Hfits : ad_ret_size a ≤ XY_MAX_RET_SIZE)
  (Hc : c = a <| ad_call := Some f |>).
#[local] Abbreviation resolved := (c <| ad_hook_id := h |>).
#[local] Abbreviation w1 := (w <| w_adapters ::= <[reg := resolved]> |>).

Lemma resolved_resolution w' : resolution w' resolved = (inr (h, f), resolved).
Proof using Hset Hfits Hc.
  unfold resolution. destruct (Z.ltb_spec (ad_hook_id resolved) 0) as [Hn|_].
  { pose proof (ds_pos _ _ _ _ _ _ _ _ Hset). simpl in Hn. lia. }
  rewrite Hc. destruct (Z.ltb_spec XY_MAX_RET_SIZE (ad_ret_size (a <| ad_call := Some f |> <| ad_hook_id := h |>))) as [Hn|_];
    [simpl in Hn; lia|done].
Qed.

Lemma declared_resolution b : w_adapters w !! reg = Some b → resolution w b = (inr (h, f), resolved).
Proof using Hset Hcall Hid Hfits Hc.
  intros Hb. destruct (ds_adapter _ _ _ _ _ _ _ _ Hset) as [Ha|Ha]; rewrite Hb in Ha; injection Ha as ->; [|apply resolved_resolution].
  unfold resolution. rewrite Hid. cbn [Z.ltb Z.compare].
  rewrite (ds_id _ _ _ _ _ _ _ _ Hset). cbn [fmap option_fmap option_map].
  assert (Had : adapted w a h = resolved).
  { unfold adapted. rewrite (ds_canonical _ _ _ _ _ _ _ _ Hset), Hcall, Hc. by destruct a. }
  rewrite Had, Hc. destruct (Z.ltb_spec XY_MAX_RET_SIZE (ad_ret_size (a <| ad_call := Some f |> <| ad_hook_id := h |>))) as [Hn|_];
    [simpl in Hn; lia|done].
Qed.

(** A walk to the root reads the regions only. *)
Lemma ancestor_walk_regions n : ∀ o wa wb l ws,
  w_regions wb = w_regions wa → ancestor_walk n o wa = Ok l ws → ancestor_walk n o wb = Ok l wb.
Proof using.
  induction n as [|n IH]; intros [q|] wa wb l ws Hr H; cbn [ancestor_walk] in *; try by injection H as <- _.
  apply Ok_bind_inv in H as (e & wc & He & H). unfold rget, mbind, M_bind, gets, deref in He.
  destruct (w_regions wa !! q) as [e0|] eqn:Hq; [|done]. injection He as -> <-.
  apply Ok_bind_inv in H as (l' & wd & Hw & H). injection H as <- _.
  rewrite (bind_Ok (rget q) _ _ e wb) by (unfold rget, mbind, M_bind, gets, deref; by rewrite Hr, Hq).
  by rewrite (bind_Ok _ _ _ _ _ (IH _ _ _ _ _ Hr Hw)).
Qed.
Lemma ancestor_chain_regions o n wa wb l ws :
  w_regions wb = w_regions wa → region_ancestor_chain o n wa = Ok l ws → region_ancestor_chain o n wb = Ok l wb.
Proof using.
  intros Hr H. unfold region_ancestor_chain in *. apply Ok_bind_inv in H as (l' & wd & Hw & H). injection H as <- _.
  by rewrite (bind_Ok _ _ _ _ _ (ancestor_walk_regions _ _ _ _ _ _ Hr Hw)).
Qed.

(** The setting of [xy_call] after resolving. *)
Lemma declared_call_setting : call_setting w1 reg resolved h f rid p anc.
Proof using CL Hset Hfits Hc.
  pose proof Hset as [Hi Hcur _ Hl Hh _ Hpos _ Hch Hanc]. split; try done.
  - simpl. by rewrite lookup_insert_eq.
  - by apply registry_live_stored.
  - apply resolved_resolution.
  - eapply ancestor_chain_regions; [|exact Hch]. done.
Qed.

(** A call from here is the call from there: the first call resolves the adapter,
    the later ones find it so. *)
Lemma declared_dispatch fuel retp arg self_only :
  p ∈ dom (w_regions w) →
  xy_dispatch fuel retp (Some reg) arg self_only w = xy_dispatch fuel retp (Some reg) arg self_only w1.
Proof using CL Hset Hcall Hid Hfits Hc.
  intros [e He]%elem_of_dom. pose proof Hset as [Hi Hcur Had Hl Hh _ _ _ _ _].
  unfold cur in Hcur. injection Hcur as Hrid Hp.
  assert (Hb : ∃ b, w_adapters w !! reg = Some b) by (destruct Had; eauto). destruct Hb as [b Hb].
  assert (Hres : dispatch_resolve reg w = Ok (inr (h, f)) w1).
  { rewrite (dispatch_resolve_run w reg b Hl Hh Hb), (declared_resolution b Hb). done. }
  assert (Hres1 : dispatch_resolve reg w1 = Ok (inr (h, f)) w1).
  { rewrite (dispatch_resolve_run w1 reg resolved); [|by apply registry_live_stored|done|simpl; by rewrite lookup_insert_eq].
    rewrite resolved_resolution. f_equal. unfold field_over; simpl. by rewrite insert_insert_eq. }
  assert (Hk : ∃ k, ∀ wy : world, w_rt wy = w_rt w → w_tls wy = w_tls w → w_regions wy = w_regions w →
      dispatch_resolve reg wy = Ok (inr (h, f)) w1 → xy_dispatch fuel retp (Some reg) arg self_only wy = k w1).
  { eexists. intros wy Hrt Htls Hreg Hr. unfold xy_dispatch.
      rewrite (bind_Ok _ _ _ true wy) by (unfold rt_get, gets; by rewrite Hrt, Hi).
      rewrite (bind_Ok _ _ _ XY_OK wy) by done. cbn [negb Z.eqb XY_OK].
      rewrite (bind_Ok _ _ _ rid wy) by (unfold tls_get, gets; by rewrite Htls, Hrid).
      rewrite (bind_Ok _ _ _ (re_plen e) wy).
      2: { unfold region_current_plen. rewrite (bind_Ok _ _ _ (Some p) wy) by (unfold tls_get, gets; by rewrite Htls, Hp).
           unfold rget, mbind, M_bind, gets, deref. by rewrite Hreg, He. }
      rewrite (bind_Ok _ _ _ (Some p) wy) by (unfold tls_get, gets; by rewrite Htls, Hp).
      rewrite (bind_Ok _ _ _ _ _ Hr). cbv iota. reflexivity. }
  destruct Hk as [k Hk]. rewrite !Hk by done. done.
Qed.

(** The resolved adapter makes room for the same value. *)
Lemma declared_lasting : lasting reg w w1.
Proof using Hset Hc.
  split; [|intros c' x Hx; by exists x]. split; simpl; eauto. intros b Hb. rewrite lookup_insert_eq. eexists. split; [done|].
  destruct (ds_adapter _ _ _ _ _ _ _ _ Hset) as [Ha|Ha]; rewrite Hb in Ha; injection Ha as ->; [by rewrite Hc|done].
Qed.

(** The function returns: what its buffer holds, and who ran. *)
Lemma hook_function_runs (I : world → Prop) tbl kids own ret argp junk :
  hosted (cur w) I → prepared reg h p anc I → I w1 →
  dispatch_ok w tbl kids own p h (ad_name a) anc → contexts_live w → gate_shut w anc (ad_name a) = false →
  w_bufs w !! ret = Some junk → length junk = Z.to_nat (ad_ret_size a) → af_ret_size f = ad_ret_size a →
  let mods := preorder 65 kids own p in
  let evs := listener_events w anc (ad_name a) argp mods in
  (∀ q x, q ∈ mods → listener w anc (ad_name a) q = Some x → tame I p h reg w x argp) →
  Z.of_nat (length evs) < 2 ^ 32 →
  ∃ bytes w', hook_function (ad_ret_size a) reg ret argp w = Ok bytes w' ∧ cur w' = cur w ∧ ran_all w w' evs ∧
    (evs = [] → bytes = replicate (Z.to_nat (ad_ret_size a)) 0) ∧
    (∀ x r, last evs = Some (EvHook x argp r) → ∃ w0 v w2, cb_hook x argp w0 = Ok v w2 ∧
      bytes = resize (Z.to_nat (ad_ret_size a)) 0 v).
Proof using CL Hset Hcall Hid Hfits Hc.
  intros HI Hpr HI1 Hok Hctx Hg Hb Hjunk Hf mods evs Htame Hlt.
  assert (Hname : ad_name resolved = ad_name a) by (by rewrite Hc).
  assert (Hsize : ad_ret_size resolved = ad_ret_size a) by (by rewrite Hc).
  assert (Hok1 : dispatch_ok w1 tbl kids own p h (ad_name resolved) anc) by (rewrite Hname; destruct Hok; by split).
  assert (Hfit : ret_fits w1 (Some ret) (ad_ret_size a)) by (intros ? [= <-]; exists junk; split; [done|lia]).
  assert (Hevs : listener_events w1 anc (ad_name resolved) argp (preorder 65 kids own p) = evs) by (by rewrite Hname).
  destruct (xy_call_runs w1 reg resolved h f rid p anc declared_call_setting I tbl kids own (Some ret) argp)
    as (w' & Hrun & Hcur & Hran & _ & Hcc & _ & Hret); [done|done|done|done|apply Hset|done|by rewrite Hname|by rewrite Hsize|by rewrite Hf| | |].
  { rewrite Hname. intros q x Hq Hx. eapply tame_lasting; [apply declared_lasting|]. by eapply Htame. }
  { by rewrite Hevs. }
  rewrite Hevs in Hrun, Hran, Hcc, Hret. rewrite Hsize in Hcc.
  unfold xy_call in Hrun. rewrite <- (declared_dispatch 0 (Some ret) argp false) in Hrun by apply Hok.
  assert (Hread : ∀ b, w_bufs w' !! ret = Some b → length (take (Z.to_nat (ad_ret_size a)) b) = Z.to_nat (ad_ret_size a) →
    hook_function (ad_ret_size a) reg ret argp w = Ok (take (Z.to_nat (ad_ret_size a)) b) w').
  { intros b Hb' Hlen. unfold hook_function, xy_call. rewrite (bind_Ok _ _ _ _ _ Hrun). eapply read_bytes_Ok; [done|].
    rewrite length_take in Hlen. lia. }
  destruct (decide (evs = [])) as [Hnil|Hne].
  - rewrite Hnil in Hcc. destruct (proj2 (cc_none _ _ _ _ _ Hcc eq_refl) ret eq_refl) as (b & Hb' & Hz).
    eexists _, w'. split; [apply (Hread b Hb'); by rewrite Hz, length_replicate|]. split_and!; [done|done|done|].
    intros x r Hx. by rewrite Hnil in Hx.
  - destruct (last evs) as [ev|] eqn:Hlast; [|by apply last_None in Hlast].
    assert (Hev : ∃ x r, ev = EvHook x argp r).
    { apply last_Some_elem_of in Hlast. by eapply listener_events_hook. }
    destruct Hev as (x & r & ->). destruct (Hret x r eq_refl ret eq_refl) as (w0 & v & w2 & b & Hcb & Hb' & Hv).
    rewrite Hf in Hv. eexists _, w'. split; [apply (Hread b Hb'); by rewrite Hv, length_resize|].
    split_and!; [done|done|done|]. intros x' r' [= <- <-]. by exists w0, v, w2.
Qed.
End call.

(** ** From the call to the listeners and back *)

Section hook.
Context {C : Corm} {CL : CormLaws C} {OS : Os} {CB : Callbacks}.
Context (type_size : string → option Z) (fields_size : list (string * string) → Z) {V : Type}.

(** C5. Calling a hook is calling functions: the function that XY_DECL makes of
    a declaration, called with [vals] in a region,
    runs every listener below that region that XY_IMPL compiled under the same
    declaration on exactly [vals], in order, and returns what the last one
    returned; when nobody listens it returns zeros.  So it is for the first call
    through a declaration and for the later ones, whatever its variables held
    before; the listeners may call back into the library, as in C1. *)
Theorem hook_call_reaches_listeners ftype fname (ps : list (string * string)) (vals : list V) decl emitted
    w reg h rid p anc tbl kids own ret argp junk (I : world → Prop) (code : addr → list V → M world (list Z)) :
  (length ps ≤ XY_RUNG_MAX)%nat → length vals = length ps →
  XY_DECL type_size fields_size ftype fname (flat_pairs ps) = Some decl →
  hook_emits type_size fields_size ftype fname (flat_pairs ps) emitted →
  declared_setting w reg (hu_adapter decl) (hu_adapter emitted) h rid p anc →
  dispatch_ok w tbl kids own p h fname anc → contexts_live w → gate_shut w anc fname = false →
  hosted (cur w) I → prepared reg h p anc I → (∀ a, I (w <| w_adapters ::= <[reg := a]> |>)) →
  let n := ad_ret_size (hu_adapter decl) in
  w_bufs w !! ret = Some junk → length junk = Z.to_nat n →
  let mods := preorder 65 kids own p in
  let evs := listener_events w anc fname argp mods in
  (∀ q x, q ∈ mods → listener w anc fname q = Some x →
    cb_hook x argp = compiled_listener (flat_pairs ps) (args_struct (flat_pairs ps) vals) (code x) ∧
    tame I p h reg w x argp) →
  Z.of_nat (length evs) < 2 ^ 32 →
  ∃ bytes w', hook_function n reg ret argp w = Ok bytes w' ∧ cur w' = cur w ∧ ran_all w w' evs ∧
    (∀ q x, q ∈ mods → listener w anc fname q = Some x → cb_hook x argp = code x vals) ∧
    (evs = [] → bytes = replicate (Z.to_nat n) 0) ∧
    (∀ x r, last evs = Some (EvHook x argp r) → ∃ w0 v w2, code x vals w0 = Ok v w2 ∧
      bytes = resize (Z.to_nat n) 0 v).
Proof.
  intros Hmax Hlen Hdecl Hem Hset Hok Hctx Hg HI Hpr HIw n Hret Hjunk mods evs Hl Hlt.
  destruct (macros_agree _ _ _ _ _ _ _ Hdecl Hem) as (f & Hcall & Hid & Hname & Hfits & Hf & Hc).
  assert (Hcode : ∀ q x, q ∈ mods → listener w anc fname q = Some x → cb_hook x argp = code x vals).
  { intros q x Hq Hx. destruct (Hl q x Hq Hx) as [-> _]. destruct (args_struct_pairs ps vals Hmax (XY_DECL_names _ _ _ _ _ _ Hmax Hdecl) Hlen) as [Hs Hr].
    unfold compiled_listener. rewrite Hs. cbn [mbind option_bind]. by rewrite Hr. }
  rewrite <- Hname in Hok, Hg.
  destruct (hook_function_runs w reg _ _ h f rid p anc Hset Hcall Hid Hfits Hc I tbl kids own ret argp junk)
    as (bytes & w' & Hrun & Hcur & Hran & Hnone & Hlast); [done..| |by rewrite Hname|].
  { rewrite Hname. intros q x Hq Hx. by apply (Hl q x). }
  rewrite Hname in Hran, Hnone, Hlast. exists bytes, w'. split_and!; [done..|].
  intros x r Hx. destruct (Hlast x r Hx) as (w0 & v & w2 & Hcb & Hb). exists w0, v, w2. split; [|done].
  apply last_Some_elem_of, list_elem_of_omap in Hx as (q & Hq & Hev).
  unfold listener_event in Hev.
  apply bind_Some in Hev as (x' & Hx & (m & _ & (c & _ & (y & _ & [= <- _])%bind_Some)%bind_Some)%bind_Some).
  by rewrite <- (Hcode q x').
Qed.
End hook.

(** ** On the sample runtime *)

Section witnesses.
Local Existing Instances gmap_corm gmap_corm_laws sample_os.

Definition int_size (t : string) : option Z := if String.eqb t "int" then Some 4 else None.
Definition int_fields (fields : list (string * string)) : Z := 4 * Z.of_nat (length fields).
Definition look_params : list (string * string) := [("int", "x"); ("int", "y")].

(** Both listeners of the sample answer their address and the sum of what they
    were given, read out of the struct at 7. *)
Definition look_code (x : addr) (vals : list Z) : M world (list Z) := mret [Zpos x; foldr Z.add 0 vals].
Definition look_callbacks : Callbacks := {|
  cb_dlopen _ := mret None;
  cb_install _ := mret tt;
  cb_hook x arg :=
    compiled_listener (flat_pairs look_params) (if arg =? 7 then args_struct (flat_pairs look_params) [3; 4] else None) (look_code x);
  cb_claim _ _ _ _ := mret (0, 0);
  cb_each _ _ _ _ := mret 0;
  cb_scope _ _ := mret 0;
  cb_cleanup _ _ := mret tt
|}.
Local Existing Instance look_callbacks.

Definition look_decl : hook_unit := HookUnit (Adapter "look_at" 8 4 None (-1)) false [].
(** The host's declaration, not called yet. *)
Definition look_world : world := sample_world <| w_adapters ::= <[41%positive := hu_adapter look_decl]> |>.

(** A call is not the different for an adapter more. *)
Lemma another_adapter (w : world) reg a tbl kids own re h name anc :
  let w' := w <| w_adapters ::= <[reg := a]> |> in
  (dispatch_ok w tbl kids own re h name anc → dispatch_ok w' tbl kids own re h name anc) ∧
  (contexts_live w → contexts_live w') ∧
  gate_shut w' anc name = gate_shut w anc name ∧ w_regions w' = w_regions w ∧ w_bufs w' = w_bufs w.
Proof. intros w'. split_and!; [|done..]. intros []. by split. Qed.

Lemma look_setting emitted :
  hu_adapter emitted = Adapter "look_at" 8 4 (Some sample_fn) (-1) →
  declared_setting look_world 41%positive (hu_adapter look_decl) (hu_adapter emitted) 0 0 1%positive [1%positive].
Proof.
  intros ->. split.
  - vm_compute; reflexivity.
  - vm_compute; reflexivity.
  - left. vm_compute; reflexivity.
  - intros [|i] q Hq; [|done]. injection Hq as <-. vm_compute; reflexivity.
  - eexists. vm_compute; reflexivity.
  - vm_compute; reflexivity.
  - done.
  - vm_compute; reflexivity.
  - vm_compute; reflexivity.
  - intros q Hq. unfold look_world.
    destruct (another_adapter sample_world 41%positive (hu_adapter look_decl) ∅ (λ _, []) sample_own 1%positive 0 "" [])
      as (_ & _ & _ & -> & _). by apply sample_chain_dom.
Qed.

Lemma hook_call_reaches_listeners_witness :
  ∃ w', hook_function 4 41%positive 60%positive 7 look_world = Ok [51; 7; 0; 0] w' ∧
    ran_all look_world w' sample_events.
Proof.
  destruct sample_dispatch_ok as (tbl & kids & Hok & Hpre).
  assert (Hdef : ∃ emitted, XY_DEF int_size int_fields "int" "look_at" (flat_pairs look_params) = Some (look_decl, emitted) ∧
    hu_adapter emitted = Adapter "look_at" 8 4 (Some sample_fn) (-1)).
  { eexists. split; vm_compute; reflexivity. }
  destruct Hdef as (emitted & Hdef & Hem).
  destruct (another_adapter sample_world 41%positive (hu_adapter look_decl) tbl kids sample_own 1%positive 0 "look_at" [1%positive])
    as (Hok' & Hctx & Hgate & _ & Hbufs). fold look_world in Hok', Hctx, Hgate, Hbufs.
  assert (Hevs : listener_events look_world [1%positive] "look_at" 7 (preorder 65 kids sample_own 1%positive) = sample_events).
  { rewrite Hpre. vm_compute. reflexivity. }
  destruct (hook_call_reaches_listeners int_size int_fields "int" "look_at" look_params [3; 4] look_decl emitted look_world
    41%positive 0 0 1%positive [1%positive] tbl kids sample_own 60%positive 7 [9; 9; 9; 9] (λ _, True) look_code)
    as (bytes & w' & Hrun & _ & Hran & _ & _ & Hlast).
  - vm_compute. lia.
  - reflexivity.
  - vm_compute. reflexivity.
  - left. by exists look_decl.
  - by apply look_setting.
  - by apply Hok'.
  - by apply Hctx, sample_contexts_live.
  - rewrite Hgate. exact sample_gate.
  - by intros ?.
  - by intros ?.
  - done.
  - rewrite Hbufs. vm_compute. reflexivity.
  - reflexivity.
  - intros q x _ _. split; [reflexivity|]. intros w0 _ _. exists [Zpos x; 7], w0, []. split_and!; [reflexivity|reflexivity|done|done|by rewrite app_nil_r].
  - rewrite Hevs. vm_compute. reflexivity.
  - rewrite Hevs in Hran, Hlast. exists w'. split; [|exact Hran].
    destruct (Hlast 51%positive (sample_id, Some 2%positive) eq_refl) as (w0 & v & w2 & Hcode & Hbytes).
    apply (f_equal (λ r, match r with Ok a _ => a | _ => [] end)) in Hcode.
    cbv beta iota delta [look_code mret M_ret] in Hcode. subst v. subst bytes. exact Hrun.
Defined.
End witnesses.
