(* ===== verification/ModKey.v ===== *)
(** * Module keys

    [mod_key] of src/libxylem.c: the loaded modules are tabled under
    "path, NUL, 16 hex digits, 2 hex digits", written by [snprintf] into a
    buffer of [strlen(path) + 19] bytes, whose last byte [snprintf] keeps for
    its terminator.  [module_key_eq] says what such a key tells apart. *)
From Stdlib Require Import Ascii.
From S2P Require Import Prelude Words.

Definition NUL : ascii := ascii_of_nat 0.

(** A lower-case hexadecimal digit. *)
Definition hex_digit (d : Z) : ascii :=
  if d <? 10 then ascii_of_nat (Z.to_nat (48 + d)) else ascii_of_nat (Z.to_nat (87 + d)).

(** ["%0wx"], for a value that fits in [w] digits *)
Fixpoint hex_pad (w : nat) (x : Z) : string :=
  match w with
  | O => ""
  | S w' => hex_pad w' (x / 16) +:+ String (hex_digit (x mod 16)) ""
  end.

(** [snprintf(buf, buf_len, "%s%c%016llx%02x", path, '\0', region_id, plen)]:
    what is left of the text, and the terminator. *)
Definition mod_key (buf_len : nat) (path : string) (region_id plen : Z) : string :=
  String.substring 0 (buf_len - 1) (path +:+ String NUL (hex_pad 16 region_id +:+ hex_pad 2 plen))
    +:+ String NUL "".

Definition MOD_KEY_SUFFIX_LEN : nat := 19.

(** [mod_key_len], and [mod_key_measure], which stops at the first NUL *)
Definition mod_key_len (path : string) : nat := (String.length path + MOD_KEY_SUFFIX_LEN)%nat.
Fixpoint c_strlen (s : string) : nat :=
  match s with
  | EmptyString => O
  | String c s' => if Ascii.eqb c NUL then O else S (c_strlen s')
  end.
Definition mod_key_measure (data : string) : nat := (c_strlen data + MOD_KEY_SUFFIX_LEN)%nat.

(** The key a path and a region make together. *)
Definition module_key (path : string) (region_id plen : Z) : string :=
  mod_key (mod_key_len path) path region_id plen.

(** ** Strings *)

(** A C string has no NUL in it. *)
Definition c_string (s : string) : Prop := c_strlen s = String.length s.

Lemma substring_app (a b : string) : String.substring 0 (String.length a) (a +:+ b) = a.
Proof. induction a as [|x a IH]; [by destruct b|]. rewrite str_app_cons. simpl. by rewrite IH. Qed.

Lemma str_app_inj (a a' b b' : string) :
  String.length a = String.length a' → a +:+ b = a' +:+ b' → a = a' ∧ b = b'.
Proof.
  revert a'. induction a as [|x a IH]; intros [|x' a']; try done.
  rewrite !str_app_cons. intros [= Hl] [= -> H]. by destruct (IH a' Hl H) as [-> ->].
Qed.

(** What stands before the first NUL is determined. *)
Lemma c_string_split (p p' s s' : string) :
  c_string p → c_string p' → p +:+ String NUL s = p' +:+ String NUL s' → p = p' ∧ s = s'.
Proof.
  unfold c_string. revert p'. induction p as [|x p IH]; intros [|x' p']; rewrite ?str_app_cons; simpl.
  - by intros _ _ [= ->].
  - intros _ Hp' [= <- _]. by rewrite Ascii.eqb_refl in Hp'.
  - intros Hp _ [= -> _]. by rewrite Ascii.eqb_refl in Hp.
  - destruct (Ascii.eqb_spec x NUL); [done|]. destruct (Ascii.eqb_spec x' NUL); [done|].
    intros [= Hp] [= Hp'] [= -> H]. by destruct (IH p' Hp Hp' H) as [-> ->].
Qed.

(** ** Digits *)

Lemma hex_digit_inj d d' : 0 ≤ d < 16 → 0 ≤ d' < 16 → hex_digit d = hex_digit d' → d = d'.
Proof.
  assert (H : forallb (λ i, forallb (λ j, implb (Ascii.eqb (hex_digit (Z.of_nat i)) (hex_digit (Z.of_nat j)))
    (Nat.eqb i j)) (seq 0 16)) (seq 0 16) = true) by (vm_compute; reflexivity).
  intros Hd Hd' Heq. rewrite forallb_forall in H.
  specialize (H (Z.to_nat d)). rewrite forallb_forall in H.
  assert (H1 : ∀ x, 0 ≤ x < 16 → In (Z.to_nat x) (seq 0 16)) by (intros; apply in_seq; lia).
  specialize (H (H1 d Hd) (Z.to_nat d') (H1 d' Hd')).
  rewrite !Z2Nat.id, Heq, Ascii.eqb_refl in H by lia. simpl in H. apply Nat.eqb_eq in H. lia.
Qed.

Lemma hex_pad_length w x : String.length (hex_pad w x) = w.
Proof.
  revert x. induction w as [|w IH]; intros x; [done|]. simpl.
  rewrite str_length_app, IH. simpl. lia.
Qed.

Lemma hex_pad_inj w x y :
  0 ≤ x < 16 ^ Z.of_nat w → 0 ≤ y < 16 ^ Z.of_nat w → hex_pad w x = hex_pad w y → x = y.
Proof.
  revert x y. induction w as [|w IH]; intros x y Hx Hy.
  { simpl in *. lia. }
  rewrite Nat2Z.inj_succ, Z.pow_succ_r in Hx, Hy by lia. simpl. intros H.
  apply str_app_inj in H as [Hhi [= Hlo]]; [|by rewrite !hex_pad_length].
  apply IH in Hhi; [|split; [apply Z.div_pos; lia|apply Z.div_lt_upper_bound; lia]..].
  apply hex_digit_inj in Hlo; [|apply Z.mod_pos_bound; lia..].
  rewrite (Z.div_mod x 16), (Z.div_mod y 16) by lia. congruence.
Qed.

(** ** Keys *)

(** The truncation falls on the last digit of the width. *)
Lemma module_key_text path id plen :
  module_key path id plen =
    path +:+ String NUL (hex_pad 16 id +:+ String (hex_digit (plen / 16 mod 16)) (String NUL "")).
Proof.
  unfold module_key, mod_key, mod_key_len, MOD_KEY_SUFFIX_LEN.
  set (a := path +:+ String NUL (hex_pad 16 id +:+ String (hex_digit (plen / 16 mod 16)) "")).
  assert (Ha : path +:+ String NUL (hex_pad 16 id +:+ hex_pad 2 plen) =
    a +:+ String (hex_digit (plen mod 16)) "").
  { unfold a. rewrite str_app_assoc. by rewrite !str_app_cons, str_app_assoc. }
  assert (Hlen : (String.length path + 19 - 1)%nat = String.length a).
  { unfold a. rewrite str_length_app. cbn [String.length]. rewrite str_length_app, hex_pad_length.
    simpl. lia. }
  rewrite Ha, Hlen, substring_app. unfold a.
  rewrite str_app_assoc. by rewrite !str_app_cons, str_app_assoc.
Qed.

Lemma module_key_eq path path' id id' plen plen' :
  c_string path → c_string path' → is_u64 id → is_u64 id' → is_u8 plen → is_u8 plen' →
  module_key path id plen = module_key path' id' plen' ↔
    path = path' ∧ id = id' ∧ plen / 16 = plen' / 16.
Proof.
  intros Hp Hp' Hi Hi' Hl Hl'. unfold is_u64, is_u8 in *. rewrite !module_key_text. split.
  - intros H. apply c_string_split in H as [-> H]; [|done..]. split; [done|].
    apply str_app_inj in H as [Hid Hrest]; [|by rewrite !hex_pad_length].
    injection Hrest as Hd. split.
    + apply hex_pad_inj in Hid; [done|..]; simpl; lia.
    + assert (∀ l, 0 ≤ l < 256 → 0 ≤ l / 16 < 16) as Hb.
      { intros l ?. split; [apply Z.div_pos; lia|apply Z.div_lt_upper_bound; lia]. }
      rewrite !Z.mod_small in Hd by (apply Hb; simpl in *; lia).
      apply hex_digit_inj in Hd; [done|apply Hb; simpl in *; lia..].
  - by intros (-> & -> & ->).
Qed.

(** The table's own measure of a key is the buffer's length. *)
Lemma module_key_measure path id plen :
  c_string path → mod_key_measure (module_key path id plen) = String.length (module_key path id plen).
Proof.
  intros Hp. rewrite module_key_text. unfold mod_key_measure, MOD_KEY_SUFFIX_LEN.
  assert (∀ s, c_strlen (path +:+ String NUL s) = String.length path) as ->.
  { intros s. rewrite <- Hp. clear. induction path as [|c p IH]; [done|]. rewrite str_app_cons. simpl.
    by rewrite IH. }
  rewrite str_length_app. cbn [String.length]. rewrite str_length_app, hex_pad_length. simpl. lia.
Qed.
