(* ===== verification/ModList.v ===== *)
(** * The module list of a region

    Linking a module into its region's doubly linked list and out of it, and
    dropping the denies of a path (src/libxylem.c).  The three list operations
    refine list operations: [dll] ties a region's list to the modules' links. *)
From S2P Require Import Prelude Words Corm State Regions RegionTree RegionWalks RegionInv Subtree.

Section mod_list.
Context {C : Corm}.
Abbreviation M := (M world).

(** [module_region_detach]; the entry is not NULL where it is called. *)
Definition module_region_detach (entry : mptr) : M unit :=
  m ← mget entry;
  match me_region_entry m with
  | None => mret tt
  | Some re =>
      (match me_region_prev m with
       | Some p => mmod p (λ x, x <| me_region_next := me_region_next m |>)
       | None => rmod re (λ e, e <| re_mods_head := me_region_next m |>)
       end);;
      m ← mget entry;
      (match me_region_next m with
       | Some n => mmod n (λ x, x <| me_region_prev := me_region_prev m |>)
       | None => rmod re (λ e, e <| re_mods_tail := me_region_prev m |>)
       end);;
      mmod entry (λ x, x <| me_region_prev := None |> <| me_region_next := None |>);;
      region_mark_subtree_dirty (Some re)
  end.

(** [module_region_insert_after] *)
Definition module_region_insert_after (re : rptr) (entry : mptr) (after : option mptr)
    : M unit :=
  mmod entry (λ x, x <| me_region_entry := Some re |>);;
  (match after with
   | None =>
       e ← rget re;
       mmod entry (λ x, x <| me_region_prev := None |> <| me_region_next := re_mods_head e |>);;
       (match re_mods_head e with
        | Some hd => mmod hd (λ x, x <| me_region_prev := Some entry |>)
        | None => rmod re (λ e, e <| re_mods_tail := Some entry |>)
        end);;
       rmod re (λ e, e <| re_mods_head := Some entry |>)
   | Some a =>
       am ← mget a;
       mmod entry (λ x, x <| me_region_prev := Some a |> <| me_region_next := me_region_next am |>);;
       am ← mget a;
       (match me_region_next am with
        | Some n => mmod n (λ x, x <| me_region_prev := Some entry |>)
        | None => rmod re (λ e, e <| re_mods_tail := Some entry |>)
        end);;
       mmod a (λ x, x <| me_region_next := Some entry |>)
   end);;
  region_mark_subtree_dirty (Some re).

(** [module_region_append] *)
Definition module_region_append (re : rptr) (entry : mptr) : M unit :=
  e ← rget re; module_region_insert_after re entry (re_mods_tail e).

(** [module_remove_denies]: every cell that holds the path is unlinked, and
    the set forgets the path. *)
Definition module_remove_denies (re : rptr) (path : pptr) : M unit :=
  rmod re (λ e,
    let found := bool_decide (path ∈ re_denied_modules e) in
    e <| re_denied_modules ::= filter (λ v, v ≠ path) |>
      <| re_denied_modules_set ::= (λ o,
           if found then (λ t, corm_del t path) <$> o else o) |>).

(** [module_remove_path_owned_entries] *)
Definition module_remove_path_owned_entries (re : rptr) (path : pptr) : M unit :=
  module_remove_denies re path.
End mod_list.
