(* ===== verification/ModListSpecs.v ===== *)
(** * The module list, specified

    The list operations of ModList.v keep [mods_wf]: linking a module between
    two parts of a region's list puts it there and nowhere else, detaching it
    takes it out, and the caches of the region and its ancestors are marked
    stale. *)
From S2P Require Import Prelude Words Corm State Regions RegionTree RegionWalks RegionInv Subtree ModList.

(** ** Chains *)

Section chains.
Context {T : Type} (f : T → option positive).
Implicit Types (h : gmap positive T) (l : list positive).

Lemma chain_head h o l : chain h f o l → o = head l.
Proof. destruct l; simpl; [done|by intros [-> _]]. Qed.

(** Cells of [l] keep their link from [h] to [h'], apart from the last of
    [l1]. *)
Definition keeps_links h h' (l1 l : list positive) : Prop :=
  ∀ q c, q ∈ l → last l1 ≠ Some q → h !! q = Some c → ∃ c', h' !! q = Some c' ∧ f c' = f c.

Lemma keeps_links_nil h h' l o : keeps_links h h' [] l → chain h f o l → chain h' f o l.
Proof. intros Hk Hc. eapply chain_frame; [done|]. intros q c Hq. by apply Hk. Qed.

Lemma keeps_links_cons h h' y l1 l2 :
  keeps_links h h' (y :: l1) ((y :: l1) ++ l2) → NoDup ((y :: l1) ++ l2) →
  keeps_links h h' l1 (l1 ++ l2).
Proof.
  intros Hk Hnd q c Hq Hl. apply Hk; [by right|]. apply NoDup_cons in Hnd as [Hy _].
  destruct l1; [|done]. intros [= ->]. by apply Hy.
Qed.

(** A cell that is not the last of its list keeps its link. *)
Lemma keeps_links_head h h' y z l1 l2 c :
  keeps_links h h' (y :: z :: l1) ((y :: z :: l1) ++ l2) → NoDup ((y :: z :: l1) ++ l2) →
  h !! y = Some c → ∃ c', h' !! y = Some c' ∧ f c' = f c.
Proof.
  intros Hk [Hy _]%NoDup_cons Hc. apply (Hk y); [by left| |done].
  rewrite last_cons_cons. intros Hl%last_Some_elem_of. apply Hy. set_solver.
Qed.

(** Linking [x] in between [l1] and [l2]. *)
Lemma chain_link h h' x l1 l2 o :
  chain h f o (l1 ++ l2) → keeps_links h h' l1 (l1 ++ l2) → NoDup (l1 ++ l2) →
  (∀ a, last l1 = Some a → ∃ c, h' !! a = Some c ∧ f c = Some x) →
  (∃ c, h' !! x = Some c ∧ f c = head l2) →
  chain h' f (match l1 with [] => Some x | _ => o end) (l1 ++ x :: l2).
Proof.
  revert o. induction l1 as [|y l1 IH]; intros o Hc Hk Hnd Ha Hx.
  - destruct Hx as (c & Hx & Hfx). simpl. split; [done|]. exists c. split; [done|]. rewrite Hfx.
    pose proof (chain_head _ _ _ Hc) as Ho. simpl in Ho, Hc. rewrite <- Ho. by eapply keeps_links_nil.
  - destruct Hc as (-> & cy & Hy & Hc). simpl. split; [done|].
    pose proof (keeps_links_cons _ _ _ _ _ Hk Hnd) as Hk'.
    pose proof Hnd as [_ Hnd']%NoDup_cons. destruct l1 as [|z l1].
    + destruct (Ha y eq_refl) as (c' & Hy' & Hf'). exists c'. split; [done|]. rewrite Hf'.
      by apply (IH (f cy)).
    + destruct (keeps_links_head _ _ _ _ _ _ _ Hk Hnd Hy) as (c' & Hy' & Hf').
      exists c'. split; [done|]. rewrite Hf'. by apply (IH (f cy)).
Qed.

(** Taking [x] out from between [l1] and [l2]. *)
Lemma chain_unlink h h' x l1 l2 o :
  chain h f o (l1 ++ x :: l2) → keeps_links h h' l1 (l1 ++ l2) → NoDup (l1 ++ l2) →
  (∀ a, last l1 = Some a → ∃ c, h' !! a = Some c ∧ f c = head l2) →
  chain h' f (match l1 with [] => head l2 | _ => o end) (l1 ++ l2).
Proof.
  revert o. induction l1 as [|y l1 IH]; intros o Hc Hk Hnd Ha.
  - destruct Hc as (-> & c & Hx & Hc). simpl. pose proof (chain_head _ _ _ Hc) as Ho. rewrite <- Ho.
    by eapply keeps_links_nil.
  - destruct Hc as (-> & cy & Hy & Hc). simpl. split; [done|].
    pose proof (keeps_links_cons _ _ _ _ _ Hk Hnd) as Hk'.
    pose proof Hnd as [_ Hnd']%NoDup_cons. destruct l1 as [|z l1].
    + destruct (Ha y eq_refl) as (c' & Hy' & Hf'). exists c'. split; [done|]. rewrite Hf'.
      by apply (IH (f cy)).
    + destruct (keeps_links_head _ _ _ _ _ _ _ Hk Hnd Hy) as (c' & Hy' & Hf').
      exists c'. split; [done|]. rewrite Hf'. by apply (IH (f cy)).
Qed.
End chains.

Section specs.
Context {C : Corm} {CL : CormLaws C}.
Implicit Types (w : world) (ms : gmap mptr mod_entry) (x q : mptr) (l : list mptr).

(** ** The modules after a change of links *)

Definition alter_opt (f : mod_entry → mod_entry) (o : option mptr) ms : gmap mptr mod_entry :=
  match o with Some q => alter f q ms | None => ms end.

(** [x] linked between [l1] and [l2], as a module of [re]. *)
Definition linked re x l1 l2 ms : gmap mptr mod_entry :=
  alter_opt (λ m, m <| me_region_next := Some x |>) (last l1)
    (alter_opt (λ m, m <| me_region_prev := Some x |>) (head l2)
      (alter (λ m, m <| me_region_entry := Some re |> <| me_region_prev := last l1 |>
                     <| me_region_next := head l2 |>) x ms)).

(** [x] taken out from between [l1] and [l2]. *)
Definition unlinked x l1 l2 ms : gmap mptr mod_entry :=
  alter (λ m, m <| me_region_prev := None |> <| me_region_next := None |>) x
    (alter_opt (λ m, m <| me_region_prev := last l1 |>) (head l2)
      (alter_opt (λ m, m <| me_region_next := head l2 |>) (last l1) ms)).

Lemma alter_opt_lookup f o ms q :
  alter_opt f o ms !! q = if decide (o = Some q) then f <$> ms !! q else ms !! q.
Proof.
  unfold alter_opt. destruct (decide (o = Some q)) as [->|Hne]; [apply lookup_alter_eq|].
  destruct o as [p|]; [|done]. apply lookup_alter_ne. congruence.
Qed.

(** The ends of the two parts are in the list, and differ. *)
Lemma ends_distinct l1 l2 q : NoDup (l1 ++ l2) → last l1 = Some q → head l2 = Some q → False.
Proof.
  intros (_ & Hd & _)%NoDup_app H1%last_Some_elem_of H2%head_Some_elem_of. by eapply Hd.
Qed.

Lemma head_reverse_app l1 l2 : head (reverse (l1 ++ l2)) = last (l1 ++ l2).
Proof. by rewrite <- last_reverse, reverse_involutive. Qed.

Lemma mmod_alter w p m f :
  w_mods w !! p = Some m → mmod p f w = Ok tt (w <| w_mods ::= alter f p |>).
Proof.
  intros Hp. erewrite mmod_Ok by done. unfold field_over; simpl. do 2 f_equal.
  apply map_eq. intros q. destruct (decide (q = p)) as [->|].
  - by rewrite lookup_insert_eq, lookup_alter_eq, Hp.
  - by rewrite lookup_insert_ne, lookup_alter_ne.
Qed.

(** ** The links of one module *)

Lemma linked_lookup re x l1 l2 ms q m :
  last l1 ≠ Some x → head l2 ≠ Some x → ms !! q = Some m →
  ∃ m', linked re x l1 l2 ms !! q = Some m' ∧
    me_region_entry m' = (if decide (q = x) then Some re else me_region_entry m) ∧
    me_region_next m' = (if decide (q = x) then head l2
                         else if decide (last l1 = Some q) then Some x else me_region_next m) ∧
    me_region_prev m' = (if decide (q = x) then last l1
                         else if decide (head l2 = Some q) then Some x else me_region_prev m).
Proof.
  intros H1 H2 Hm. unfold linked. rewrite !alter_opt_lookup.
  destruct (decide (q = x)) as [->|Hq].
  - rewrite !decide_False by done. rewrite lookup_alter_eq, Hm. by eexists.
  - rewrite lookup_alter_ne, Hm by done.
    repeat case_decide; (eexists; split; [done|]); done.
Qed.

Lemma unlinked_lookup x l1 l2 ms q m :
  ms !! q = Some m →
  ∃ m', unlinked x l1 l2 ms !! q = Some m' ∧
    me_region_entry m' = me_region_entry m ∧
    (q ≠ x → me_region_next m' = if decide (last l1 = Some q) then head l2 else me_region_next m) ∧
    (q ≠ x → me_region_prev m' = if decide (head l2 = Some q) then last l1 else me_region_prev m).
Proof.
  intros Hm. unfold unlinked. destruct (decide (q = x)) as [->|Hq].
  - rewrite lookup_alter_eq, !alter_opt_lookup, Hm.
    repeat case_decide; (eexists; split; [done|]); done.
  - rewrite lookup_alter_ne, !alter_opt_lookup, Hm by done.
    repeat case_decide; (eexists; split; [done|]); done.
Qed.

(** The region after its list became [l1 ++ x :: l2], or [l1 ++ l2]. *)
Definition with_ends (l : list mptr) (e : region_entry) : region_entry :=
  e <| re_mods_head := head l |> <| re_mods_tail := last l |>.

Lemma mods_wf_disjoint h ms own p p' q :
  mods_wf h ms own → p ∈ dom h → p' ∈ dom h → q ∈ own p → q ∈ own p' → p = p'.
Proof.
  intros Hwf [e He]%elem_of_dom [e' He']%elem_of_dom Hq Hq'.
  pose proof (chain_dom _ _ _ _ _ (mw_next _ _ _ Hwf _ _ He) Hq) as [m Hm]%elem_of_dom.
  pose proof (mw_entry _ _ _ Hwf p q m (elem_of_dom_2 _ _ _ He) Hq Hm) as H1.
  pose proof (mw_entry _ _ _ Hwf p' q m (elem_of_dom_2 _ _ _ He') Hq' Hm) as H2. congruence.
Qed.

Lemma mods_wf_NoDup h ms own p e : mods_wf h ms own → h !! p = Some e → NoDup (own p).
Proof. intros Hwf He. eapply chain_NoDup. by apply (mw_next _ _ _ Hwf). Qed.

Lemma match_nil_head l1 l2 x :
  match l1 with [] => Some x | _ => head (l1 ++ l2) end = head (l1 ++ x :: l2).
Proof. by destruct l1. Qed.
Lemma match_nil_head2 l1 l2 :
  match l1 with [] => head l2 | _ => head (l1 ++ l2) end = head (l1 ++ l2).
Proof. by destruct l1. Qed.

Lemma match_nil_head3 l1 l2 x :
  match l1 with [] => head l2 | _ => head (l1 ++ l2) end =
  match l1 with [] => head l2 | _ => head (l1 ++ x :: l2) end.
Proof. by destruct l1. Qed.

(** The two ends a region records. *)
Lemma mods_wf_ends h ms own re e :
  mods_wf h ms own → h !! re = Some e → re_mods_head e = head (own re) ∧ re_mods_tail e = last (own re).
Proof.
  intros Hwf He. split; [by apply (chain_head _ _ _ _ (mw_next _ _ _ Hwf _ _ He))|].
  rewrite (chain_head _ _ _ _ (mw_prev _ _ _ Hwf _ _ He)). by rewrite <- last_reverse, reverse_involutive.
Qed.

(** Modules of other regions are not among the neighbours. *)
Lemma mods_wf_far h ms own re l1 l2 p q :
  mods_wf h ms own → re ∈ dom h → (∀ a, a ∈ l1 ++ l2 → a ∈ own re) →
  p ∈ dom h → p ≠ re → q ∈ own p → last l1 ≠ Some q ∧ head l2 ≠ Some q ∧ q ∉ own re.
Proof.
  intros Hwf Hre Hown Hp Hne Hq. assert (q ∉ own re) as Hqre.
  { intros Hq'. apply Hne. by eapply mods_wf_disjoint. }
  split_and!; [| |done].
  - intros ?%last_Some_elem_of. apply Hqre, Hown. set_solver.
  - intros ?%head_Some_elem_of. apply Hqre, Hown. set_solver.
Qed.

Lemma mods_wf_linked h ms own re e x l1 l2 :
  mods_wf h ms own → h !! re = Some e → own re = l1 ++ l2 → x ∈ dom ms →
  (∀ p, p ∈ dom h → x ∉ own p) →
  mods_wf (<[re := with_ends (l1 ++ x :: l2) e]> h) (linked re x l1 l2 ms)
    (λ p, if decide (p = re) then l1 ++ x :: l2 else own p).
Proof.
  intros Hwf He Hown [mx Hx]%elem_of_dom Hnew.
  pose proof (elem_of_dom_2 _ _ _ He) as Hre.
  assert (Hnx : x ∉ l1 ++ l2) by (rewrite <- Hown; by apply Hnew).
  assert (Hl : last l1 ≠ Some x) by (intros ?%last_Some_elem_of; set_solver).
  assert (Hh : head l2 ≠ Some x) by (intros ?%head_Some_elem_of; set_solver).
  pose proof (mods_wf_NoDup _ _ _ _ _ Hwf He) as Hnd. rewrite Hown in Hnd.
  pose proof (mw_next _ _ _ Hwf _ _ He) as Hcn. pose proof (mw_prev _ _ _ Hwf _ _ He) as Hcp.
  rewrite Hown in Hcn, Hcp. rewrite reverse_app in Hcp.
  destruct (linked_lookup re x l1 l2 ms x mx Hl Hh Hx) as (mx' & Hx' & Hxe & Hxn & Hxp).
  rewrite !decide_True in Hxe, Hxn, Hxp by done.
  assert (Hfar : ∀ p q, p ∈ dom h → p ≠ re → q ∈ own p → last l1 ≠ Some q ∧ head l2 ≠ Some q ∧ q ≠ x).
  { intros p q Hp Hne Hq. destruct (mods_wf_far h ms own re l1 l2 p q) as (? & ? & _); try done.
    - by rewrite Hown.
    - split_and!; [done..|]. intros ->. by eapply Hnew. }
  split.
  - intros p e' Hp. case_decide as Hpr; [subst p|].
    + rewrite lookup_insert_eq in Hp. injection Hp as <-. simpl.
      rewrite <- match_nil_head. rewrite <- (chain_head _ _ _ _ Hcn).
      eapply chain_link; [done| |done| |by eexists].
      * intros q c Hq Hlq Hc. destruct (linked_lookup re x l1 l2 ms q c Hl Hh Hc) as (c' & ? & _ & Hn & _).
        exists c'. split; [done|]. rewrite Hn, !decide_False by (done || set_solver). done.
      * intros a Ha. assert (a ∈ l1 ++ l2) as Hain by (apply last_Some_elem_of in Ha; set_solver).
        pose proof (chain_dom _ _ _ _ _ Hcn Hain) as [c Hc]%elem_of_dom.
        destruct (linked_lookup re x l1 l2 ms a c Hl Hh Hc) as (c' & ? & _ & Hn & _).
        exists c'. split; [done|]. rewrite Hn, decide_False, decide_True by (done || set_solver). done.
    + rewrite lookup_insert_ne in Hp by done. eapply chain_frame; [by apply (mw_next _ _ _ Hwf)|].
      intros q c Hq Hc. destruct (Hfar p q) as (? & ? & ?); [by eapply elem_of_dom_2|done..|].
      destruct (linked_lookup re x l1 l2 ms q c Hl Hh Hc) as (c' & ? & _ & Hn & _).
      exists c'. split; [done|]. by rewrite Hn, !decide_False.
  - intros p e' Hp. case_decide as Hpr; [subst p|].
    + rewrite lookup_insert_eq in Hp. injection Hp as <-. simpl.
      rewrite <- head_reverse_app, reverse_app, reverse_cons, <- app_assoc. cbn [app].
      rewrite <- match_nil_head. rewrite <- (chain_head _ _ _ _ Hcp).
      eapply chain_link; [done| |by rewrite <- reverse_app, reverse_Permutation| |].
      * intros q c Hq Hlq Hc. rewrite last_reverse in Hlq.
        destruct (linked_lookup re x l1 l2 ms q c Hl Hh Hc) as (c' & ? & _ & _ & Hp').
        exists c'. split; [done|]. rewrite Hp', !decide_False by (done || set_solver). done.
      * intros a Ha. rewrite last_reverse in Ha.
        assert (a ∈ l1 ++ l2) as Hain by (apply head_Some_elem_of in Ha; set_solver).
        pose proof (chain_dom _ _ _ _ _ Hcn Hain) as [c Hc]%elem_of_dom.
        destruct (linked_lookup re x l1 l2 ms a c Hl Hh Hc) as (c' & ? & _ & _ & Hp').
        exists c'. split; [done|]. rewrite Hp', decide_False, decide_True by (done || set_solver). done.
      * exists mx'. split; [done|]. by rewrite Hxp, <- last_reverse, reverse_involutive.
    + rewrite lookup_insert_ne in Hp by done. eapply chain_frame; [by apply (mw_prev _ _ _ Hwf)|].
      intros q c Hq Hc. rewrite elem_of_reverse in Hq.
      destruct (Hfar p q) as (? & ? & ?); [by eapply elem_of_dom_2|done..|].
      destruct (linked_lookup re x l1 l2 ms q c Hl Hh Hc) as (c' & ? & _ & _ & Hp').
      exists c'. split; [done|]. by rewrite Hp', !decide_False.
  - intros p q m Hp Hq Hm. rewrite dom_insert_L in Hp.
    assert (p ∈ dom h) as Hph by set_solver.
    assert (is_Some (ms !! q)) as [c Hc].
    { revert Hm. unfold linked. rewrite !alter_opt_lookup. destruct (decide (q = x)) as [->|].
      - intros _. by eexists.
      - rewrite lookup_alter_ne by done. repeat case_decide; destruct (ms !! q); done || by eexists. }
    destruct (linked_lookup re x l1 l2 ms q c Hl Hh Hc) as (c' & Hc' & He' & _).
    assert (c' = m) as -> by congruence. rewrite He'. destruct (decide (p = re)) as [->|Hpr].
    + case_decide; [done|]. apply (mw_entry _ _ _ Hwf re q c); [done| |done]. rewrite Hown. set_solver.
    + destruct (Hfar p q Hph Hpr Hq) as (_ & _ & Hne). rewrite decide_False by done.
      by apply (mw_entry _ _ _ Hwf p q c).
Qed.

Lemma mods_wf_unlinked h ms own re e x l1 l2 :
  mods_wf h ms own → h !! re = Some e → own re = l1 ++ x :: l2 →
  mods_wf (<[re := with_ends (l1 ++ l2) e]> h) (unlinked x l1 l2 ms)
    (λ p, if decide (p = re) then l1 ++ l2 else own p).
Proof.
  intros Hwf He Hown. pose proof (elem_of_dom_2 _ _ _ He) as Hre.
  pose proof (mods_wf_NoDup _ _ _ _ _ Hwf He) as Hnd. rewrite Hown in Hnd.
  assert ((x ∉ l1 ++ l2) ∧ NoDup (l1 ++ l2)) as [Hnx Hnd'].
  { apply NoDup_cons. by rewrite Permutation_middle. }
  pose proof (mw_next _ _ _ Hwf _ _ He) as Hcn. pose proof (mw_prev _ _ _ Hwf _ _ He) as Hcp.
  rewrite Hown in Hcn, Hcp. rewrite reverse_app, reverse_cons, <- app_assoc in Hcp. cbn [app] in Hcp.
  assert (Hdom : ∀ a, a ∈ l1 ++ l2 → ∃ c, ms !! a = Some c ∧ a ≠ x).
  { intros a Ha. assert (a ∈ l1 ++ x :: l2) as Ha' by set_solver.
    pose proof (chain_dom _ _ _ _ _ Hcn Ha') as [c Hc]%elem_of_dom. exists c. set_solver. }
  assert (Hfar : ∀ p q, p ∈ dom h → p ≠ re → q ∈ own p → last l1 ≠ Some q ∧ head l2 ≠ Some q ∧ q ≠ x).
  { intros p q Hp Hne Hq. destruct (mods_wf_far h ms own re l1 l2 p q) as (? & ? & Hn); try done.
    - intros a Ha. rewrite Hown. set_solver.
    - split_and!; [done..|]. intros ->. apply Hn. rewrite Hown. set_solver. }
  split.
  - intros p e' Hp. case_decide as Hpr; [subst p|].
    + rewrite lookup_insert_eq in Hp. injection Hp as <-. simpl.
      rewrite <- match_nil_head2. rewrite match_nil_head3 with (x := x). rewrite <- (chain_head _ _ _ _ Hcn).
      eapply chain_unlink; [done| |done|].
      * intros q c Hq Hlq Hc. destruct (unlinked_lookup x l1 l2 ms q c Hc) as (c' & ? & _ & Hn & _).
        exists c'. split; [done|]. rewrite Hn by set_solver. by rewrite decide_False.
      * intros a Ha. destruct (Hdom a) as (c & Hc & Hax); [apply last_Some_elem_of in Ha; set_solver|].
        destruct (unlinked_lookup x l1 l2 ms a c Hc) as (c' & ? & _ & Hn & _).
        exists c'. split; [done|]. by rewrite Hn, decide_True.
    + rewrite lookup_insert_ne in Hp by done. eapply chain_frame; [by apply (mw_next _ _ _ Hwf)|].
      intros q c Hq Hc. destruct (Hfar p q) as (? & ? & ?); [by eapply elem_of_dom_2|done..|].
      destruct (unlinked_lookup x l1 l2 ms q c Hc) as (c' & ? & _ & Hn & _).
      exists c'. split; [done|]. by rewrite Hn, decide_False.
  - intros p e' Hp. case_decide as Hpr; [subst p|].
    + rewrite lookup_insert_eq in Hp. injection Hp as <-. simpl.
      rewrite <- head_reverse_app, reverse_app.
      rewrite <- match_nil_head2. rewrite match_nil_head3 with (x := x). rewrite <- (chain_head _ _ _ _ Hcp).
      eapply chain_unlink; [done| |by rewrite <- reverse_app, reverse_Permutation|].
      * intros q c Hq Hlq Hc. rewrite last_reverse in Hlq.
        destruct (unlinked_lookup x l1 l2 ms q c Hc) as (c' & ? & _ & _ & Hp').
        exists c'. split; [done|]. rewrite Hp' by set_solver. by rewrite decide_False.
      * intros a Ha. rewrite last_reverse in Ha.
        destruct (Hdom a) as (c & Hc & Hax); [apply head_Some_elem_of in Ha; set_solver|].
        destruct (unlinked_lookup x l1 l2 ms a c Hc) as (c' & ? & _ & _ & Hp').
        exists c'. split; [done|]. rewrite Hp', decide_True by done.
        by rewrite <- last_reverse, reverse_involutive.
    + rewrite lookup_insert_ne in Hp by done. eapply chain_frame; [by apply (mw_prev _ _ _ Hwf)|].
      intros q c Hq Hc. rewrite elem_of_reverse in Hq.
      destruct (Hfar p q) as (? & ? & ?); [by eapply elem_of_dom_2|done..|].
      destruct (unlinked_lookup x l1 l2 ms q c Hc) as (c' & ? & _ & _ & Hp').
      exists c'. split; [done|]. by rewrite Hp', decide_False.
  - intros p q m Hp Hq Hm. rewrite dom_insert_L in Hp. assert (p ∈ dom h) as Hph by set_solver.
    assert (∃ c, ms !! q = Some c) as [c Hc].
    { destruct (ms !! q) as [c|] eqn:Hc; [by eexists|]. revert Hm. unfold unlinked.
      destruct (decide (q = x)) as [->|]; [rewrite lookup_alter_eq|rewrite lookup_alter_ne by done];
        rewrite !alter_opt_lookup, Hc; repeat case_decide; done. }
    destruct (unlinked_lookup x l1 l2 ms q c Hc) as (c' & Hc' & He' & _).
    assert (c' = m) as -> by congruence. rewrite He'.
    apply (mw_entry _ _ _ Hwf p q c); [done| |done].
    destruct (decide (p = re)) as [->|]; [rewrite Hown; set_solver|done].
Qed.

(** ** The operations run *)

Lemma alter_present f ms p q m : ms !! q = Some m → ∃ m', alter f p ms !! q = Some m'.
Proof.
  intros Hq. destruct (decide (p = q)) as [->|].
  - rewrite lookup_alter_eq, Hq. by eexists.
  - rewrite lookup_alter_ne by done. by eexists.
Qed.

Lemma mmod_run w p f : p ∈ dom (w_mods w) → mmod p f w = Ok tt (w <| w_mods ::= alter f p |>).
Proof. intros [m Hm]%elem_of_dom. by eapply mmod_alter. Qed.

Lemma dom_alter_elem f ms p q : q ∈ dom ms → q ∈ dom (alter f p ms).
Proof. by rewrite dom_alter_L. Qed.

(** Writing the region's ends. *)
Lemma ends_insert (h : gmap rptr region_entry) re e e' :
  h !! re = Some e → e' = e → <[re := e']> h = h.
Proof. intros He ->. by apply insert_id. Qed.

(** The successor of a list's cell. *)
Lemma chain_next_of h own re e ms l1 a l2 m :
  mods_wf h ms own → h !! re = Some e → own re = l1 ++ a :: l2 → ms !! a = Some m →
  me_region_next m = head l2.
Proof.
  intros Hwf He Hown Ha. pose proof (mw_next _ _ _ Hwf _ _ He) as Hc. rewrite Hown in Hc.
  apply chain_head_suffix in Hc as (_ & m' & Hm' & Hc). assert (m' = m) as -> by congruence.
  by apply (chain_head _ _ _ _ Hc).
Qed.

Lemma alter_alter_eq (f g : mod_entry → mod_entry) ms x :
  alter f x (alter g x ms) = alter (λ m, f (g m)) x ms.
Proof.
  apply map_eq. intros q. destruct (decide (q = x)) as [->|].
  - rewrite !lookup_alter_eq. by destruct (ms !! x).
  - by rewrite !lookup_alter_ne.
Qed.

Lemma insert_front_run w own re e x l2 :
  mods_wf (w_regions w) (w_mods w) own → w_regions w !! re = Some e → own re = l2 →
  x ∈ dom (w_mods w) → x ∉ own re →
  module_region_insert_after re x None w =
    region_mark_subtree_dirty (Some re)
      (w <| w_regions ::= <[re := with_ends (x :: l2) e]> |> <| w_mods ::= linked re x [] l2 |>).
Proof.
  intros Hwf He Hown Hx Hnx. destruct (mods_wf_ends _ _ _ _ _ Hwf He) as [Hhd Htl].
  assert (Hdom : ∀ a, a ∈ l2 → a ∈ dom (w_mods w)).
  { intros a Ha. eapply chain_dom; [by apply (mw_next _ _ _ Hwf)|by rewrite Hown]. }
  rewrite Hown in *. unfold module_region_insert_after, linked. cbn [last alter_opt].
  rewrite (bind_Ok _ _ _ _ _ (mmod_run _ _ _ Hx)), bind_assoc. run.
  rewrite bind_assoc. erewrite bind_Ok by (apply mmod_run; simpl; by rewrite dom_alter_L).
  rewrite bind_assoc. rewrite Hhd. destruct l2 as [|n l2]; cbn [head alter_opt].
  - run. erewrite bind_Ok by (apply rmod_Ok; simpl; by rewrite lookup_insert_eq).
    f_equal. unfold with_ends, field_over; simpl. by rewrite insert_insert_eq, alter_alter_eq.
  - erewrite bind_Ok by (apply mmod_run; simpl; rewrite !dom_alter_L; apply Hdom; by left).
    erewrite bind_Ok by (by apply rmod_Ok). f_equal. unfold with_ends, field_over; simpl.
    by rewrite alter_alter_eq, Htl.
Qed.

Lemma insert_behind_run w own re e x l1 a l2 :
  mods_wf (w_regions w) (w_mods w) own → w_regions w !! re = Some e → own re = l1 ++ a :: l2 →
  x ∈ dom (w_mods w) → x ∉ own re →
  module_region_insert_after re x (Some a) w =
    region_mark_subtree_dirty (Some re)
      (w <| w_regions ::= <[re := with_ends (l1 ++ a :: x :: l2) e]> |>
         <| w_mods ::= linked re x (l1 ++ [a]) l2 |>).
Proof.
  intros Hwf He Hown Hx Hnx. destruct (mods_wf_ends _ _ _ _ _ Hwf He) as [Hhd Htl].
  assert (Hdom : ∀ b, b ∈ l1 ++ a :: l2 → b ∈ dom (w_mods w) ∧ b ≠ x).
  { intros b Hb. split; [|intros ->; apply Hnx; by rewrite Hown]. eapply chain_dom; [by apply (mw_next _ _ _ Hwf)|by rewrite Hown]. }
  destruct (Hdom a) as [[m Ha]%elem_of_dom Hax]; [set_solver|].
  pose proof (chain_next_of _ _ _ _ _ _ _ _ _ Hwf He Hown Ha) as Hnext.
  rewrite Hown in *. unfold module_region_insert_after, linked. rewrite last_snoc.
  rewrite (bind_Ok _ _ _ _ _ (mmod_run _ _ _ Hx)), bind_assoc.
  erewrite bind_Ok by (apply mget_Ok; simpl; by rewrite lookup_alter_ne).
  rewrite bind_assoc. erewrite bind_Ok by (apply mmod_run; simpl; by rewrite dom_alter_L).
  rewrite bind_assoc. erewrite bind_Ok by (apply mget_Ok; simpl; by rewrite !lookup_alter_ne).
  rewrite bind_assoc, Hnext. destruct l2 as [|n l2]; cbn [head alter_opt].
  - run. erewrite bind_Ok by (apply mmod_run; simpl; rewrite !dom_alter_L; by eapply elem_of_dom_2).
    f_equal. unfold with_ends, field_over; simpl. rewrite alter_alter_eq, Hhd. simpl.
    rewrite last_app_cons. simpl. by destruct l1.
  - erewrite bind_Ok by (apply mmod_run; simpl; rewrite !dom_alter_L; apply Hdom; set_solver).
    erewrite bind_Ok by (apply mmod_run; simpl; rewrite !dom_alter_L; by eapply elem_of_dom_2).
    f_equal. unfold with_ends, field_over; simpl. rewrite alter_alter_eq. simpl.
    rewrite ends_insert with (e := e); [done|done|].
    assert (head (l1 ++ a :: x :: n :: l2) = re_mods_head e) as -> by (rewrite Hhd; by destruct l1).
    assert (last (l1 ++ a :: x :: n :: l2) = re_mods_tail e) as ->.
    { by rewrite Htl, !last_app_cons. }
    by destruct e.
Qed.

Lemma chain_prev_of h own re e ms l1 a l2 m :
  mods_wf h ms own → h !! re = Some e → own re = l1 ++ a :: l2 → ms !! a = Some m →
  me_region_prev m = last l1.
Proof.
  intros Hwf He Hown Ha. pose proof (mw_prev _ _ _ Hwf _ _ He) as Hc.
  rewrite Hown, reverse_app, reverse_cons, <- app_assoc in Hc. cbn [app] in Hc.
  apply chain_head_suffix in Hc as (_ & m' & Hm' & Hc). assert (m' = m) as -> by congruence.
  rewrite (chain_head _ _ _ _ Hc). by rewrite <- last_reverse, reverse_involutive.
Qed.

Lemma spliced_ends l1 l2 x :
  head (l1 ++ l2) = (match last l1 with Some _ => head (l1 ++ x :: l2) | None => head l2 end) ∧
  last (l1 ++ l2) = (match head l2 with Some _ => last (l1 ++ x :: l2) | None => last l1 end).
Proof.
  split.
  - destruct l1 as [|y l1]; [done|]. by destruct (last (y :: l1)) eqn:E; [|apply last_None in E].
  - destruct l2 as [|n l2]; simpl; [by rewrite app_nil_r|]. by rewrite !last_app_cons.
Qed.

(** Both halves of taking [x] out, as the code orders them. *)
Lemma detach_run w own re e x m l1 l2 :
  mods_wf (w_regions w) (w_mods w) own → w_regions w !! re = Some e → own re = l1 ++ x :: l2 →
  w_mods w !! x = Some m →
  module_region_detach x w =
    region_mark_subtree_dirty (Some re)
      (w <| w_regions ::= <[re := with_ends (l1 ++ l2) e]> |> <| w_mods ::= unlinked x l1 l2 |>).
Proof.
  intros Hwf He Hown Hx. destruct (mods_wf_ends _ _ _ _ _ Hwf He) as [Hhd Htl].
  pose proof (mods_wf_NoDup _ _ _ _ _ Hwf He) as Hnd. rewrite Hown in Hnd, Hhd, Htl.
  assert ((x ∉ l1 ++ l2) ∧ NoDup (l1 ++ l2)) as [Hnx _].
  { apply NoDup_cons. by rewrite Permutation_middle. }
  assert (Hdom : ∀ b, b ∈ l1 ++ l2 → b ∈ dom (w_mods w)).
  { intros b Hb. eapply chain_dom; [by apply (mw_next _ _ _ Hwf)|rewrite Hown; set_solver]. }
  pose proof (chain_next_of _ _ _ _ _ _ _ _ _ Hwf He Hown Hx) as Hnext.
  pose proof (chain_prev_of _ _ _ _ _ _ _ _ _ Hwf He Hown Hx) as Hprev.
  assert (Hentry : me_region_entry m = Some re).
  { apply (mw_entry _ _ _ Hwf re x m); [by eapply elem_of_dom_2|rewrite Hown; set_solver|done]. }
  destruct (spliced_ends l1 l2 x) as [Eh El].
  unfold module_region_detach, unlinked. rewrite (bind_Ok _ _ _ _ _ (mget_Ok _ _ _ Hx)), Hentry.
  rewrite Hprev. destruct (last l1) as [p|] eqn:Hl; cbn [alter_opt].
  - assert (p ∈ l1 ++ l2) as Hp by (apply last_Some_elem_of in Hl; set_solver).
    assert (p ≠ x) as Hpx by (intros ->; done).
    erewrite bind_Ok by (apply mmod_run; by apply Hdom). rewrite Hnext.
    erewrite bind_Ok by (apply mget_Ok; simpl; rewrite lookup_alter_ne; done). rewrite Hnext, Hprev.
    destruct (head l2) as [n|] eqn:Hh; cbn [alter_opt].
    + assert (n ∈ l1 ++ l2) as Hn by (apply head_Some_elem_of in Hh; set_solver).
      erewrite bind_Ok by (apply mmod_run; simpl; rewrite dom_alter_L; by apply Hdom).
      erewrite bind_Ok by (apply mmod_run; simpl; rewrite !dom_alter_L; by eapply elem_of_dom_2).
      f_equal. unfold field_over; simpl. rewrite ends_insert with (e := e); [done|done|].
      unfold with_ends. rewrite Eh, El, <- Hhd, <- Htl. by destruct e.
    + erewrite bind_Ok by (by apply rmod_Ok).
      erewrite bind_Ok by (apply mmod_run; simpl; rewrite !dom_alter_L; by eapply elem_of_dom_2).
      f_equal. unfold with_ends, field_over; simpl. by rewrite Eh, El, <- Hhd.
  - erewrite bind_Ok by (by apply rmod_Ok). rewrite Hnext.
    erewrite bind_Ok by (by apply mget_Ok). rewrite Hnext, Hprev.
    destruct (head l2) as [n|] eqn:Hh; cbn [alter_opt].
    + assert (n ∈ l1 ++ l2) as Hn by (apply head_Some_elem_of in Hh; set_solver).
      erewrite bind_Ok by (apply mmod_run; simpl; by apply Hdom).
      erewrite bind_Ok by (apply mmod_run; simpl; rewrite !dom_alter_L; by eapply elem_of_dom_2).
      f_equal. unfold with_ends, field_over; simpl. by rewrite Eh, El, <- Htl.
    + erewrite bind_Ok by (apply rmod_Ok; simpl; by rewrite lookup_insert_eq).
      erewrite bind_Ok by (apply mmod_run; simpl; by eapply elem_of_dom_2).
      f_equal. unfold with_ends, field_over; simpl. by rewrite insert_insert_eq, Eh, El.
Qed.

(** ** Marking the ancestors stale *)

Lemma mods_wf_frame h h' ms own :
  (∀ p e', h' !! p = Some e' → ∃ e, h !! p = Some e ∧
    re_mods_head e' = re_mods_head e ∧ re_mods_tail e' = re_mods_tail e) →
  mods_wf h ms own → mods_wf h' ms own.
Proof.
  intros Hh [Hn Hp He]. split.
  - intros p e' (e & He' & -> & _)%Hh. by apply Hn.
  - intros p e' (e & He' & _ & ->)%Hh. by apply Hp.
  - intros p q m [e' (e & He' & _)%Hh]%elem_of_dom. apply He. by eapply elem_of_dom_2.
Qed.

(** A module without its links. *)
Definition me_unlinked (m : mod_entry) : mod_entry :=
  m <| me_region_next := None |> <| me_region_prev := None |> <| me_region_entry := None |>.
Definition same_but_links ms ms' : Prop :=
  ∀ q m, ms !! q = Some m → ∃ m', ms' !! q = Some m' ∧ me_unlinked m' = me_unlinked m.

Lemma same_but_links_alter f p ms :
  (∀ m, me_unlinked (f m) = me_unlinked m) → same_but_links ms (alter f p ms).
Proof.
  intros Hf q m Hq. destruct (decide (q = p)) as [->|].
  - rewrite lookup_alter_eq, Hq. by eexists.
  - rewrite lookup_alter_ne by done. by exists m.
Qed.

Lemma same_but_links_trans ms1 ms2 ms3 :
  same_but_links ms1 ms2 → same_but_links ms2 ms3 → same_but_links ms1 ms3.
Proof.
  intros H1 H2 q m (m1 & Hm1 & E1)%H1. apply H2 in Hm1 as (m2 & Hm2 & E2).
  exists m2. split; congruence.
Qed.

Lemma same_but_links_opt f o ms :
  (∀ m, me_unlinked (f m) = me_unlinked m) → same_but_links ms (alter_opt f o ms).
Proof. intros Hf. destruct o; [by apply same_but_links_alter|]. intros q m Hq. by exists m. Qed.

Lemma same_but_links_linked re x l1 l2 ms : same_but_links ms (linked re x l1 l2 ms).
Proof.
  eapply same_but_links_trans; [|by apply same_but_links_opt].
  eapply same_but_links_trans; [|by apply same_but_links_opt]. by apply same_but_links_alter.
Qed.

Lemma same_but_links_unlinked x l1 l2 ms : same_but_links ms (unlinked x l1 l2 ms).
Proof.
  eapply same_but_links_trans; [|by apply same_but_links_alter].
  eapply same_but_links_trans; by apply same_but_links_opt.
Qed.

(** The claim gate of a region. *)
Definition re_gate (e : region_entry) := (re_claim_handler e, re_require_claim e).

(** The region [re]'s list became [l]: its caches and its ancestors' are
    stale, and both invariants hold of the new lists. *)
Record relisted w w' tbl kids own re (l : list mptr) : Prop := {
  rl_tree : tree_wf (w_regions w') tbl kids;
  rl_mods : mods_wf (w_regions w') (w_mods w') (λ p, if decide (p = re) then l else own p);
  rl_stale q e : sub (w_regions w) q re → w_regions w !! q = Some e →
    ∃ e', w_regions w' !! q = Some e' ∧ re_subtree_mods_dirty e' = true ∧
      re_dispatch_gen e' = gen_succ (re_dispatch_gen e);
  rl_denies q e : w_regions w !! q = Some e →
    ∃ e', w_regions w' !! q = Some e' ∧ re_denied_modules e' = re_denied_modules e ∧
      re_denied_modules_set e' = re_denied_modules_set e ∧ re_gate e' = re_gate e;
  rl_other q : ¬ sub (w_regions w) q re → w_regions w' !! q = w_regions w !! q;
  rl_same q m : w_mods w !! q = Some m →
    ∃ m', w_mods w' !! q = Some m' ∧ me_unlinked m' = me_unlinked m;
  rl_dom : dom (w_mods w') = dom (w_mods w);
  rl_shape : re_shape <$> w_regions w' = re_shape <$> w_regions w;
  rl_rest : ∃ h ms, w' = w <| w_regions := h |> <| w_mods := ms |>
}.

Lemma sub_decidable w tbl kids re p :
  tree_wf (w_regions w) tbl kids → re ∈ dom (w_regions w) →
  sub (w_regions w) p re ∨ ¬ sub (w_regions w) p re.
Proof.
  intros Hwf Hre. destruct (region_ancestor_chain_total w tbl kids Hwf re Hre)
    as (l & _ & _ & _ & _ & _ & Hin & _).
  destruct (decide (p ∈ l)) as [Hp|Hp]; rewrite Hin in Hp; auto.
Qed.

Lemma relist_run w tbl kids own re e l ms :
  tree_wf (w_regions w) tbl kids → w_regions w !! re = Some e → dom ms = dom (w_mods w) →
  same_but_links (w_mods w) ms →
  mods_wf (<[re := with_ends l e]> (w_regions w)) ms (λ p, if decide (p = re) then l else own p) →
  ∃ w', region_mark_subtree_dirty (Some re)
      (w <| w_regions ::= <[re := with_ends l e]> |> <| w_mods := ms |>) = Ok tt w' ∧
    relisted w w' tbl kids own re l.
Proof.
  intros Hwf He Hdom Hsame Hms.
  set (w1 := w <| w_regions ::= <[re := with_ends l e]> |> <| w_mods := ms |>).
  assert (Hshape : re_shape <$> w_regions w1 = re_shape <$> w_regions w).
  { simpl. rewrite fmap_insert. apply insert_id. by rewrite lookup_fmap, He. }
  assert (Hwf1 : tree_wf (w_regions w1) tbl kids) by (by eapply tree_wf_shape; [symmetry|]).
  destruct (region_mark_subtree_dirty_spec w1 tbl kids re) as (h' & Hrun & Hs & Hy & Hn).
  { done. }
  { simpl. rewrite dom_insert_L. set_solver. }
  assert (Hsub : ∀ q, sub (w_regions w1) q re ↔ sub (w_regions w) q re).
  { intros q. by apply sub_shape. }
  eexists. split; [exact Hrun|]. split; simpl.
  - eapply tree_wf_shape; [|exact Hwf]. by rewrite Hs.
  - eapply mods_wf_frame; [|exact Hms]. intros p e' Hp.
    destruct (sub_decidable w1 tbl kids re p) as [Hsp|Hsp];
      [done|simpl; rewrite dom_insert_L; set_solver| |].
    + rewrite Hy in Hp by done. simpl in Hp. destruct (<[re := with_ends l e]> (w_regions w) !! p) as [e0|];
        [|done]. injection Hp as <-. by exists e0.
    + rewrite Hn in Hp by done. by exists e'.
  - intros q eq Hq Heq. rewrite Hy by (by apply Hsub). simpl.
    destruct (decide (q = re)) as [->|Hne].
    + rewrite lookup_insert_eq. eexists. split; [done|]. simpl. split; [done|]. congruence.
    + rewrite lookup_insert_ne, Heq by done. by eexists.
  - intros q eq Heq.
    assert (Hq1 : ∃ e1, w_regions w1 !! q = Some e1 ∧ re_denied_modules e1 = re_denied_modules eq ∧
      re_denied_modules_set e1 = re_denied_modules_set eq ∧ re_gate e1 = re_gate eq).
    { simpl. destruct (decide (q = re)) as [->|].
      - rewrite lookup_insert_eq. eexists. split; [done|]. assert (eq = e) as -> by congruence. by split_and!.
      - rewrite lookup_insert_ne by done. by eexists. }
    destruct Hq1 as (e1 & He1 & Hd).
    destruct (sub_decidable w1 tbl kids re q) as [Hsp|Hsp];
      [done|simpl; rewrite dom_insert_L; set_solver| |].
    + rewrite Hy, He1 by done. by eexists.
    + rewrite Hn, He1 by done. by eexists.
  - intros q Hq. rewrite Hn by (by rewrite Hsub). simpl. apply lookup_insert_ne. intros ->.
    apply Hq. apply rtc_refl.
  - exact Hsame.
  - done.
  - simpl. by rewrite Hs, Hshape.
  - by eexists _, _.
Qed.

Lemma dom_linked re x l1 l2 ms : dom (linked re x l1 l2 ms) = dom ms.
Proof. unfold linked, alter_opt. by destruct (last l1), (head l2); rewrite !dom_alter_L. Qed.
Lemma dom_unlinked x l1 l2 ms : dom (unlinked x l1 l2 ms) = dom ms.
Proof. unfold unlinked, alter_opt. by destruct (last l1), (head l2); rewrite !dom_alter_L. Qed.

Lemma insert_after_spec w tbl kids own re x l1 l2 :
  tree_wf (w_regions w) tbl kids → mods_wf (w_regions w) (w_mods w) own →
  re ∈ dom (w_regions w) → own re = l1 ++ l2 →
  x ∈ dom (w_mods w) → (∀ p, p ∈ dom (w_regions w) → x ∉ own p) →
  ∃ w', module_region_insert_after re x (last l1) w = Ok tt w' ∧
    relisted w w' tbl kids own re (l1 ++ x :: l2).
Proof.
  intros Hwf Hms [e He]%elem_of_dom Hown Hx Hnew.
  assert (Hnx : x ∉ own re) by (apply Hnew; by eapply elem_of_dom_2).
  destruct (relist_run w tbl kids own re e (l1 ++ x :: l2) (linked re x l1 l2 (w_mods w)))
    as (w' & Hrun & Hrel); [done|done|apply dom_linked|apply same_but_links_linked|by eapply mods_wf_linked|].
  exists w'. split; [|done]. rewrite <- Hrun.
  destruct l1 as [|a l1' _] using rev_ind.
  - by apply (insert_front_run w own re e x l2).
  - rewrite last_snoc. rewrite <- app_assoc in Hown. rewrite <- app_assoc.
    by apply (insert_behind_run w own re e x l1' a l2).
Qed.

Lemma detach_spec w tbl kids own re x l1 l2 :
  tree_wf (w_regions w) tbl kids → mods_wf (w_regions w) (w_mods w) own →
  re ∈ dom (w_regions w) → own re = l1 ++ x :: l2 →
  ∃ w', module_region_detach x w = Ok tt w' ∧ relisted w w' tbl kids own re (l1 ++ l2).
Proof.
  intros Hwf Hms [e He]%elem_of_dom Hown.
  assert (Hx : x ∈ dom (w_mods w)).
  { eapply chain_dom; [by apply (mw_next _ _ _ Hms)|rewrite Hown; set_solver]. }
  pose proof Hx as [m Hm]%elem_of_dom.
  destruct (relist_run w tbl kids own re e (l1 ++ l2) (unlinked x l1 l2 (w_mods w)))
    as (w' & Hrun & Hrel); [done|done|apply dom_unlinked|apply same_but_links_unlinked|by eapply mods_wf_unlinked|].
  exists w'. split; [|done]. rewrite <- Hrun. by eapply detach_run.
Qed.

Lemma append_spec w tbl kids own re x :
  tree_wf (w_regions w) tbl kids → mods_wf (w_regions w) (w_mods w) own →
  re ∈ dom (w_regions w) → x ∈ dom (w_mods w) → (∀ p, p ∈ dom (w_regions w) → x ∉ own p) →
  ∃ w', module_region_append re x w = Ok tt w' ∧ relisted w w' tbl kids own re (own re ++ [x]).
Proof.
  intros Hwf Hms Hre Hx Hnew. pose proof Hre as [e He]%elem_of_dom.
  destruct (insert_after_spec w tbl kids own re x (own re) []) as (w' & Hrun & Hrel);
    [done..|by rewrite app_nil_r|done|done|].
  exists w'. split; [|done]. unfold module_region_append. run.
  by rewrite (proj2 (mods_wf_ends _ _ _ _ _ Hms He)).
Qed.
End specs.
