(* ===== verification/Loader.v ===== *)
(** * Loading a module

    The load transaction of [_mod_load] (src/libxylem-module.c, and its steps
    in src/libxylem.c): open the object, reuse a loaded module, make and
    publish the entry, bind the module's context, claim a region for it, link
    it, run its [xy_install]; and [mod_load_abort], which takes a failed load
    back. *)
From S2P Require Import Prelude Words Corm State Env Regions Runtime Paths RegionApi Hooks ModKey ModList.

(** [xy_lookup_result_t].  Its strings are the caller's; freeing them has no
    effect of its own. *)
Record xy_lookup_result := LookupResult {
  lk_load_path : option string;
  lk_key : option string;
  lk_entry : option mptr;
  lk_err : Z
}.
#[export] Instance xy_lookup_result_eta : Eta xy_lookup_result := {| eta_expand := λ l,
  LookupResult (lk_load_path l) (lk_key l) (lk_entry l) (lk_err l) |}.

(** [xy_load_txn_t] *)
Record xy_load_txn := LoadTxn {
  tx_lookup : xy_lookup_result;
  tx_handle : option handle;
  tx_stable_fname : option string;
  tx_stable_key : option string;
  tx_interned_load_path : option pptr;
  tx_tmp_load_path : option string;
  tx_mod_entry : option mptr;
  tx_inherited_reg : option rptr;
  tx_inherited_region_id : Z;
  tx_inherited_region_plen : Z;
  tx_prev_region_id : Z;
  tx_prev_region_entry : option rptr;
  tx_published_entry : bool;
  tx_context_active : bool
}.
#[export] Instance xy_load_txn_eta : Eta xy_load_txn := {| eta_expand := λ t,
  LoadTxn (tx_lookup t) (tx_handle t) (tx_stable_fname t) (tx_stable_key t)
    (tx_interned_load_path t) (tx_tmp_load_path t) (tx_mod_entry t) (tx_inherited_reg t)
    (tx_inherited_region_id t) (tx_inherited_region_plen t) (tx_prev_region_id t)
    (tx_prev_region_entry t) (tx_published_entry t) (tx_context_active t) |}.

Definition lookup_zero : xy_lookup_result := LookupResult None None None 0.

(** The transaction [_mod_load] starts with. *)
Definition txn_start (region_id plen : Z) : xy_load_txn :=
  LoadTxn lookup_zero None None None None None None None region_id plen 0 None false false.

Section loader.
Context {C : Corm} {OS : Os} {CB : Callbacks}.
Abbreviation M := (M world).

(** ** Names *)

(** [module_lookup_from_fname] *)
Definition module_lookup_from_fname (fname : string) (region_id plen : Z)
    : M xy_lookup_result :=
  path ← module_load_path fname;
  match path with
  | None => mret (lookup_zero <| lk_err := XY_ERR_INVALID |>)
  | Some p =>
      ok ← alloc_ok;
      if negb ok then mret (lookup_zero <| lk_err := XY_ERR_INVALID |>)
      else
        let key := module_key p region_id plen in
        t ← table rt_mod_hd;
        mret (LookupResult (Some p) (Some key) (corm_get t key) XY_OK)
  end.

(** [module_rekey_region_index]; [others] has room for 512 *)
Definition MOD_BY_REGION_MAX : nat := 512.
Definition module_rekey_region_index (me : mptr) (parent_id parent_plen child_id child_plen : Z)
    : M unit :=
  let pk := mk_region_key parent_id parent_plen in
  let ck := mk_region_key child_id child_plen in
  t ← table rt_mod_by_region_hd;
  let others := take MOD_BY_REGION_MAX (filter (λ e, e ≠ me) (mcorm_vals t pk)) in
  let t1 := foldl (λ t e, mcorm_put t pk e) (mcorm_del_all t pk) others in
  rt_mod (λ r, r <| rt_mod_by_region_hd := Some (mcorm_put t1 ck me) |>).

(** [module_rekey_loaded_entry]; no argument is NULL where it is called *)
Definition module_rekey_loaded_entry (me : mptr) (old_key load_path : string)
    (parent_id parent_plen child_id child_plen : Z) : M unit :=
  ok ← alloc_ok;
  if negb ok then mret tt
  else
    let new_key := module_key load_path child_id child_plen in
    mmod me (λ m, m <| me_region_id := child_id |> <| me_region_plen := child_plen |>);;
    t ← table rt_mod_hd;
    rt_mod (λ r, r <| rt_mod_hd := Some (corm_del (corm_put t new_key me) old_key) |>);;
    mmod me (λ m, m <| me_mod_key := new_key |>);;
    module_rekey_region_index me parent_id parent_plen child_id child_plen;;
    m ← mget me;
    match me_ctx m with
    | Some ctx => cmod ctx (λ x, x <| x_region_id := child_id |>)
    | None => mret tt
    end.

(** [module_rekey_for_claim] *)
Definition module_rekey_for_claim (caller : string)
    (parent_id parent_plen child_id child_plen : Z) : M unit :=
  lookup ← module_lookup_from_fname caller parent_id parent_plen;
  match lk_load_path lookup, lk_entry lookup, lk_key lookup with
  | Some path, Some me, Some key =>
      module_rekey_loaded_entry me key path parent_id parent_plen child_id child_plen
  | _, _, _ => mret tt
  end.

(** ** Claiming during a load *)

(** [_xy_claim_for_load]; the entry is used without a check of [calloc]. *)
Definition _xy_claim_for_load (caller : option string) (parent_id parent_plen bits : Z)
    : M Z :=
  if (bits =? 0) || (64 <? bits) then set_err_ret XY_ERR_INVALID
  else
    parent ← region_lookup parent_id parent_plen;
    match parent with
    | None => set_err_ret XY_ERR_NOTFOUND
    | Some p =>
        pe ← rget p;
        match re_claim_handler pe with
        | None => set_err_ret XY_ERR_EPERM
        | Some h =>
            '(hret, granted) ← cb_claim h (default "" caller) bits (re_claim_handler_ud pe);
            let granted := u8 granted in
            if negb (hret =? XY_OK) then set_err_ret XY_ERR_EPERM
            else if (granted =? 0) || (64 <? granted) then set_err_ret XY_ERR_EPERM
            else
              t ← table rt_region_hd;
              pe ← rget p;
              let child_id := region_alloc_slot t pe granted in
              if child_id =? XY_REGION_INVALID then set_err_ret XY_ERR_TOOBIG
              else
                ok ← alloc_ok;
                (if (ok : bool) then mret tt else crash);;
                let plen := u8 (re_plen pe + granted) in
                c ← region_attach p
                  (region_entry_zero
                     <| re_id := child_id |> <| re_plen := plen |>
                     <| re_depth := u8 (re_depth pe + 1) |>
                     <| re_child_bits := granted |> <| re_owner_path := caller |>
                     <| re_dispatch_gen := 1 |> <| re_parent := Some p |>);
                set_current_region child_id (Some c);;
                (match caller with
                 | Some f => module_rekey_for_claim f parent_id parent_plen child_id plen
                 | None => mret tt
                 end);;
                set_err_ret XY_OK
        end
    end.

(** ** Taking a load back *)

Definition dlclose (h : handle) : M unit := emit (EvDlclose h).
Definition unlink (path : string) : M unit := emit (EvUnlink path).

(** [module_cleanup_region_state] *)
Definition module_cleanup_region_state (entry : mptr) : M unit :=
  m ← mget entry;
  match me_region_state m with
  | None => mret tt
  | Some st =>
      (match me_handle m ≫= λ h, module_lookup_symbol_fn h "xy_region_cleanup", me_handle m with
       | Some f, Some h => emit (EvCleanup h st);; cb_cleanup f st
       | _, _ => mret tt
       end);;
      modify (λ w, w <| w_states ::= delete st |>);;
      mmod entry (λ m, m <| me_region_state := None |>)
  end.

(** [free(entry)] *)
Definition free_mod (entry : mptr) : M unit :=
  mget entry;; modify (λ w, w <| w_mods ::= delete entry |>).

Definition opt_do {A} (o : option A) (f : A → M unit) : M unit :=
  match o with Some a => f a | None => mret tt end.

(** [module_free_entry] *)
Definition module_free_entry (entry : mptr) (close_handle : bool) : M unit :=
  m ← mget entry;
  module_cleanup_region_state entry;;
  free_mod entry;;
  (if close_handle then opt_do (me_handle m) dlclose else mret tt);;
  opt_do (me_tmp_load_path m) unlink.

(** [mod_load_restore_context] *)
Definition mod_load_restore_context (tx : xy_load_txn) : M xy_load_txn :=
  if tx_context_active tx then
    set_current_region (tx_prev_region_id tx) (tx_prev_region_entry tx);;
    mret (tx <| tx_context_active := false |>)
  else mret tx.

(** The unlinking inside [mod_load_abort]. *)
Definition abort_detach (entry : mptr) : M unit :=
  m ← mget entry;
  match me_region_entry m with
  | None => mret tt
  | Some rre =>
      (match me_region_prev m with
       | Some p => mmod p (λ x, x <| me_region_next := me_region_next m |>)
       | None => rmod rre (λ e, e <| re_mods_head := me_region_next m |>)
       end);;
      m ← mget entry;
      (match me_region_next m with
       | Some n => mmod n (λ x, x <| me_region_prev := me_region_prev m |>)
       | None => rmod rre (λ e, e <| re_mods_tail := me_region_prev m |>)
       end);;
      region_mark_subtree_dirty (Some rre);;
      mmod entry (λ x, x <| me_region_entry := None |>)
  end.

(** Removing a module from both tables. *)
Definition unpublish (entry : mptr) : M unit :=
  m ← mget entry;
  t ← table rt_mod_by_region_hd;
  rt_mod (λ r, r <| rt_mod_by_region_hd :=
    Some (mcorm_del t (mk_region_key (me_region_id m) (me_region_plen m))) |>);;
  t ← table rt_mod_hd;
  rt_mod (λ r, r <| rt_mod_hd := Some (corm_del t (me_mod_key m)) |>).

(** [mod_load_abort] *)
Definition mod_load_abort (tx : xy_load_txn) (err : Z) : M Z :=
  tx ← mod_load_restore_context tx;
  (match tx_mod_entry tx with
   | Some e => module_cleanup_region_state e;; abort_detach e
   | None => mret tt
   end);;
  (match tx_mod_entry tx with
   | Some e => if tx_published_entry tx then unpublish e else mret tt
   | None => mret tt
   end);;
  (match tx_mod_entry tx with
   | Some e => m ← mget e; free_mod e;; opt_do (me_tmp_load_path m) unlink
   | None => mret tt
   end);;
  opt_do (tx_tmp_load_path tx) unlink;;
  opt_do (tx_handle tx) dlclose;;
  mret err.

(** ** The steps of a load *)

(** [mod_load_open_handle] *)
Definition mod_load_open_handle (tx : xy_load_txn) (fname : string) : M (Z * xy_load_txn) :=
  lookup ← module_lookup_from_fname fname (tx_inherited_region_id tx) (tx_inherited_region_plen tx);
  let tx := tx <| tx_lookup := lookup |> in
  if negb (lk_err lookup =? XY_OK) then mret (lk_err lookup, tx)
  else
    match lk_load_path lookup with
    | None => mret (XY_ERR_INVALID, tx)
    | Some path =>
        reloading ← gets w_reloading;
        copied ← (if (reloading : bool) then copy_to_tmp path else mret None);
        let tmp := mjoin copied in
        h ← match default (Some path) copied with
            | Some real => emit (EvDlopen real);; cb_dlopen real
            | None => mret os_main_handle
            end;
        match h with
        | None =>
            emit (EvWarn "_mod_load failed loading");;
            opt_do tmp unlink;;
            mret (XY_ERR_NOTFOUND, tx <| tx_lookup := lookup_zero <| lk_entry := lk_entry lookup |> |>)
        | Some h =>
            mret (XY_OK, tx <| tx_handle := Some h |> <| tx_tmp_load_path := tmp |>)
        end
    end.

(** [mod_load_try_reuse_existing] *)
Definition mod_load_try_reuse_existing (tx : xy_load_txn) : M (bool * xy_load_txn) :=
  match lk_entry (tx_lookup tx) with
  | None => mret (false, tx)
  | Some existing =>
      mmod existing (λ m, m <| me_refcount ::= Z.succ |>);;
      opt_do (tx_handle tx) dlclose;;
      opt_do (tx_tmp_load_path tx) unlink;;
      mret (true, tx <| tx_handle := None |> <| tx_tmp_load_path := None |>)
  end.

(** [mod_load_alloc_entry] *)
Definition mod_load_alloc_entry (tx : xy_load_txn) (fname : string) : M (Z * xy_load_txn) :=
  dup ← alloc_ok;
  let tx := tx <| tx_stable_fname := if (dup : bool) then Some fname else None |> in
  match tx_stable_fname tx, lk_key (tx_lookup tx) with
  | Some _, Some key =>
      let tx := tx <| tx_stable_key := Some key |>
                   <| tx_lookup ::= (λ l, l <| lk_key := None |>) |> in
      interned ← module_path_intern (lk_load_path (tx_lookup tx));
      let tx := tx <| tx_interned_load_path := interned |>
                   <| tx_lookup ::= (λ l, l <| lk_load_path := None |>) |> in
      match interned with
      | None => mret (XY_ERR_INVALID, tx)
      | Some path =>
          ok ← alloc_ok;
          if negb ok then mret (XY_ERR_INVALID, tx)
          else
            p ← fresh_ptr;
            parent ← tls_get t_loading_mod;
            mput p (mod_entry_zero
              <| me_handle := tx_handle tx |> <| me_region_id := tx_inherited_region_id tx |>
              <| me_region_plen := tx_inherited_region_plen tx |> <| me_refcount := 1 |>
              <| me_parent_entry := parent |> <| me_mod_key := key |>
              <| me_load_path := Some path |> <| me_tmp_load_path := tx_tmp_load_path tx |>);;
            mret (XY_OK, tx <| tx_mod_entry := Some p |> <| tx_tmp_load_path := None |>)
      end
  | _, _ => mret (XY_ERR_INVALID, tx)
  end.

(** [mod_load_publish_entry] *)
Definition mod_load_publish_entry (tx : xy_load_txn) : M (Z * xy_load_txn) :=
  e ← deref (tx_mod_entry tx);
  key ← deref (tx_stable_key tx);
  t ← table rt_mod_hd;
  rt_mod (λ r, r <| rt_mod_hd := Some (corm_put t key e) |>);;
  m ← mget e;
  t ← table rt_mod_by_region_hd;
  rt_mod (λ r, r <| rt_mod_by_region_hd :=
    Some (mcorm_put t (mk_region_key (me_region_id m) (me_region_plen m)) e) |>);;
  mret (XY_OK, tx <| tx_published_entry := true |>).

(** [mod_load_check_ctx_abi] *)
Definition mod_load_check_ctx_abi (h : handle) : M Z :=
  match module_lookup_symbol_fn h "xy_ctx_abi" with
  | None => emit (EvWarn "it does not export xy_ctx_abi()");; set_err_ret XY_ERR_ABI
  | Some abi_fn =>
      if negb (os_ctx_abi abi_fn =? XY_CTX_ABI_DESC)
      then emit (EvWarn "context ABI mismatch");; set_err_ret XY_ERR_ABI
      else mret XY_OK
  end.

(** [_xy_init]; [err], [strerror] and [adapter] are left as they are *)
Definition _xy_init (ctx : cptr) (fname : option string) (region_id : Z) : M unit :=
  cmod ctx (λ x, x
    <| x_call := Some Fn_call |> <| x_areg := Some Fn_areg |> <| x_load := Some Fn_load |>
    <| x_last := Some Fn_last |> <| x_shutdown := Some Fn_shutdown |>
    <| x_module_path := fname |> <| x_region_id := region_id |>
    <| x_deny := Some Fn_deny |> <| x_require_claim := Some Fn_require_claim |>
    <| x_region_each := Some Fn_region_each |>
    <| x_current_region_plen := Some Fn_current_region_plen |>
    <| x_region_exists := Some Fn_region_exists |> <| x_claim_at := Some Fn_claim_at |>
    <| x_region_at := Some Fn_region_at |> <| x_call_self := Some Fn_call_self |>
    <| x_with_region := Some Fn_with_region |>
    <| x_current_region := Some Fn_current_region |>
    <| x_unload := Some Fn_unload |> <| x_reload := Some Fn_reload |>).

(** [mod_load_bind_xy], without its debug log *)
Definition mod_load_bind_xy (tx : xy_load_txn) : M Z :=
  h ← deref (tx_handle tx);
  pending ← tls_get t_pending_ctx;
  let ctx := match module_lookup_symbol_fn h "get_xy_ptr" ≫= os_ctx_ptr with
             | Some c => Some c
             | None => pending
             end in
  tls_mod (λ t, t <| t_pending_ctx := None |>);;
  match ctx with
  | None => mret XY_OK
  | Some c =>
      ret ← mod_load_check_ctx_abi h;
      if negb (ret =? XY_OK) then mret ret
      else
        _xy_init c (tx_stable_fname tx) (tx_inherited_region_id tx);;
        e ← deref (tx_mod_entry tx);
        mmod e (λ m, m <| me_ctx := Some c |>);;
        mret XY_OK
  end.

(** [mod_load_enter_context] *)
Definition mod_load_enter_context (tx : xy_load_txn) : M (Z * xy_load_txn) :=
  reg ← region_lookup (tx_inherited_region_id tx) (tx_inherited_region_plen tx);
  prev_id ← tls_get t_current_region_id;
  prev_entry ← tls_get t_current_region_entry;
  set_current_region (tx_inherited_region_id tx) reg;;
  mret (XY_OK, tx <| tx_inherited_reg := reg |> <| tx_prev_region_id := prev_id |>
                  <| tx_prev_region_entry := prev_entry |> <| tx_context_active := true |>).

(** [mod_load_claim_if_needed] *)
Definition mod_load_claim_if_needed (tx : xy_load_txn) : M Z :=
  h ← deref (tx_handle tx);
  let claim_sym := module_lookup_symbol_raw h "xy_claim" in
  match tx_inherited_reg tx with
  | None => mret XY_OK
  | Some reg =>
      e ← rget reg;
      match claim_sym with
      | None => mret (if re_require_claim e then XY_ERR_EPERM else XY_OK)
      | Some sym =>
          if negb (bool_decide (is_Some (re_claim_handler e))) && negb (re_require_claim e)
          then mret XY_OK
          else _xy_claim_for_load (tx_stable_fname tx) (tx_inherited_region_id tx)
                 (tx_inherited_region_plen tx) (os_u8_symbol sym)
      end
  end.

(** [_mod_run] *)
Definition _mod_run (h : handle) (symbol : string) : M Z :=
  match module_lookup_symbol_fn h symbol with
  | None => emit (EvWarn ("couldn't find " +:+ symbol));; mret XY_ERR_NOTFOUND
  | Some cb => emit (EvInstall h);; cb_install cb;; mret XY_OK
  end.

(** [mod_load_run_install] *)
Definition mod_load_run_install (tx : xy_load_txn) : M Z :=
  prev ← tls_get t_loading_mod;
  tls_mod (λ t, t <| t_loading_mod := tx_mod_entry tx |>);;
  h ← deref (tx_handle tx);
  ret ← _mod_run h "xy_install";
  tls_mod (λ t, t <| t_loading_mod := prev |>);;
  mret ret.

(** The middle of [_mod_load]: the count, the region state, the region's list
    and the caches. *)
Definition load_link (tx : xy_load_txn) : M unit :=
  rt_mod (λ r, r <| rt_mod_count ::= Z.succ |>);;
  h ← deref (tx_handle tx);
  e ← deref (tx_mod_entry tx);
  (match module_lookup_symbol_fn h "xy_region_state_size" with
   | None => mret tt
   | Some sz_fn =>
       let sz := os_state_size sz_fn in
       if 0 <? sz then
         ok ← alloc_ok;
         (if (ok : bool) then
            st ← fresh_ptr;
            modify (λ w, w <| w_states ::= <[st := sz]> |>);;
            mmod e (λ m, m <| me_region_state := Some st |>)
          else mmod e (λ m, m <| me_region_state := None |>))
       else mret tt
   end);;
  m ← mget e;
  re ← region_lookup (me_region_id m) (me_region_plen m);
  opt_do re (λ re, module_region_append re e);;
  fn_cache_prewarm e;;
  mret tt.

(** The steps once the entry is published, in order; the code, and the
    transaction as the first step that fails leaves it. *)
Definition load_published (tx : xy_load_txn) : M (Z * xy_load_txn) :=
  ret ← mod_load_bind_xy tx;
  if negb (ret =? XY_OK) then mret (ret, tx)
  else
    '(ret, tx) ← mod_load_enter_context tx;
    if negb (ret =? XY_OK) then mret (ret, tx)
    else
      ret ← mod_load_claim_if_needed tx;
      if negb (ret =? XY_OK) then mret (ret, tx)
      else
        load_link tx;;
        ret ← mod_load_run_install tx;
        mret (ret, tx).

(** All steps after the object is open. *)
Definition load_steps (tx : xy_load_txn) (fname : string) : M (Z * xy_load_txn) :=
  '(ret, tx) ← mod_load_alloc_entry tx fname;
  if negb (ret =? XY_OK) then mret (ret, tx)
  else
    '(ret, tx) ← mod_load_publish_entry tx;
    if negb (ret =? XY_OK) then mret (ret, tx) else load_published tx.

(** [_mod_load] *)
Definition _mod_load (fname : string) : M Z :=
  id ← tls_get t_current_region_id;
  plen ← region_current_plen;
  '(ret, tx) ← mod_load_open_handle (txn_start id plen) fname;
  if negb (ret =? XY_OK) then set_err_ret ret
  else
    '(reused, tx) ← mod_load_try_reuse_existing tx;
    if (reused : bool) then mret XY_OK
    else
      '(ret, tx) ← load_steps tx fname;
      if negb (ret =? XY_OK) then mod_load_abort tx ret
      else mod_load_restore_context tx;; mret XY_OK.

(** [xy_load] *)
Definition xy_load (fname : string) : M Z :=
  with_runtime id (ret ← _mod_load fname; set_err_ret ret).
End loader.
