(* ===== verification/Unload.v ===== *)
(** * Unloading, reloading, shutting down

    [_mod_unload] with its cascade, [xy_unload], [xy_reload]
    (src/libxylem-module.c), the invalidation of cached listeners
    (src/libxylem.c), and the teardown of the runtime
    (src/libxylem-runtime.c). *)
From S2P Require Import Prelude Words Corm State Env Regions Runtime Paths RegionApi Hooks ModKey ModList Loader.

Section unload.
Context {C : Corm} {OS : Os} {CB : Callbacks}.
Abbreviation M := (M world).

(** A cached listener after an object loaded at [base] goes. *)
Definition forget_base (base : Z) (s : fn_slot) : fn_slot :=
  match s with
  | FnPtr fp => if bool_decide (module_base_from_symbol (Some fp) = Some base) then FnNull else s
  | _ => s
  end.

(** [module_clear_fn_cache_for_handle] *)
Definition module_clear_fn_cache_for_handle (entry : mptr) : M unit :=
  m ← mget entry;
  match me_handle m ≫= module_handle_base with
  | None => mret tt
  | Some base =>
      if base =? 0 then mret tt
      else
        t ← table rt_mod_hd;
        for_each (corm_list t) (λ kv,
          if decide (kv.2 = entry) then mret tt
          else mmod kv.2 (λ x, x <| me_fn_cache ::= fmap (forget_base base) |>))
  end.

(** The loaded modules whose loader is [entry]; [n] of the [cap] places of the
    array are taken.  Its growth is not checked: the store that follows a
    [realloc] that failed is through NULL. *)
Fixpoint children_of (entry : mptr) (l : list (string * mptr)) (n cap : nat) : M (list mptr) :=
  match l with
  | [] => mret []
  | kv :: l' =>
      m ← mget kv.2;
      if negb (bool_decide (kv.2 = entry)) && bool_decide (me_parent_entry m = Some entry) then
        grown ← (if decide (cap ≤ n)%nat then alloc_ok else mret true);
        if (grown : bool) then
          rest ← children_of entry l' (S n) (if decide (cap ≤ n)%nat then (if decide (cap = 0)%nat then 8 else cap * 2)%nat else cap);
          mret (kv.2 :: rest)
        else crash
      else children_of entry l' n cap
  end.

(** What the cascade does to one child: [unload] it under the name and in the
    region it was loaded in. *)
Definition unload_child (unload : string → Z → Z → M Z) (child : mptr) : M unit :=
  cm ← mget child;
  match me_ctx cm with
  | None => mret tt
  | Some ctx =>
      x ← cget ctx;
      match x_module_path x with
      | None => mret tt
      | Some path => unload path (me_region_id cm) (me_region_plen cm);; mret tt
      end
  end.

(** The end of [_mod_unload], once the reference count is down and the
    children are gone. *)
Definition unload_finish (entry : mptr) : M Z :=
  module_clear_fn_cache_for_handle entry;;
  m ← mget entry;
  (match me_region_entry m, me_load_path m with
   | Some re, Some path => module_remove_path_owned_entries re path
   | _, _ => mret tt
   end);;
  module_region_detach entry;;
  unpublish entry;;
  rt_mod (λ r, r <| rt_mod_count ::= Z.pred |>);;
  module_free_entry entry true;;
  mret XY_OK.

(** [_mod_unload]; the fuel bounds the depth of the cascade, a chain of
    modules each loaded by the next. *)
Fixpoint _mod_unload (fuel : nat) (fname : string) (region_id plen : Z) : M Z :=
  match fuel with
  | O => nofuel
  | S n =>
      lookup ← module_lookup_from_fname fname region_id plen;
      if negb (lk_err lookup =? XY_OK) then set_err_ret (lk_err lookup)
      else
        match lk_entry lookup with
        | None => set_err_ret XY_ERR_NOTFOUND
        | Some entry =>
            mmod entry (λ m, m <| me_refcount ::= Z.pred |>);;
            m ← mget entry;
            if 0 <? me_refcount m then mret XY_OK
            else
              t ← table rt_mod_hd;
              children ← children_of entry (corm_list t) 0 0;
              for_each children (unload_child (_mod_unload n));;
              unload_finish entry
        end
  end.

(** [xy_unload] *)
Definition xy_unload (fuel : nat) (fname : string) : M Z :=
  with_runtime id (
    region_id ← tls_get t_current_region_id;
    plen ← region_current_plen;
    ret ← _mod_unload fuel fname region_id plen;
    set_err_ret ret).

(** The last part of [xy_reload]: the new entry takes the old one's place. *)
Definition reload_place (fname : string) (region_id plen : Z) (re : option rptr)
    (insert_after : option mptr) : M Z :=
  lookup ← module_lookup_from_fname fname region_id plen;
  if negb (lk_err lookup =? XY_OK) then set_err_ret (lk_err lookup)
  else
    match lk_entry lookup, re with
    | Some new_entry, Some re =>
        module_region_detach new_entry;;
        module_region_insert_after re new_entry insert_after;;
        set_err_ret XY_OK
    | _, _ => set_err_ret XY_OK
    end.

(** [xy_reload] *)
Definition xy_reload (fuel : nat) (fname : string) : M Z :=
  with_runtime id (
    region_id ← tls_get t_current_region_id;
    plen ← region_current_plen;
    lookup ← module_lookup_from_fname fname region_id plen;
    if negb (lk_err lookup =? XY_OK) then set_err_ret (lk_err lookup)
    else
      match lk_entry lookup with
      | None => set_err_ret XY_ERR_NOTFOUND
      | Some existing =>
          m ← mget existing;
          let insert_after := me_region_prev m in
          let re := me_region_entry m in
          uret ← _mod_unload fuel fname region_id plen;
          if negb (uret =? XY_OK) then set_err_ret uret
          else
            modify (λ w, w <| w_reloading := true |>);;
            lret ← _mod_load fname;
            modify (λ w, w <| w_reloading := false |>);;
            if negb (lret =? XY_OK) then set_err_ret lret
            else reload_place fname region_id plen re insert_after
      end).

(** [region_entry_free]: the deny sets and vectors go with the entry. *)
Definition region_entry_free (p : rptr) : M unit :=
  e ← rget p;
  modify (λ w, w <| w_slots ::= (λ sl,
    foldr (λ c sl, match hc_slots c with Some s => delete s sl | None => sl end)
      sl (re_hook_dispatch e)) |>);;
  modify (λ w, w <| w_regions ::= delete p |>).

(** [xy_runtime_teardown] *)
Definition xy_runtime_teardown : M unit :=
  rt_mod (λ r, r <| rt_inited := false |>);;
  mods ← rt_get rt_mod_hd;
  opt_do mods (λ t,
    for_each (corm_list t) (λ kv, module_free_entry kv.2 true);;
    rt_mod (λ r, r <| rt_mod_hd := None |>));;
  rt_mod (λ r, r <| rt_mod_by_region_hd := None |>);;
  regions ← rt_get rt_region_hd;
  opt_do regions (λ t,
    for_each (corm_list t) (λ kv, region_entry_free kv.2);;
    rt_mod (λ r, r <| rt_region_hd := None |>));;
  path_intern_free_all;;
  rt_mod (λ r, r <| rt_mod_count := 0 |>);;
  set_current_region XY_REGION_ROOT None;;
  tls_mod (λ t, t <| t_last_ran := 0 |> <| t_last_retp := RetNull |>);;
  modify (λ w, w <| w_xy := xy_ctx_zero |>).

(** [xy_shutdown] *)
Definition xy_shutdown : M unit :=
  inited ← rt_get rt_inited;
  if (inited : bool) then xy_runtime_teardown;; XY_SET_ERR XY_OK
  else XY_SET_ERR XY_OK.
End unload.
