(* ===== verification/LoadSpecs.v ===== *)
(** * Loading, step by step

    What each step of a load does to a runtime that is in order, up to the
    call of the module's [xy_install]. *)
From S2P Require Import Prelude Words Corm State Env Regions RegionTree RegionWalks Runtime Paths RegionApi RegionInv RegionSpecs Hooks HookSpecs Subtree Dispatch Vector VectorBuild Call Registry ModKey ModList ModListSpecs Loader.

Section steps.
Context {C : Corm} {CL : CormLaws C} {OS : Os} {CB : Callbacks}.
Implicit Types (w : world) (p : mptr) (tx : xy_load_txn).

(** ** The new entry *)

(** The entry [mod_load_alloc_entry] fills in. *)
Definition new_entry (h : handle) (id plen : Z) (parent : option mptr) (key : string)
    (path : pptr) (tmp : option string) : mod_entry :=
  mod_entry_zero <| me_handle := Some h |> <| me_region_id := id |> <| me_region_plen := plen |>
    <| me_refcount := 1 |> <| me_parent_entry := parent |> <| me_mod_key := key |>
    <| me_load_path := Some path |> <| me_tmp_load_path := tmp |>.

(** Interning adds at most a path and a table entry. *)
Lemma module_path_intern_run w s :
  w_mem w = [] →
  ∃ pp n ps o, module_path_intern (Some s) w =
      Ok (Some pp) (w <| w_next := n |> <| w_paths := ps |>
                      <| w_rt ::= (λ r, r <| rt_path_intern_hd := o |>) |>) ∧
    (w_next w ≤ n)%positive.
Proof.
  intros Hm. unfold module_path_intern, open_once.
  assert (H : ∀ t, ∃ pp n ps o,
    (match corm_get t s with
     | Some interned => mret (Some interned)
     | None => p ← fresh_ptr;
               modify (λ w, w <| w_paths ::= <[p := s]> |>);;
               rt_mod (λ r, r <| rt_path_intern_hd := Some (corm_put t s p) |>);;
               mret (Some p)
     end) (w <| w_rt ::= (λ r, r <| rt_path_intern_hd := Some t |>) |>) =
      Ok (Some pp) (w <| w_next := n |> <| w_paths := ps |>
                      <| w_rt ::= (λ r, r <| rt_path_intern_hd := o |>) |>) ∧
    (w_next w ≤ n)%positive).
  { intros t. destruct (corm_get t s) as [pp|].
    - exists pp, (w_next w), (w_paths w), (Some t). split; [by destruct w|lia].
    - eexists (w_next w), (Pos.succ (w_next w)), (<[w_next w := s]> (w_paths w)), _.
      split; [unfold fresh_ptr, mbind, M_bind, gets, modify, rt_mod, mret, M_ret; reflexivity|lia]. }
  rewrite (bind_Ok _ _ _ tt (w <| w_rt ::= (λ r, r <| rt_path_intern_hd :=
    Some (default corm_empty (rt_path_intern_hd (w_rt w))) |>) |>)).
  - destruct (H (default corm_empty (rt_path_intern_hd (w_rt w)))) as (pp & n & ps & o & Hrun & ?).
    exists pp, n, ps, o. split; [|done]. exact Hrun.
  - rewrite (bind_Ok _ _ _ (rt_path_intern_hd (w_rt w)) w) by done.
    destruct (rt_path_intern_hd (w_rt w)) as [t|] eqn:Ht.
    + unfold mret, M_ret, field_over; simpl. rewrite <- Ht. destruct w as [??????????[]]; done.
    + unfold open_table. erewrite bind_Ok by (rewrite (bind_Ok _ _ _ _ _ (alloc_ok_Ok _ Hm)); done).
      done.
Qed.

(** The transaction once its handle is open and no module was reused. *)
Definition opened (h : handle) (id plen : Z) (path key : string) (tmp : option string) : xy_load_txn :=
  txn_start id plen <| tx_lookup := LookupResult (Some path) (Some key) None XY_OK |>
    <| tx_handle := Some h |> <| tx_tmp_load_path := tmp |>.

(** The transaction once the entry [p] is made. *)
Definition allocated tx (fname key : string) (pp : pptr) p : xy_load_txn :=
  tx <| tx_stable_fname := Some fname |> <| tx_stable_key := Some key |>
     <| tx_lookup := LookupResult None None None XY_OK |>
     <| tx_interned_load_path := Some pp |> <| tx_mod_entry := Some p |>
     <| tx_tmp_load_path := None |>.

Lemma alloc_entry_run w h id plen path key tmp fname :
  w_mem w = [] →
  ∃ pp p ps o, let ent := new_entry h id plen (t_loading_mod (w_tls w)) key pp tmp in
    mod_load_alloc_entry (opened h id plen path key tmp) fname w =
      Ok (XY_OK, allocated (opened h id plen path key tmp) fname key pp p)
         (w <| w_next := Pos.succ p |> <| w_paths := ps |>
            <| w_rt ::= (λ r, r <| rt_path_intern_hd := o |>) |>
            <| w_mods ::= <[p := ent]> |>) ∧
    (w_next w ≤ p)%positive.
Proof.
  intros Hm. destruct (module_path_intern_run w path Hm) as (pp & n & ps & o & Hrun & Hn).
  exists pp, n, ps, o. split; [|done]. unfold mod_load_alloc_entry.
  rewrite (bind_Ok _ _ _ _ _ (alloc_ok_Ok _ Hm)). cbn.
  rewrite (bind_Ok _ _ _ _ _ Hrun). cbv zeta.
  erewrite bind_Ok by (by apply alloc_ok_Ok). cbn [negb].
  rewrite (bind_Ok _ _ _ _ _ (fresh_ptr_Ok _)).
  unfold tls_get, mput, mbind, M_bind, gets, modify, mret, M_ret, field_over; simpl. done.
Qed.

Lemma publish_run w tx p key t mt m :
  tx_mod_entry tx = Some p → tx_stable_key tx = Some key →
  rt_mod_hd (w_rt w) = Some t → rt_mod_by_region_hd (w_rt w) = Some mt →
  w_mods w !! p = Some m →
  mod_load_publish_entry tx w =
    Ok (XY_OK, tx <| tx_published_entry := true |>)
      (w <| w_rt ::= (λ r, r <| rt_mod_hd := Some (corm_put t key p) |>
           <| rt_mod_by_region_hd :=
                Some (mcorm_put mt (mk_region_key (me_region_id m) (me_region_plen m)) p) |>) |>).
Proof.
  intros He Hk Ht Hmt Hp. unfold mod_load_publish_entry. rewrite He, Hk.
  rewrite (bind_Ok (deref _) _ _ p w) by done. rewrite (bind_Ok (deref _) _ _ key w) by done.
  rewrite (bind_Ok _ _ _ _ _ (table_Ok _ _ _ Ht)), (bind_Ok (rt_mod _) _ _ tt _ eq_refl).
  erewrite bind_Ok by (by apply mget_Ok). erewrite bind_Ok by (apply table_Ok; exact Hmt).
  done.
Qed.

(** ** The module's context *)

(** The context a module offers: by its symbol, or by its constructor. *)
Definition ctx_offered w (h : handle) : option cptr :=
  match module_lookup_symbol_fn h "get_xy_ptr" ≫= os_ctx_ptr with
  | Some c => Some c
  | None => t_pending_ctx (w_tls w)
  end.

(** Whether the object states the host's context ABI. *)
Definition abi_ok (h : handle) : bool :=
  match module_lookup_symbol_fn h "xy_ctx_abi" with
  | None => false
  | Some f => os_ctx_abi f =? XY_CTX_ABI_DESC
  end.

Lemma check_abi_run w h :
  if abi_ok h then mod_load_check_ctx_abi h w = Ok XY_OK w
  else ∃ what, mod_load_check_ctx_abi h w =
    Ok XY_ERR_ABI (w <| w_trace ::= (λ t, t ++ [EvWarn what]) |> <| w_err := XY_ERR_ABI |>).
Proof.
  unfold abi_ok, mod_load_check_ctx_abi.
  destruct (module_lookup_symbol_fn h "xy_ctx_abi") as [f|]; [|by eexists].
  destruct (os_ctx_abi f =? XY_CTX_ABI_DESC); [done|by eexists].
Qed.

Definition no_pending w : world := w <| w_tls ::= (λ t, t <| t_pending_ctx := None |>) |>.

(** The context as [_xy_init] fills it in. *)
Definition bound (fname : option string) (id : Z) (x : xy_ctx) : xy_ctx :=
  x <| x_call := Some Fn_call |> <| x_areg := Some Fn_areg |> <| x_load := Some Fn_load |>
    <| x_last := Some Fn_last |> <| x_shutdown := Some Fn_shutdown |>
    <| x_module_path := fname |> <| x_region_id := id |>
    <| x_deny := Some Fn_deny |> <| x_require_claim := Some Fn_require_claim |>
    <| x_region_each := Some Fn_region_each |>
    <| x_current_region_plen := Some Fn_current_region_plen |>
    <| x_region_exists := Some Fn_region_exists |> <| x_claim_at := Some Fn_claim_at |>
    <| x_region_at := Some Fn_region_at |> <| x_call_self := Some Fn_call_self |>
    <| x_with_region := Some Fn_with_region |>
    <| x_current_region := Some Fn_current_region |>
    <| x_unload := Some Fn_unload |> <| x_reload := Some Fn_reload |>.

Lemma bind_none_run w tx h :
  tx_handle tx = Some h → ctx_offered w h = None → mod_load_bind_xy tx w = Ok XY_OK (no_pending w).
Proof.
  intros Hh Hc. unfold mod_load_bind_xy. rewrite Hh. rewrite (bind_Ok (deref _) _ _ h w) by done.
  rewrite (bind_Ok _ _ _ (t_pending_ctx (w_tls w)) w) by done.
  rewrite (bind_Ok (tls_mod _) _ _ tt (no_pending w)) by done. unfold ctx_offered in Hc. by rewrite Hc.
Qed.

Lemma bind_abi_run w tx h c :
  tx_handle tx = Some h → ctx_offered w h = Some c → abi_ok h = false →
  ∃ what, mod_load_bind_xy tx w = Ok XY_ERR_ABI
    (no_pending w <| w_trace ::= (λ t, t ++ [EvWarn what]) |> <| w_err := XY_ERR_ABI |>).
Proof.
  intros Hh Hc Ha. unfold mod_load_bind_xy. rewrite Hh. rewrite (bind_Ok (deref _) _ _ h w) by done.
  rewrite (bind_Ok _ _ _ (t_pending_ctx (w_tls w)) w) by done.
  rewrite (bind_Ok (tls_mod _) _ _ tt (no_pending w)) by done. unfold ctx_offered in Hc. rewrite Hc.
  pose proof (check_abi_run (no_pending w) h) as Hck. rewrite Ha in Hck. destruct Hck as [what Hck].
  exists what. by rewrite (bind_Ok _ _ _ _ _ Hck).
Qed.

Lemma bind_ok_run w tx h c x p m :
  tx_handle tx = Some h → ctx_offered w h = Some c → abi_ok h = true →
  w_ctxs w !! c = Some x → tx_mod_entry tx = Some p → w_mods w !! p = Some m →
  mod_load_bind_xy tx w = Ok XY_OK
    (no_pending w <| w_ctxs ::= <[c := bound (tx_stable_fname tx) (tx_inherited_region_id tx) x]> |>
                  <| w_mods ::= <[p := m <| me_ctx := Some c |>]> |>).
Proof.
  intros Hh Hc Ha Hx He Hp. unfold mod_load_bind_xy. rewrite Hh, He.
  rewrite (bind_Ok (deref _) _ _ h w) by done.
  rewrite (bind_Ok _ _ _ (t_pending_ctx (w_tls w)) w) by done.
  rewrite (bind_Ok (tls_mod _) _ _ tt (no_pending w)) by done. unfold ctx_offered in Hc. rewrite Hc.
  pose proof (check_abi_run (no_pending w) h) as Hck. rewrite Ha in Hck.
  rewrite (bind_Ok _ _ _ _ _ Hck). cbn [negb Z.eqb XY_OK].
  erewrite (bind_Ok (_xy_init _ _ _)).
  2: { unfold _xy_init, cmod, cget. erewrite bind_Ok
         by (unfold mbind, M_bind, gets, deref; simpl; by rewrite Hx). done. }
  erewrite (bind_Ok (deref _) _ _ p) by done.
  erewrite bind_Ok by (by apply mmod_Ok). done.
Qed.

(** ** Opening the object *)

(** The copy a reload opens instead of the object: next to it, in /tmp, or in
    ./tmp; [None] when none can be made, or outside of a reload.  [n] is the
    moment it is made. *)
Definition copy_name (src : string) (n : nat) : option string :=
  let one tmpl := if decide (512 ≤ String.length tmpl)%nat then None else os_copy src tmpl n in
  match match str_dir src with
        | Some dir => if decide (String.length dir + 32 < 512)%nat then one (dir +:+ "/.xylem-XXXXXX.so") else None
        | None => None
        end with
  | Some out => Some out
  | None => match one "/tmp/xylem-XXXXXX.so" with Some out => Some out | None => one "./tmp/xylem-XXXXXX.so" end
  end.
Definition load_copy w (path : string) : option string := 
  if w_reloading w then copy_name path (length (w_trace w)) else None.

(** With memory to spare a copy that is made has its name. *)
Lemma copy_one_run w src tmpl :
  w_mem w = [] →
  copy_one src tmpl w = Ok (Some <$> (if decide (512 ≤ String.length tmpl)%nat then None
                                      else os_copy src tmpl (length (w_trace w)))) w.
Proof.
  intros Hm. unfold copy_one. case_decide; [done|].
  rewrite (bind_Ok _ _ _ (length (w_trace w)) w) by done. destruct (os_copy _ _ _) as [t|]; [|done].
  by rewrite (bind_Ok _ _ _ _ _ (alloc_ok_Ok _ Hm)).
Qed.
Lemma load_copy_run w path :
  w_mem w = [] → (if w_reloading w then copy_to_tmp path else mret None) w = Ok (Some <$> load_copy w path) w.
Proof.
  intros Hm. unfold load_copy. destruct (w_reloading w); [|done]. unfold copy_to_tmp, copy_name.
  set (r1 := match str_dir path with Some dir => _ | None => None end).
  rewrite (bind_Ok _ _ _ (Some <$> r1) w).
  2: { unfold r1. destruct (str_dir path) as [dir|]; [|done]. case_decide; [|done]. by rewrite copy_one_run. }
  destruct r1; [done|]. cbn [fmap option_fmap option_map]. rewrite (bind_Ok _ _ _ _ _ (copy_one_run w path _ Hm)).
  destruct (if decide (512 ≤ String.length "/tmp/xylem-XXXXXX.so")%nat then _ else _); [done|]. cbn [fmap option_fmap option_map]. rewrite copy_one_run by done. by case_decide.
Qed.

(** The object itself is opened, or its copy. *)
Lemma dlopen_run w path (copy : option string) o wd :
  cb_dlopen (default path copy) (w <| w_trace ::= (λ t, t ++ [EvDlopen (default path copy)]) |>) = Ok o wd →
  match default (Some path) (Some <$> copy) with
  | Some real => emit (EvDlopen real);; cb_dlopen real
  | None => mret os_main_handle
  end w = Ok o wd ∧ mjoin (Some <$> copy) = copy.
Proof. destruct copy as [c|]; intros Hdl; (split; [|done]); exact Hdl. Qed.

(** A load of [fname] gets to the object at [path], opened as [h] in [wd]:
    the name resolves, no module of that key is loaded, and the dynamic
    loader, which may run constructors that call the library, returns. *)
Record load_opens w (fname : string) (id plen : Z) (path : string) (tmp : option string) (h : handle) wd : Prop := {
  lo_inited : rt_inited (w_rt w) = true;
  lo_mem : w_mem w = [];
  lo_id : t_current_region_id (w_tls w) = id;
  lo_plen : region_current_plen w = Ok plen w;
  lo_path : module_load_path fname w = Ok (Some path) w;
  lo_new : ∃ t, rt_mod_hd (w_rt w) = Some t ∧ corm_get t (module_key path id plen) = None;
  lo_copy : tmp = load_copy w path;
  lo_dlopen : cb_dlopen (default path tmp) (w <| w_trace ::= (λ t, t ++ [EvDlopen (default path tmp)]) |>) = Ok (Some h) wd
}.

Lemma lookup_run w fname id plen path t :
  w_mem w = [] → module_load_path fname w = Ok (Some path) w → rt_mod_hd (w_rt w) = Some t →
  module_lookup_from_fname fname id plen w =
    Ok (LookupResult (Some path) (Some (module_key path id plen))
          (corm_get t (module_key path id plen)) XY_OK) w.
Proof.
  intros Hm Hp Ht. unfold module_lookup_from_fname. rewrite (bind_Ok _ _ _ _ _ Hp).
  rewrite (bind_Ok _ _ _ _ _ (alloc_ok_Ok _ Hm)). cbn [negb]. cbv zeta.
  by rewrite (bind_Ok _ _ _ _ _ (table_Ok _ _ _ Ht)).
Qed.

Lemma open_run w fname id plen path tmp h wd :
  load_opens w fname id plen path tmp h wd →
  mod_load_open_handle (txn_start id plen) fname w =
    Ok (XY_OK, opened h id plen path (module_key path id plen) tmp) wd.
Proof.
  intros [_ Hm _ _ Hp (t & Ht & Hnew) Hr Hdl]. unfold mod_load_open_handle.
  rewrite (bind_Ok _ _ _ _ _ (lookup_run w fname id plen path t Hm Hp Ht)), Hnew. cbn.
  rewrite (bind_Ok _ _ _ (w_reloading w) w) by done.
  rewrite (bind_Ok _ _ _ _ _ (load_copy_run w path Hm)). rewrite <- Hr. cbv zeta.
  destruct (dlopen_run w path tmp _ wd Hdl) as [Hopen Hj]. by rewrite Hj, (bind_Ok _ _ _ _ _ Hopen).
Qed.

(** [xy_load], from the opened object on. *)
Lemma xy_load_opened w fname id plen path tmp h wd :
  load_opens w fname id plen path tmp h wd →
  xy_load fname w =
    (ret ← ('(ret, tx) ← load_steps (opened h id plen path (module_key path id plen) tmp) fname;
            if negb (ret =? XY_OK) then mod_load_abort tx ret
            else mod_load_restore_context tx;; mret XY_OK);
     set_err_ret ret) wd.
Proof.
  intros Hlo. pose proof (open_run _ _ _ _ _ _ _ _ Hlo) as Hopen.
  destruct Hlo as [Hi _ Hid Hpl _ _ _ _]. unfold xy_load. rewrite with_runtime_run by done.
  unfold _mod_load. rewrite bind_assoc.
  rewrite (bind_Ok _ _ _ id w) by (unfold tls_get, gets; by rewrite Hid).
  rewrite bind_assoc, (bind_Ok _ _ _ _ _ Hpl). rewrite bind_assoc, (bind_Ok _ _ _ _ _ Hopen).
  cbn. rewrite bind_assoc. done.
Qed.

(** ** What an opened load relies on *)

Record tables_open w t mt : Prop := {
  to_mods : rt_mod_hd (w_rt w) = Some t;
  to_regions : rt_mod_by_region_hd (w_rt w) = Some mt;
  to_mem : w_mem w = [];
  to_next q : q ∈ dom (w_mods w) → (q < w_next w)%positive
}.

(** The entry is made and tabled. *)
Lemma alloc_publish_run w t mt h id plen path key tmp fname :
  tables_open w t mt →
  ∃ pp p ps o,
    let ent := new_entry h id plen (t_loading_mod (w_tls w)) key pp tmp in
    let tx := allocated (opened h id plen path key tmp) fname key pp p <| tx_published_entry := true |> in
    (p ∉ dom (w_mods w)) ∧ (w_next w ≤ p)%positive ∧
    load_steps (opened h id plen path key tmp) fname w =
    load_published tx
      (w <| w_next := Pos.succ p |> <| w_paths := ps |>
         <| w_rt ::= (λ r, r <| rt_path_intern_hd := o |>
                             <| rt_mod_hd := Some (corm_put t key p) |>
                             <| rt_mod_by_region_hd := Some (mcorm_put mt (mk_region_key id plen) p) |>) |>
         <| w_mods ::= <[p := ent]> |>).
Proof.
  intros [Ht Hmt Hm Hnext].
  destruct (alloc_entry_run w h id plen path key tmp fname Hm) as (pp & p & ps & o & Hrun & Hp).
  exists pp, p, ps, o. cbv zeta. split_and!.
  - intros Hin%Hnext. lia.
  - done.
  - unfold load_steps. rewrite (bind_Ok _ _ _ _ _ Hrun). cbn [negb Z.eqb XY_OK].
    erewrite bind_Ok by (eapply publish_run;
      [done|done|exact Ht|exact Hmt|simpl; by rewrite lookup_insert_eq]).
    done.
Qed.

(** ** Taking back a load that was not linked yet *)

Lemma cleanup_none_run w p m :
  w_mods w !! p = Some m → me_region_state m = None → module_cleanup_region_state p w = Ok tt w.
Proof.
  intros Hp Hs. unfold module_cleanup_region_state. rewrite (bind_Ok _ _ _ _ _ (mget_Ok _ _ _ Hp)).
  by rewrite Hs.
Qed.

Lemma abort_unlinked_run w tx p m h t mt err :
  tx_context_active tx = false → tx_mod_entry tx = Some p → tx_published_entry tx = true →
  tx_tmp_load_path tx = None → tx_handle tx = Some h →
  w_mods w !! p = Some m → me_region_state m = None → me_region_entry m = None →
  me_tmp_load_path m = None →
  rt_mod_hd (w_rt w) = Some t → rt_mod_by_region_hd (w_rt w) = Some mt →
  mod_load_abort tx err w = Ok err
    (w <| w_rt ::= (λ r, r <| rt_mod_by_region_hd :=
              Some (mcorm_del mt (mk_region_key (me_region_id m) (me_region_plen m))) |>
            <| rt_mod_hd := Some (corm_del t (me_mod_key m)) |>) |>
       <| w_mods ::= delete p |> <| w_trace ::= (λ l, l ++ [EvDlclose h]) |>).
Proof.
  intros Ha He Hpub Htmp Hh Hp Hs Hr Ht' Ht Hmt. unfold mod_load_abort, mod_load_restore_context.
  rewrite Ha. rewrite (bind_Ok (mret tx) _ _ tx w) by done. rewrite He, Hpub, Htmp, Hh.
  erewrite bind_Ok.
  2: { rewrite (bind_Ok _ _ _ _ _ (cleanup_none_run _ _ _ Hp Hs)). unfold abort_detach.
       rewrite (bind_Ok _ _ _ _ _ (mget_Ok _ _ _ Hp)), Hr. done. }
  erewrite bind_Ok.
  2: { unfold unpublish. rewrite (bind_Ok _ _ _ _ _ (mget_Ok _ _ _ Hp)).
       rewrite (bind_Ok _ _ _ _ _ (table_Ok _ _ _ Hmt)), (bind_Ok (rt_mod _) _ _ tt _ eq_refl).
       erewrite bind_Ok by (apply table_Ok; exact Ht). done. }
  erewrite bind_Ok.
  2: { erewrite bind_Ok by (by apply mget_Ok). unfold free_mod. rewrite bind_assoc.
       erewrite bind_Ok by (by apply mget_Ok). rewrite (bind_Ok (modify _) _ _ tt _ eq_refl).
       by rewrite Ht'. }
  rewrite (bind_Ok (opt_do None _) _ _ tt _ eq_refl).
  rewrite (bind_Ok (opt_do (Some h) _) _ _ tt _ eq_refl). done.
Qed.

(** What a refused load leaves: a path interned and addresses used, nothing
    else but the error and the trace. *)
Record refused wd w' (h : handle) (err : Z) : Prop := {
  rf_regions : w_regions w' = w_regions wd;
  rf_mods : w_mods w' = w_mods wd;
  rf_ctxs : w_ctxs w' = w_ctxs wd;
  rf_cur : t_current_region_id (w_tls w') = t_current_region_id (w_tls wd) ∧
    t_current_region_entry (w_tls w') = t_current_region_entry (w_tls wd);
  rf_table t : rt_mod_hd (w_rt wd) = Some t →
    ∃ t', rt_mod_hd (w_rt w') = Some t' ∧ ∀ k, corm_get t' k = corm_get t k;
  rf_count : rt_mod_count (w_rt w') = rt_mod_count (w_rt wd);
  rf_err : w_err w' = err;
  rf_trace : ∃ what, w_trace w' = w_trace wd ++ [EvWarn what; EvDlclose h]
}.

Lemma corm_del_put_id (t : corm string mptr) k p :
  corm_get t k = None → ∀ k', corm_get (corm_del (corm_put t k p) k) k' = corm_get t k'.
Proof.
  intros Hk k'. destruct (decide (k = k')) as [<-|Hne].
  - by rewrite corm_get_del.
  - by rewrite corm_get_del_ne, corm_get_put_ne.
Qed.
End steps.
