(* ===== verification/LoadLink.v ===== *)
(** * Linking a loaded module

    The second half of a load that goes well: from the published entry to the
    world [xy_install] runs in, and back. *)
From S2P Require Import Prelude Words Corm State Env Regions RegionTree RegionWalks Runtime Paths RegionApi RegionInv RegionSpecs Hooks HookSpecs Subtree Dispatch Vector VectorBuild Call SlotRun Registry ModKey ModList ModListSpecs Loader LoadSpecs.

Section link.
Context {C : Corm} {CL : CormLaws C} {OS : Os} {CB : Callbacks}.
Implicit Types (w : world) (p : mptr) (tx : xy_load_txn).

(** ** Frames *)

Lemma region_lookup_frame w w' id plen o :
  rt_region_hd (w_rt w') = rt_region_hd (w_rt w) →
  region_lookup id plen w = Ok o w → region_lookup id plen w' = Ok o w'.
Proof.
  intros Hrt. unfold region_lookup, table, rt_get, mbind, M_bind, gets, deref. rewrite Hrt.
  destruct (rt_region_hd (w_rt w)) as [t|]; [|done]. unfold mret, M_ret. by intros [= <-].
Qed.

Lemma region_current_plen_frame w w' plen :
  t_current_region_entry (w_tls w') = t_current_region_entry (w_tls w) →
  re_shape <$> w_regions w' = re_shape <$> w_regions w →
  region_current_plen w = Ok plen w → region_current_plen w' = Ok plen w'.
Proof.
  intros Hc Hs. unfold region_current_plen, tls_get.
  rewrite (bind_Ok (gets _) _ _ (t_current_region_entry (w_tls w)) w) by done.
  rewrite (bind_Ok (gets _) _ _ (t_current_region_entry (w_tls w)) w') by (unfold gets; by rewrite Hc).
  destruct (t_current_region_entry (w_tls w)) as [p|]; [|unfold mret, M_ret; by intros [= <-]].
  unfold rget, mbind, M_bind, gets, deref. pose proof (f_equal (lookup p) Hs) as Hp.
  rewrite !lookup_fmap in Hp.
  destruct (w_regions w !! p) as [e|], (w_regions w' !! p) as [e'|]; try done.
  unfold mret, M_ret. injection Hp as _ Hpl _ _ _ _ _. intros [= <-]. by rewrite Hpl.
Qed.

(** Modules that are on no list do not matter to the lists. *)
Lemma mods_wf_irrelevant h ms ms' own p :
  mods_wf h ms own → (∀ q, q ∈ dom h → p ∉ own q) → (∀ q, q ≠ p → ms' !! q = ms !! q) →
  mods_wf h ms' own.
Proof.
  intros [Hn Hp He] Hnew Hms.
  assert (Hne : ∀ q e x, h !! q = Some e → x ∈ own q → x ≠ p).
  { intros q e x Hq Hx ->. apply (Hnew q); [by eapply elem_of_dom_2|done]. }
  split.
  - intros q e Hq. eapply chain_frame; [by apply Hn|]. intros x m Hx Hm. exists m.
    by rewrite (Hms x (Hne _ _ _ Hq Hx)).
  - intros q e Hq. eapply chain_frame; [by apply Hp|]. intros x m Hx Hm. exists m. rewrite elem_of_reverse in Hx.
    by rewrite (Hms x (Hne _ _ _ Hq Hx)).
  - intros q x m Hq Hx Hm. pose proof Hq as [e Hqe]%elem_of_dom.
    rewrite (Hms x (Hne _ _ _ Hqe Hx)) in Hm. by eapply He.
Qed.

Lemma mods_wf_not_own h ms own p q : mods_wf h ms own → p ∉ dom ms → q ∈ dom h → p ∉ own q.
Proof.
  intros Hwf Hnew [e He]%elem_of_dom Hin. apply Hnew.
  by eapply chain_dom; [by apply (mw_next _ _ _ Hwf)|].
Qed.

Lemma mods_wf_ext h ms own own' :
  (∀ q, q ∈ dom h → own q = own' q) → mods_wf h ms own → mods_wf h ms own'.
Proof.
  intros Ho [Hn Hp He]. split.
  - intros q e Hq. rewrite <- Ho by (by eapply elem_of_dom_2). by apply Hn.
  - intros q e Hq. rewrite <- Ho by (by eapply elem_of_dom_2). by apply Hp.
  - intros q x m Hq. rewrite <- Ho by done. by apply He.
Qed.

(** Nor does what is not a link. *)
Lemma mods_wf_links h ms ms' own :
  mods_wf h ms own →
  (∀ q mq, ms !! q = Some mq → ∃ mq', ms' !! q = Some mq' ∧
    me_region_next mq' = me_region_next mq ∧ me_region_prev mq' = me_region_prev mq ∧
    me_region_entry mq' = me_region_entry mq) →
  mods_wf h ms' own.
Proof.
  intros [Hn Hp He] Hl. split.
  - intros q e Hq. eapply chain_frame; [by apply Hn|]. intros x mx _ Hx.
    destruct (Hl x mx Hx) as (mx' & ? & ? & _). eauto.
  - intros q e Hq. eapply chain_frame; [by apply Hp|]. intros x mx _ Hx.
    destruct (Hl x mx Hx) as (mx' & ? & _ & ? & _). eauto.
  - intros q x mx' Hq Hx Hmx'. pose proof Hq as [e Hqe]%elem_of_dom.
    assert (x ∈ dom ms) as [mx Hmx]%elem_of_dom by (by eapply chain_dom; [by apply Hn|]).
    destruct (Hl x mx Hmx) as (mx2 & Hmx2 & _ & _ & Hent). assert (mx2 = mx') as -> by congruence.
    rewrite Hent. by eapply He.
Qed.

Lemma mods_wf_same h ms own p m m' :
  mods_wf h ms own → ms !! p = Some m → same_module m m' → mods_wf h (<[p := m']> ms) own.
Proof.
  intros Hwf Hm (c & b & ->). apply (mods_wf_links _ _ _ _ Hwf). intros q mq Hq.
  destruct (decide (q = p)) as [->|].
  - rewrite lookup_insert_eq. rewrite Hm in Hq. injection Hq as <-. by eexists.
  - rewrite lookup_insert_ne by done. by exists mq.
Qed.

(** ** Entering the region, and the claim that is not needed *)

Lemma enter_run w tx reg :
  region_lookup (tx_inherited_region_id tx) (tx_inherited_region_plen tx) w = Ok (Some reg) w →
  mod_load_enter_context tx w =
    Ok (XY_OK, tx <| tx_inherited_reg := Some reg |>
                  <| tx_prev_region_id := t_current_region_id (w_tls w) |>
                  <| tx_prev_region_entry := t_current_region_entry (w_tls w) |>
                  <| tx_context_active := true |>)
      (w <| w_tls ::= (λ t, t <| t_current_region_id := tx_inherited_region_id tx |>
                              <| t_current_region_entry := Some reg |>) |>).
Proof. intros Hl. unfold mod_load_enter_context. by rewrite (bind_Ok _ _ _ _ _ Hl). Qed.

(** The region asks for no claim, or the module offers none and need not. *)
Definition claim_waived (e : region_entry) (h : handle) : Prop :=
  re_require_claim e = false ∧
  (module_lookup_symbol_raw h "xy_claim" = None ∨ re_claim_handler e = None).

Lemma claim_waived_run w tx h reg e :
  tx_handle tx = Some h → tx_inherited_reg tx = Some reg → w_regions w !! reg = Some e →
  claim_waived e h → mod_load_claim_if_needed tx w = Ok XY_OK w.
Proof.
  intros Hh Hr He [Hreq Hor]. unfold mod_load_claim_if_needed. rewrite Hh, Hr.
  rewrite (bind_Ok (deref _) _ _ h w) by done. rewrite (bind_Ok _ _ _ _ _ (rget_Ok _ _ _ He)).
  rewrite Hreq. destruct (module_lookup_symbol_raw h "xy_claim"); [|done].
  destruct Hor as [|Hch]; [done|]. by rewrite Hch.
Qed.

(** ** The region state *)

(** The size the module asks for, if it does. *)
Definition state_size (h : handle) : Z :=
  match module_lookup_symbol_fn h "xy_region_state_size" with
  | Some f => os_state_size f
  | None => 0
  end.

Lemma state_run w p m h :
  w_mem w = [] → w_mods w !! p = Some m → me_region_state m = None →
  ∃ n sts st, (match module_lookup_symbol_fn h "xy_region_state_size" with
    | None => mret tt
    | Some sz_fn =>
        let sz := os_state_size sz_fn in
        if 0 <? sz then
          ok ← alloc_ok;
          (if (ok : bool) then
             st ← fresh_ptr;
             modify (λ w, w <| w_states ::= <[st := sz]> |>);;
             mmod p (λ m, m <| me_region_state := Some st |>)
           else mmod p (λ m, m <| me_region_state := None |>))
        else mret tt
    end) w = Ok tt (w <| w_next := n |> <| w_states := sts |>
                      <| w_mods ::= <[p := m <| me_region_state := st |>]> |>) ∧
    (w_next w ≤ n)%positive ∧
    (if 0 <? state_size h then ∃ s, st = Some s ∧ sts !! s = Some (state_size h) else st = None).
Proof.
  intros Hm Hp Hs. unfold state_size.
  assert (Hid : ∃ n sts st, Ok tt w = Ok tt (w <| w_next := n |> <| w_states := sts |>
    <| w_mods ::= <[p := m <| me_region_state := st |>]> |>) ∧ (w_next w ≤ n)%positive ∧ st = None).
  { exists (w_next w), (w_states w), None. split_and!; [|lia|done].
    unfold field_over; simpl. rewrite insert_id; [by destruct w|]. rewrite Hp, <- Hs. by destruct m. }
  destruct (module_lookup_symbol_fn h "xy_region_state_size") as [f|]; [|exact Hid].
  cbv zeta. destruct (0 <? os_state_size f) eqn:Hsz; [|exact Hid].
  exists (Pos.succ (w_next w)), (<[w_next w := os_state_size f]> (w_states w)), (Some (w_next w)).
  split_and!; [|lia|].
  - rewrite (bind_Ok _ _ _ _ _ (alloc_ok_Ok _ Hm)). run.
    rewrite (bind_Ok (modify _) _ _ tt _ eq_refl). by erewrite mmod_Ok.
  - eexists. split; [done|]. by rewrite lookup_insert_eq.
Qed.

(** ** The link *)

Lemma fresh_caches_ok hooks c m :
  (∀ n h, hooks n = Some h → 0 ≤ h) → me_fn_cache m = [] → me_hook_impl_bits m = [] →
  caches_ok hooks c m.
Proof.
  intros Hr Hc Hb. assert (Hbit : ∀ h, module_has_hook_implemented m h = false).
  { intros h. unfold module_has_hook_implemented. rewrite Hb. by destruct (h <? 0). }
  split.
  - intros n h Hn. split; [by eapply Hr|]. unfold cell_ok. rewrite Hc. simpl. apply Hbit.
  - intros h _ _. split; [apply Hbit|]. intros s. by rewrite Hc.
Qed.

(** The world after [load_link]: the module is the last of its region's list,
    with its state and with every hook resolved. *)
Record link_done w w' tbl kids own reg p m : Prop := {
  ld_tree : tree_wf (w_regions w') tbl kids;
  ld_mods : mods_wf (w_regions w') (w_mods w') (λ q, if decide (q = reg) then own reg ++ [p] else own q);
  ld_stale q e : sub (w_regions w) q reg → w_regions w !! q = Some e →
    ∃ e', w_regions w' !! q = Some e' ∧ re_subtree_mods_dirty e' = true ∧
      re_dispatch_gen e' = gen_succ (re_dispatch_gen e);
  ld_other q : ¬ sub (w_regions w) q reg → w_regions w' !! q = w_regions w !! q;
  ld_mod : ∃ m' st, w_mods w' !! p = Some m' ∧ me_region_entry m' = Some reg ∧
    me_unlinked (me_uncached m') = me_unlinked (me_uncached (m <| me_region_state := st |>)) ∧
    (∀ h, me_handle m = Some h → if 0 <? state_size h
       then ∃ s, st = Some s ∧ w_states w' !! s = Some (state_size h) else st = None) ∧
    (is_Some (me_handle m) → warm (hook_ids w) m');
  ld_mods_same q mq : q ≠ p → w_mods w !! q = Some mq →
    ∃ mq', w_mods w' !! q = Some mq' ∧ me_unlinked mq' = me_unlinked mq;
  ld_shape : re_shape <$> w_regions w' = re_shape <$> w_regions w;
  ld_dom : dom (w_mods w') = dom (w_mods w);
  ld_rest : ∃ h ms n sts, w' = w <| w_regions := h |> <| w_mods := ms |> <| w_next := n |>
    <| w_states := sts |> <| w_rt ::= (λ r, r <| rt_mod_count ::= Z.succ |>) |>
}.

Lemma load_link_run w tx h p m reg tbl kids own :
  tx_handle tx = Some h → tx_mod_entry tx = Some p → w_mods w !! p = Some m →
  me_handle m = Some h → me_region_state m = None → me_fn_cache m = [] → me_hook_impl_bits m = [] →
  region_lookup (me_region_id m) (me_region_plen m) w = Ok (Some reg) w →
  reg ∈ dom (w_regions w) → w_mem w = [] →
  tree_wf (w_regions w) tbl kids → mods_wf (w_regions w) (w_mods w) own →
  (∀ q, q ∈ dom (w_regions w) → p ∉ own q) →
  hook_table w (hook_ids w) (rt_hook_id_counter (w_rt w)) →
  ∃ w', load_link tx w = Ok tt w' ∧ link_done w w' tbl kids own reg p m.
Proof.
  intros Hh He Hp Hmh Hst Hfc Hib Hlk Hreg Hmem Hwf Hms Hnew Htab.
  unfold load_link. rewrite Hh, He.
  set (w1 := w <| w_rt ::= (λ r, r <| rt_mod_count ::= Z.succ |>) |>).
  rewrite (bind_Ok (rt_mod _) _ _ tt w1) by done.
  rewrite (bind_Ok (deref _) _ _ h w1) by done. rewrite (bind_Ok (deref _) _ _ p w1) by done.
  destruct (state_run w1 p m h Hmem Hp Hst) as (n & sts & st & Hstate & Hn & Hsz).
  rewrite (bind_Ok _ _ _ _ _ Hstate). set (m2 := m <| me_region_state := st |>) in *.
  set (w2 := w1 <| w_next := n |> <| w_states := sts |> <| w_mods ::= <[p := m2]> |>) in *.
  assert (Hp2 : w_mods w2 !! p = Some m2) by (simpl; by rewrite lookup_insert_eq).
  rewrite (bind_Ok _ _ _ _ _ (mget_Ok _ _ _ Hp2)).
  rewrite (bind_Ok _ _ _ (Some reg) w2) by (by apply (region_lookup_frame w)). cbn [opt_do].
  assert (Hms2 : mods_wf (w_regions w2) (w_mods w2) own).
  { apply (mods_wf_irrelevant _ (w_mods w) _ _ p); [done|done|].
    intros q Hq. simpl. by rewrite lookup_insert_ne. }
  destruct (append_spec w2 tbl kids own reg p) as (w3 & H3 & Hrel);
    [done|done|done|by eapply elem_of_dom_2|done|].
  rewrite (bind_Ok _ _ _ _ _ H3). pose proof (rl_rest _ _ _ _ _ _ _ Hrel) as (h3 & ms3 & Hw3).
  destruct (rl_same _ _ _ _ _ _ _ Hrel p m2 Hp2) as (m3 & Hp3 & Hm3).
  injection Hm3 as Hctx3 Hfc3 Hst3 Hlp3 Hh3 Hid3 Hpl3 Hrc3 Hpe3 Hib3 Hk3 Htmp3.
  assert (Hcaches : caches_ok (hook_ids w) (rt_hook_id_counter (w_rt w)) m3).
  { apply fresh_caches_ok; [|congruence..]. intros x hx Hx. by apply (ht_range _ _ _ Htab) in Hx as [? _]. }
  destruct (fn_cache_prewarm_run w3 p m3 (hook_ids w) (rt_hook_id_counter (w_rt w)))
    as (m4 & H4 & Hw4 & Hok4 & Hwarm); [|by rewrite Hw3|done|done|].
  { rewrite Hw3. destruct Htab as [Ho Hc Hi Hr]. by split. }
  rewrite (bind_Ok _ _ _ _ _ H4). eexists. split; [done|].
  assert (Hm4 : me_uncached m4 = me_uncached m3).
  { destruct (wm_same _ _ Hw4) as (x & b & ->). done. }
  assert (Hms4 : mods_wf (w_regions w3) (<[p := m4]> (w_mods w3))
    (λ q, if decide (q = reg) then own reg ++ [p] else own q)).
  { eapply mods_wf_same; [by apply (rl_mods _ _ _ _ _ _ _ Hrel)|done|apply (wm_same _ _ Hw4)]. }
  split; simpl.
  - apply Hrel.
  - exact Hms4.
  - intros q e Hq Hqe. by apply (rl_stale _ _ _ _ _ _ _ Hrel).
  - intros q Hq. by apply (rl_other _ _ _ _ _ _ _ Hrel).
  - exists m4, st. split_and!; [by rewrite lookup_insert_eq| | | |].
    + apply (mw_entry _ _ _ Hms4 reg p m4); [|by rewrite decide_True; set_solver|by rewrite lookup_insert_eq].
      destruct (rl_rest _ _ _ _ _ _ _ Hrel) as (hh & mss & E).
      destruct (rl_stale _ _ _ _ _ _ _ Hrel reg) with (e := default region_entry_zero (w_regions w !! reg))
        as (e' & He' & _); [apply rtc_refl| |by eapply elem_of_dom_2].
      simpl. by apply elem_of_dom in Hreg as [e ->].
    + rewrite Hm4. unfold me_uncached, me_unlinked; simpl. unfold m2 in *. simpl in *. congruence.
    + intros h' Hh'. assert (h' = h) as -> by congruence. rewrite Hw3. exact Hsz.
    + intros _. apply Hwarm. rewrite Hh3. by eexists.
  - intros q mq Hq Hmq. rewrite lookup_insert_ne by done.
    apply (rl_same _ _ _ _ _ _ _ Hrel). simpl. by rewrite lookup_insert_ne.
  - apply Hrel.
  - rewrite dom_insert_L, (rl_dom _ _ _ _ _ _ _ Hrel). simpl. rewrite dom_insert_L.
    apply elem_of_dom_2 in Hp. set_solver.
  - rewrite Hw3. by eexists _, _, _, _.
Qed.

(** ** A load that goes well *)

(** What a new load of [fname] needs of the world its object was opened in. *)
Record loadable wd (fname : string) (id plen : Z) (path : string) (h : handle)
    t mt (c : cptr) (x : xy_ctx) (reg : rptr) (e : region_entry) tbl kids own (f : addr) : Prop := {
  la_tables : tables_open wd t mt;
  la_new : corm_get t (module_key path id plen) = None;
  la_ctx : ctx_offered wd h = Some c;
  la_ctx_live : w_ctxs wd !! c = Some x;
  la_abi : abi_ok h = true;
  la_region : region_lookup id plen wd = Ok (Some reg) wd;
  la_entry : w_regions wd !! reg = Some e;
  la_claim : claim_waived e h;
  la_tree : tree_wf (w_regions wd) tbl kids;
  la_mods : mods_wf (w_regions wd) (w_mods wd) own;
  la_hooks : hook_table wd (hook_ids wd) (rt_hook_id_counter (w_rt wd));
  la_install : module_lookup_symbol_fn h "xy_install" = Some f
}.

(** The world [xy_install] runs in. *)
Record installing wd w1 (fname : string) (id plen : Z) (path : string) (tmp : option string) (h : handle)
    t (c : cptr) (x : xy_ctx) (reg : rptr) tbl kids own p : Prop := {
  in_new : p ∉ dom (w_mods wd);
  in_fresh : (w_next wd ≤ p)%positive;
  in_mod : ∃ m, w_mods w1 !! p = Some m ∧ me_handle m = Some h ∧ me_ctx m = Some c ∧
    me_refcount m = 1 ∧ me_parent_entry m = t_loading_mod (w_tls wd) ∧
    me_mod_key m = module_key path id plen ∧ me_region_id m = id ∧ me_region_plen m = plen ∧
    me_region_entry m = Some reg ∧ is_Some (me_load_path m) ∧ me_tmp_load_path m = tmp ∧
    warm (hook_ids wd) m;
  in_others q mq : q ≠ p → w_mods wd !! q = Some mq →
    ∃ mq', w_mods w1 !! q = Some mq' ∧ me_unlinked mq' = me_unlinked mq;
  in_table : ∃ t', rt_mod_hd (w_rt w1) = Some t' ∧
    ∀ k, corm_get t' k = if decide (module_key path id plen = k) then Some p else corm_get t k;
  in_tree : tree_wf (w_regions w1) tbl kids;
  in_lists : mods_wf (w_regions w1) (w_mods w1)
    (λ q, if decide (q = reg) then own reg ++ [p] else own q);
  in_stale q e : sub (w_regions wd) q reg → w_regions wd !! q = Some e →
    ∃ e', w_regions w1 !! q = Some e' ∧ re_subtree_mods_dirty e' = true ∧
      re_dispatch_gen e' = gen_succ (re_dispatch_gen e);
  in_ctxs : w_ctxs w1 = <[c := bound (Some fname) id x]> (w_ctxs wd);
  in_cur : cur w1 = (id, Some reg);
  in_loading : t_loading_mod (w_tls w1) = Some p;
  in_count : rt_mod_count (w_rt w1) = Z.succ (rt_mod_count (w_rt wd));
  in_shape : re_shape <$> w_regions w1 = re_shape <$> w_regions wd;
  in_dom : dom (w_mods w1) = {[p]} ∪ dom (w_mods wd);
  in_runtime : rt_inited (w_rt w1) = rt_inited (w_rt wd) ∧ w_mem w1 = w_mem wd ∧
    is_Some (rt_mod_by_region_hd (w_rt w1)) ∧ rt_region_hd (w_rt w1) = rt_region_hd (w_rt wd);
  in_trace : w_trace w1 = w_trace wd ++ [EvInstall h]
}.

(** Back from [xy_install]: the loader's module and region are current again. *)
Definition left_load wd w2 : world :=
  w2 <| w_tls ::= (λ s, s <| t_loading_mod := t_loading_mod (w_tls wd) |>) |>
     <| w_tls ::= (λ s, s <| t_current_region_id := t_current_region_id (w_tls wd) |>
                          <| t_current_region_entry := t_current_region_entry (w_tls wd) |>) |>
     <| w_err := XY_OK |>.

Lemma run_install_run w tx h p f :
  tx_handle tx = Some h → tx_mod_entry tx = Some p → module_lookup_symbol_fn h "xy_install" = Some f →
  let wi := w <| w_tls ::= (λ s, s <| t_loading_mod := Some p |>) |>
              <| w_trace ::= (λ l, l ++ [EvInstall h]) |> in
  ∀ w2, cb_install f wi = Ok tt w2 →
    mod_load_run_install tx w =
      Ok XY_OK (w2 <| w_tls ::= (λ s, s <| t_loading_mod := t_loading_mod (w_tls w) |>) |>).
Proof.
  intros Hh He Hf wi w2 Hi. unfold mod_load_run_install. rewrite Hh, He.
  rewrite (bind_Ok _ _ _ (t_loading_mod (w_tls w)) w) by done.
  rewrite (bind_Ok (tls_mod _) _ _ tt _ eq_refl). erewrite (bind_Ok (deref _) _ _ h) by done.
  erewrite bind_Ok; [done|]. unfold _mod_run. rewrite Hf.
  rewrite (bind_Ok (emit _) _ _ tt wi eq_refl). by rewrite (bind_Ok _ _ _ _ _ Hi).
Qed.

(** The steps of a published entry, once each is known to go well. *)
Lemma published_run wp wb we wl tx1 tx2 h p f :
  mod_load_bind_xy tx1 wp = Ok XY_OK wb → mod_load_enter_context tx1 wb = Ok (XY_OK, tx2) we →
  mod_load_claim_if_needed tx2 we = Ok XY_OK we → load_link tx2 we = Ok tt wl →
  tx_handle tx2 = Some h → tx_mod_entry tx2 = Some p → module_lookup_symbol_fn h "xy_install" = Some f →
  ∀ w2, cb_install f (wl <| w_tls ::= (λ s, s <| t_loading_mod := Some p |>) |>
                         <| w_trace ::= (λ l, l ++ [EvInstall h]) |>) = Ok tt w2 →
    load_published tx1 wp =
      Ok (XY_OK, tx2) (w2 <| w_tls ::= (λ s, s <| t_loading_mod := t_loading_mod (w_tls wl) |>) |>).
Proof.
  intros Hbind Henter Hclaim Hlink Hh Hp Hf w2 Hi. unfold load_published.
  rewrite (bind_Ok _ _ _ _ _ Hbind). cbn [negb Z.eqb XY_OK].
  rewrite (bind_Ok _ _ _ _ _ Henter). cbn [negb Z.eqb XY_OK].
  rewrite (bind_Ok _ _ _ _ _ Hclaim). cbn [negb Z.eqb XY_OK].
  rewrite (bind_Ok _ _ _ _ _ Hlink).
  by rewrite (bind_Ok _ _ _ _ _ (run_install_run wl tx2 h p f Hh Hp Hf w2 Hi)).
Qed.

Lemma load_new w fname id plen path tmp h wd t mt c x reg e tbl kids own f :
  load_opens w fname id plen path tmp h wd →
  loadable wd fname id plen path h t mt c x reg e tbl kids own f →
  ∃ p w1, installing wd w1 fname id plen path tmp h t c x reg tbl kids own p ∧
    ∀ w2, cb_install f w1 = Ok tt w2 → xy_load fname w = Ok XY_OK (left_load wd w2).
Proof.
  intros Hlo [Hto Hk Hc Hx Ha Hlk He Hcl Hwf Hms Htab Hf].
  rewrite (xy_load_opened _ _ _ _ _ _ _ _ Hlo). set (key := module_key path id plen) in *.
  destruct (alloc_publish_run wd t mt h id plen path key tmp fname Hto)
    as (pp & p & ps & o & Hp & Hnext & Hrun). cbv zeta in Hrun.
  match type of Hrun with _ = load_published ?tx ?w1 => set (tx1 := tx) in *; set (wp := w1) in * end.
  set (ent := new_entry h id plen (t_loading_mod (w_tls wd)) key pp tmp) in *.
  pose proof (bind_ok_run wp tx1 h c x p ent eq_refl Hc Ha Hx eq_refl
    ltac:(simpl; by rewrite lookup_insert_eq)) as Hbind.
  match type of Hbind with _ = Ok _ ?w1 => set (wb := w1) in * end.
  pose proof (enter_run wb tx1 reg (region_lookup_frame wd wb _ _ _ eq_refl Hlk)) as Henter.
  match type of Henter with _ = Ok (_, ?tx) ?w1 => set (tx2 := tx) in *; set (we := w1) in * end.
  pose proof (claim_waived_run we tx2 h reg e eq_refl eq_refl He Hcl) as Hclaim.
  set (ent2 := ent <| me_ctx := Some c |>) in *.
  assert (Hp2 : w_mods we !! p = Some ent2) by (simpl; by rewrite lookup_insert_eq).
  assert (Hnew : ∀ q, q ∈ dom (w_regions wd) → p ∉ own q) by (intros; by eapply mods_wf_not_own).
  destruct (load_link_run we tx2 h p ent2 reg tbl kids own) as (wl & Hlink & Hld); try done.
  - by apply (region_lookup_frame wd).
  - by eapply elem_of_dom_2.
  - by destruct Hto.
  - apply (mods_wf_irrelevant _ (w_mods wd) _ _ p); [done|done|].
    intros q Hq. simpl. rewrite !lookup_insert_ne by done. done.
  - destruct Htab as [Ho Hcn Hi Hr]. by split.
  - pose proof (ld_rest _ _ _ _ _ _ _ _ Hld) as (hh & mss & nn & stt & Hwl).
    set (w1 := wl <| w_tls ::= (λ s, s <| t_loading_mod := Some p |>) |>
                  <| w_trace ::= (λ l, l ++ [EvInstall h]) |>).
    exists p, w1. split.
    + destruct (ld_mod _ _ _ _ _ _ _ _ Hld) as (m' & st & Hm' & Hre & Hun & _ & Hwarm).
      unfold ent2, ent, new_entry in Hun. injection Hun as H1 H2 H3 H4 H5 H6 H7 H8 H9 H10.
      split; try (unfold w1; rewrite ?Hwl; done).
      * exists m'. split_and!; try done; first [by eexists|apply Hwarm; by eexists].
      * intros q mq Hq Hmq. apply (ld_mods_same _ _ _ _ _ _ _ _ Hld); [done|].
        simpl. by rewrite !lookup_insert_ne.
      * exists (corm_put t key p). split; [unfold w1; by rewrite Hwl|]. intros k'. case_decide as Hkk.
        -- rewrite <- Hkk. apply corm_get_put.
        -- by apply corm_get_put_ne.
      * apply Hld.
      * apply Hld.
      * intros q eq Hq Hqe. by apply (ld_stale _ _ _ _ _ _ _ _ Hld).
      * apply (ld_shape _ _ _ _ _ _ _ _ Hld).
      * transitivity (dom (w_mods we)); [apply (ld_dom _ _ _ _ _ _ _ _ Hld)|]. simpl.
        rewrite !dom_insert_L. set_solver.
    + intros w2 Hi.
      pose proof (published_run _ _ _ _ _ _ h p f Hbind Henter Hclaim Hlink eq_refl eq_refl Hf w2 Hi)
        as Hsteps. rewrite <- Hrun in Hsteps.
      rewrite bind_assoc, (bind_Ok _ _ _ _ _ Hsteps). cbn [negb Z.eqb XY_OK].
      rewrite Hwl. unfold left_load, mod_load_restore_context. done.
Qed.
End link.
