(* ===== verification/UnloadSpecs.v ===== *)
(** * Unloading, step by step

    What [_mod_unload] does to a runtime that is in order: the count of a
    module that others loaded too, and the way out of a module that is not
    needed any more. *)
From S2P Require Import Prelude Words Corm State Env Regions RegionTree RegionWalks Runtime Paths PathSpecs RegionApi RegionInv RegionSpecs Hooks HookSpecs Subtree ModKey ModList ModListSpecs Loader Unload LoadSpecs LoadLink.

Section unloading.
Context {C : Corm} {CL : CormLaws C} {OS : Os} {CB : Callbacks}.
Implicit Types (w : world) (p q : mptr) (m : mod_entry).

(** ** A loaded module *)

(** The module [p] is what [fname] names in the current region. *)
Record loaded_as w (fname : string) (id plen : Z) (t : corm string mptr) p m : Prop := {
  ls_inited : rt_inited (w_rt w) = true;
  ls_mem : w_mem w = [];
  ls_id : t_current_region_id (w_tls w) = id;
  ls_plen : region_current_plen w = Ok plen w;
  ls_table : rt_mod_hd (w_rt w) = Some t;
  ls_get : corm_get t (module_key (resolve fname) id plen) = Some p;
  ls_mod : w_mods w !! p = Some m
}.

Lemma lookup_loaded w fname id plen t p m :
  loaded_as w fname id plen t p m →
  module_lookup_from_fname fname id plen w =
    Ok (LookupResult (Some (resolve fname)) (Some (module_key (resolve fname) id plen)) (Some p) XY_OK) w.
Proof.
  intros [_ Hm _ _ Ht Hg _].
  by rewrite (lookup_run w fname id plen _ t Hm (module_load_path_run fname w Hm) Ht), Hg.
Qed.

(** [xy_unload] of it, from the count on. *)
Lemma xy_unload_found w fname id plen t p m n :
  loaded_as w fname id plen t p m →
  let w1 := w <| w_mods ::= <[p := m <| me_refcount ::= Z.pred |>]> |> in
  xy_unload (S n) fname w =
    (ret ← (if 0 <? Z.pred (me_refcount m) then mret XY_OK
            else t ← table rt_mod_hd;
                 children ← children_of p (corm_list t) 0 0;
                 for_each children (unload_child (_mod_unload n));;
                 unload_finish p);
     set_err_ret ret) w1.
Proof.
  intros Hl w1. pose proof (lookup_loaded _ _ _ _ _ _ _ Hl) as Hlk.
  destruct Hl as [Hi Hm Hid Hpl Ht Hg Hp]. unfold xy_unload. rewrite with_runtime_run by done.
  rewrite (bind_Ok _ _ _ id w) by (unfold tls_get, gets; by rewrite Hid).
  rewrite (bind_Ok _ _ _ _ _ Hpl). cbn [_mod_unload]. rewrite bind_assoc, (bind_Ok _ _ _ _ _ Hlk).
  cbn [lk_err lk_entry negb Z.eqb XY_OK]. rewrite bind_assoc, (bind_Ok _ _ _ _ _ (mmod_Ok _ _ _ _ Hp)).
  assert (Hp1 : w_mods w1 !! p = Some (m <| me_refcount ::= Z.pred |>)) by (simpl; by rewrite lookup_insert_eq).
  rewrite bind_assoc, (bind_Ok _ _ _ _ _ (mget_Ok _ _ _ Hp1)). done.
Qed.

(** ** Children *)

Lemma children_none w p (l : list (string * mptr)) n cap :
  (∀ kv, kv ∈ l → ∃ m, w_mods w !! kv.2 = Some m ∧ (kv.2 = p ∨ me_parent_entry m ≠ Some p)) →
  children_of p l n cap w = Ok [] w.
Proof.
  induction l as [|kv l IH]; intros Hl; [done|]. cbn [children_of].
  destruct (Hl kv) as (m & Hm & Hor); [by left|]. rewrite (bind_Ok _ _ _ _ _ (mget_Ok _ _ _ Hm)).
  pose proof (IH ltac:(intros; apply Hl; by right)) as IH'.
  destruct Hor as [Heq|Hne].
  - by rewrite (bool_decide_eq_true_2 (kv.2 = p)).
  - by rewrite (bool_decide_eq_false_2 (me_parent_entry m = Some p)), andb_false_r.
Qed.

(** ** Cached listeners *)

(** Another module's entry once the object at [base] is forgotten. *)
Definition forget_if (base : Z) p (live : list mptr) q (mq : mod_entry) : mod_entry :=
  if decide (q ≠ p ∧ q ∈ live) then mq <| me_fn_cache ::= fmap (forget_base base) |> else mq.
Definition forgets m p (live : list mptr) q (mq : mod_entry) : mod_entry :=
  match me_handle m ≫= module_handle_base with
  | Some base => if base =? 0 then mq else forget_if base p live q mq
  | None => mq
  end.

Lemma forget_if_cons base p x live q mq :
  q ≠ x → forget_if base p (x :: live) q mq = forget_if base p live q mq.
Proof.
  intros Hne. unfold forget_if.
  destruct (decide (q ≠ p ∧ q ∈ live)); [by rewrite decide_True by set_solver|by rewrite decide_False by set_solver].
Qed.

Lemma forget_if_self base p live mp : forget_if base p live p mp = mp.
Proof. unfold forget_if. by rewrite decide_False by tauto. Qed.

Lemma forget_base_idemp base s : forget_base base (forget_base base s) = forget_base base s.
Proof. destruct s; simpl; try done. case_bool_decide as E; simpl; [done|]. by rewrite bool_decide_eq_false_2. Qed.

Lemma forget_if_step base p x live mq :
  x ≠ p → forget_if base p live x (mq <| me_fn_cache ::= fmap (forget_base base) |>) =
    forget_if base p (x :: live) x mq.
Proof.
  intros Hne. unfold forget_if. rewrite (decide_True (P := x ≠ p ∧ x ∈ x :: live)) by set_solver.
  destruct (decide _); [|done]. unfold field_over; simpl. f_equal.
  rewrite <- list_fmap_compose. apply list_fmap_ext. intros ? s _. apply forget_base_idemp.
Qed.

Lemma forgets_same m p live q mq : same_module mq (forgets m p live q mq).
Proof.
  unfold forgets, forget_if. destruct (me_handle m ≫= module_handle_base) as [b|]; [|apply same_module_refl].
  destruct (b =? 0); [apply same_module_refl|]. destruct (decide _); [|apply same_module_refl].
  by exists (forget_base b <$> me_fn_cache mq), (me_hook_impl_bits mq); destruct mq.
Qed.

Lemma forgets_self m p live mp : forgets m p live p mp = mp.
Proof.
  unfold forgets. destruct (me_handle m ≫= module_handle_base) as [b|]; [|done].
  by rewrite forget_if_self; destruct (b =? 0).
Qed.

Lemma clear_loop_run base p (l : list (string * mptr)) : ∀ w,
  (∀ kv, kv ∈ l → kv.2 ∈ dom (w_mods w)) →
  ∃ ms, for_each l (λ kv,
      if decide (kv.2 = p) then mret tt
      else mmod kv.2 (λ x, x <| me_fn_cache ::= fmap (forget_base base) |>)) w =
      Ok tt (w <| w_mods := ms |>) ∧
    ∀ q, ms !! q = forget_if base p l.*2 q <$> w_mods w !! q.
Proof.
  induction l as [|[k r] l IH]; intros w Hl.
  { exists (w_mods w). split; [by destruct w|]. intros q. destruct (w_mods w !! q); [|done].
    simpl. unfold forget_if. by rewrite decide_False by set_solver. }
  cbn [for_each snd fmap list_fmap]. destruct (decide (r = p)) as [->|Hr].
  - rewrite (bind_Ok (mret tt) _ _ tt w) by done.
    destruct (IH w) as (ms & Hrun & Hms); [intros; apply Hl; by right|].
    exists ms. split; [done|]. intros q. rewrite Hms. destruct (w_mods w !! q); [|done]. simpl. f_equal.
    destruct (decide (q = p)) as [->|]; [by rewrite !forget_if_self|by rewrite forget_if_cons].
  - destruct (elem_of_dom (w_mods w) r) as [[m Hm] _]; [apply (Hl (k, r)); by left|].
    rewrite (bind_Ok _ _ _ _ _ (mmod_Ok _ _ _ _ Hm)).
    set (w1 := w <| w_mods ::= <[r := m <| me_fn_cache ::= fmap (forget_base base) |>]> |>).
    destruct (IH w1) as (ms & Hrun & Hms).
    { intros kv Hkv. simpl. rewrite dom_insert_L. apply elem_of_union_r, Hl. by right. }
    exists ms. split; [exact Hrun|]. intros q. rewrite Hms. simpl. destruct (decide (q = r)) as [->|Hqr].
    + rewrite lookup_insert_eq, Hm. simpl. f_equal. by apply forget_if_step.
    + rewrite lookup_insert_ne by done. destruct (w_mods w !! q); [|done]. simpl. f_equal.
      by rewrite forget_if_cons.
Qed.

Lemma clear_run w p m t :
  rt_mod_hd (w_rt w) = Some t → w_mods w !! p = Some m →
  (∀ k q, corm_get t k = Some q → q ∈ dom (w_mods w)) →
  ∃ ms, module_clear_fn_cache_for_handle p w = Ok tt (w <| w_mods := ms |>) ∧
    ∀ q, ms !! q = forgets m p (corm_list t).*2 q <$> w_mods w !! q.
Proof.
  intros Ht Hp Hlive. unfold module_clear_fn_cache_for_handle, forgets.
  rewrite (bind_Ok _ _ _ _ _ (mget_Ok _ _ _ Hp)).
  assert (Hsame : ∃ ms, Ok tt w = Ok tt (w <| w_mods := ms |>) ∧ ∀ q, ms !! q = (λ mq, mq) <$> w_mods w !! q).
  { exists (w_mods w). split; [by destruct w|]. intros q. by destruct (w_mods w !! q). }
  destruct (me_handle m ≫= module_handle_base) as [b|]; [|exact Hsame].
  destruct (b =? 0); [exact Hsame|]. rewrite (bind_Ok _ _ _ _ _ (table_Ok _ _ _ Ht)).
  apply clear_loop_run. intros [k q] Hk%corm_list_spec. by eapply Hlive.
Qed.

(** ** Freeing an entry *)

(** The module's own cleanup touches nothing of the library's. *)
Definition cleanup_quiet m : Prop :=
  ∀ h f st, me_handle m = Some h → me_region_state m = Some st →
    module_lookup_symbol_fn h "xy_region_cleanup" = Some f → ∀ w, cb_cleanup f st w = Ok tt w.

Definition cleanup_events m : list event :=
  match me_region_state m, me_handle m ≫= λ h, module_lookup_symbol_fn h "xy_region_cleanup", me_handle m with
  | Some st, Some _, Some h => [EvCleanup h st]
  | _, _, _ => []
  end.
(** What the system sees of a module that goes. *)
Definition farewell m : list event :=
  cleanup_events m ++ match me_handle m with Some h => [EvDlclose h] | None => [] end
    ++ match me_tmp_load_path m with Some t => [EvUnlink t] | None => [] end.
Definition state_freed m (sts : gmap positive Z) : gmap positive Z :=
  match me_region_state m with Some st => delete st sts | None => sts end.

Lemma cleanup_run w p m :
  w_mods w !! p = Some m → cleanup_quiet m →
  module_cleanup_region_state p w = Ok tt
    (w <| w_trace ::= (λ l, l ++ cleanup_events m) |> <| w_states ::= state_freed m |>
       <| w_mods ::= <[p := m <| me_region_state := None |>]> |>).
Proof.
  intros Hp Hq. unfold module_cleanup_region_state, cleanup_events, state_freed.
  rewrite (bind_Ok _ _ _ _ _ (mget_Ok _ _ _ Hp)).
  destruct (me_region_state m) as [st|] eqn:Hst.
  2: { unfold field_over; simpl. rewrite app_nil_r, insert_id; [by destruct w|].
       rewrite Hp, <- Hst. by destruct m. }
  destruct (me_handle m) as [h|] eqn:Hh; simpl.
  2: { run. erewrite (bind_Ok (modify _) _ _ tt) by done. erewrite mmod_Ok by exact Hp.
       unfold field_over; simpl. by rewrite app_nil_r. }
  destruct (module_lookup_symbol_fn h "xy_region_cleanup") as [f|] eqn:Hf.
  - rewrite bind_assoc. erewrite (bind_Ok (emit _)) by done.
    erewrite bind_Ok by (by eapply Hq). erewrite (bind_Ok (modify _)) by done.
    by erewrite mmod_Ok by exact Hp.
  - erewrite (bind_Ok (mret _)) by done. erewrite (bind_Ok (modify _)) by done.
    erewrite mmod_Ok by exact Hp. unfold field_over; simpl. by rewrite app_nil_r.
Qed.

Lemma free_entry_run w p m :
  w_mods w !! p = Some m → cleanup_quiet m →
  module_free_entry p true w = Ok tt
    (w <| w_trace ::= (λ l, l ++ farewell m) |> <| w_states ::= state_freed m |>
       <| w_mods ::= delete p |>).
Proof.
  intros Hp Hq. unfold module_free_entry, farewell.
  rewrite (bind_Ok _ _ _ _ _ (mget_Ok _ _ _ Hp)), (bind_Ok _ _ _ _ _ (cleanup_run _ _ _ Hp Hq)).
  erewrite bind_Ok.
  2: { unfold free_mod. erewrite bind_Ok by (apply mget_Ok; simpl; by rewrite lookup_insert_eq). done. }
  destruct (me_handle m) as [h|], (me_tmp_load_path m) as [tp|]; cbn [opt_do];
    unfold dlclose, unlink, emit; repeat (erewrite bind_Ok by done); unfold modify, mret, M_ret;
    (f_equal; apply world_ext; try done; simpl; by rewrite ?delete_insert_eq, ?app_nil_r, <- ?app_assoc).
Qed.

(** ** The denies of a path *)

(** A region that has forgotten every deny of [path]. *)
Definition without_path (path : pptr) (e : region_entry) : region_entry :=
  let found := bool_decide (path ∈ re_denied_modules e) in
  e <| re_denied_modules ::= filter (λ v, v ≠ path) |>
    <| re_denied_modules_set ::= (λ o, if found then (λ t, corm_del t path) <$> o else o) |>.

Lemma remove_denies_run w re path e :
  w_regions w !! re = Some e →
  module_remove_denies re path w = Ok tt (w <| w_regions ::= <[re := without_path path e]> |>).
Proof. intros He. unfold module_remove_denies. by rewrite (rmod_Ok _ _ _ _ He). Qed.

Lemma without_path_wf (h : gmap rptr region_entry) re path e tbl kids ms own :
  h !! re = Some e → tree_wf h tbl kids → mods_wf h ms own →
  tree_wf (<[re := without_path path e]> h) tbl kids ∧ mods_wf (<[re := without_path path e]> h) ms own.
Proof.
  intros He Hwf Hms. split.
  - eapply tree_wf_shape; [|exact Hwf]. rewrite fmap_insert. symmetry. apply insert_id.
    by rewrite lookup_fmap, He.
  - eapply mods_wf_frame; [|exact Hms]. intros q e' Hq. destruct (decide (q = re)) as [->|].
    + rewrite lookup_insert_eq in Hq. injection Hq as <-. by exists e.
    + rewrite lookup_insert_ne in Hq by done. by exists e'.
Qed.

(** ** Out of the tables *)

Lemma unpublish_run w p m t mt :
  w_mods w !! p = Some m → rt_mod_hd (w_rt w) = Some t → rt_mod_by_region_hd (w_rt w) = Some mt →
  unpublish p w = Ok tt (w <| w_rt ::= (λ r, r <| rt_mod_by_region_hd :=
      Some (mcorm_del mt (mk_region_key (me_region_id m) (me_region_plen m))) |>
    <| rt_mod_hd := Some (corm_del t (me_mod_key m)) |>) |>).
Proof.
  intros Hp Ht Hmt. unfold unpublish. rewrite (bind_Ok _ _ _ _ _ (mget_Ok _ _ _ Hp)).
  rewrite (bind_Ok _ _ _ _ _ (table_Ok _ _ _ Hmt)), (bind_Ok (rt_mod _) _ _ tt _ eq_refl).
  by erewrite bind_Ok by (apply table_Ok; exact Ht).
Qed.

(** ** The whole way out *)

(** What [unload_finish] needs of the runtime. *)
Record unloadable w p m (re : rptr) (e : region_entry) (pp : pptr) (t : corm string mptr) (mt : mcorm (Z * Z) mptr)
    tbl kids own l1 l2 : Prop := {
  un_mod : w_mods w !! p = Some m;
  un_entry : me_region_entry m = Some re;
  un_path : me_load_path m = Some pp;
  un_region : w_regions w !! re = Some e;
  un_own : own re = l1 ++ p :: l2;
  un_table : rt_mod_hd (w_rt w) = Some t;
  un_regions : rt_mod_by_region_hd (w_rt w) = Some mt;
  un_live k q : corm_get t k = Some q → q ∈ dom (w_mods w);
  un_tree : tree_wf (w_regions w) tbl kids;
  un_lists : mods_wf (w_regions w) (w_mods w) own;
  un_quiet : cleanup_quiet m
}.

(** What is left once [p] is gone. *)
Record unloaded w w' p m (re : rptr) (pp : pptr) (t : corm string mptr) tbl kids own (l : list mptr) : Prop := {
  ud_gone : w_mods w' !! p = None;
  ud_dom : dom (w_mods w') = dom (w_mods w) ∖ {[p]};
  ud_others q mq : q ≠ p → w_mods w !! q = Some mq →
    ∃ mq', w_mods w' !! q = Some mq' ∧
      me_unlinked mq' = me_unlinked (forgets m p (corm_list t).*2 q mq);
  ud_table : ∃ t', rt_mod_hd (w_rt w') = Some t' ∧
    ∀ k, corm_get t' k = if decide (me_mod_key m = k) then None else corm_get t k;
  ud_tree : tree_wf (w_regions w') tbl kids;
  ud_lists : mods_wf (w_regions w') (w_mods w') (λ q, if decide (q = re) then l else own q);
  ud_stale q e : sub (w_regions w) q re → w_regions w !! q = Some e →
    ∃ e', w_regions w' !! q = Some e' ∧ re_subtree_mods_dirty e' = true ∧
      re_dispatch_gen e' = gen_succ (re_dispatch_gen e);
  ud_elsewhere q : ¬ sub (w_regions w) q re → w_regions w' !! q = w_regions w !! q;
  ud_denies e : w_regions w !! re = Some e →
    ∃ e', w_regions w' !! re = Some e' ∧
      re_denied_modules e' = re_denied_modules (without_path pp e) ∧
      re_denied_modules_set e' = re_denied_modules_set (without_path pp e) ∧ re_gate e' = re_gate e;
  ud_count : rt_mod_count (w_rt w') = Z.pred (rt_mod_count (w_rt w));
  ud_trace : w_trace w' = w_trace w ++ farewell m;
  ud_states : w_states w' = state_freed m (w_states w);
  ud_rest : w_tls w' = w_tls w ∧ w_ctxs w' = w_ctxs w ∧ rt_region_hd (w_rt w') = rt_region_hd (w_rt w);
  ud_runtime : rt_inited (w_rt w') = rt_inited (w_rt w) ∧ w_mem w' = w_mem w ∧ w_next w' = w_next w ∧
    is_Some (rt_mod_by_region_hd (w_rt w')) ∧ rt_hook_id_hd (w_rt w') = rt_hook_id_hd (w_rt w) ∧
    rt_hook_id_counter (w_rt w') = rt_hook_id_counter (w_rt w);
  ud_shape : re_shape <$> w_regions w' = re_shape <$> w_regions w
}.

Lemma sub_insert (h : gmap rptr region_entry) re e e' (p q : rptr) :
  h !! re = Some e → re_shape e' = re_shape e → sub (<[re := e']> h) p q ↔ sub h p q.
Proof.
  intros He Hs. apply sub_shape. rewrite fmap_insert, Hs. apply insert_id. by rewrite lookup_fmap, He.
Qed.

(** The relisting that a removal of the region's denies came before. *)
Lemma relisted_after w w1 w3 tbl kids own (re : rptr) l (pp : pptr) (e : region_entry) :
  w_regions w !! re = Some e →
  w_regions w1 = <[re := without_path pp e]> (w_regions w) →
  relisted w1 w3 tbl kids own re l →
  (∀ q eq, sub (w_regions w) q re → w_regions w !! q = Some eq →
    ∃ e', w_regions w3 !! q = Some e' ∧ re_subtree_mods_dirty e' = true ∧
      re_dispatch_gen e' = gen_succ (re_dispatch_gen eq)) ∧
  (∀ q, ¬ sub (w_regions w) q re → w_regions w3 !! q = w_regions w !! q).
Proof.
  intros He Hw1 Hrel.
  assert (Hsub : ∀ q, sub (w_regions w1) q re ↔ sub (w_regions w) q re)
    by (intros q; rewrite Hw1; by apply sub_insert with e).
  split.
  - intros q eq Hq Heq. destruct (decide (q = re)) as [->|Hne].
    + destruct (rl_stale _ _ _ _ _ _ _ Hrel re (without_path pp e)) as (e' & ? & ? & Hg);
        [by apply Hsub|by rewrite Hw1, lookup_insert_eq|].
      exists e'. split_and!; [done|done|]. rewrite Hg. simpl. congruence.
    + apply (rl_stale _ _ _ _ _ _ _ Hrel); [by apply Hsub|]. by rewrite Hw1, lookup_insert_ne.
  - intros q Hq. rewrite (rl_other _ _ _ _ _ _ _ Hrel) by (by rewrite Hsub).
    rewrite Hw1. apply lookup_insert_ne. intros <-. apply Hq, rtc_refl.
Qed.

(** A module taken off its region's list is on no list. *)
Lemma detached_nowhere h ms own re e l1 p l2 q :
  mods_wf h ms own → h !! re = Some e → own re = l1 ++ p :: l2 → q ∈ dom h →
  p ∉ (if decide (q = re) then l1 ++ l2 else own q).
Proof.
  intros Hms He Hown Hq Hin. pose proof (mods_wf_NoDup _ _ _ _ _ Hms He) as Hnd. rewrite Hown in Hnd.
  case_decide as E; [apply NoDup_app in Hnd as (_ & Hd & [Hn2 _]%NoDup_cons); set_solver|].
  assert (p ∈ own re) by (rewrite Hown; set_solver).
  apply E. eapply (mods_wf_disjoint _ _ _ _ _ _ Hms); [done|by eapply elem_of_dom_2|done|done].
Qed.

Lemma unload_finish_run w p m re e pp t mt tbl kids own l1 l2 :
  unloadable w p m re e pp t mt tbl kids own l1 l2 →
  ∃ w', unload_finish p w = Ok XY_OK w' ∧ unloaded w w' p m re pp t tbl kids own (l1 ++ l2).
Proof.
  intros [Hp Hre Hpp He Hown Ht Hmt Hlive Hwf Hms Hq]. unfold unload_finish.
  destruct (clear_run w p m t Ht Hp Hlive) as (ms & Hclear & Hcl). rewrite (bind_Ok _ _ _ _ _ Hclear).
  set (w1 := w <| w_mods := ms |>).
  assert (Hp1 : w_mods w1 !! p = Some m) by (simpl; by rewrite Hcl, Hp; simpl; rewrite forgets_self).
  rewrite (bind_Ok _ _ _ _ _ (mget_Ok _ _ _ Hp1)), Hre, Hpp. unfold module_remove_path_owned_entries.
  rewrite (bind_Ok _ _ _ _ _ (remove_denies_run w1 re pp e He)).
  set (w2 := w1 <| w_regions ::= <[re := without_path pp e]> |>).
  assert (Hms1 : mods_wf (w_regions w) ms own).
  { apply (mods_wf_links _ _ _ _ Hms). intros q mq Hmq. rewrite Hcl, Hmq. eexists. split; [done|].
    by destruct (forgets_same m p (corm_list t).*2 q mq) as (c & b & ->). }
  destruct (without_path_wf _ re pp e tbl kids ms own He Hwf Hms1) as [Hwf2 Hms2].
  destruct (detach_spec w2 tbl kids own re p l1 l2) as (w3 & H3 & Hrel);
    [done|done|simpl; rewrite dom_insert_L; set_solver|done|].
  rewrite (bind_Ok _ _ _ _ _ H3). destruct (rl_rest _ _ _ _ _ _ _ Hrel) as (h3 & ms3 & Hw3).
  destruct (relisted_after w w2 w3 _ _ _ _ _ pp e He eq_refl Hrel) as [Hstale Hother].
  destruct (rl_same _ _ _ _ _ _ _ Hrel p m Hp1) as (m3 & Hp3 & Hm3).
  injection Hm3 as Hctx3 Hfc3 Hst3 Hlp3 Hh3 Hid3 Hpl3 Hrc3 Hpe3 Hib3 Hk3 Htmp3.
  assert (Ht3 : rt_mod_hd (w_rt w3) = Some t) by (by rewrite Hw3).
  assert (Hmt3 : rt_mod_by_region_hd (w_rt w3) = Some mt) by (by rewrite Hw3).
  rewrite (bind_Ok _ _ _ _ _ (unpublish_run w3 p m3 t mt Hp3 Ht3 Hmt3)).
  rewrite (bind_Ok (rt_mod _) _ _ tt _ eq_refl).
  assert (Hq3 : cleanup_quiet m3) by (unfold cleanup_quiet; rewrite Hh3, Hst3; exact Hq).
  erewrite bind_Ok by (apply free_entry_run; [exact Hp3|exact Hq3]).
  assert (Hfw : farewell m3 = farewell m ∧ state_freed m3 = state_freed m).
  { unfold farewell, cleanup_events, state_freed. by rewrite Hh3, Hst3, Htmp3. }
  destruct Hfw as [Hfw Hsf]. eexists. split; [done|].
  split; try exact Hstale; try exact Hother; simpl.
  - apply lookup_delete_eq.
  - rewrite dom_delete_L, (rl_dom _ _ _ _ _ _ _ Hrel). f_equal. apply set_eq. intros q. simpl.
    rewrite !elem_of_dom, Hcl. by rewrite fmap_is_Some.
  - intros q mq Hqp Hmq. rewrite lookup_delete_ne by done.
    apply (rl_same _ _ _ _ _ _ _ Hrel). simpl. by rewrite Hcl, Hmq.
  - eexists. split; [done|]. intros k. rewrite Hk3. case_decide as E; [rewrite E; apply corm_get_del|].
    by apply corm_get_del_ne.
  - apply Hrel.
  - apply (mods_wf_irrelevant _ (w_mods w3) _ _ p); [apply Hrel| |intros; by apply lookup_delete_ne].
    intros q Hqd. eapply (detached_nowhere (w_regions w)); [exact Hms|exact He|exact Hown|].
    rewrite (shape_dom _ _ (rl_shape _ _ _ _ _ _ _ Hrel)) in Hqd. simpl in Hqd. by rewrite dom_insert_lookup_L in Hqd.
  - intros e0 He0. assert (e0 = e) as -> by congruence.
    apply (rl_denies _ _ _ _ _ _ _ Hrel re (without_path pp e)). simpl. by rewrite lookup_insert_eq.
  - by rewrite Hw3.
  - by rewrite Hfw, Hw3.
  - by rewrite Hsf, Hw3.
  - by rewrite Hw3.
  - rewrite Hw3. by split_and!.
  - rewrite (rl_shape _ _ _ _ _ _ _ Hrel). simpl. rewrite fmap_insert. apply insert_id. by rewrite lookup_fmap, He.
Qed.

(** The count of [p] is not what any of this is about. *)
Definition counted_down m : mod_entry := m <| me_refcount ::= Z.pred |>.

Lemma unloadable_counted w p m re e pp t mt tbl kids own l1 l2 :
  unloadable w p m re e pp t mt tbl kids own l1 l2 →
  unloadable (w <| w_mods ::= <[p := counted_down m]> |>) p (counted_down m) re e pp t mt tbl kids own l1 l2.
Proof.
  intros [Hp Hre Hpp He Hown Ht Hmt Hlive Hwf Hms Hq]. split; simpl; try done.
  - by rewrite lookup_insert_eq.
  - intros k q Hk%Hlive. rewrite dom_insert_L. set_solver.
  - apply (mods_wf_links _ _ _ _ Hms). intros q mq Hmq. destruct (decide (q = p)) as [->|].
    + rewrite lookup_insert_eq. assert (mq = m) as -> by congruence. by eexists.
    + rewrite lookup_insert_ne by done. by exists mq.
Qed.

Lemma unloaded_counted w w' p m re pp t tbl kids own l :
  unloaded (w <| w_mods ::= <[p := counted_down m]> |>) w' p (counted_down m) re pp t tbl kids own l →
  unloaded w (w' <| w_err := XY_OK |>) p m re pp t tbl kids own l.
Proof.
  intros [Hgone Hdom Hothers Htab Htree Hlists Hstale Helse Hden Hcnt Htr Hst Hrest Hrun Hsh].
  split; simpl; try done.
  - rewrite Hdom. simpl. rewrite dom_insert_L. set_solver.
  - intros q mq Hq Hmq. apply Hothers; [done|]. simpl. by rewrite lookup_insert_ne.
Qed.

(** No loaded module was loaded by [p]. *)
Definition childless w p (t : corm string mptr) : Prop :=
  ∀ k q, corm_get t k = Some q → q ≠ p → ∃ mq, w_mods w !! q = Some mq ∧ me_parent_entry mq ≠ Some p.

Lemma xy_unload_last w fname id plen t p m re e pp mt tbl kids own l1 l2 n :
  loaded_as w fname id plen t p m → me_refcount m = 1 → childless w p t →
  unloadable w p m re e pp t mt tbl kids own l1 l2 →
  ∃ w', xy_unload (S n) fname w = Ok XY_OK w' ∧ unloaded w w' p m re pp t tbl kids own (l1 ++ l2).
Proof.
  intros Hl Hrc Hch Hun. rewrite (xy_unload_found _ _ _ _ _ _ _ n Hl). cbv zeta. rewrite Hrc.
  fold (counted_down m). set (w1 := w <| w_mods ::= <[p := counted_down m]> |>).
  change (0 <? Z.pred 1) with false. cbv iota.
  apply unloadable_counted in Hun. fold w1 in Hun.
  assert (Ht : rt_mod_hd (w_rt w1) = Some t) by apply Hl.
  rewrite bind_assoc, (bind_Ok _ _ _ _ _ (table_Ok _ _ _ Ht)).
  rewrite bind_assoc, (bind_Ok _ _ _ [] w1).
  - rewrite bind_assoc, (bind_Ok (for_each [] _) _ _ tt w1) by done.
    destruct (unload_finish_run _ _ _ _ _ _ _ _ _ _ _ _ _ Hun) as (w' & Hfin & Hud).
    rewrite (bind_Ok _ _ _ _ _ Hfin). eexists. split; [done|]. by apply unloaded_counted.
  - apply children_none. intros [k q] Hk%corm_list_spec. simpl in *. destruct (decide (q = p)) as [->|Hq].
    + rewrite lookup_insert_eq. eexists. split; [done|by left].
    + destruct (Hch k q Hk Hq) as (mq & Hmq & Hpar). exists mq. rewrite lookup_insert_ne by done. auto.
Qed.

(** A module that was loaded more often than unloaded stays. *)
Lemma xy_unload_shared w fname id plen t p m n :
  loaded_as w fname id plen t p m → 1 < me_refcount m →
  xy_unload (S n) fname w = Ok XY_OK (w <| w_mods ::= <[p := counted_down m]> |> <| w_err := XY_OK |>).
Proof.
  intros Hl Hrc. rewrite (xy_unload_found _ _ _ _ _ _ _ n Hl). cbv zeta.
  by rewrite (proj2 (Z.ltb_lt 0 (Z.pred (me_refcount m)))) by lia.
Qed.

(** Loading it once more only counts. *)
Definition counted_up m : mod_entry := m <| me_refcount ::= Z.succ |>.

Lemma try_reuse_run tx w p h copy m :
  lk_entry (tx_lookup tx) = Some p → tx_handle tx = Some h → tx_tmp_load_path tx = copy → w_mods w !! p = Some m →
  ∃ tx', mod_load_try_reuse_existing tx w = Ok (true, tx')
    (w <| w_mods ::= <[p := counted_up m]> |>
       <| w_trace ::= (λ l, l ++ EvDlclose h :: match copy with Some c => [EvUnlink c] | None => [] end) |>).
Proof.
  intros He Hh Hc Hm. unfold mod_load_try_reuse_existing.
  exists (tx <| tx_handle := None |> <| tx_tmp_load_path := None |>). rewrite He, Hh, Hc.
  rewrite (bind_Ok _ _ _ _ _ (mmod_Ok _ _ _ _ Hm)). rewrite (bind_Ok (opt_do (Some h) _) _ _ tt _ eq_refl).
  destruct copy as [c|]; [|done]. rewrite (bind_Ok (opt_do (Some c) _) _ _ tt _ eq_refl).
  match goal with |- mret _ ?w1 = Ok _ ?w2 => enough (w1 = w2) as -> by reflexivity end.
  apply world_ext; try done. simpl. by rewrite <- app_assoc.
Qed.

Lemma xy_load_reuses w fname id plen t p m h wd md :
  let copy := load_copy w (resolve fname) in
  loaded_as w fname id plen t p m →
  cb_dlopen (default (resolve fname) copy)
    (w <| w_trace ::= (λ l, l ++ [EvDlopen (default (resolve fname) copy)]) |>) = Ok (Some h) wd →
  w_mods wd !! p = Some md →
  xy_load fname w = Ok XY_OK
    (wd <| w_mods ::= <[p := counted_up md]> |>
        <| w_trace ::= (λ l, l ++ EvDlclose h :: match copy with Some c => [EvUnlink c] | None => [] end) |>
        <| w_err := XY_OK |>).
Proof.
  intros copy Hl Hdl Hmd. pose proof (lookup_loaded _ _ _ _ _ _ _ Hl) as Hlk.
  destruct Hl as [Hi Hm Hid Hpl Ht Hg Hp]. unfold xy_load. rewrite with_runtime_run by done.
  unfold _mod_load. rewrite bind_assoc, (bind_Ok _ _ _ id w) by (unfold tls_get, gets; by rewrite Hid).
  rewrite bind_assoc, (bind_Ok _ _ _ _ _ Hpl). rewrite bind_assoc.
  assert (Hopen : ∃ tx, mod_load_open_handle (txn_start id plen) fname w = Ok (XY_OK, tx) wd ∧
    lk_entry (tx_lookup tx) = Some p ∧ tx_handle tx = Some h ∧ tx_tmp_load_path tx = copy).
  { unfold mod_load_open_handle. eexists. split; [|shelve].
    rewrite (bind_Ok _ _ _ _ _ Hlk). cbn [lk_err lk_load_path negb Z.eqb XY_OK].
    rewrite (bind_Ok _ _ _ (w_reloading w) w) by done.
    rewrite (bind_Ok _ _ _ _ _ (load_copy_run w _ Hm)). fold copy. cbv zeta.
    destruct (dlopen_run w _ copy _ wd Hdl) as [Ho Hj]. rewrite Hj.
    by rewrite (bind_Ok _ _ _ _ _ Ho). Unshelve. done. }
  destruct Hopen as (tx & Hopen & Hent & Hh & Htmp).
  rewrite (bind_Ok _ _ _ _ _ Hopen). cbn [negb Z.eqb XY_OK].
  destruct (try_reuse_run tx wd p h copy md Hent Hh Htmp Hmd) as [tx' Hreuse].
  by rewrite bind_assoc, (bind_Ok _ _ _ _ _ Hreuse).
Qed.

(** ** Unloading what was just loaded *)

(** A module is only said to be loaded by one made before it. *)
Definition parents_older w : Prop :=
  ∀ q mq r, w_mods w !! q = Some mq → me_parent_entry mq = Some r → (r < w_next w)%positive.
Definition table_live w (t : corm string mptr) : Prop :=
  ∀ k q, corm_get t k = Some q → q ∈ dom (w_mods w).
Definition quiet_handle (h : handle) : Prop :=
  ∀ g st, module_lookup_symbol_fn h "xy_region_cleanup" = Some g → ∀ w, cb_cleanup g st w = Ok tt w.

Lemma installed_unloadable wd w1 fname id plen path tmp h t c x reg e tbl kids own p :
  installing wd w1 fname id plen path tmp h t c x reg tbl kids own p →
  w_regions wd !! reg = Some e → table_live wd t → parents_older wd → quiet_handle h →
  ∃ m t' mt e' pp, w_mods w1 !! p = Some m ∧ me_refcount m = 1 ∧ me_handle m = Some h ∧
    me_tmp_load_path m = tmp ∧ me_mod_key m = module_key path id plen ∧
    (∀ k, corm_get t' k = if decide (module_key path id plen = k) then Some p else corm_get t k) ∧
    unloadable w1 p m reg e' pp t' mt tbl kids
      (λ q, if decide (q = reg) then own reg ++ [p] else own q) (own reg) [] ∧
    childless w1 p t'.
Proof.
  intros Hin He Hlive Hold Hq.
  destruct (in_mod _ _ _ _ _ _ _ _ _ _ _ _ _ _ _ _ Hin)
    as (m & Hm & Hh & _ & Hrc & _ & Hk & Hid & Hpl & Hre & [pp Hpp] & Htmp & _).
  destruct (in_table _ _ _ _ _ _ _ _ _ _ _ _ _ _ _ _ Hin) as (t' & Ht' & Hget).
  destruct (in_stale _ _ _ _ _ _ _ _ _ _ _ _ _ _ _ _ Hin reg e (rtc_refl _ _) He) as (e' & He' & _).
  destruct (in_runtime _ _ _ _ _ _ _ _ _ _ _ _ _ _ _ _ Hin) as (_ & _ & [mt Hmt] & _).
  exists m, t', mt, e', pp. split_and!; [done..| |].
  - split; try done.
    + by rewrite decide_True by done.
    + intros k q Hkq. rewrite (in_dom _ _ _ _ _ _ _ _ _ _ _ _ _ _ _ _ Hin).
      rewrite Hget in Hkq. case_decide; [injection Hkq as <-; set_solver|apply Hlive in Hkq; set_solver].
    + apply (in_tree _ _ _ _ _ _ _ _ _ _ _ _ _ _ _ _ Hin).
    + apply (in_lists _ _ _ _ _ _ _ _ _ _ _ _ _ _ _ _ Hin).
    + intros h' g st Hh' Hst Hg. assert (h' = h) as -> by congruence. by apply Hq.
  - intros k q Hkq Hne. rewrite Hget in Hkq. case_decide; [congruence|].
    pose proof (Hlive _ _ Hkq) as [mq Hmq]%elem_of_dom.
    destruct (in_others _ _ _ _ _ _ _ _ _ _ _ _ _ _ _ _ Hin q mq Hne Hmq) as (mq' & Hmq' & Hun).
    exists mq'. split; [done|]. injection Hun as _ _ _ _ _ _ _ _ Hpar _ _ _. rewrite Hpar.
    intros Hbad. pose proof (Hold _ _ _ Hmq Hbad) as Hlt.
    pose proof (in_fresh _ _ _ _ _ _ _ _ _ _ _ _ _ _ _ _ Hin). lia.
Qed.
End unloading.
