(* ===== verification/LoadProps.v ===== *)
(** * What loading and unloading promise

    The properties of [xy_load], [xy_unload] and the module table, and each on
    a concrete runtime. *)
From Stdlib Require Import Ascii.
From S2P Require Import Prelude Words Corm State Env Regions RegionTree RegionWalks Runtime Paths PathSpecs RegionApi RegionInv RegionSpecs Boot RegionProps Hooks HookSpecs Subtree Dispatch Vector VectorBuild Call SlotRun Registry ModKey ModList ModListSpecs Loader Unload LoadSpecs LoadLink UnloadSpecs.

Section props.
Context {C : Corm} {CL : CormLaws C} {OS : Os} {CB : Callbacks}.
Implicit Types (w : world) (p q : mptr).

(** C8. A new load: when the name resolves, the object opens with the host's
    ABI and the region asks for no claim, [xy_load] makes one entry of count 1,
    tables it, binds its context, appends it to the list of the current region
    and to no other, marks the caches of that region and its ancestors stale,
    resolves every registered hook in it, and then runs its [xy_install] with
    that region and that module current; when this returns, so does the load,
    with [XY_OK] and the caller's region and loading module back. *)
Theorem xy_load_contract w fname id plen path tmp h wd t mt c x reg e tbl kids own f :
  load_opens w fname id plen path tmp h wd →
  loadable wd fname id plen path h t mt c x reg e tbl kids own f →
  ∃ p w1, installing wd w1 fname id plen path tmp h t c x reg tbl kids own p ∧
    ∀ w2, cb_install f w1 = Ok tt w2 → xy_load fname w = Ok XY_OK (left_load wd w2).
Proof. apply load_new. Qed.

(** C14. A module whose context has another layout is refused with
    [XY_ERR_ABI] before its [xy_install] runs: regions, modules, contexts, the
    module table and the current region are as before, and the object is
    closed again. *)
Theorem xy_load_refused w fname id plen path h wd t mt c :
  load_opens w fname id plen path None h wd → tables_open wd t mt →
  corm_get t (module_key path id plen) = None →
  ctx_offered wd h = Some c → abi_ok h = false →
  ∃ w', xy_load fname w = Ok XY_ERR_ABI w' ∧ refused wd w' h XY_ERR_ABI.
Proof.
  intros Hlo Hto Hk Hc Ha. rewrite (xy_load_opened _ _ _ _ _ _ _ _ Hlo).
  set (key := module_key path id plen) in *.
  destruct (alloc_publish_run wd t mt h id plen path key None fname Hto)
    as (pp & p & ps & o & Hp & Hnext & Hrun). cbv zeta in Hrun.
  match type of Hrun with _ = load_published ?tx ?w1 => set (tx1 := tx) in *; set (wp := w1) in * end.
  destruct (bind_abi_run wp tx1 h c) as [what Hbind]; [done|exact Hc|done|].
  match type of Hbind with _ = Ok _ ?w1 => set (wb := w1) in * end.
  assert (Hfail : load_steps (opened h id plen path key None) fname wd = Ok (XY_ERR_ABI, tx1) wb).
  { rewrite Hrun. unfold load_published. by rewrite (bind_Ok _ _ _ _ _ Hbind). }
  rewrite bind_assoc, (bind_Ok _ _ _ _ _ Hfail). cbn [negb Z.eqb XY_ERR_ABI XY_OK].
  set (ent := new_entry h id plen (t_loading_mod (w_tls wd)) key pp None) in *.
  pose proof (abort_unlinked_run wb tx1 p ent h (corm_put t key p)
    (mcorm_put mt (mk_region_key id plen) p) XY_ERR_ABI) as Habort.
  erewrite bind_Ok by (apply Habort; try done; simpl; by rewrite lookup_insert_eq).
  eexists. split; [done|]. split; try done.
  - simpl. rewrite delete_insert_id; [done|]. by apply not_elem_of_dom.
  - intros t' Ht'. eexists. split; [done|]. assert (t' = t) as -> by (destruct Hto; congruence).
    apply corm_del_put_id. exact Hk.
  - exists what. simpl. by rewrite <- app_assoc.
Qed.

(** Loading a loaded module again only counts, and closes the second
    handle; unloading it once after that gives back the very runtime before,
    but for what the system saw. *)
Theorem load_again_then_unload w fname id plen t p m h n :
  loaded_as w fname id plen t p m → w_reloading w = false → 0 < me_refcount m →
  (∀ w', cb_dlopen (resolve fname) w' = Ok (Some h) w') →
  ∃ w1, xy_load fname w = Ok XY_OK w1 ∧ w_mods w1 = <[p := counted_up m]> (w_mods w) ∧
    xy_unload (S n) fname w1 = Ok XY_OK
      (w <| w_trace ::= (λ l, l ++ [EvDlopen (resolve fname); EvDlclose h]) |> <| w_err := XY_OK |>).
Proof.
  intros Hl Hr Hrc Hdl. assert (Hcopy : load_copy w (resolve fname) = None) by (unfold load_copy; by rewrite Hr).
  pose proof (xy_load_reuses w fname id plen t p m h) as Hload. cbv zeta in Hload. rewrite Hcopy in Hload.
  specialize (Hload _ m Hl (Hdl _) (ls_mod _ _ _ _ _ _ _ Hl)). eexists. split_and!.
  - exact Hload.
  - done.
  - destruct Hl as [Hi Hm Hid Hpl Ht Hg Hp].
    erewrite (xy_unload_shared _ fname id plen t p (counted_up m)).
    + f_equal. apply world_ext; try done; simpl.
      * rewrite insert_insert_eq. apply insert_id. rewrite Hp. f_equal. destruct m. unfold counted_down, counted_up; simpl.
        by rewrite Z.pred_succ.
      * by rewrite <- app_assoc.
    + split; try done; [by apply (region_current_plen_frame w)|]. simpl. by rewrite lookup_insert_eq.
    + simpl. lia.
Qed.

(** C9. Unloading a module: one that was loaded more often only counts down;
    the last unload of a childless one takes it off its region's list, out of
    the table and out of memory, drops its region's denies of its path, makes
    the other modules forget listeners that live in its object, marks the
    caches of its region and the ancestors stale, and closes its object, after
    its own cleanup; all other modules and regions stay as they are. *)
Theorem xy_unload_contract w fname id plen t p m n :
  loaded_as w fname id plen t p m →
  (1 < me_refcount m →
    xy_unload (S n) fname w = Ok XY_OK (w <| w_mods ::= <[p := counted_down m]> |> <| w_err := XY_OK |>)) ∧
  (∀ re e pp mt tbl kids own l1 l2,
    me_refcount m = 1 → childless w p t → unloadable w p m re e pp t mt tbl kids own l1 l2 →
    ∃ w', xy_unload (S n) fname w = Ok XY_OK w' ∧ unloaded w w' p m re pp t tbl kids own (l1 ++ l2)).
Proof.
  intros Hl. split; [by apply xy_unload_shared with id plen t|].
  intros. by eapply xy_unload_last.
Qed.

(** C10. Unloading undoes loading: after a load whose [xy_install] does
    nothing and one unload, the table answers as before, the lists of all
    regions and the tree are the ones before, the same modules are alive, the
    count and the current region are the same, and what the system saw is the
    object opened, installed, perhaps cleaned up, and closed. *)
Theorem load_then_unload w fname id plen h t mt c x reg e tbl kids own f n :
  let wd := w <| w_trace ::= (λ l, l ++ [EvDlopen (resolve fname)]) |> in
  load_opens w fname id plen (resolve fname) None h wd →
  loadable wd fname id plen (resolve fname) h t mt c x reg e tbl kids own f →
  table_live w t → parents_older w → quiet_handle h → (∀ w1, cb_install f w1 = Ok tt w1) →
  ∃ w2 w3 cleaned, xy_load fname w = Ok XY_OK w2 ∧ xy_unload (S n) fname w2 = Ok XY_OK w3 ∧
    dom (w_mods w3) = dom (w_mods w) ∧ tree_wf (w_regions w3) tbl kids ∧
    mods_wf (w_regions w3) (w_mods w3) own ∧
    (∃ t3, rt_mod_hd (w_rt w3) = Some t3 ∧ ∀ k, corm_get t3 k = corm_get t k) ∧
    rt_mod_count (w_rt w3) = rt_mod_count (w_rt w) ∧ cur w3 = cur w ∧
    w_trace w3 = w_trace w ++ [EvDlopen (resolve fname); EvInstall h] ++ cleaned ++ [EvDlclose h] ∧
    (cleaned = [] ∨ ∃ st, cleaned = [EvCleanup h st]).
Proof.
  intros wd Hlo Hla Hlive Hold Hq Hinst.
  destruct (load_new _ _ _ _ _ _ _ _ _ _ _ _ _ _ _ _ _ _ Hlo Hla) as (p & w1 & Hin & Hrun).
  specialize (Hrun w1 (Hinst w1)).
  destruct (installed_unloadable _ _ _ _ _ _ _ _ _ _ _ _ _ _ _ _ _ Hin
    (la_entry _ _ _ _ _ _ _ _ _ _ _ _ _ _ _ _ Hla) Hlive Hold Hq)
    as (m & t' & mt' & e' & pp & Hm & Hrc & Hh & Htmp & Hk & Hget & Hun & Hch).
  set (w2 := left_load wd w1). exists w2.
  assert (Hl : loaded_as w2 fname id plen t' p m).
  { destruct Hlo as [Hi Hmem Hid Hpl _ _ _ _], Hun, (in_runtime _ _ _ _ _ _ _ _ _ _ _ _ _ _ _ _ Hin)
      as (Hi1 & Hm1 & _). split; try done.
    - by transitivity (rt_inited (w_rt wd)).
    - by transitivity (w_mem wd).
    - apply (region_current_plen_frame w); [done| |done].
      apply (in_shape _ _ _ _ _ _ _ _ _ _ _ _ _ _ _ _ Hin).
    - rewrite Hget. by rewrite decide_True. }
  assert (Hun2 : unloadable w2 p m reg e' pp t' mt' tbl kids
    (λ q, if decide (q = reg) then own reg ++ [p] else own q) (own reg) []) by (by destruct Hun; split).
  destruct (xy_unload_last _ _ _ _ _ _ _ _ _ _ _ _ _ _ _ _ n Hl Hrc Hch Hun2) as (w3 & H3 & Hud).
  exists w3, (cleanup_events m). destruct Hud. split_and!; try done.
  - rewrite ud_dom. simpl. rewrite (in_dom _ _ _ _ _ _ _ _ _ _ _ _ _ _ _ _ Hin).
    pose proof (in_new _ _ _ _ _ _ _ _ _ _ _ _ _ _ _ _ Hin). set_solver.
  - eapply mods_wf_ext; [|exact ud_lists]. intros q _. simpl. rewrite app_nil_r.
    destruct (decide (q = reg)) as [->|]; done.
  - destruct ud_table as (t3 & Ht3 & Hget3). exists t3. split; [done|]. intros k.
    rewrite Hget3, Hk, Hget. case_decide as E; [|done]. rewrite <- E.
    symmetry. apply (la_new _ _ _ _ _ _ _ _ _ _ _ _ _ _ _ _ Hla).
  - rewrite ud_count. unfold w2, left_load; simpl.
    rewrite (in_count _ _ _ _ _ _ _ _ _ _ _ _ _ _ _ _ Hin). apply Z.pred_succ.
  - destruct ud_rest as [Htls _]. unfold cur. by rewrite Htls.
  - rewrite ud_trace. unfold w2, left_load; simpl.
    rewrite (in_trace _ _ _ _ _ _ _ _ _ _ _ _ _ _ _ _ Hin). unfold farewell, wd; simpl.
    by rewrite Hh, Htmp, <- !app_assoc.
  - unfold cleanup_events. rewrite Hh. simpl. destruct (me_region_state m) as [st|]; [|by left].
    destruct (module_lookup_symbol_fn h _); [right; by exists st|by left].
Qed.

(** C15. The three list operations are what their names say: with a region's
    list [own re] tied to the heads, tails and links, detaching takes a module
    out of it, inserting after the last of [l1] puts it between [l1] and what
    follows, appending puts it last; the lists of the other regions, the tree
    and everything in the modules but the links stay, and the region and its
    ancestors are marked stale. *)
Theorem region_list_refines w tbl kids own re x :
  tree_wf (w_regions w) tbl kids → mods_wf (w_regions w) (w_mods w) own → re ∈ dom (w_regions w) →
  (∀ l1 l2, own re = l1 ++ x :: l2 →
    ∃ w', module_region_detach x w = Ok tt w' ∧ relisted w w' tbl kids own re (l1 ++ l2)) ∧
  (x ∈ dom (w_mods w) → (∀ q, q ∈ dom (w_regions w) → x ∉ own q) →
    (∀ l1 l2, own re = l1 ++ l2 →
      ∃ w', module_region_insert_after re x (last l1) w = Ok tt w' ∧
        relisted w w' tbl kids own re (l1 ++ x :: l2)) ∧
    (∃ w', module_region_append re x w = Ok tt w' ∧ relisted w w' tbl kids own re (own re ++ [x]))).
Proof.
  intros Hwf Hms Hre. split; [intros; by apply detach_spec|]. intros Hx Hnew. split.
  - intros. by apply insert_after_spec.
  - by apply append_spec.
Qed.

(** C16. The key of a module's entry tells paths and region ids apart, and of
    the prefix length the upper four bits only: two modules have one entry
    exactly when path, id and [plen / 16] agree.  The table takes as many
    bytes of it as the key has. *)
Theorem module_key_tells_apart path path' id id' plen plen' :
  c_string path → c_string path' → is_u64 id → is_u64 id' → is_u8 plen → is_u8 plen' →
  (module_key path id plen = module_key path' id' plen' ↔ path = path' ∧ id = id' ∧ plen / 16 = plen' / 16) ∧
  mod_key_measure (module_key path id plen) = String.length (module_key path id plen).
Proof. intros. split; [by apply module_key_eq|by apply module_key_measure]. Qed.

(** C17. The search for a module's object ends whatever memory does, and only
    uses memory up.  It fails exactly when its first allocation does.  While memory
    lasts it answers [resolve]: the name itself where it can be found, else the
    first directory that has it, those of the environment before the default ones.
    A later allocation that fails may make it miss that file; what it answers then
    is still one of the files the name can stand for, or the name itself. *)
Theorem module_load_path_total fname w :
  ∃ o mem, module_load_path fname w = Ok o (w <| w_mem := mem |>) ∧ mem `suffix_of` w_mem w ∧
    (o = None ↔ head (w_mem w) = Some false) ∧
    (Forall (eq true) (w_mem w) → o = Some (resolve fname)) ∧
    (∀ r, o = Some r → let leaf := fname +:+ ".so" in
      os_realpath leaf = Some r ∨
      os_realpath leaf = None ∧ (r = leaf ∨ str_has "/"%char leaf = false ∧ found_in leaf search_dirs r)).
Proof. apply module_load_path_spec. Qed.
End props.

(** ** The theorems on concrete runtimes *)

Section witnesses.
Local Existing Instances gmap_corm gmap_corm_laws.

(** One object, opened as handle 31: [abi] is what its [xy_ctx_abi] answers. *)
Definition object_os (abi : Z) : Os := {|
  os_realpath p := Some p;
  os_getenv _ := None;
  os_stat _ := None;
  os_copy _ _ _ := None;
  os_main_handle := None;
  os_dlsym _ s :=
    if bool_decide (s = "get_xy_ptr") then Some 51%positive
    else if bool_decide (s = "xy_ctx_abi") then Some 52%positive
    else if bool_decide (s = "xy_install") then Some 53%positive
    else None;
  os_dladdr _ := Some 310;
  os_dlinfo h := Some (Zpos h * 10);
  os_u8_symbol _ := 0;
  os_state_size _ := 0;
  os_ctx_abi _ := abi;
  os_ctx_ptr _ := Some 70%positive;
  os_adapter_address _ := 0
|}.
Definition object_callbacks : Callbacks := {|
  cb_dlopen _ := mret (Some 31%positive);
  cb_install _ := mret tt;
  cb_hook a arg := mret [Zpos a; arg];
  cb_claim _ _ _ _ := mret (0, 0);
  cb_each _ _ _ _ := mret 0;
  cb_scope _ _ := mret 0;
  cb_cleanup _ _ := mret tt
|}.
Local Existing Instance object_callbacks.

(** A started library, and the module's own context. *)
Definition load_world : world := boot_world <| w_ctxs := {[70%positive := xy_ctx_zero]} |>.
Definition opened_world : world := load_world <| w_trace := [EvDlopen "hello.so"] |>.
Definition no_own (p : rptr) : list mptr := [].

Lemma load_world_tree :
  tree_wf (w_regions load_world) (corm_put corm_empty (mk_region_key XY_REGION_ROOT 0) 1%positive) (λ _, []) ∧
  mods_wf (w_regions load_world) (w_mods load_world) no_own.
Proof.
  assert (w_regions load_world = {[1%positive := root_entry]}) as -> by (vm_compute; reflexivity).
  assert (w_mods load_world = ∅) as -> by (vm_compute; reflexivity).
  split; [apply root_tree_wf|]. split.
  - by intros p e [<- <-]%lookup_singleton_Some.
  - by intros p e [<- <-]%lookup_singleton_Some.
  - by intros p q m _ []%elem_of_nil.
Qed.

Lemma hello_opens abi : load_opens (OS := object_os abi) load_world "hello" 0 0 "hello.so" None 31%positive opened_world.
Proof.
  split; try (vm_compute; reflexivity). exists ∅. by vm_compute.
Qed.

Lemma hello_tables : tables_open opened_world ∅ ∅.
Proof.
  split; try (vm_compute; reflexivity). intros q Hq.
  assert (dom (w_mods opened_world) = ∅) as Hd by (vm_compute; reflexivity). rewrite Hd in Hq. exfalso.
  exact (not_elem_of_empty q Hq).
Qed.

Lemma hello_loadable :
  loadable (OS := object_os XY_CTX_ABI_DESC) opened_world "hello" 0 0 "hello.so" 31%positive ∅ ∅ 70%positive xy_ctx_zero
    1%positive root_entry (corm_put corm_empty (mk_region_key XY_REGION_ROOT 0) 1%positive) (λ _, [])
    no_own 53%positive.
Proof.
  destruct load_world_tree as [Hwf Hms].
  assert (Hids : ∀ n, hook_ids opened_world n = None) by (intros n; by vm_compute).
  split; [apply hello_tables|vm_compute; reflexivity..|split; [reflexivity|by left]|exact Hwf|exact Hms| |vm_compute; reflexivity].
  split.
  - eexists. split; [vm_compute; reflexivity|]. vm_compute. reflexivity.
  - reflexivity.
  - intros n1 n2 h H1. rewrite Hids in H1. discriminate.
  - intros n h H1. rewrite Hids in H1. discriminate.
Qed.

Lemma xy_load_contract_witness :
  ∃ p w1, installing (OS := object_os XY_CTX_ABI_DESC) opened_world w1 "hello" 0 0 "hello.so" None 31%positive
      ∅ 70%positive xy_ctx_zero 1%positive (corm_put corm_empty (mk_region_key XY_REGION_ROOT 0) 1%positive)
      (λ _, []) no_own p ∧
    xy_load (OS := object_os XY_CTX_ABI_DESC) "hello" load_world = Ok XY_OK (left_load opened_world w1).
Proof.
  destruct (xy_load_contract (OS := object_os XY_CTX_ABI_DESC) load_world "hello" 0 0 "hello.so" None 31%positive
    opened_world ∅ ∅ 70%positive xy_ctx_zero 1%positive root_entry _ _ no_own 53%positive
    (hello_opens _) hello_loadable) as (p & w1 & Hin & Hrun).
  exists p, w1. split; [exact Hin|]. apply Hrun. reflexivity.
Defined.

(** An object built against another layout. *)
Lemma xy_load_refused_witness :
  ∃ w', xy_load (OS := object_os 0) "hello" load_world = Ok XY_ERR_ABI w' ∧
    refused opened_world w' 31%positive XY_ERR_ABI.
Proof.
  apply (xy_load_refused (OS := object_os 0) load_world "hello" 0 0 "hello.so" 31%positive
    opened_world ∅ ∅ 70%positive);
    [apply hello_opens|apply hello_tables|vm_compute; reflexivity|vm_compute; reflexivity|vm_compute; reflexivity].
Defined.

Local Instance hello_os : Os := object_os XY_CTX_ABI_DESC.

(** The module, loaded once. *)
Definition hello_world : world := after (xy_load "hello") load_world.
Definition hello_entry : mod_entry := default mod_entry_zero (w_mods hello_world !! 3%positive).
Definition hello_table : corm string mptr := default ∅ (rt_mod_hd (w_rt hello_world)).

Lemma hello_loaded : loaded_as hello_world "hello" 0 0 hello_table 3%positive hello_entry.
Proof. split; vm_compute; reflexivity. Qed.

Lemma load_again_then_unload_witness :
  ∃ w1, xy_load "hello" hello_world = Ok XY_OK w1 ∧
    w_mods w1 = <[3%positive := counted_up hello_entry]> (w_mods hello_world) ∧
    xy_unload 1 "hello" w1 = Ok XY_OK
      (hello_world <| w_trace ::= (λ l, l ++ [EvDlopen (resolve "hello"); EvDlclose 31%positive]) |>
                   <| w_err := XY_OK |>).
Proof.
  apply (load_again_then_unload hello_world "hello" 0 0 hello_table 3%positive hello_entry 31%positive 0);
    [exact hello_loaded|vm_compute; reflexivity|vm_compute; reflexivity|reflexivity].
Defined.

Definition hello_region : region_entry := default region_entry_zero (w_regions hello_world !! 1%positive).
Definition hello_own (p : rptr) : list mptr := if decide (p = 1%positive) then [3%positive] else [].

Lemma hello_table_inv k q : corm_get hello_table k = Some q → q = 3%positive.
Proof.
  assert (hello_table = {[module_key "hello.so" 0 0 := 3%positive]}) as -> by (vm_compute; reflexivity).
  simpl. by intros [_ <-]%lookup_singleton_Some.
Qed.

Lemma hello_unloadable :
  unloadable hello_world 3%positive hello_entry 1%positive hello_region 2%positive hello_table
    (default ∅ (rt_mod_by_region_hd (w_rt hello_world)))
    (corm_put corm_empty (mk_region_key XY_REGION_ROOT 0) 1%positive) (λ _, []) hello_own [] [].
Proof.
  assert (Hr : w_regions hello_world = {[1%positive := hello_region]}) by (vm_compute; reflexivity).
  assert (Hm : w_mods hello_world = {[3%positive := hello_entry]}) by (vm_compute; reflexivity).
  split; try (vm_compute; reflexivity).
  - intros k q ->%hello_table_inv. rewrite Hm. apply elem_of_dom. eexists. apply lookup_singleton_eq.
  - rewrite Hr. eapply tree_wf_shape; [|apply root_tree_wf]. vm_compute. reflexivity.
  - rewrite Hr, Hm. split.
    + intros p e [<- <-]%lookup_singleton_Some. split; [vm_compute; reflexivity|].
      eexists. split; [vm_compute; reflexivity|vm_compute; reflexivity].
    + intros p e [<- <-]%lookup_singleton_Some. split; [vm_compute; reflexivity|].
      eexists. split; [vm_compute; reflexivity|vm_compute; reflexivity].
    + intros p q m Hp Hq Hmq. apply lookup_singleton_Some in Hmq as [<- <-].
      rewrite dom_singleton_L in Hp. apply elem_of_singleton in Hp as ->. vm_compute. reflexivity.
Qed.

Lemma xy_unload_contract_witness :
  ∃ w', xy_unload 1 "hello" hello_world = Ok XY_OK w' ∧
    unloaded hello_world w' 3%positive hello_entry 1%positive 2%positive hello_table
      (corm_put corm_empty (mk_region_key XY_REGION_ROOT 0) 1%positive) (λ _, []) hello_own [].
Proof.
  apply (proj2 (xy_unload_contract hello_world "hello" 0 0 hello_table 3%positive hello_entry 0 hello_loaded)
    1%positive hello_region 2%positive (default ∅ (rt_mod_by_region_hd (w_rt hello_world))) _ _ hello_own [] []);
    [vm_compute; reflexivity| |exact hello_unloadable].
  intros k q Hk Hne. apply hello_table_inv in Hk. contradiction.
Defined.

Lemma load_then_unload_witness :
  ∃ w2 w3, xy_load "hello" load_world = Ok XY_OK w2 ∧ xy_unload 1 "hello" w2 = Ok XY_OK w3 ∧
    dom (w_mods w3) = dom (w_mods load_world).
Proof.
  destruct (load_then_unload load_world "hello" 0 0 31%positive ∅ ∅ 70%positive xy_ctx_zero 1%positive
    root_entry (corm_put corm_empty (mk_region_key XY_REGION_ROOT 0) 1%positive) (λ _, []) no_own 53%positive 0)
    as (w2 & w3 & cl & H2 & H3 & Hdom & _).
  - apply (hello_opens XY_CTX_ABI_DESC).
  - apply hello_loadable.
  - intros k q Hk. vm_compute in Hk. discriminate.
  - intros q mq r Hq. vm_compute in Hq. discriminate.
  - intros g st Hg. reflexivity.
  - reflexivity.
  - exists w2, w3. auto.
Defined.

Lemma region_list_refines_witness :
  ∃ w', module_region_detach 3%positive hello_world = Ok tt w' ∧
    relisted hello_world w' (corm_put corm_empty (mk_region_key XY_REGION_ROOT 0) 1%positive) (λ _, [])
      hello_own 1%positive [].
Proof.
  apply (proj1 (region_list_refines hello_world _ _ hello_own 1%positive 3%positive
    (un_tree _ _ _ _ _ _ _ _ _ _ _ _ _ hello_unloadable) (un_lists _ _ _ _ _ _ _ _ _ _ _ _ _ hello_unloadable)
    ltac:(apply elem_of_dom; eexists; vm_compute; reflexivity)) [] []).
  vm_compute. reflexivity.
Defined.

(** Widths 16 and 17 of one id share an entry. *)
Lemma module_key_tells_apart_witness :
  module_key "hello.so" 0 16 = module_key "hello.so" 0 17 ∧ module_key "hello.so" 0 8 ≠ module_key "hello.so" 0 16.
Proof.
  split.
  - apply (proj1 (module_key_tells_apart "hello.so" "hello.so" 0 0 16 17 eq_refl eq_refl
      ltac:(by vm_compute) ltac:(by vm_compute) ltac:(by vm_compute) ltac:(by vm_compute))).
    split_and!; vm_compute; reflexivity.
  - vm_compute. discriminate.
Defined.
End witnesses.
