(* ===== verification/Reload.v ===== *)
(** * Reloading

    [xy_reload]: the last unload of a module and a new load of a copy of its
    file, which takes the old one's place in its region; and what a reload of a
    module that is loaded more than once does instead. *)
From S2P Require Import Prelude Words Corm State Env Regions RegionTree RegionWalks Runtime Paths PathSpecs RegionApi RegionInv RegionSpecs Boot RegionProps Hooks HookSpecs Subtree Dispatch Vector VectorBuild Call SlotRun Registry ModKey ModList ModListSpecs Loader Unload LoadSpecs LoadLink UnloadSpecs LoadProps.

Section reload.
Context {C : Corm} {CL : CormLaws C} {OS : Os} {CB : Callbacks}.
Implicit Types (w : world) (p q : mptr).

(** ** The two halves, without what the public functions add *)

Lemma strip_err (m : M world Z) w r w' :
  (ret ← m; set_err_ret ret) w = Ok r w' → ∃ w1, m w = Ok r w1 ∧ w1 = w' <| w_err := w_err w1 |>.
Proof.
  intros (r1 & w1 & Hm & [= <- <-])%Ok_bind_inv. exists w1. split; [done|]. by destruct w1.
Qed.

Lemma xy_unload_inner w fname id plen t p m n :
  loaded_as w fname id plen t p m →
  xy_unload n fname w = (ret ← _mod_unload n fname id plen; set_err_ret ret) w.
Proof.
  intros [Hi _ Hid Hpl _ _ _]. unfold xy_unload. rewrite with_runtime_run by done.
  rewrite (bind_Ok _ _ _ id w) by (unfold tls_get, gets; by rewrite Hid).
  by rewrite (bind_Ok _ _ _ _ _ Hpl).
Qed.

Lemma xy_load_inner w fname :
  rt_inited (w_rt w) = true → xy_load fname w = (ret ← _mod_load fname; set_err_ret ret) w.
Proof. intros Hi. unfold xy_load. by rewrite with_runtime_run. Qed.

(** What [xy_reload] does with a module it finds. *)
Lemma reload_found w fname id plen t p m n :
  loaded_as w fname id plen t p m →
  xy_reload n fname w =
    (uret ← _mod_unload n fname id plen;
     if negb (uret =? XY_OK) then set_err_ret uret
     else
       modify (λ w, w <| w_reloading := true |>);;
       lret ← _mod_load fname;
       modify (λ w, w <| w_reloading := false |>);;
       if negb (lret =? XY_OK) then set_err_ret lret
       else reload_place fname id plen (me_region_entry m) (me_region_prev m)) w.
Proof.
  intros Hl. pose proof (lookup_loaded _ _ _ _ _ _ _ Hl) as Hlk. destruct Hl as [Hi Hm Hid Hpl Ht Hg Hp].
  unfold xy_reload. rewrite with_runtime_run by done.
  rewrite (bind_Ok _ _ _ id w) by (unfold tls_get, gets; by rewrite Hid).
  rewrite (bind_Ok _ _ _ _ _ Hpl), (bind_Ok _ _ _ _ _ Hlk). cbn [lk_err lk_entry negb Z.eqb XY_OK].
  by rewrite (bind_Ok _ _ _ _ _ (mget_Ok _ _ _ Hp)).
Qed.

(** The module goes back where the old one was. *)
Lemma reload_place_run w fname id plen t p m tbl kids re l1 l2 o :
  loaded_as w fname id plen t p m → tree_wf (w_regions w) tbl kids → mods_wf (w_regions w) (w_mods w) o →
  re ∈ dom (w_regions w) → (∃ k1 k2, o re = k1 ++ p :: k2 ∧ l1 ++ l2 = k1 ++ k2) →
  ∃ w1 w', reload_place fname id plen (Some re) (last l1) w = Ok XY_OK (w' <| w_err := XY_OK |>) ∧
    relisted w w1 tbl kids o re (l1 ++ l2) ∧
    relisted w1 w' tbl kids (λ q, if decide (q = re) then l1 ++ l2 else o q) re (l1 ++ p :: l2).
Proof.
  intros Hl Hwf Hms Hre (k1 & k2 & Ho & Hk). pose proof (lookup_loaded _ _ _ _ _ _ _ Hl) as Hlk.
  unfold reload_place. rewrite (bind_Ok _ _ _ _ _ Hlk). cbn [lk_err lk_entry negb Z.eqb XY_OK].
  destruct (detach_spec w tbl kids o re p k1 k2) as (w1 & H1 & Hr1); [done..|]. rewrite <- Hk in Hr1.
  rewrite (bind_Ok _ _ _ _ _ H1). pose proof Hre as [e He]%elem_of_dom.
  destruct (insert_after_spec w1 tbl kids (λ q, if decide (q = re) then l1 ++ l2 else o q) re p l1 l2) as (w2 & H2 & Hr2).
  - apply Hr1.
  - apply Hr1.
  - by rewrite (shape_dom _ _ (rl_shape _ _ _ _ _ _ _ Hr1)).
  - by rewrite decide_True.
  - rewrite (rl_dom _ _ _ _ _ _ _ Hr1). eapply elem_of_dom_2, Hl.
  - intros q Hq. rewrite (shape_dom _ _ (rl_shape _ _ _ _ _ _ _ Hr1)) in Hq. rewrite Hk.
    by eapply (detached_nowhere (w_regions w)).
  - rewrite (bind_Ok _ _ _ _ _ H2). exists w1, w2. done.
Qed.

(** The copy a reload makes at moment [n], and the file it opens: the copy, or the
    module's own when none could be made. *)
Definition reload_copy (n : nat) (fname : string) : option string := copy_name (resolve fname) n.
Definition reload_file (n : nat) (fname : string) : string := default (resolve fname) (reload_copy n fname).

(** ** A module that is loaded more than once *)

(** Nothing is replaced: the modules and their lists are the ones before, and
    the object that was opened is closed again without a call of its
    [xy_install]. *)
Record not_reloaded w w' (fname : string) (h' : handle) tbl kids own : Prop := {
  nr_mods q mq : w_mods w !! q = Some mq → ∃ mq', w_mods w' !! q = Some mq' ∧ me_unlinked mq' = me_unlinked mq;
  nr_dom : dom (w_mods w') = dom (w_mods w);
  nr_tree : tree_wf (w_regions w') tbl kids;
  nr_lists : mods_wf (w_regions w') (w_mods w') own;
  nr_table : rt_mod_hd (w_rt w') = rt_mod_hd (w_rt w);
  nr_reloading : w_reloading w' = false;
  nr_trace : w_trace w' = w_trace w ++ EvDlopen (reload_file (length (w_trace w)) fname) :: EvDlclose h' ::
    match reload_copy (length (w_trace w)) fname with Some c => [EvUnlink c] | None => [] end
}.

Lemma relisted_twice w w1 w2 tbl kids o re l l' :
  relisted w w1 tbl kids o re l →
  relisted w1 w2 tbl kids (λ q, if decide (q = re) then l else o q) re l' →
  (∀ q mq, w_mods w !! q = Some mq → ∃ mq', w_mods w2 !! q = Some mq' ∧ me_unlinked mq' = me_unlinked mq) ∧
  dom (w_mods w2) = dom (w_mods w) ∧ tree_wf (w_regions w2) tbl kids ∧
  mods_wf (w_regions w2) (w_mods w2) (λ q, if decide (q = re) then l' else o q) ∧
  (∃ h ms, w2 = w <| w_regions := h |> <| w_mods := ms |>) ∧
  ∀ q e, sub (w_regions w) q re → w_regions w !! q = Some e →
    ∃ e', w_regions w2 !! q = Some e' ∧ re_subtree_mods_dirty e' = true.
Proof.
  intros H1 H2. split_and!.
  - intros q mq Hq. destruct (rl_same _ _ _ _ _ _ _ H1 q mq Hq) as (m1 & Hm1 & E1).
    destruct (rl_same _ _ _ _ _ _ _ H2 q m1 Hm1) as (m2 & Hm2 & E2). exists m2. split; [done|congruence].
  - by rewrite (rl_dom _ _ _ _ _ _ _ H2), (rl_dom _ _ _ _ _ _ _ H1).
  - apply H2.
  - eapply mods_wf_ext; [|apply H2]. intros q _. cbn. by case_decide.
  - destruct (rl_rest _ _ _ _ _ _ _ H1) as (h1 & ms1 & ->). destruct (rl_rest _ _ _ _ _ _ _ H2) as (h2 & ms2 & ->).
    by exists h2, ms2.
  - intros q e Hq He. destruct (rl_stale _ _ _ _ _ _ _ H1 q e Hq He) as (e1 & He1 & _).
    destruct (rl_stale _ _ _ _ _ _ _ H2 q e1) as (e2 & He2 & Hd & _); [|done|by exists e2].
    by rewrite (sub_shape _ _ _ _ (rl_shape _ _ _ _ _ _ _ H1)).
Qed.

Lemma reload_shared w fname id plen t p m h' re tbl kids own l1 l2 n :
  loaded_as w fname id plen t p m → 1 < me_refcount m →
  me_region_entry m = Some re → re ∈ dom (w_regions w) → own re = l1 ++ p :: l2 →
  tree_wf (w_regions w) tbl kids → mods_wf (w_regions w) (w_mods w) own →
  (∀ w1, cb_dlopen (reload_file (length (w_trace w)) fname) w1 = Ok (Some h') w1) →
  ∃ w', xy_reload (S n) fname w = Ok XY_OK w' ∧ not_reloaded w w' fname h' tbl kids own.
Proof.
  intros Hl Hrc Hre Hdom Hown Hwf Hms Hdl. rewrite (reload_found _ _ _ _ _ _ _ _ Hl).
  pose proof (xy_unload_shared _ _ _ _ _ _ _ n Hl Hrc) as Hun. rewrite (xy_unload_inner _ _ _ _ _ _ _ _ Hl) in Hun.
  apply strip_err in Hun as (wu & Hun & Hwu). rewrite (bind_Ok _ _ _ _ _ Hun). cbn [negb Z.eqb XY_OK].
  rewrite (bind_Ok (modify _) _ _ tt _ eq_refl). set (wr := wu <| w_reloading := true |>).
  assert (Hprev : me_region_prev m = last l1).
  { pose proof Hdom as [e He]%elem_of_dom. by eapply (chain_prev_of (w_regions w)); [..|apply Hl]. }
  assert (Hlr : loaded_as wr fname id plen t p (counted_down m)).
  { destruct Hl. unfold wr. rewrite Hwu. split; try done; [by apply (region_current_plen_frame w)|].
    simpl. apply lookup_insert_eq. }
  assert (Hcopy : load_copy wr (resolve fname) = reload_copy (length (w_trace w)) fname) by (unfold wr; by rewrite Hwu).
  pose proof (xy_load_reuses wr fname id plen t p (counted_down m) h') as Hload. cbv zeta in Hload. rewrite Hcopy in Hload.
  specialize (Hload _ (counted_down m) Hlr (Hdl _) (ls_mod _ _ _ _ _ _ _ Hlr)).
  rewrite xy_load_inner in Hload by apply Hlr. apply strip_err in Hload as (wl & Hload & Hwl).
  rewrite (bind_Ok _ _ _ _ _ Hload). rewrite (bind_Ok (modify _) _ _ tt _ eq_refl). cbn [negb Z.eqb XY_OK].
  set (wf := wl <| w_reloading := false |>). rewrite Hre, Hprev.
  assert (Hmods : w_mods wf = w_mods w).
  { unfold wf. rewrite Hwl. unfold wr. rewrite Hwu. simpl. rewrite insert_insert_eq. apply insert_id.
    rewrite (ls_mod _ _ _ _ _ _ _ Hl). f_equal. destruct m. unfold counted_up, counted_down; simpl. by rewrite Z.succ_pred. }
  assert (Hregs : w_regions wf = w_regions w) by (unfold wf; rewrite Hwl; unfold wr; by rewrite Hwu).
  assert (Hlf : loaded_as wf fname id plen t p m).
  { destruct Hl. split; try (rewrite ?Hmods; done); try (unfold wf; rewrite Hwl; unfold wr; by rewrite Hwu).
    apply (region_current_plen_frame w); [unfold wf; rewrite Hwl; unfold wr; by rewrite Hwu|by rewrite Hregs|done]. }
  destruct (reload_place_run wf fname id plen t p m tbl kids re l1 l2 own) as (w1 & w2 & Hrun & H1 & H2);
    [done|by rewrite Hregs|by rewrite Hregs, Hmods|by rewrite Hregs|by exists l1, l2|].
  eexists. split; [exact Hrun|]. destruct (relisted_twice _ _ _ _ _ _ _ _ _ H1 H2) as (Hsame & Hd & Ht & Hlst & (hh & mm & Hw2) & _).
  split; simpl; rewrite <- ?Hmods; try done.
  - eapply mods_wf_ext; [|exact Hlst]. intros q _. cbn. by case_decide; [subst|].
  - rewrite Hw2. unfold wf. rewrite Hwl. unfold wr. by rewrite Hwu.
  - by rewrite Hw2.
  - rewrite Hw2. unfold wf. rewrite Hwl. unfold wr. rewrite Hwu. simpl. by rewrite <- app_assoc.
Qed.

(** ** The last load of a module *)

(** What a full reload of [p] relies on: it is the module the name finds in the
    current region [re], loaded once, with nothing loaded by it; the file opens
    as [h'], with the host's layout and an [xy_install]; constructors and
    [xy_install] leave the library alone. *)
Record reloadable w (fname : string) (id plen : Z) (t : corm string mptr) p m (re : rptr) e pp mt tbl kids own l1 l2
    (h' : handle) (c : cptr) (x : xy_ctx) (f : addr) : Prop := {
  rd_loaded : loaded_as w fname id plen t p m;
  rd_key : me_mod_key m = module_key (resolve fname) id plen;
  rd_last : me_refcount m = 1;
  rd_childless : childless w p t;
  rd_unloadable : unloadable w p m re e pp t mt tbl kids own l1 l2;
  rd_next q : q ∈ dom (w_mods w) → (q < w_next w)%positive;
  rd_region : region_lookup id plen w = Ok (Some re) w;
  rd_opens w1 : cb_dlopen (reload_file (length (w_trace w ++ farewell m)) fname) w1 = Ok (Some h') w1;
  rd_ctx : ctx_offered w h' = Some c;
  rd_ctx_live : w_ctxs w !! c = Some x;
  rd_abi : abi_ok h' = true;
  rd_claim : claim_waived e h';
  rd_hooks : hook_table w (hook_ids w) (rt_hook_id_counter (w_rt w));
  rd_install : module_lookup_symbol_fn h' "xy_install" = Some f;
  rd_installs w1 : cb_install f w1 = Ok tt w1
}.

(** A new module [p'] stands where [p] stood. *)
Record reloaded w w' (fname : string) (id plen : Z) (t : corm string mptr) p m p' (re : rptr) tbl kids own l1 l2
    (h' : handle) (c : cptr) : Prop := {
  rn_new : p' ∉ dom (w_mods w);
  rn_dom : dom (w_mods w') = {[p']} ∪ dom (w_mods w) ∖ {[p]};
  rn_mod : ∃ m', w_mods w' !! p' = Some m' ∧ me_handle m' = Some h' ∧ me_ctx m' = Some c ∧ me_refcount m' = 1 ∧
    me_region_id m' = id ∧ me_region_plen m' = plen ∧ me_tmp_load_path m' = reload_copy (length (w_trace w ++ farewell m)) fname;
  rn_others q mq : q ≠ p → w_mods w !! q = Some mq →
    ∃ mq', w_mods w' !! q = Some mq' ∧ me_unlinked mq' = me_unlinked (forgets m p (corm_list t).*2 q mq);
  rn_table : ∃ t', rt_mod_hd (w_rt w') = Some t' ∧
    ∀ k, corm_get t' k = if decide (module_key (resolve fname) id plen = k) then Some p' else corm_get t k;
  rn_tree : tree_wf (w_regions w') tbl kids;
  rn_lists : mods_wf (w_regions w') (w_mods w') (λ q, if decide (q = re) then l1 ++ p' :: l2 else own q);
  rn_stale q e : sub (w_regions w) q re → w_regions w !! q = Some e →
    ∃ e', w_regions w' !! q = Some e' ∧ re_subtree_mods_dirty e' = true;
  rn_count : rt_mod_count (w_rt w') = rt_mod_count (w_rt w);
  rn_cur : cur w' = cur w;
  rn_reloading : w_reloading w' = false;
  rn_trace : w_trace w' = w_trace w ++ farewell m ++ [EvDlopen (reload_file (length (w_trace w ++ farewell m)) fname); EvInstall h']
}.

(** The world between the two halves: the old module is gone and the file is
    open. *)
Definition reopened wu (fname : string) : world :=
  wu <| w_reloading := true |> <| w_trace ::= (λ l, l ++ [EvDlopen (reload_file (length (w_trace wu)) fname)]) |>.

Lemma reload_opens w fname id plen t p m re e pp mt tbl kids own l1 l2 h' c x f wu :
  reloadable w fname id plen t p m re e pp mt tbl kids own l1 l2 h' c x f →
  unloaded w wu p m re pp t tbl kids own (l1 ++ l2) →
  load_opens (wu <| w_reloading := true |>) fname id plen (resolve fname) (reload_copy (length (w_trace wu)) fname) h'
    (reopened wu fname) ∧
  ∃ t1 mt1 e1, loadable (reopened wu fname) fname id plen (resolve fname) h' t1 mt1 c x re e1 tbl kids
    (λ q, if decide (q = re) then l1 ++ l2 else own q) f ∧
    ∀ k, corm_get t1 k = if decide (me_mod_key m = k) then None else corm_get t k.
Proof.
  intros Hrd Hud. pose proof (rd_opens _ _ _ _ _ _ _ _ _ _ _ _ _ _ _ _ _ _ _ _ Hrd) as Hop.
  rewrite <- (ud_trace _ _ _ _ _ _ _ _ _ _ _ Hud) in Hop.
  destruct (rd_loaded _ _ _ _ _ _ _ _ _ _ _ _ _ _ _ _ _ _ _ _ Hrd) as [Hi Hm Hid Hpl Ht Hg Hp].
  destruct Hud as [Hgone Hdom Hoth (t1 & Ht1 & Hget) Htree Hlists Hstale _ Hden _ _ _ (Htls & Hctx & Htbl)
    (Hi' & Hm' & Hnext & [mt1 Hmt1] & Hhk & Hhc) Hsh].
  assert (Hnone : corm_get t1 (module_key (resolve fname) id plen) = None).
  { rewrite Hget. apply decide_True. apply (rd_key _ _ _ _ _ _ _ _ _ _ _ _ _ _ _ _ _ _ _ _ Hrd). }
  split.
  - split; simpl; try congruence.
    + apply (region_current_plen_frame w); simpl; [by rewrite Htls|done|done].
    + rewrite module_load_path_run; [done|simpl; congruence].
    + by exists t1.
    + done.
    + apply Hop.
  - destruct (Hden e) as (e1 & He1 & _ & _ & Hgate); [apply (un_region _ _ _ _ _ _ _ _ _ _ _ _ _
      (rd_unloadable _ _ _ _ _ _ _ _ _ _ _ _ _ _ _ _ _ _ _ _ Hrd))|].
    exists t1, mt1, e1. split; [|exact Hget]. destruct Hrd. split; simpl; try done.
    + split; simpl; try congruence. intros q. rewrite Hdom, Hnext. intros [Hq _]%elem_of_difference. by apply rd_next0.
    + unfold ctx_offered. simpl. rewrite Htls. exact rd_ctx0.
    + by rewrite Hctx.
    + by apply (region_lookup_frame w).
    + unfold claim_waived, re_gate in *. injection Hgate as -> ->. exact rd_claim0.
    + destruct rd_hooks0 as [(th & Hth & Hgh) Hc Hinj Hrange].
      assert (Hids : hook_ids (reopened wu fname) = hook_ids w) by (unfold hook_ids; simpl; by rewrite Hhk).
      rewrite Hids. split; simpl; [exists th; by rewrite Hhk|by rewrite Hhc|done|]. rewrite Hhc. exact Hrange.
Qed.

Lemma unloaded_err w w' err p m re pp t tbl kids own l :
  unloaded w w' p m re pp t tbl kids own l → unloaded w (w' <| w_err := err |>) p m re pp t tbl kids own l.
Proof. intros H. destruct H. by split. Qed.

(** The load in the middle of a full reload. *)
Lemma reload_loads w fname id plen t p m re e pp mt tbl kids own l1 l2 h' c x f wu :
  reloadable w fname id plen t p m re e pp mt tbl kids own l1 l2 h' c x f →
  unloaded w wu p m re pp t tbl kids own (l1 ++ l2) →
  ∃ p' t1 w1 wl, installing (reopened wu fname) w1 fname id plen (resolve fname) (reload_copy (length (w_trace wu)) fname) h' t1 c x re
      tbl kids (λ q, if decide (q = re) then l1 ++ l2 else own q) p' ∧
    (∀ k, corm_get t1 k = if decide (me_mod_key m = k) then None else corm_get t k) ∧
    _mod_load fname (wu <| w_reloading := true |>) = Ok XY_OK wl ∧
    wl = left_load (reopened wu fname) w1 <| w_err := w_err wl |>.
Proof.
  intros Hrd Hud. destruct (reload_opens _ _ _ _ _ _ _ _ _ _ _ _ _ _ _ _ _ _ _ _ _ Hrd Hud)
    as (Hopens & t1 & mt1 & e1 & Hloadable & Hget).
  destruct (load_new _ _ _ _ _ _ _ _ _ _ _ _ _ _ _ _ _ _ Hopens Hloadable) as (p' & w1 & Hin & Hrun).
  specialize (Hrun w1 (rd_installs _ _ _ _ _ _ _ _ _ _ _ _ _ _ _ _ _ _ _ _ Hrd w1)).
  rewrite xy_load_inner in Hrun by apply Hopens. apply strip_err in Hrun as (wl & Hrun & Hwl).
  by exists p', t1, w1, wl.
Qed.

(** The world after the load: the new module is found under the old one's name
    and stands last in its region. *)
Lemma reload_between w fname id plen t p m re e pp mt tbl kids own l1 l2 h' c x f wu p' t1 w1 wl :
  reloadable w fname id plen t p m re e pp mt tbl kids own l1 l2 h' c x f →
  unloaded w wu p m re pp t tbl kids own (l1 ++ l2) →
  installing (reopened wu fname) w1 fname id plen (resolve fname) (reload_copy (length (w_trace wu)) fname) h' t1 c x re
    tbl kids (λ q, if decide (q = re) then l1 ++ l2 else own q) p' →
  wl = left_load (reopened wu fname) w1 <| w_err := w_err wl |> →
  let wf := wl <| w_reloading := false |> in
  (∃ t' m', loaded_as wf fname id plen t' p' m' ∧
    (∀ k, corm_get t' k = if decide (module_key (resolve fname) id plen = k) then Some p' else corm_get t1 k) ∧
    me_handle m' = Some h' ∧ me_ctx m' = Some c ∧ me_refcount m' = 1 ∧ me_region_id m' = id ∧
    me_region_plen m' = plen ∧ me_tmp_load_path m' = reload_copy (length (w_trace wu)) fname) ∧
  tree_wf (w_regions wf) tbl kids ∧
  mods_wf (w_regions wf) (w_mods wf) (λ q, if decide (q = re) then (l1 ++ l2) ++ [p'] else own q) ∧
  re_shape <$> w_regions wf = re_shape <$> w_regions w.
Proof.
  intros Hrd Hud Hin Hwl wf. destruct (rd_loaded _ _ _ _ _ _ _ _ _ _ _ _ _ _ _ _ _ _ _ _ Hrd) as [Hi Hm Hid Hpl _ _ _].
  destruct Hud as [_ _ _ _ _ _ _ _ _ _ _ _ (Htls & _ & _) (Hi' & Hm' & _ & _ & _ & _) Hsh].
  destruct Hin as [_ _ (m' & Hm1 & Hh & Hc & Hrc & _ & _ & Hri & Hrp & _ & _ & Htmp & _) _ (t' & Ht' & Hget') Ht Hls
    _ _ _ _ _ Hsh1 _ (Hi1 & Hmem1 & _ & _) _].
  assert (Hregs : w_regions wf = w_regions w1) by (unfold wf; by rewrite Hwl).
  assert (Hmods : w_mods wf = w_mods w1) by (unfold wf; by rewrite Hwl).
  assert (Hshape : re_shape <$> w_regions wf = re_shape <$> w_regions w).
  { rewrite Hregs. simpl in Hsh1. by rewrite Hsh1. }
  split_and!; [|by rewrite Hregs| |done].
  - exists t', m'. split_and!; try done.
    split; rewrite ?Hmods; try (unfold wf; rewrite Hwl; simpl in *; congruence).
    + apply (region_current_plen_frame w); [|done|done]. unfold wf. rewrite Hwl. simpl in *. congruence.
    + rewrite Hget'. by apply decide_True.
    + done.
  - rewrite Hregs, Hmods. eapply mods_wf_ext; [|exact Hls]. intros q _. cbn. destruct (decide (q = re)); [|done]. by rewrite (decide_True (P := re = re)) by done.
Qed.

(** What the placing leaves, over the three steps. *)
Lemma reload_settled w fname id plen t p m re e pp mt tbl kids own l1 l2 h' c x f wu p' t1 w1 wl w2 w3 :
  reloadable w fname id plen t p m re e pp mt tbl kids own l1 l2 h' c x f →
  unloaded w wu p m re pp t tbl kids own (l1 ++ l2) →
  installing (reopened wu fname) w1 fname id plen (resolve fname) (reload_copy (length (w_trace wu)) fname) h' t1 c x re
    tbl kids (λ q, if decide (q = re) then l1 ++ l2 else own q) p' →
  (∀ k, corm_get t1 k = if decide (me_mod_key m = k) then None else corm_get t k) →
  wl = left_load (reopened wu fname) w1 <| w_err := w_err wl |> →
  let wf := wl <| w_reloading := false |> in
  re_shape <$> w_regions wf = re_shape <$> w_regions w →
  (∃ t' m', loaded_as wf fname id plen t' p' m' ∧
    (∀ k, corm_get t' k = if decide (module_key (resolve fname) id plen = k) then Some p' else corm_get t1 k) ∧
    me_handle m' = Some h' ∧ me_ctx m' = Some c ∧ me_refcount m' = 1 ∧ me_region_id m' = id ∧
    me_region_plen m' = plen ∧ me_tmp_load_path m' = reload_copy (length (w_trace wu)) fname) →
  let o := λ q, if decide (q = re) then (l1 ++ l2) ++ [p'] else own q in
  relisted wf w2 tbl kids o re (l1 ++ l2) →
  relisted w2 w3 tbl kids (λ q, if decide (q = re) then l1 ++ l2 else o q) re (l1 ++ p' :: l2) →
  reloaded w (w3 <| w_err := XY_OK |>) fname id plen t p m p' re tbl kids own l1 l2 h' c.
Proof.
  intros Hrd Hud Hin Hget Hwl wf Hsh (t' & m' & Hlf & Hget' & Hm') o H1 H2.
  destruct (relisted_twice _ _ _ _ _ _ _ _ _ H1 H2) as (Hsame & Hd & Ht & Hlst & (hh & mm & Hw3) & Hst).
  assert (Hmods : w_mods wf = w_mods w1) by (unfold wf; by rewrite Hwl).
  assert (Hnew : p' ∉ dom (w_mods w)).
  { intros Hp%(rd_next _ _ _ _ _ _ _ _ _ _ _ _ _ _ _ _ _ _ _ _ Hrd). pose proof (in_fresh _ _ _ _ _ _ _ _ _ _ _ _ _ _ _ _ Hin) as Hf.
    destruct (ud_runtime _ _ _ _ _ _ _ _ _ _ _ Hud) as (_ & _ & Hn & _). simpl in Hf. lia. }
  split.
  - done.
  - simpl. rewrite Hd, Hmods, (in_dom _ _ _ _ _ _ _ _ _ _ _ _ _ _ _ _ Hin). simpl. by rewrite (ud_dom _ _ _ _ _ _ _ _ _ _ _ Hud).
  - destruct (Hsame p' m' (ls_mod _ _ _ _ _ _ _ Hlf)) as (m3 & Hm3 & E). exists m3.
    rewrite <- (ud_trace _ _ _ _ _ _ _ _ _ _ _ Hud). destruct Hm' as (? & ? & ? & ? & ? & ?). destruct m', m3. unfold me_unlinked in E. simpl in *. injection E; intros; subst. by split_and!.
  - intros q mq Hq Hmq. destruct (ud_others _ _ _ _ _ _ _ _ _ _ _ Hud q mq Hq Hmq) as (mu & Hmu & Eu).
    destruct (in_others _ _ _ _ _ _ _ _ _ _ _ _ _ _ _ _ Hin q mu) as (m1 & Hm1 & E1); [|done|].
    { intros ->. by apply Hnew, (elem_of_dom_2 _ _ mq). }
    destruct (Hsame q m1) as (m3 & Hm3 & E3); [by rewrite Hmods|]. exists m3. split; [done|congruence].
  - exists t'. split; [simpl; rewrite Hw3; apply Hlf|]. intros k. rewrite Hget', Hget.
    rewrite (rd_key _ _ _ _ _ _ _ _ _ _ _ _ _ _ _ _ _ _ _ _ Hrd). by case_decide.
  - done.
  - eapply mods_wf_ext; [|exact Hlst]. intros q _. cbn. unfold o. by case_decide.
  - intros q eq Hq Heq. destruct (w_regions wf !! q) as [ef|] eqn:Hef.
    + apply (Hst q ef); [|done]. by rewrite (sub_shape _ _ _ _ Hsh).
    + apply not_elem_of_dom in Hef. rewrite (shape_dom _ _ Hsh) in Hef. by destruct Hef; apply (elem_of_dom_2 _ _ eq).
  - simpl. rewrite Hw3. unfold wf. rewrite Hwl. simpl. rewrite (in_count _ _ _ _ _ _ _ _ _ _ _ _ _ _ _ _ Hin). simpl.
    rewrite (ud_count _ _ _ _ _ _ _ _ _ _ _ Hud). lia.
  - unfold cur. simpl. rewrite Hw3. unfold wf. rewrite Hwl. simpl.
    by destruct (ud_rest _ _ _ _ _ _ _ _ _ _ _ Hud) as [-> _].
  - simpl. by rewrite Hw3.
  - simpl. rewrite Hw3. unfold wf. rewrite Hwl. simpl. rewrite (in_trace _ _ _ _ _ _ _ _ _ _ _ _ _ _ _ _ Hin). simpl.
    rewrite (ud_trace _ _ _ _ _ _ _ _ _ _ _ Hud). by rewrite <- !app_assoc.
Qed.

Lemma reload_full w fname id plen t p m re e pp mt tbl kids own l1 l2 h' c x f n :
  reloadable w fname id plen t p m re e pp mt tbl kids own l1 l2 h' c x f →
  ∃ p' w', xy_reload (S n) fname w = Ok XY_OK w' ∧
    reloaded w w' fname id plen t p m p' re tbl kids own l1 l2 h' c.
Proof.
  intros Hrd. pose proof (rd_loaded _ _ _ _ _ _ _ _ _ _ _ _ _ _ _ _ _ _ _ _ Hrd) as Hl.
  pose proof (rd_unloadable _ _ _ _ _ _ _ _ _ _ _ _ _ _ _ _ _ _ _ _ Hrd) as Hunl.
  rewrite (reload_found _ _ _ _ _ _ _ _ Hl).
  destruct (xy_unload_last _ _ _ _ _ _ _ _ _ _ _ _ _ _ _ _ n Hl (rd_last _ _ _ _ _ _ _ _ _ _ _ _ _ _ _ _ _ _ _ _ Hrd)
    (rd_childless _ _ _ _ _ _ _ _ _ _ _ _ _ _ _ _ _ _ _ _ Hrd) Hunl) as (wu' & Hun & Hud').
  rewrite (xy_unload_inner _ _ _ _ _ _ _ _ Hl) in Hun. apply strip_err in Hun as (wu & Hun & Hwu).
  rewrite (bind_Ok _ _ _ _ _ Hun). cbn [negb Z.eqb XY_OK]. rewrite (bind_Ok (modify _) _ _ tt _ eq_refl).
  assert (Hud : unloaded w wu p m re pp t tbl kids own (l1 ++ l2)) by (rewrite Hwu; by apply unloaded_err).
  clear Hud' Hwu wu'.
  destruct (reload_loads _ _ _ _ _ _ _ _ _ _ _ _ _ _ _ _ _ _ _ _ _ Hrd Hud) as (p' & t1 & w1 & wl & Hin & Hget & Hrun & Hwl).
  rewrite (bind_Ok _ _ _ _ _ Hrun), (bind_Ok (modify _) _ _ tt _ eq_refl). cbn [negb Z.eqb XY_OK].
  set (wf := wl <| w_reloading := false |>).
  rewrite (un_entry _ _ _ _ _ _ _ _ _ _ _ _ _ Hunl).
  rewrite (chain_prev_of _ _ _ _ _ _ _ _ _ (un_lists _ _ _ _ _ _ _ _ _ _ _ _ _ Hunl)
    (un_region _ _ _ _ _ _ _ _ _ _ _ _ _ Hunl) (un_own _ _ _ _ _ _ _ _ _ _ _ _ _ Hunl) (ls_mod _ _ _ _ _ _ _ Hl)).
  destruct (reload_between _ _ _ _ _ _ _ _ _ _ _ _ _ _ _ _ _ _ _ _ _ _ _ _ _ Hrd Hud Hin Hwl)
    as ((t' & m' & Hlf & Hget' & Hh & Hc & Hrc & Hri & Hrp & Htmp) & Ht & Hls & Hsh). fold wf in Hlf, Ht, Hls, Hsh.
  assert (Hre : re ∈ dom (w_regions w)) by (eapply elem_of_dom_2, Hunl).
  destruct (reload_place_run wf fname id plen t' p' m' tbl kids re l1 l2 _ Hlf Ht Hls) as (w2 & w3 & Hpl & H1 & H2);
    [by rewrite (shape_dom _ _ Hsh)|exists (l1 ++ l2), []; rewrite app_nil_r; by rewrite decide_True|].
  exists p'. eexists. split; [exact Hpl|].
  eapply reload_settled; [exact Hrd|exact Hud|exact Hin|exact Hget|exact Hwl|..]; fold wf; try done.
  by exists t', m'.
Qed.

(** C12. [xy_reload] of a module that is loaded: loaded more than once, the new
    file is opened and closed again, and the code that runs, the modules, their
    lists and the table stay what they were; loaded once, the old module goes
    and a new one of the same file, region and width takes its name in the table
    and its place among the modules of its region, whose caches go stale, with
    the same number of modules and the current region unchanged. *)
Theorem xy_reload_contract w fname id plen t p m n (Hl : loaded_as w fname id plen t p m) :
  (∀ h' re tbl kids own l1 l2,
    1 < me_refcount m → me_region_entry m = Some re → re ∈ dom (w_regions w) → own re = l1 ++ p :: l2 →
    tree_wf (w_regions w) tbl kids → mods_wf (w_regions w) (w_mods w) own →
    (∀ w1, cb_dlopen (reload_file (length (w_trace w)) fname) w1 = Ok (Some h') w1) →
    ∃ w', xy_reload (S n) fname w = Ok XY_OK w' ∧ not_reloaded w w' fname h' tbl kids own) ∧
  (∀ re e pp mt tbl kids own l1 l2 h' c x f,
    reloadable w fname id plen t p m re e pp mt tbl kids own l1 l2 h' c x f →
    ∃ p' w', xy_reload (S n) fname w = Ok XY_OK w' ∧
      reloaded w w' fname id plen t p m p' re tbl kids own l1 l2 h' c).
Proof.
  split; intros.
  - by eapply reload_shared.
  - by eapply reload_full.
Qed.
End reload.

(** ** The module of [LoadProps], reloaded *)

Section witnesses.
Local Existing Instances gmap_corm gmap_corm_laws object_callbacks.
Local Instance reload_os : Os := object_os XY_CTX_ABI_DESC.

Lemma hello_reloadable :
  reloadable hello_world "hello" 0 0 hello_table 3%positive hello_entry 1%positive hello_region 2%positive
    (default ∅ (rt_mod_by_region_hd (w_rt hello_world)))
    (corm_put corm_empty (mk_region_key XY_REGION_ROOT 0) 1%positive) (λ _, []) hello_own [] [] 31%positive 70%positive
    (default xy_ctx_zero (w_ctxs hello_world !! 70%positive)) 53%positive.
Proof.
  split; try (vm_compute; reflexivity).
  - exact hello_loaded.
  - intros k q Hk Hne. apply hello_table_inv in Hk. contradiction.
  - exact hello_unloadable.
  - assert (w_mods hello_world = {[3%positive := hello_entry]}) as -> by (vm_compute; reflexivity).
    intros q. rewrite dom_singleton_L. intros ->%elem_of_singleton. vm_compute. reflexivity.
  - split; [vm_compute; reflexivity|]. left. vm_compute. reflexivity.
  - assert (Hids : ∀ n, hook_ids hello_world n = None) by (intros n; by vm_compute). split.
    + eexists. split; [vm_compute; reflexivity|]. vm_compute. reflexivity.
    + vm_compute. reflexivity.
    + intros n1 n2 h H1. rewrite Hids in H1. discriminate.
    + intros n h H1. rewrite Hids in H1. discriminate.
Qed.

Lemma xy_reload_contract_witness :
  ∃ p' w', xy_reload 1 "hello" hello_world = Ok XY_OK w' ∧
    reloaded hello_world w' "hello" 0 0 hello_table 3%positive hello_entry p' 1%positive
      (corm_put corm_empty (mk_region_key XY_REGION_ROOT 0) 1%positive) (λ _, []) hello_own [] [] 31%positive 70%positive.
Proof.
  exact (proj2 (xy_reload_contract hello_world "hello" 0 0 hello_table 3%positive hello_entry 0 hello_loaded)
    _ _ _ _ _ _ _ _ _ _ _ _ _ hello_reloadable).
Defined.
End witnesses.
