(* ===== verification/Family.v ===== *)
(** * Who loaded whom

    The modules by their loaders and reference counts, and the modules an
    unload gets to: the one it is about, and those loaded by a module that goes.
    Without the runtime; Cascade relates it to [_mod_unload]. *)
From S2P Require Import Prelude Words State.

(** A module's loader and its count. *)
Abbreviation family := (gmap mptr (option mptr * Z)).

(** A module is older than those it loads. *)
Definition forest (f : family) : Prop := ∀ r q n, f !! r = Some (Some q, n) → (q < r)%positive.

(** What an unload of [p] gets to. *)
Inductive visited (f : family) (p : mptr) : mptr → Prop :=
  | visited_self : visited f p p
  | visited_child q r x (n : Z) : visited f p q → f !! q = Some (x, n) → n ≤ 1 →
      is_Some (f !! r) → fst <$> f !! r = Some (Some q) → visited f p r.

Section family.
Implicit Types (f : family) (p q r c : mptr).

Lemma visited_in f p q : is_Some (f !! p) → visited f p q → is_Some (f !! q).
Proof. intros Hp H. by destruct H. Qed.

Lemma visited_inv f p r : visited f p r → r = p ∨ ∃ q x n, visited f p q ∧ f !! q = Some (x, n) ∧ n ≤ 1 ∧
  fst <$> f !! r = Some (Some q).
Proof. intros [|q r' x n]; [by left|]. right. by exists q, x, n. Qed.

Lemma forest_parent f r q : forest f → fst <$> f !! r = Some (Some q) → (q < r)%positive.
Proof. intros Hf. destruct (f !! r) as [[y n]|] eqn:Hr; [|done]. simpl. intros [= ->]. by eapply Hf. Qed.

Lemma visited_le f p q : forest f → visited f p q → (p ≤ q)%positive.
Proof.
  intros Hf. induction 1 as [|q r x n _ IH _ _ _ Hr]; [lia|]. apply (forest_parent _ _ _ Hf) in Hr. lia.
Qed.

(** Siblings have nothing in common. *)
Lemma visited_disjoint f p c1 c2 q :
  forest f → fst <$> f !! c1 = Some (Some p) → fst <$> f !! c2 = Some (Some p) → c1 ≠ c2 →
  visited f c1 q → visited f c2 q → False.
Proof.
  intros Hf H1 H2 Hne Hv. pose proof (forest_parent _ _ _ Hf H1). pose proof (forest_parent _ _ _ Hf H2).
  induction Hv as [|q r x n Hv IH _ _ _ Hr]; intros Hv2; apply visited_inv in Hv2 as [->|(q' & y & k & Hv' & _ & _ & Hr')].
  - done.
  - apply (visited_le _ _ _ Hf) in Hv'. assert (q' = p) as -> by congruence. lia.
  - apply (visited_le _ _ _ Hf) in Hv. assert (q = p) as -> by congruence. lia.
  - apply IH. by assert (q' = q) as <- by congruence.
Qed.

(** What was done to others makes no difference. *)
Lemma visited_ext f f' p q :
  (∀ r, visited f p r → f' !! r = f !! r) →
  (∀ r x, f' !! r = Some x → ∃ y, f !! r = Some y ∧ y.1 = x.1) →
  visited f p q ↔ visited f' p q.
Proof.
  intros Hsame Hsub. split; induction 1 as [|q r x n Hv IH Hq Hn [y Hy] Hr]; try constructor.
  - assert (Hvr : visited f p r) by (eapply visited_child; eauto).
    eapply visited_child; [exact IH|rewrite (Hsame q Hv); exact Hq|done|by rewrite (Hsame r Hvr), Hy|by rewrite (Hsame r Hvr)].
  - destruct (Hsub r y Hy) as (y' & Hy' & Heq). rewrite (Hsame q IH) in Hq.
    eapply visited_child; [exact IH|exact Hq|done|by rewrite Hy'|]. rewrite Hy'. rewrite Hy in Hr. simpl in *. congruence.
Qed.

(** A module that goes takes along what its children take along. *)
Lemma visited_split f p q x n :
  forest f → f !! p = Some (x, n) → n ≤ 1 →
  visited f p q ↔ q = p ∨ ∃ c, fst <$> f !! c = Some (Some p) ∧ visited f c q.
Proof.
  intros Hf Hp Hn. split.
  - induction 1 as [|q r y k Hv IH Hq Hk Hr Hpar]; [by left|]. right. destruct IH as [->|(c & Hc & Hcq)].
    + exists r. split; [done|constructor].
    + exists c. split; [done|]. by eapply visited_child.
  - intros [->|(c & Hc & Hv)]; [constructor|].
    assert (Hc' : is_Some (f !! c)) by (destruct (f !! c); [by eexists|done]).
    induction Hv as [|q r y k Hv IH Hq Hk Hr Hpar].
    + eapply visited_child; [constructor|exact Hp|done..].
    + by eapply visited_child.
Qed.

Lemma visited_kept f p q x n : f !! p = Some (x, n) → 1 < n → visited f p q ↔ q = p.
Proof.
  intros Hp Hn. split; [|intros ->; constructor].
  induction 1 as [|q r y k _ -> Hq Hk _ _]; [done|]. rewrite Hp in Hq. injection Hq as _ <-. lia.
Qed.
End family.
