(* ===== verification/Cascade.v ===== *)
(** * Unloading with children

    The cascade of [_mod_unload]: the last unload of a module unloads what it
    loaded, children before their loader, each on the same terms. *)
From Stdlib Require Import Sorted.
From stdpp Require Import sorting.
From S2P Require Import Prelude Words Corm State Env Regions RegionTree RegionWalks Runtime Paths PathSpecs RegionApi RegionInv RegionSpecs Boot Hooks HookSpecs Subtree ModKey ModList ModListSpecs Loader Unload LoadSpecs LoadLink UnloadSpecs LoadProps Family.

Section cascade.
Context {C : Corm} {CL : CormLaws C} {OS : Os} {CB : Callbacks}.
Implicit Types (w : world) (p q r : mptr) (m : mod_entry) (own : rptr → list mptr) (order : list mptr) (V : gset mptr).

(** A module but for its cached listeners and its links. *)
Definition lasting m : mod_entry := me_unlinked m <| me_fn_cache := [] |> <| me_hook_impl_bits := [] |>.
Definition family_of w : family := (λ m, (me_parent_entry m, me_refcount m)) <$> w_mods w.

Lemma lasting_forgets m p l q mq mq' : me_unlinked mq' = me_unlinked (forgets m p l q mq) → lasting mq' = lasting mq.
Proof.
  intros Hu. destruct (forgets_same m p l q mq) as (c & b & Hs). unfold lasting. rewrite Hu, Hs. by destruct mq.
Qed.
Lemma lasting_counted m m' : lasting m' = lasting m → lasting (counted_down m') = lasting (counted_down m).
Proof. destruct m, m'. unfold lasting, me_unlinked, counted_down; simpl. congruence. Qed.
Lemma lasting_farewell m m' : lasting m' = lasting m → farewell m' = farewell m.
Proof.
  destruct m, m'. unfold lasting, me_unlinked, farewell, cleanup_events; simpl. intros [=]; subst. done.
Qed.

(** The module can be found again by the name its context holds. *)
Definition named w m : Prop :=
  ∃ c x path, me_ctx m = Some c ∧ w_ctxs w !! c = Some x ∧ x_module_path x = Some path ∧
    me_mod_key m = module_key (resolve path) (me_region_id m) (me_region_plen m).

(** A runtime all of whose modules can be unloaded. *)
Record standing w (tbl : corm region_key rptr) (kids : rptr → list rptr) own : Prop := {
  sn_mem : w_mem w = [];
  sn_tree : tree_wf (w_regions w) tbl kids;
  sn_lists : mods_wf (w_regions w) (w_mods w) own;
  sn_index : is_Some (rt_mod_by_region_hd (w_rt w));
  sn_table : ∃ t, rt_mod_hd (w_rt w) = Some t ∧
    ∀ k q, corm_get t k = Some q ↔ ∃ m, w_mods w !! q = Some m ∧ me_mod_key m = k;
  sn_place q : q ∈ dom (w_mods w) → ∃ re, re ∈ dom (w_regions w) ∧ q ∈ own re;
  sn_next q : q ∈ dom (w_mods w) → (q < w_next w)%positive;
  sn_forest : forest (family_of w);
  sn_path q m : w_mods w !! q = Some m → is_Some (me_load_path m);
  sn_named q m : w_mods w !! q = Some m → named w m;
  sn_quiet q m : w_mods w !! q = Some m → cleanup_quiet m
}.

(** The lists without the modules in [order]. *)
Definition without order own : rptr → list mptr := λ re, filter (λ q, q ∉ order) (own re).

(** What is left when the modules [V] were unloaded once each and those in
    [order] went, in this order. *)
Record cascaded w w' (tbl : corm region_key rptr) (kids : rptr → list rptr) own V order : Prop := {
  cs_mods q : lasting <$> w_mods w' !! q =
    if decide (q ∈ order) then None
    else lasting <$> (if decide (q ∈ V) then counted_down <$> w_mods w !! q else w_mods w !! q);
  cs_gone q : q ∈ order ↔ q ∈ V ∧ ∃ m, w_mods w !! q = Some m ∧ me_refcount m ≤ 1;
  cs_NoDup : NoDup order;
  cs_first : StronglySorted (λ q r, ∀ m, w_mods w !! r = Some m → me_parent_entry m ≠ Some q) order;
  cs_standing : standing w' tbl kids (without order own);
  cs_stale q re a e : q ∈ order → q ∈ own re → re ∈ dom (w_regions w) → sub (w_regions w) a re →
    w_regions w !! a = Some e → ∃ e', w_regions w' !! a = Some e' ∧ re_subtree_mods_dirty e' = true;
  cs_dirty a e : w_regions w !! a = Some e → re_subtree_mods_dirty e = true →
    ∃ e', w_regions w' !! a = Some e' ∧ re_subtree_mods_dirty e' = true;
  cs_count : rt_mod_count (w_rt w') = rt_mod_count (w_rt w) - Z.of_nat (length order);
  cs_trace : w_trace w' = w_trace w ++ (order ≫= λ q, from_option farewell [] (w_mods w !! q));
  cs_shape : re_shape <$> w_regions w' = re_shape <$> w_regions w;
  cs_rest : w_tls w' = w_tls w ∧ w_ctxs w' = w_ctxs w ∧ w_next w' = w_next w ∧ rt_inited (w_rt w') = rt_inited (w_rt w)
}.

(** ** Lists *)

Lemma sorted_mono {A} (R R' : A → A → Prop) (l : list A) :
  StronglySorted R l → (∀ x y, x ∈ l → y ∈ l → R x y → R' x y) → StronglySorted R' l.
Proof.
  induction 1 as [|x l Hl IH Hx]; intros HR; constructor; [apply IH; intros; apply HR; auto; by right|].
  rewrite Forall_forall in *. intros y Hy. apply HR; [by left|by right|by apply Hx].
Qed.

Lemma bind_ext_in {A B} (f g : A → list B) (l : list A) : (∀ x, x ∈ l → f x = g x) → l ≫= f = l ≫= g.
Proof.
  induction l as [|x l IH]; intros Hl; [done|]. rewrite !bind_cons, Hl by (by left).
  by rewrite IH by (intros; apply Hl; by right).
Qed.

(** ** Moving along *)

Lemma filter_out_none (o l : list mptr) : (∀ q, q ∈ l → q ∉ o) → filter (λ q, q ∉ o) l = l.
Proof.
  induction l as [|q l IH]; intros Hl; [done|]. rewrite filter_cons_True by (apply Hl; by left).
  by rewrite IH by (intros; apply Hl; by right).
Qed.
Lemma without_nil own re : without [] own re = own re.
Proof. apply filter_out_none. intros q _. apply not_elem_of_nil. Qed.
Lemma without_app o1 o2 own re : without o2 (without o1 own) re = without (o1 ++ o2) own re.
Proof.
  unfold without. rewrite list_filter_filter. apply list_filter_iff. intros q. rewrite not_elem_of_app. tauto.
Qed.

Lemma standing_ext w tbl kids own own' : (∀ re, own re = own' re) → standing w tbl kids own → standing w tbl kids own'.
Proof.
  intros Ho H. destruct H. split; try done.
  - eapply mods_wf_ext; [|done]. intros q _. apply Ho.
  - intros q Hq. destruct (sn_place0 q Hq) as (re & ? & ?). exists re. by rewrite <- Ho.
Qed.

Lemma cascaded_refl w tbl kids own : standing w tbl kids own → cascaded w w tbl kids own ∅ [].
Proof.
  intros Hs. split; try done.
  - intros q. set_solver.
  - constructor.
  - constructor.
  - eapply standing_ext; [|exact Hs]. intros re. by rewrite without_nil.
  - intros q re a e Hq. by apply elem_of_nil in Hq.
  - intros a e He Hd. by exists e.
  - simpl. lia.
  - simpl. by rewrite app_nil_r.
Qed.

(** What the first part leaves of a module the second part gets to. *)
Lemma cascaded_mods w w1 tbl kids own V o q m1 :
  cascaded w w1 tbl kids own V o → w_mods w1 !! q = Some m1 →
  (q ∉ o) ∧ ∃ m, w_mods w !! q = Some m ∧ lasting m1 = lasting (if decide (q ∈ V) then counted_down m else m).
Proof.
  intros H H1. pose proof (cs_mods _ _ _ _ _ _ _ H q) as E. rewrite H1 in E.
  case_decide; [done|].
  split; [done|]. destruct (w_mods w !! q) as [m|]; [|by case_decide]. exists m. split; [done|].
  destruct (decide (q ∈ V)); exact (inj Some _ _ E).
Qed.

Lemma cascaded_same w w1 tbl kids own V o q m :
  cascaded w w1 tbl kids own V o → w_mods w !! q = Some m → q ∉ V →
  ∃ m1, w_mods w1 !! q = Some m1 ∧ lasting m1 = lasting m.
Proof.
  intros H Hm Hq. pose proof (cs_mods _ _ _ _ _ _ _ H q) as E. rewrite Hm in E.
  rewrite decide_False in E by (by rewrite (cs_gone _ _ _ _ _ _ _ H); intros [? _]).
  rewrite decide_False in E by done. simpl in E. destruct (w_mods w1 !! q) as [m1|]; [|done]. exists m1. split; [done|]. exact (inj Some _ _ E).
Qed.

Lemma cascaded_order w w1 tbl kids own V o q : cascaded w w1 tbl kids own V o → q ∈ o → q ∈ V.
Proof. intros H. rewrite (cs_gone _ _ _ _ _ _ _ H). by intros [? _]. Qed.

(** Two parts, one after the other. *)
Section trans.
Context w w1 w2 tbl kids own V1 V2 o1 o2
  (H1 : cascaded w w1 tbl kids own V1 o1) (H2 : cascaded w1 w2 tbl kids (without o1 own) V2 o2) (Hdis : V1 ## V2).

Lemma trans_first q : q ∈ o1 → q ∈ V1.
Proof. exact (cascaded_order _ _ _ _ _ _ _ _ H1). Qed.
Lemma trans_second q : q ∈ o2 → q ∈ V2.
Proof. exact (cascaded_order _ _ _ _ _ _ _ _ H2). Qed.

Lemma trans_kept q : q ∈ V2 → lasting <$> w_mods w1 !! q = lasting <$> w_mods w !! q.
Proof.
  intros Hq. rewrite (cs_mods _ _ _ _ _ _ _ H1). rewrite decide_False by (intros ?%trans_first; set_solver).
  by rewrite decide_False by set_solver.
Qed.

Lemma trans_same q m : q ∈ V2 → w_mods w !! q = Some m → ∃ m1, w_mods w1 !! q = Some m1 ∧ lasting m1 = lasting m.
Proof. intros Hq Hm. eapply cascaded_same; [exact H1|done|]. intros ?. set_solver. Qed.

Lemma trans_mods q :
  lasting <$> w_mods w2 !! q =
    if decide (q ∈ o1 ++ o2) then None
    else lasting <$> (if decide (q ∈ V1 ∪ V2) then counted_down <$> w_mods w !! q else w_mods w !! q).
Proof.
  rewrite (cs_mods _ _ _ _ _ _ _ H2). pose proof (cs_mods _ _ _ _ _ _ _ H1 q) as E.
  destruct (decide (q ∈ o2)) as [Hq|Hq]; [by rewrite decide_True by (apply elem_of_app; by right)|].
  destruct (decide (q ∈ V2)) as [Hv|Hv].
  - pose proof (trans_kept q Hv) as Hkeep.
    rewrite decide_False by (rewrite elem_of_app; intros [?%trans_first|]; [set_solver|done]).
    rewrite decide_True by set_solver. destruct (w_mods w1 !! q), (w_mods w !! q); try done. simpl in *. f_equal.
    apply (inj Some) in Hkeep. by apply lasting_counted.
  - rewrite E. rewrite (decide_ext (q ∈ o1 ++ o2) (q ∈ o1)) by (rewrite elem_of_app; tauto).
    case_decide; [done|]. by rewrite (decide_ext (q ∈ V1 ∪ V2) (q ∈ V1)) by set_solver.
Qed.

Lemma trans_gone q : q ∈ o1 ++ o2 ↔ q ∈ V1 ∪ V2 ∧ ∃ m, w_mods w !! q = Some m ∧ me_refcount m ≤ 1.
Proof.
  rewrite elem_of_app, (cs_gone _ _ _ _ _ _ _ H1), (cs_gone _ _ _ _ _ _ _ H2), elem_of_union.
  split; [intros [[? ?]|[Hq (m & Hm & Hrc)]]|intros [[Hq|Hq] (m & Hm & Hrc)]]; [by auto| |left; by eauto|right].
  - split; [by right|]. destruct (cascaded_mods _ _ _ _ _ _ _ _ _ H1 Hm) as (_ & m' & Hm' & El).
    rewrite decide_False in El by set_solver. exists m'. split; [done|]. apply (f_equal me_refcount) in El. simpl in El. lia.
  - split; [done|]. destruct (trans_same q m Hq Hm) as (m1 & Hm1 & El).
    exists m1. split; [done|]. apply (f_equal me_refcount) in El. simpl in El. lia.
Qed.

Lemma trans_stale q re a e :
  q ∈ o1 ++ o2 → q ∈ own re → re ∈ dom (w_regions w) → sub (w_regions w) a re → w_regions w !! a = Some e →
  ∃ e', w_regions w2 !! a = Some e' ∧ re_subtree_mods_dirty e' = true.
Proof.
  intros Hq Hre Hd Ha He. apply elem_of_app in Hq as [Hq|Hq].
  { destruct (cs_stale _ _ _ _ _ _ _ H1 q re a e) as (e1 & He1 & Hd1); try done. by apply (cs_dirty _ _ _ _ _ _ _ H2 a e1). }
  destruct (w_regions w1 !! a) as [e1|] eqn:He1.
  2: { apply not_elem_of_dom in He1. rewrite (shape_dom _ _ (cs_shape _ _ _ _ _ _ _ H1)) in He1. by apply elem_of_dom_2 in He. }
  apply (cs_stale _ _ _ _ _ _ _ H2 q re a e1); try done.
  - apply list_elem_of_filter. split; [|done]. intros ?%trans_first. apply trans_second in Hq. set_solver.
  - by rewrite (shape_dom _ _ (cs_shape _ _ _ _ _ _ _ H1)).
  - by rewrite (sub_shape _ _ _ _ (cs_shape _ _ _ _ _ _ _ H1)).
Qed.

Lemma cascaded_trans :
  (∀ q r m, q ∈ o1 → r ∈ o2 → w_mods w !! r = Some m → me_parent_entry m ≠ Some q) →
  cascaded w w2 tbl kids own (V1 ∪ V2) (o1 ++ o2).
Proof.
  intros Hpar. split; [exact trans_mods|exact trans_gone|..|exact trans_stale| | | | |].
  - apply NoDup_app. split_and!; [apply H1| |apply H2]. intros q ?%trans_first ?%trans_second. set_solver.
  - apply StronglySorted_app_2; [by eauto|apply H1|]. eapply sorted_mono; [apply H2|].
    intros q r _ Hr HR m Hm. destruct (trans_same r m) as (m1 & Hm1 & El); [by apply trans_second|done|].
    apply (f_equal me_parent_entry) in El. simpl in El. rewrite <- El. by apply HR.
  - eapply standing_ext; [|apply H2]. intros re. apply without_app.
  - intros a e He Hd. destruct (cs_dirty _ _ _ _ _ _ _ H1 a e He Hd) as (e1 & He1 & Hd1).
    by apply (cs_dirty _ _ _ _ _ _ _ H2 a e1).
  - rewrite (cs_count _ _ _ _ _ _ _ H2), (cs_count _ _ _ _ _ _ _ H1), length_app. lia.
  - rewrite (cs_trace _ _ _ _ _ _ _ H2), (cs_trace _ _ _ _ _ _ _ H1), <- app_assoc, bind_app. do 2 f_equal.
    apply bind_ext_in. intros q Hq%trans_second. pose proof (trans_kept q Hq) as Hkeep.
    destruct (w_mods w1 !! q), (w_mods w !! q); try done. simpl. apply lasting_farewell. exact (inj Some _ _ Hkeep).
  - by rewrite (cs_shape _ _ _ _ _ _ _ H2), (cs_shape _ _ _ _ _ _ _ H1).
  - destruct (cs_rest _ _ _ _ _ _ _ H1) as (? & ? & ? & ?), (cs_rest _ _ _ _ _ _ _ H2) as (? & ? & ? & ?).
    split_and!; congruence.
Qed.
End trans.

(** ** One module *)

Lemma family_lookup w q m : w_mods w !! q = Some m → family_of w !! q = Some (me_parent_entry m, me_refcount m).
Proof. intros Hm. unfold family_of. by rewrite lookup_fmap, Hm. Qed.
Lemma forest_parents w q m r :
  forest (family_of w) → w_mods w !! q = Some m → me_parent_entry m = Some r → (r < q)%positive.
Proof. intros Hf Hm Hr. apply (Hf q r (me_refcount m)). by rewrite (family_lookup _ _ _ Hm), Hr. Qed.
Lemma forest_lasting w w' :
  (∀ q m', w_mods w' !! q = Some m' → ∃ m, w_mods w !! q = Some m ∧ me_parent_entry m' = me_parent_entry m) →
  forest (family_of w) → forest (family_of w').
Proof.
  intros Hsub Hf r q n. unfold family_of. rewrite lookup_fmap. intros (m' & Hm' & [= Hp Hn])%fmap_Some.
  destruct (Hsub r m' Hm') as (m & Hm & E). eapply forest_parents; [exact Hf|exact Hm|congruence].
Qed.

Lemma standing_counted w tbl kids own p m :
  standing w tbl kids own → w_mods w !! p = Some m →
  standing (w <| w_mods ::= <[p := counted_down m]> |>) tbl kids own.
Proof.
  intros [Hmem Ht Hl Hi (t & Htab & Hget) Hp Hn Hf Hpath Hnm Hq] Hm.
  set (w1 := w <| w_mods ::= <[p := counted_down m]> |>).
  assert (Hall : ∀ q m1, w_mods w1 !! q = Some m1 → ∃ m0, w_mods w !! q = Some m0 ∧ (m1 = m0 ∨ m1 = counted_down m0)).
  { intros q m1. simpl. intros [[<- <-]|[_ ?]]%lookup_insert_Some; eauto. }
  assert (Hdom : dom (w_mods w1) = dom (w_mods w)).
  { simpl. rewrite dom_insert_L. apply elem_of_dom_2 in Hm. set_solver. }
  split; rewrite ?Hdom; try done.
  - apply (mods_wf_links _ _ _ _ Hl). intros q mq Hmq. simpl. destruct (decide (q = p)) as [->|].
    + rewrite lookup_insert_eq. assert (mq = m) as -> by congruence. by eexists.
    + rewrite lookup_insert_ne by done. by exists mq.
  - exists t. split; [done|]. intros k q. rewrite Hget. simpl. destruct (decide (q = p)) as [->|].
    + rewrite lookup_insert_eq, Hm. split; intros (? & [= <-] & <-); by eexists.
    + by rewrite lookup_insert_ne.
  - eapply forest_lasting; [|exact Hf]. intros q m1 (m0 & Hm0 & [->| ->])%Hall; by exists m0.
  - intros q m1 (m0 & Hm0 & [->| ->])%Hall; by apply (Hpath q m0).
  - intros q m1 (m0 & Hm0 & [->| ->])%Hall; by apply (Hnm q m0).
  - intros q m1 (m0 & Hm0 & [->| ->])%Hall; by apply (Hq q m0).
Qed.

(** A module that others loaded too. *)
Lemma cascaded_counted w tbl kids own p m :
  standing w tbl kids own → w_mods w !! p = Some m → 1 < me_refcount m →
  cascaded w (w <| w_mods ::= <[p := counted_down m]> |>) tbl kids own {[p]} [].
Proof.
  intros Hs Hm Hrc. split; try done.
  - intros q. simpl. destruct (decide (q = p)) as [->|].
    + rewrite lookup_insert_eq, decide_True by set_solver. by rewrite Hm.
    + by rewrite lookup_insert_ne, decide_False by set_solver.
  - intros q. split; [by intros ?%elem_of_nil|]. intros [->%elem_of_singleton (m' & Hm' & ?)].
    rewrite Hm in Hm'. injection Hm' as <-. lia.
  - constructor.
  - constructor.
  - eapply standing_ext; [|by apply standing_counted]. intros re. by rewrite without_nil.
  - intros q re a e Hq. by apply elem_of_nil in Hq.
  - intros a e He Hd. by exists e.
  - simpl. lia.
  - simpl. by rewrite app_nil_r.
Qed.

Lemma filter_out_one p l1 l2 : NoDup (l1 ++ p :: l2) → filter (λ q, q ∉ [p]) (l1 ++ p :: l2) = l1 ++ l2.
Proof.
  intros (Hd1 & Hx & [Hn Hd2]%NoDup_cons)%NoDup_app. rewrite filter_app, filter_cons_False by (intros H; apply H; by left).
  rewrite !filter_out_none; [done|..]; intros q Hq ->%list_elem_of_singleton; [done|]. apply (Hx p); [done|by left].
Qed.

(** What [unload_finish] asks for. *)
Lemma standing_unloadable w tbl kids own p m :
  standing w tbl kids own → w_mods w !! p = Some m →
  ∃ re e pp t mt l1 l2, unloadable w p m re e pp t mt tbl kids own l1 l2 ∧
    (∀ k q, corm_get t k = Some q ↔ ∃ m, w_mods w !! q = Some m ∧ me_mod_key m = k).
Proof.
  intros [_ Ht Hl [mt Hi] (t & Htab & Hget) Hp _ _ Hpath _ Hq] Hm.
  destruct (Hp p (elem_of_dom_2 _ _ _ Hm)) as (re & Hre & (l1 & l2 & Hown)%list_elem_of_split).
  destruct (Hpath _ _ Hm) as [pp Hpp]. pose proof Hre as [e He]%elem_of_dom.
  exists re, e, pp, t, mt, l1, l2. split; [|done]. split; try done.
  - apply (mw_entry _ _ _ Hl re p m); [done| |done]. rewrite Hown. set_solver.
  - intros k q (mq & Hmq & _)%Hget. by eapply elem_of_dom_2.
  - by apply (Hq p).
Qed.

Lemma without_one w tbl kids own p (re q : rptr) l1 l2 :
  standing w tbl kids own → own re = l1 ++ p :: l2 → re ∈ dom (w_regions w) → q ∈ dom (w_regions w) →
  without [p] own q = if decide (q = re) then l1 ++ l2 else own q.
Proof.
  intros Hs Hown Hre Hq. unfold without. pose proof Hre as [e He]%elem_of_dom. case_decide as E; [subst|].
  - rewrite Hown. apply filter_out_one. rewrite <- Hown. eapply mods_wf_NoDup; [apply Hs|exact He].
  - apply filter_out_none. intros r Hr ->%list_elem_of_singleton. apply E.
    eapply (mods_wf_disjoint (w_regions w)); [apply Hs|done..|]. rewrite Hown. set_solver.
Qed.

Lemma standing_unloaded w w' tbl kids own p m re e pp t mt l1 l2 :
  standing w tbl kids own → unloadable w p m re e pp t mt tbl kids own l1 l2 →
  (∀ k q, corm_get t k = Some q ↔ ∃ m, w_mods w !! q = Some m ∧ me_mod_key m = k) →
  unloaded w w' p m re pp t tbl kids own (l1 ++ l2) → standing w' tbl kids (without [p] own).
Proof.
  intros Hs Hun Hget Hud. pose proof (un_mod _ _ _ _ _ _ _ _ _ _ _ _ _ Hun) as Hm.
  pose proof (elem_of_dom_2 _ _ _ (un_region _ _ _ _ _ _ _ _ _ _ _ _ _ Hun)) as Hre.
  pose proof (un_own _ _ _ _ _ _ _ _ _ _ _ _ _ Hun) as Hown.
  destruct Hud as [Hgone Hdom Hoth (t' & Ht' & Hget') Htree Hlists _ _ _ _ _ _ (_ & Hctx & _) (Hi & Hmem & Hnext & Hidx & _ & _) Hsh].
  assert (Hall : ∀ q m', w_mods w' !! q = Some m' → q ≠ p ∧ ∃ m0, w_mods w !! q = Some m0 ∧ lasting m' = lasting m0).
  { intros q m' Hm'. destruct (decide (q = p)) as [->|Hne]; [congruence|]. split; [done|].
    pose proof (elem_of_dom_2 _ _ _ Hm') as Hd. rewrite Hdom in Hd. apply elem_of_difference in Hd as [[m0 Hm0]%elem_of_dom _].
    exists m0. split; [done|]. destruct (Hoth q m0 Hne Hm0) as (m1 & Hm1 & E). assert (m1 = m') as -> by congruence.
    by eapply lasting_forgets. }
  pose proof (λ q, without_one w tbl kids own p re q l1 l2 Hs Hown Hre) as Hwo.
  destruct Hs as [Hmem0 _ _ _ _ Hplace Hn Hf Hpath Hnm Hq]. split; try done; try congruence.
  - eapply mods_wf_ext; [|exact Hlists]. intros q Hq'. rewrite (shape_dom _ _ Hsh) in Hq'. symmetry.
    by eapply Hwo.
  - exists t'. split; [done|]. intros k q. rewrite Hget'. case_decide as E.
    + split; [done|]. intros (m' & (Hne & m0 & Hm0 & El)%Hall & Hk). exfalso. apply Hne.
      apply (f_equal me_mod_key) in El. simpl in El.
      assert (Hkq : corm_get t k = Some q) by (apply Hget; exists m0; split; [done|congruence]).
      assert (Hkp : corm_get t k = Some p) by (apply Hget; by exists m). congruence.
    + rewrite Hget. split; intros (m0 & Hm0 & Hk).
      * assert (Hne : q ≠ p) by (intros ->; congruence). destruct (Hoth q m0 Hne Hm0) as (m1 & Hm1 & El).
        exists m1. split; [done|]. apply lasting_forgets, (f_equal me_mod_key) in El. simpl in El. congruence.
      * apply Hall in Hm0 as (_ & m1 & Hm1 & El). exists m1. split; [done|].
        apply (f_equal me_mod_key) in El. simpl in El. congruence.
  - intros q. rewrite Hdom. intros [Hd Hne]%elem_of_difference. destruct (Hplace q Hd) as (re' & Hre' & Hin).
    exists re'. rewrite (shape_dom _ _ Hsh). split; [done|]. apply list_elem_of_filter. split; [|done]. set_solver.
  - intros q. rewrite Hdom, Hnext. intros [Hd _]%elem_of_difference. by apply Hn.
  - eapply forest_lasting; [|exact Hf]. intros q m' (_ & m0 & Hm0 & El)%Hall. exists m0. split; [done|].
    by apply (f_equal me_parent_entry) in El.
  - intros q m' (_ & m0 & Hm0 & El)%Hall. apply (f_equal me_load_path) in El. simpl in El. rewrite El. by apply (Hpath q).
  - intros q m' (_ & m0 & Hm0 & El)%Hall. destruct (Hnm q m0 Hm0) as (c & x & path & Hc & Hx & Hp & Hk).
    exists c, x, path. rewrite Hctx. pose proof (f_equal me_ctx El). pose proof (f_equal me_mod_key El).
    pose proof (f_equal me_region_id El). pose proof (f_equal me_region_plen El). simpl in *. by split_and!; congruence.
  - intros q m' (_ & m0 & Hm0 & El)%Hall. specialize (Hq q m0 Hm0). unfold cleanup_quiet in *.
    pose proof (f_equal me_handle El) as E1. pose proof (f_equal me_region_state El) as E2. simpl in *. by rewrite E1, E2.
Qed.

Lemma unload_finish_cascaded w tbl kids own p m :
  standing w tbl kids own → w_mods w !! p = Some m → me_refcount m ≤ 1 →
  ∃ w', unload_finish p w = Ok XY_OK w' ∧ cascaded w w' tbl kids own {[p]} [p].
Proof.
  intros Hs Hm Hrc. destruct (standing_unloadable _ _ _ _ _ _ Hs Hm) as (re & e & pp & t & mt & l1 & l2 & Hun & Hget).
  destruct (unload_finish_run _ _ _ _ _ _ _ _ _ _ _ _ _ Hun) as (w' & Hrun & Hud). exists w'. split; [done|].
  pose proof (standing_unloaded _ _ _ _ _ _ _ _ _ _ _ _ _ _ Hs Hun Hget Hud) as Hs'.
  pose proof (elem_of_dom_2 _ _ _ (un_region _ _ _ _ _ _ _ _ _ _ _ _ _ Hun)) as Hre.
  pose proof (un_own _ _ _ _ _ _ _ _ _ _ _ _ _ Hun) as Hown.
  destruct Hud as [Hgone Hdom Hoth _ _ _ Hstale Helse _ Hcnt Htr _ (? & ? & _) (? & _ & ? & _) Hsh]. split; try done.
  - intros q. destruct (decide (q = p)) as [->|Hne]; [by rewrite Hgone, decide_True by (by left)|].
    rewrite decide_False by (by intros ?%list_elem_of_singleton). rewrite decide_False by set_solver.
    destruct (w_mods w !! q) as [mq|] eqn:Hmq.
    + destruct (Hoth q mq Hne Hmq) as (m1 & -> & El). simpl. f_equal. by eapply lasting_forgets.
    + apply not_elem_of_dom in Hmq. assert (q ∉ dom (w_mods w')) as ->%not_elem_of_dom by (rewrite Hdom; set_solver). done.
  - intros q. rewrite list_elem_of_singleton, elem_of_singleton. split; [intros ->; by eauto|by intros [-> _]].
  - apply NoDup_singleton.
  - repeat constructor.
  - intros q re' a ea ->%list_elem_of_singleton Hin Hre' Ha He.
    assert (re' = re) as -> by (eapply (mods_wf_disjoint (w_regions w)); [apply Hs|done..|]; rewrite Hown; set_solver).
    destruct (Hstale a ea Ha He) as (e' & ? & ? & _). by exists e'.
  - intros a ea He Hd. destruct (sub_decidable w tbl kids re a) as [Ha|Ha]; [apply Hs|done|..].
    + destruct (Hstale a ea Ha He) as (e' & ? & ? & _). by exists e'.
    + exists ea. by rewrite Helse.
  - rewrite Htr. simpl. by rewrite Hm, app_nil_r.
Qed.

(** ** The children *)

Lemma children_run w p l :
  w_mem w = [] → (∀ kv, kv ∈ l → kv.2 ∈ dom (w_mods w)) → ∀ n cap,
  ∃ cs, children_of p l n cap w = Ok cs w ∧ sublist cs l.*2 ∧
    ∀ c, c ∈ cs ↔ c ∈ l.*2 ∧ c ≠ p ∧ ∃ m, w_mods w !! c = Some m ∧ me_parent_entry m = Some p.
Proof.
  intros Hmem. induction l as [|kv l IH]; intros Hl n cap.
  { exists []. split_and!; [done|constructor|]. set_solver. }
  pose proof (Hl kv ltac:(by left)) as [m Hm]%elem_of_dom.
  assert (IH' := IH ltac:(intros; apply Hl; by right)). clear IH.
  set (isc := negb (bool_decide (kv.2 = p)) && bool_decide (me_parent_entry m = Some p)).
  assert (Hstep : ∃ cs, children_of p (kv :: l) n cap w = Ok (if isc then kv.2 :: cs else cs) w ∧ sublist cs l.*2 ∧
    ∀ c, c ∈ cs ↔ c ∈ l.*2 ∧ c ≠ p ∧ ∃ m, w_mods w !! c = Some m ∧ me_parent_entry m = Some p).
  { cbn [children_of]. rewrite (bind_Ok _ _ _ _ _ (mget_Ok _ _ _ Hm)). fold isc. destruct isc; [|apply IH'].
    rewrite (bind_Ok _ _ _ true w) by (case_decide; [by apply alloc_ok_Ok|done]).
    destruct (IH' (S n) (if decide (cap ≤ n)%nat then (if decide (cap = 0)%nat then 8 else cap * 2)%nat else cap))
      as (cs & Hcs & Hrest). exists cs. by rewrite (bind_Ok _ _ _ _ _ Hcs). }
  destruct Hstep as (cs & Hcs & Hsub & Hin). eexists. split; [exact Hcs|]. subst isc.
  destruct (negb (bool_decide (kv.2 = p)) && bool_decide (me_parent_entry m = Some p)) eqn:E.
  - apply andb_true_iff in E as [E1%negb_true_iff%bool_decide_eq_false E2%bool_decide_eq_true].
    split; [by constructor|]. intros c. csimpl. rewrite !elem_of_cons, Hin. split; [|naive_solver].
    intros [->|(? & ? & ?)]; [|by auto]. split_and!; [by left|done|]. by exists m.
  - split; [by constructor|]. intros c. csimpl. rewrite elem_of_cons, Hin. split; [naive_solver|].
    intros ([->|?] & Hne & m' & Hm' & Hp); [|by eauto]. exfalso. rewrite Hm in Hm'. injection Hm' as <-.
    rewrite bool_decide_false, bool_decide_true in E by done. done.
Qed.

(** [_mod_unload] with fuel [n] does what it should wherever that is enough. *)
Definition unloads (n : nat) : Prop := ∀ w tbl kids own p m fname id plen,
  standing w tbl kids own → w_mods w !! p = Some m → me_mod_key m = module_key (resolve fname) id plen →
  (Pos.to_nat (w_next w) ≤ n + Pos.to_nat p)%nat →
  ∃ w' V order, _mod_unload n fname id plen w = Ok XY_OK w' ∧ cascaded w w' tbl kids own V order ∧
    ∀ q, q ∈ V ↔ visited (family_of w) p q.

Lemma family_loader w q r : fst <$> family_of w !! q = Some (Some r) ↔ ∃ m, w_mods w !! q = Some m ∧ me_parent_entry m = Some r.
Proof.
  unfold family_of. rewrite lookup_fmap. destruct (w_mods w !! q) as [m|]; simpl; [|naive_solver].
  split; [intros [= E]; by eauto|intros (? & [= <-] & E); by rewrite E].
Qed.

(** Elsewhere the cascade leaves the family as it was. *)
Lemma cascaded_visited w w1 tbl kids own V o p q :
  cascaded w w1 tbl kids own V o → (∀ r, visited (family_of w) p r → r ∉ V) →
  visited (family_of w) p q ↔ visited (family_of w1) p q.
Proof.
  intros H Hout. apply visited_ext.
  - intros r Hr%Hout. pose proof (cs_mods _ _ _ _ _ _ _ H r) as E. rewrite (decide_False (P := r ∈ V)) in E by done.
    rewrite decide_False in E by (by intros ?%(cascaded_order _ _ _ _ _ _ _ _ H)).
    unfold family_of. rewrite !lookup_fmap. destruct (w_mods w !! r), (w_mods w1 !! r); try done.
    apply (inj Some) in E. pose proof (f_equal me_parent_entry E). pose proof (f_equal me_refcount E). simpl in *. congruence.
  - intros r x. unfold family_of. rewrite !lookup_fmap. intros (m1 & Hm1 & ->)%fmap_Some.
    destruct (cascaded_mods _ _ _ _ _ _ _ _ _ H Hm1) as (_ & m & Hm & E). rewrite Hm. eexists. split; [done|].
    apply (f_equal me_parent_entry) in E. simpl in *. rewrite E. by case_decide.
Qed.

Lemma unload_child_run n w tbl kids own c m :
  unloads n → standing w tbl kids own → w_mods w !! c = Some m → (Pos.to_nat (w_next w) ≤ n + Pos.to_nat c)%nat →
  ∃ w' V order, unload_child (_mod_unload n) c w = Ok tt w' ∧ cascaded w w' tbl kids own V order ∧
    ∀ q, q ∈ V ↔ visited (family_of w) c q.
Proof.
  intros IH Hs Hm Hn. destruct (sn_named _ _ _ _ Hs _ _ Hm) as (x & xc & path & Hx & Hxc & Hp & Hk).
  destruct (IH w tbl kids own c m path _ _ Hs Hm Hk Hn) as (w' & V & o & Hrun & H). exists w', V, o. split; [|done].
  unfold unload_child. rewrite (bind_Ok _ _ _ _ _ (mget_Ok _ _ _ Hm)), Hx.
  rewrite (bind_Ok _ _ _ xc w) by (unfold cget; rewrite (bind_Ok (gets _) _ _ (w_ctxs w !! x) w) by done; by rewrite Hxc).
  by rewrite Hp, (bind_Ok _ _ _ _ _ Hrun).
Qed.

Lemma children_unloaded n p tbl kids : unloads n → ∀ cs w own,
  standing w tbl kids own → NoDup cs →
  (∀ c, c ∈ cs → fst <$> family_of w !! c = Some (Some p)) →
  (Pos.to_nat (w_next w) ≤ S n + Pos.to_nat p)%nat →
  ∃ w' V order, for_each cs (unload_child (_mod_unload n)) w = Ok tt w' ∧ cascaded w w' tbl kids own V order ∧
    ∀ q, q ∈ V ↔ ∃ c, c ∈ cs ∧ visited (family_of w) c q.
Proof.
  intros IHn. induction cs as [|c cs IH]; intros w own Hs Hnd Hcs Hfuel.
  { exists w, ∅, []. split_and!; [done|by apply cascaded_refl|]. set_solver. }
  apply NoDup_cons in Hnd as [Hc Hnd]. set (f := family_of w) in *. pose proof (sn_forest _ _ _ _ Hs) as Hf. fold f in Hf.
  pose proof (Hcs c ltac:(by left)) as Hpc. pose proof (forest_parent _ _ _ Hf Hpc) as Hlt.
  apply family_loader in Hpc as Hmc. destruct Hmc as (m & Hm & _).
  destruct (unload_child_run n w tbl kids own c m IHn Hs Hm ltac:(lia)) as (w1 & V1 & o1 & Hrun1 & H1 & HV1). fold f in HV1.
  assert (Hdis : ∀ c' q, c' ∈ cs → visited f c' q → q ∉ V1).
  { intros c' q Hc' Hq ?%HV1. eapply (visited_disjoint f p c c'); [done|done|by apply Hcs; right| |done|done]. by intros ->. }
  assert (Hvis : ∀ c' q, c' ∈ cs → visited f c' q ↔ visited (family_of w1) c' q).
  { intros c' q Hc'. eapply cascaded_visited; [exact H1|]. intros r. by apply Hdis. }
  destruct (IH w1 (without o1 own)) as (w2 & V2 & o2 & Hrun2 & H2 & HV2).
  - apply H1.
  - done.
  - intros c' Hc'. apply family_loader. destruct (proj1 (family_loader w c' p) (Hcs c' ltac:(by right))) as (m' & Hm' & Hp').
    destruct (cascaded_same _ _ _ _ _ _ _ _ _ H1 Hm') as (m1 & Hm1 & E).
    { apply (Hdis c'); [done|constructor]. }
    exists m1. split; [done|]. apply (f_equal me_parent_entry) in E. simpl in E. congruence.
  - destruct (cs_rest _ _ _ _ _ _ _ H1) as (_ & _ & -> & _). done.
  - assert (HV2' : ∀ q, q ∈ V2 ↔ ∃ c', c' ∈ cs ∧ visited f c' q).
    { intros q. rewrite HV2. split; intros (c' & Hc' & Hq); exists c'; (split; [done|]); by apply Hvis. }
    exists w2, (V1 ∪ V2), (o1 ++ o2). split_and!.
    + cbn [for_each]. by rewrite (bind_Ok _ _ _ _ _ Hrun1).
    + eapply cascaded_trans; [exact H1|exact H2| |].
      * intros q Hq (c' & Hc' & Hv)%HV2'. by eapply Hdis.
      * intros q r mr Hq Hr Hmr Hpar. apply (cascaded_order _ _ _ _ _ _ _ _ H2) in Hr. apply HV2' in Hr as (c' & Hc' & Hv).
        apply (Hdis c' r Hc' Hv), HV1. apply (cs_gone _ _ _ _ _ _ _ H1) in Hq as [Hq (mq & Hmq & Hrc)].
        apply HV1 in Hq. pose proof (family_lookup _ _ _ Hmr) as Hfr. fold f in Hfr. eapply visited_child;
          [exact Hq|by apply family_lookup|done|by rewrite Hfr|by rewrite Hfr; simpl; rewrite Hpar].
    + intros q. rewrite elem_of_union, HV1, HV2'. split; [intros [?|(c' & ? & ?)]|intros (c' & [->|?]%elem_of_cons & ?)].
      * exists c. split; [by left|done].
      * exists c'. split; [by right|done].
      * by left.
      * right. by exists c'.
Qed.

(** ** The module and its children *)

(** The count of a module that goes does not show. *)
Lemma cascaded_from_counted w w' tbl kids own V order p m :
  w_mods w !! p = Some m → me_refcount m ≤ 1 → p ∈ order →
  cascaded (w <| w_mods ::= <[p := counted_down m]> |>) w' tbl kids own V order → cascaded w w' tbl kids own V order.
Proof.
  intros Hm Hrc Hp [Hmods Hgone Hnd Hfirst Hst Hstale Hdirty Hcnt Htr Hsh Hrest]. simpl in *.
  pose proof (proj1 (Hgone p) Hp) as [HpV _]. split; try done.
  - intros q. rewrite Hmods. case_decide; [done|]. by rewrite lookup_insert_ne by (intros ->; done).
  - intros q. rewrite Hgone. destruct (decide (q = p)) as [->|].
    + rewrite lookup_insert_eq. split; (intros [? _]; split; [done|]); [by exists m|]. eexists. split; [done|]. simpl. lia.
    + by rewrite lookup_insert_ne.
  - eapply sorted_mono; [exact Hfirst|]. intros q r _ _ HR mr Hmr. destruct (decide (r = p)) as [->|].
    + rewrite Hm in Hmr. injection Hmr as <-. apply (HR (counted_down m)). by rewrite lookup_insert_eq.
    + apply HR. by rewrite lookup_insert_ne.
  - rewrite Htr. f_equal. apply bind_ext_in. intros q _. destruct (decide (q = p)) as [->|].
    + by rewrite lookup_insert_eq, Hm.
    + by rewrite lookup_insert_ne.
Qed.

Lemma family_counted w p m :
  w_mods w !! p = Some m →
  family_of (w <| w_mods ::= <[p := counted_down m]> |>) = <[p := (me_parent_entry m, Z.pred (me_refcount m))]> (family_of w).
Proof. intros Hm. unfold family_of. simpl. by rewrite fmap_insert. Qed.

Lemma counted_visited w p m c q :
  w_mods w !! p = Some m → forest (family_of w) → fst <$> family_of w !! c = Some (Some p) →
  visited (family_of w) c q ↔ visited (family_of (w <| w_mods ::= <[p := counted_down m]> |>)) c q.
Proof.
  intros Hm Hf Hc. apply (forest_parent _ _ _ Hf) in Hc. rewrite (family_counted _ _ _ Hm). apply visited_ext.
  - intros r Hr. apply (visited_le _ _ _ Hf) in Hr. apply lookup_insert_ne. lia.
  - intros r x [[<- <-]|[_ Hx]]%lookup_insert_Some; [|by exists x].
    exists (me_parent_entry m, me_refcount m). by rewrite (family_lookup _ _ _ Hm).
Qed.

Lemma table_NoDup w t :
  (∀ k q, corm_get t k = Some q ↔ ∃ m, w_mods w !! q = Some m ∧ me_mod_key m = k) → NoDup (corm_list t).*2.
Proof.
  intros Hget. apply NoDup_fmap_2_strong; [|apply corm_list_NoDup].
  intros [k1 q1] [k2 q2] H1%corm_list_spec%Hget H2%corm_list_spec%Hget. simpl. intros ->.
  destruct H1 as (m1 & Hm1 & <-), H2 as (m2 & Hm2 & <-). by assert (m1 = m2) as -> by congruence.
Qed.

(** The table lists the children of [p] without repetition. *)
Lemma children_listed w tbl kids own p t :
  standing w tbl kids own → rt_mod_hd (w_rt w) = Some t →
  ∃ cs, children_of p (corm_list t) 0 0 w = Ok cs w ∧ NoDup cs ∧ ∀ c, c ∈ cs ↔ fst <$> family_of w !! c = Some (Some p).
Proof.
  intros Hs Ht. destruct (sn_table _ _ _ _ Hs) as (t' & Ht' & Hget). assert (t' = t) as -> by congruence.
  destruct (children_run w p (corm_list t) (sn_mem _ _ _ _ Hs)) with (n := 0%nat) (cap := 0%nat) as (cs & Hcs & Hsub & Hin).
  { intros [k q] Hk%corm_list_spec%Hget. destruct Hk as (m & Hm & _). by eapply elem_of_dom_2. }
  exists cs. split; [done|]. split; [eapply sublist_NoDup; [|exact Hsub]; by eapply table_NoDup|].
  intros c. rewrite Hin, family_loader. split; [by intros (_ & _ & ?)|]. intros (m & Hm & Hp). split_and!; [| |by exists m].
  - apply list_elem_of_fmap. exists (me_mod_key m, c). split; [done|]. apply corm_list_spec, Hget. by exists m.
  - intros ->. pose proof (forest_parents _ _ _ _ (sn_forest _ _ _ _ Hs) Hm Hp). lia.
Qed.

Lemma unload_step n fname id plen w p m t :
  w_mem w = [] → rt_mod_hd (w_rt w) = Some t → corm_get t (module_key (resolve fname) id plen) = Some p →
  w_mods w !! p = Some m →
  let w1 := w <| w_mods ::= <[p := counted_down m]> |> in
  _mod_unload (S n) fname id plen w =
    (if 0 <? Z.pred (me_refcount m) then mret XY_OK
     else t ← table rt_mod_hd; children ← children_of p (corm_list t) 0 0;
          for_each children (unload_child (_mod_unload n));; unload_finish p) w1.
Proof.
  intros Hmem Ht Hg Hm w1. cbn [_mod_unload].
  rewrite (bind_Ok _ _ _ _ _ (lookup_run w fname id plen _ t Hmem (module_load_path_run fname w Hmem) Ht)), Hg.
  cbn [lk_err lk_entry negb Z.eqb XY_OK]. rewrite (bind_Ok _ _ _ _ _ (mmod_Ok _ _ _ _ Hm)).
  assert (Hm1 : w_mods w1 !! p = Some (counted_down m)) by (simpl; by rewrite lookup_insert_eq).
  by rewrite (bind_Ok _ _ _ _ _ (mget_Ok _ _ _ Hm1)).
Qed.

Lemma unloads_last n w tbl kids own p m t :
  unloads n → standing w tbl kids own → w_mods w !! p = Some m → me_refcount m ≤ 1 → rt_mod_hd (w_rt w) = Some t →
  (Pos.to_nat (w_next w) ≤ S n + Pos.to_nat p)%nat →
  let w1 := w <| w_mods ::= <[p := counted_down m]> |> in
  ∃ w' V order, (children ← children_of p (corm_list t) 0 0; for_each children (unload_child (_mod_unload n));; unload_finish p) w1 = Ok XY_OK w' ∧
    cascaded w w' tbl kids own V (order ++ [p]) ∧ ∀ q, q ∈ V ↔ visited (family_of w) p q.
Proof.
  intros IH Hs Hm Hrc Ht Hfuel w1. pose proof (sn_forest _ _ _ _ Hs) as Hf.
  pose proof (standing_counted _ _ _ _ _ _ Hs Hm) as Hs1. fold w1 in Hs1.
  assert (Hm1 : w_mods w1 !! p = Some (counted_down m)) by (simpl; by rewrite lookup_insert_eq).
  destruct (children_listed w1 tbl kids own p t Hs1 Ht) as (cs & Hcs & Hnd & Hin). rewrite (bind_Ok _ _ _ _ _ Hcs).
  destruct (children_unloaded n p tbl kids IH cs w1 own Hs1 Hnd) as (w2 & V & o & Hrun & H2 & HV); [by intros c ?%Hin|done|].
  rewrite (bind_Ok _ _ _ _ _ Hrun).
  pose proof (sn_forest _ _ _ _ Hs1) as Hf1.
  assert (Hlt : ∀ q, q ∈ V → (p < q)%positive).
  { intros q (c & Hc%Hin & Hv)%HV. apply (forest_parent _ _ _ Hf1) in Hc. apply (visited_le _ _ _ Hf1) in Hv. lia. }
  assert (Hp : p ∉ V) by (intros ?%Hlt; lia).
  destruct (cascaded_same _ _ _ _ _ _ _ _ _ H2 Hm1 Hp) as (m2 & Hm2 & E).
  destruct (unload_finish_cascaded w2 tbl kids (without o own) p m2) as (w3 & Hfin & H3); [apply H2|done| |].
  { apply (f_equal me_refcount) in E. simpl in E. lia. }
  exists w3, (V ∪ {[p]}), o. split; [done|]. split.
  - apply (cascaded_from_counted _ _ _ _ _ _ _ p m); [done|done|set_solver|].
    eapply cascaded_trans; [exact H2|exact H3|set_solver|].
    intros q r mr Hq ->%list_elem_of_singleton Hmr Hpar. apply (cascaded_order _ _ _ _ _ _ _ _ H2), Hlt in Hq.
    pose proof (forest_parents _ _ _ _ Hf1 Hmr Hpar). lia.
  - intros q. rewrite elem_of_union, elem_of_singleton, HV, (visited_split _ _ q _ _ Hf (family_lookup _ _ _ Hm) Hrc).
    assert (Hch : ∀ c, c ∈ cs ↔ fst <$> family_of w !! c = Some (Some p)).
    { intros c. rewrite Hin. unfold w1. rewrite (family_counted _ _ _ Hm). destruct (decide (c = p)) as [->|].
      - by rewrite lookup_insert_eq, (family_lookup _ _ _ Hm).
      - by rewrite lookup_insert_ne. }
    split; [intros [(c & Hc%Hch & Hv)| ->]|intros [->|(c & Hc & Hv)]]; [|by left|by right|].
    + right. exists c. split; [done|]. by apply (counted_visited w p m).
    + left. exists c. split; [by apply Hch|]. by apply (counted_visited w p m).
Qed.

Lemma unload_cascades n : unloads n.
Proof.
  induction n as [|n IH]; intros w tbl kids own p m fname id plen Hs Hm Hk Hfuel.
  { pose proof (sn_next _ _ _ _ Hs p (elem_of_dom_2 _ _ _ Hm)). lia. }
  destruct (sn_table _ _ _ _ Hs) as (t & Ht & Hget).
  assert (Hg : corm_get t (module_key (resolve fname) id plen) = Some p) by (apply Hget; by exists m).
  rewrite (unload_step n fname id plen w p m t (sn_mem _ _ _ _ Hs) Ht Hg Hm).
  destruct (Z.ltb_spec 0 (Z.pred (me_refcount m))).
  - exists (w <| w_mods ::= <[p := counted_down m]> |>), {[p]}, []. split_and!; [done|apply cascaded_counted; [done..|lia]|].
    intros q. rewrite elem_of_singleton, (visited_kept _ _ _ _ _ (family_lookup _ _ _ Hm)) by lia. done.
  - set (w1 := w <| w_mods ::= <[p := counted_down m]> |>).
    assert (Ht1 : rt_mod_hd (w_rt w1) = Some t) by done. rewrite (bind_Ok _ _ _ t _ (table_Ok _ _ _ Ht1)).
    destruct (unloads_last n w tbl kids own p m t IH Hs Hm ltac:(lia) Ht Hfuel) as (w' & V & o & Hrun & H').
    by exists w', V, (o ++ [p]).
Qed.

Lemma cascaded_err w w' tbl kids own V order err :
  cascaded w w' tbl kids own V order → cascaded w (w' <| w_err := err |>) tbl kids own V order.
Proof. intros H. destruct H as [? ? ? ? Hs]. split; try done. destruct Hs. by split. Qed.

(** C11. With fuel for the depth of the cascade, [xy_unload] of a module
    returns. It gets to exactly the modules a module that goes has loaded, once
    each: one with further loaders is counted down and stays, the others leave
    the heap, the table and their region's list, children before their loader,
    each with its cleanup and its dlclose; everything else is as before, the
    caches of every region above a list that changed are stale, and what is left
    can be unloaded in turn. *)
Theorem xy_unload_cascades n w tbl kids own fname id plen t p m
    (Hl : loaded_as w fname id plen t p m) (Hs : standing w tbl kids own) (Hfuel : (Pos.to_nat (w_next w) ≤ n)%nat) :
  ∃ w' V order, xy_unload n fname w = Ok XY_OK w' ∧ cascaded w w' tbl kids own V order ∧
    ∀ q, q ∈ V ↔ visited (family_of w) p q.
Proof.
  destruct Hl as [Hi Hm Hid Hpl Ht Hg Hp]. destruct (sn_table _ _ _ _ Hs) as (t' & Ht' & Hget).
  assert (t' = t) as -> by congruence. assert (Hk : me_mod_key m = module_key (resolve fname) id plen).
  { apply Hget in Hg as (m' & Hm' & <-). congruence. }
  destruct (unload_cascades n w tbl kids own p m fname id plen Hs Hp Hk) as (w' & V & o & Hrun & H & HV); [lia|].
  exists (w' <| w_err := XY_OK |>), V, o. split; [|split; [by apply cascaded_err|done]].
  unfold xy_unload. rewrite with_runtime_run by done.
  rewrite (bind_Ok _ _ _ id w) by (unfold tls_get, gets; by rewrite Hid).
  by rewrite (bind_Ok _ _ _ _ _ Hpl), (bind_Ok _ _ _ _ _ Hrun).
Qed.
End cascade.

(** ** A module that loads another *)

Section witnesses.
Local Existing Instances gmap_corm gmap_corm_laws.

(** The objects of the handles 1 and 2, each with a context of its own. *)
Definition pair_os : Os := {|
  os_realpath p := Some p;
  os_getenv _ := None;
  os_stat _ := None;
  os_copy _ _ _ := None;
  os_main_handle := None;
  os_dlsym h s :=
    if bool_decide (s = "get_xy_ptr") then Some (h + 20)%positive
    else if bool_decide (s = "xy_ctx_abi") then Some 52%positive
    else if bool_decide (s = "xy_install") then Some (h + 30)%positive
    else None;
  os_dladdr _ := None;
  os_dlinfo h := Some (Zpos h * 10);
  os_u8_symbol _ := 0;
  os_state_size _ := 0;
  os_ctx_abi _ := XY_CTX_ABI_DESC;
  os_ctx_ptr f := Some (f + 100)%positive;
  os_adapter_address _ := 0
|}.
Local Existing Instance pair_os.
Definition pair_dlopen (p : string) : option handle :=
  if bool_decide (p = "a.so") then Some 1%positive else if bool_decide (p = "b.so") then Some 2%positive else None.

(** The xy_install of [b] loads [a]. *)
Definition leaf_callbacks : Callbacks := {|
  cb_dlopen p := mret (pair_dlopen p);
  cb_install _ := mret tt;
  cb_hook _ _ := mret [];
  cb_claim _ _ _ _ := mret (0, 0);
  cb_each _ _ _ _ := mret 0;
  cb_scope _ _ := mret 0;
  cb_cleanup _ _ := mret tt
|}.
Definition parent_callbacks : Callbacks := {|
  cb_dlopen p := mret (pair_dlopen p);
  cb_install f := if bool_decide (f = 32%positive) then xy_load (CB := leaf_callbacks) "a";; mret tt else mret tt;
  cb_hook _ _ := mret [];
  cb_claim _ _ _ _ := mret (0, 0);
  cb_each _ _ _ _ := mret 0;
  cb_scope _ _ := mret 0;
  cb_cleanup _ _ := mret tt
|}.
Local Existing Instance parent_callbacks.

Definition pair_off : world :=
  world_zero <| w_ctxs := {[121%positive := xy_ctx_zero; 122%positive := xy_ctx_zero]} |>.
Definition family_world : world := after (xy_load "b") (after xy_init pair_off).
Definition family_entry (p : mptr) : mod_entry := default mod_entry_zero (w_mods family_world !! p).
Definition family_region : region_entry := default region_entry_zero (w_regions family_world !! 1%positive).
Definition family_own (re : rptr) : list mptr := if decide (re = 1%positive) then [3%positive; 5%positive] else [].
Definition family_table : corm string mptr := default ∅ (rt_mod_hd (w_rt family_world)).
Abbreviation root_table := (corm_put corm_empty (mk_region_key XY_REGION_ROOT 0) 1%positive).

Lemma family_mods q m :
  w_mods family_world !! q = Some m →
  (q = 3%positive ∧ m = family_entry 3%positive) ∨ (q = 5%positive ∧ m = family_entry 5%positive).
Proof.
  assert (w_mods family_world = {[3%positive := family_entry 3%positive; 5%positive := family_entry 5%positive]}) as ->
    by (vm_compute; reflexivity).
  intros [[<- <-]|[_ [<- <-]%lookup_singleton_Some]]%lookup_insert_Some; auto.
Qed.
Lemma family_dom q : q ∈ dom (w_mods family_world) → q = 3%positive ∨ q = 5%positive.
Proof. intros [m Hm]%elem_of_dom. apply family_mods in Hm as [[-> _]|[-> _]]; auto. Qed.

Lemma family_table_get k q :
  corm_get family_table k = Some q ↔ ∃ m, w_mods family_world !! q = Some m ∧ me_mod_key m = k.
Proof.
  assert (family_table = {[module_key "b.so" 0 0 := 3%positive; module_key "a.so" 0 0 := 5%positive]}) as ->
    by (vm_compute; reflexivity).
  simpl. rewrite lookup_insert_Some, lookup_singleton_Some. split.
  - intros [[<- <-]|[_ [<- <-]]]; eexists; (split; [vm_compute; reflexivity|vm_compute; reflexivity]).
  - intros (m & [[-> ->]|[-> ->]]%family_mods & <-); [left|right]; (split; [vm_compute; try discriminate; reflexivity|]);
      [reflexivity|split; vm_compute; reflexivity].
Qed.

Lemma family_lists :
  tree_wf (w_regions family_world) root_table (λ _, []) ∧ mods_wf (w_regions family_world) (w_mods family_world) family_own.
Proof.
  assert (Hr : w_regions family_world = {[1%positive := family_region]}) by (vm_compute; reflexivity). rewrite Hr. split.
  - eapply tree_wf_shape; [|apply root_tree_wf]. vm_compute. reflexivity.
  - split.
    + intros p e [<- <-]%lookup_singleton_Some. split; [vm_compute; reflexivity|].
      eexists. split; [vm_compute; reflexivity|]. split; [vm_compute; reflexivity|].
      eexists. split; [vm_compute; reflexivity|vm_compute; reflexivity].
    + intros p e [<- <-]%lookup_singleton_Some. split; [vm_compute; reflexivity|].
      eexists. split; [vm_compute; reflexivity|]. split; [vm_compute; reflexivity|].
      eexists. split; [vm_compute; reflexivity|vm_compute; reflexivity].
    + intros p q m Hp Hq Hm. rewrite dom_singleton_L in Hp. apply elem_of_singleton in Hp as ->.
      apply family_mods in Hm as [[-> ->]|[-> ->]]; vm_compute; reflexivity.
Qed.

Lemma family_standing : standing family_world root_table (λ _, []) family_own.
Proof.
  destruct family_lists as [Ht Hl]. split; [vm_compute; reflexivity|exact Ht|exact Hl|eexists; vm_compute; reflexivity|..].
  - exists family_table. split; [vm_compute; reflexivity|exact family_table_get].
  - intros q Hq. exists 1%positive. split; [apply elem_of_dom; eexists; vm_compute; reflexivity|].
    change (family_own 1%positive) with [3%positive; 5%positive].
    apply family_dom in Hq as [->| ->]; [left|right; left].
  - intros q [->| ->]%family_dom; vm_compute; reflexivity.
  - intros r q n. unfold family_of. rewrite lookup_fmap.
    intros (m & [[-> ->]|[-> ->]]%family_mods & E)%fmap_Some; vm_compute in E; [discriminate|].
    injection E as -> _. vm_compute. reflexivity.
  - intros q m [[-> ->]|[-> ->]]%family_mods; eexists; vm_compute; reflexivity.
  - intros q m [[-> ->]|[-> ->]]%family_mods; do 3 eexists; (split_and!; vm_compute; reflexivity).
  - intros q m _ h f st _ _ _ w. reflexivity.
Qed.

Lemma xy_unload_cascades_witness :
  ∃ w' V order, xy_unload 6 "b" family_world = Ok XY_OK w' ∧ cascaded family_world w' root_table (λ _, []) family_own V order ∧
    (∀ q, q ∈ V ↔ visited (family_of family_world) 3%positive q) ∧ w_mods w' = ∅.
Proof.
  destruct (xy_unload_cascades 6 family_world root_table (λ _, []) family_own "b" 0 0 family_table 3%positive (family_entry 3%positive))
    as (w' & V & o & Hrun & H & HV).
  - split; vm_compute; reflexivity.
  - exact family_standing.
  - vm_compute. apply le_n.
  - exists w', V, o. split_and!; [exact Hrun|exact H|exact HV|].
    vm_compute in Hrun. injection Hrun as <-. reflexivity.
Defined.
End witnesses.
