(* ===== verification/ModSide.v ===== *)
(** * The module's side of the interface

    src/include/ttypt/xy-mod.h: a module reaches the library through the
    context the loader filled in, never by name.  Each wrapper calls through a
    field of it; the fields newer than the first contexts are tested first.  A
    call through NULL, or through a pointer of another function, has no
    meaning. *)
From S2P Require Import Prelude Words Corm State Env Regions Runtime Paths RegionApi RegionInv Boot Hooks Dispatch ModKey ModList Loader Unload LoadSpecs LoadProps.

#[export] Instance api_fn_eq_dec : EqDecision api_fn.
Proof. solve_decision. Defined.

Section modside.
Context {C : Corm} {OS : Os} {CB : Callbacks}.
Abbreviation M := (M world).
Implicit Types (ctx : cptr) (w : world).

(** The call [_n->field(...)] of the function [f] computes by [m]. *)
Definition through {A} (ctx : cptr) (field : xy_ctx → option api_fn) (f : api_fn) (m : M A) : M A :=
  x ← cget ctx;
  g ← deref (field x);
  if decide (g = f) then m else crash.
(** The same behind a test of the field. *)
Definition through_or {A} (ctx : cptr) (field : xy_ctx → option api_fn) (f : api_fn) (m : M A) (a : A) : M A :=
  x ← cget ctx;
  match field x with Some g => if decide (g = f) then m else crash | None => mret a end.

(** [xy_ctx_abi] *)
Definition xy_ctx_abi : Z := XY_CTX_ABI_DESC.

(** [XY_CALL] and [XY_CALL_SELF] of a module *)
Definition XY_MOD_CALL ctx (retp : option bptr) (a : option aptr) (args : Z) : M Z :=
  through ctx x_call Fn_call (xy_call retp a args).
Definition XY_MOD_CALL_SELF ctx (fuel : nat) (retp : option bptr) (a : option aptr) (args : Z) : M Z :=
  through ctx x_call_self Fn_call_self (xy_call_self fuel retp a args).

Definition xy_mod_load_ ctx (f : string) : M Z := through ctx x_load Fn_load (xy_load f).
Definition xy_mod_deny_ ctx (what : string) (t : deny_type) : M Z := through ctx x_deny Fn_deny (xy_deny what t).
Definition xy_mod_require_claim_ ctx (fn : option addr) (u : ud) : M Z :=
  through ctx x_require_claim Fn_require_claim (xy_require_claim fn u).
Definition xy_mod_region_each_ ctx (fn : option addr) (u : ud) : M Z :=
  through ctx x_region_each Fn_region_each (xy_region_each fn u).
Definition xy_mod_with_region_ ctx (region_id plen : Z) (fn : option addr) (u : ud) : M Z :=
  through ctx x_with_region Fn_with_region (xy_with_region region_id plen fn u).
(** [xy_current_region()] of a module *)
Definition xy_mod_current_region ctx : M Z := through ctx x_current_region Fn_current_region xy_current_region.
Definition xy_mod_current_region_plen_ ctx : M Z :=
  through_or ctx x_current_region_plen Fn_current_region_plen xy_current_region_plen 0.
Definition xy_mod_region_exists_ ctx (region_id plen : Z) : M Z :=
  through_or ctx x_region_exists Fn_region_exists (xy_region_exists region_id plen) XY_ERR_NOTFOUND.
Definition xy_mod_claim_at_ ctx (id plen : Z) (fn : option addr) (u : ud) : M Z :=
  through_or ctx x_claim_at Fn_claim_at (xy_claim_at id plen fn u) XY_ERR_INVALID.
Definition xy_mod_region_at_ ctx (prefix_id plen : Z) : M (Z * Z) :=
  through_or ctx x_region_at Fn_region_at (xy_region_at prefix_id plen) (XY_REGION_INVALID, 0).
Definition xy_mod_unload_ ctx (fuel : nat) (f : string) : M Z := through ctx x_unload Fn_unload (xy_unload fuel f).
Definition xy_mod_reload_ ctx (fuel : nat) (f : string) : M Z := through ctx x_reload Fn_reload (xy_reload fuel f).
(** [xy_my_region] and [XY_RS] *)
Definition xy_my_region ctx : M Z := x ← cget ctx; mret (x_region_id x).
Definition XY_RS ctx : M (option stptr) := x ← cget ctx; mret (x_region_state x).

(** ** What a module reaches *)

(** Every wrapper on [ctx] is the library's function. *)
Record reaches_library ctx w : Prop := {
  rl_call r a v : XY_MOD_CALL ctx r a v w = xy_call r a v w;
  rl_call_self n r a v : XY_MOD_CALL_SELF ctx n r a v w = xy_call_self n r a v w;
  rl_load f : xy_mod_load_ ctx f w = xy_load f w;
  rl_unload n f : xy_mod_unload_ ctx n f w = xy_unload n f w;
  rl_reload n f : xy_mod_reload_ ctx n f w = xy_reload n f w;
  rl_deny s t : xy_mod_deny_ ctx s t w = xy_deny s t w;
  rl_require fn u : xy_mod_require_claim_ ctx fn u w = xy_require_claim fn u w;
  rl_each fn u : xy_mod_region_each_ ctx fn u w = xy_region_each fn u w;
  rl_with i l fn u : xy_mod_with_region_ ctx i l fn u w = xy_with_region i l fn u w;
  rl_current : xy_mod_current_region ctx w = xy_current_region w;
  rl_plen : xy_mod_current_region_plen_ ctx w = xy_current_region_plen w;
  rl_exists i l : xy_mod_region_exists_ ctx i l w = xy_region_exists i l w;
  rl_claim i l fn u : xy_mod_claim_at_ ctx i l fn u w = xy_claim_at i l fn u w;
  rl_at i l : xy_mod_region_at_ ctx i l w = xy_region_at i l w
}.

Lemma through_Ok {A} ctx field f (m : M A) x w :
  w_ctxs w !! ctx = Some x → field x = Some f → through ctx field f m w = m w.
Proof.
  intros Hx Hf. unfold through, cget. rewrite bind_assoc, (bind_Ok (gets _) _ _ (Some x) w) by (unfold gets; by rewrite Hx).
  rewrite (bind_Ok (deref _) _ _ x w) by done. rewrite Hf, (bind_Ok (deref _) _ _ f w) by done. by rewrite decide_True.
Qed.

Lemma through_or_Ok {A} ctx field f (m : M A) a x w :
  w_ctxs w !! ctx = Some x →
  through_or ctx field f m a w = match field x with Some g => if decide (g = f) then m w else Crash | None => Ok a w end.
Proof.
  intros Hx. unfold through_or, cget. rewrite bind_assoc, (bind_Ok (gets _) _ _ (Some x) w) by (unfold gets; by rewrite Hx).
  rewrite (bind_Ok (deref _) _ _ x w) by done. destruct (field x) as [g|]; [|done]. by case_decide.
Qed.

Lemma bound_reaches ctx fname id x w :
  w_ctxs w !! ctx = Some (bound fname id x) → reaches_library ctx w.
Proof.
  intros Hx. split; intros; try (unfold XY_MOD_CALL, XY_MOD_CALL_SELF, xy_mod_load_, xy_mod_unload_, xy_mod_reload_,
    xy_mod_deny_, xy_mod_require_claim_, xy_mod_region_each_, xy_mod_with_region_, xy_mod_current_region;
    by apply (through_Ok _ _ _ _ _ _ Hx)).
  all: unfold xy_mod_current_region_plen_, xy_mod_region_exists_, xy_mod_claim_at_, xy_mod_region_at_;
    rewrite (through_or_Ok _ _ _ _ _ _ _ Hx); done.
Qed.

(** C38. A module whose context has the host's layout is bound to it: after the
    loader bound [c], and for as long as nobody else writes it, every wrapper
    of xy-mod.h is the library's function of that name, and the module sees the
    region it was loaded from; a context of another layout is refused and no
    context is written.  Under a host that does not fill a newer field, the
    wrapper of that field answers its own error. *)
Theorem module_reaches_library tx w h c x p m :
  tx_handle tx = Some h → ctx_offered w h = Some c → w_ctxs w !! c = Some x →
  tx_mod_entry tx = Some p → w_mods w !! p = Some m →
  (abi_ok h = true → ∃ w', mod_load_bind_xy tx w = Ok XY_OK w' ∧
    ∀ w2, w_ctxs w2 !! c = w_ctxs w' !! c →
      reaches_library c w2 ∧ xy_my_region c w2 = Ok (tx_inherited_region_id tx) w2) ∧
  (abi_ok h = false → ∃ w', mod_load_bind_xy tx w = Ok XY_ERR_ABI w' ∧ w_ctxs w' = w_ctxs w) ∧
  (x_claim_at x = None → ∀ id plen fn u, xy_mod_claim_at_ c id plen fn u w = Ok XY_ERR_INVALID w) ∧
  (x_region_at x = None → ∀ id plen, xy_mod_region_at_ c id plen w = Ok (XY_REGION_INVALID, 0) w) ∧
  (x_region_exists x = None → ∀ id plen, xy_mod_region_exists_ c id plen w = Ok XY_ERR_NOTFOUND w) ∧
  (x_current_region_plen x = None → xy_mod_current_region_plen_ c w = Ok 0 w).
Proof.
  intros Hh Hc Hx He Hp. split_and!.
  - intros Ha. eexists. split; [by eapply bind_ok_run|]. intros w2 Hw2. simpl in Hw2. rewrite lookup_insert_eq in Hw2.
    split; [by eapply bound_reaches|]. unfold xy_my_region, cget.
    rewrite bind_assoc, (bind_Ok (gets _) _ _ _ w2) by (unfold gets; by rewrite Hw2). done.
  - intros Ha. destruct (bind_abi_run w tx h c Hh Hc Ha) as [what Hrun]. eexists. by split.
  - intros Hn id plen fn u. unfold xy_mod_claim_at_. by rewrite (through_or_Ok _ _ _ _ _ _ _ Hx), Hn.
  - intros Hn id plen. unfold xy_mod_region_at_. by rewrite (through_or_Ok _ _ _ _ _ _ _ Hx), Hn.
  - intros Hn id plen. unfold xy_mod_region_exists_. by rewrite (through_or_Ok _ _ _ _ _ _ _ Hx), Hn.
  - intros Hn. unfold xy_mod_current_region_plen_. by rewrite (through_or_Ok _ _ _ _ _ _ _ Hx), Hn.
Qed.
End modside.

(** ** On a concrete load *)

Section witnesses.
Local Existing Instances gmap_corm gmap_corm_laws object_callbacks.

(** The entry of a module whose object was opened as handle 31. *)
Definition binding_world : world := load_world <| w_mods := {[5%positive := mod_entry_zero]} |>.
Definition binding_txn : xy_load_txn :=
  txn_start 0 0 <| tx_handle := Some 31%positive |> <| tx_mod_entry := Some 5%positive |>.

Lemma module_reaches_library_witness :
  ∃ w', mod_load_bind_xy (OS := object_os XY_CTX_ABI_DESC) binding_txn binding_world = Ok XY_OK w' ∧
    reaches_library (OS := object_os XY_CTX_ABI_DESC) 70%positive w'.
Proof.
  destruct (module_reaches_library (OS := object_os XY_CTX_ABI_DESC) binding_txn binding_world 31%positive
    70%positive xy_ctx_zero 5%positive mod_entry_zero) as (H & _).
  - vm_compute. reflexivity.
  - vm_compute. reflexivity.
  - vm_compute. reflexivity.
  - vm_compute. reflexivity.
  - vm_compute. reflexivity.
  - destruct H as (w' & Hrun & Hreach); [vm_compute; reflexivity|]. exists w'. split; [exact Hrun|].
    exact (proj1 (Hreach w' eq_refl)).
Defined.
End witnesses.
