(* ===== verification/Shutdown.v ===== *)
(** * Shutting down

    [xy_shutdown] frees every module and every region, in the order of the
    tables, and leaves the library as its constructor found it, so that it can
    be started again. *)
From S2P Require Import Prelude Words Corm State Env Regions RegionTree RegionWalks Runtime Paths PathSpecs RegionApi RegionInv RegionSpecs Boot RegionProps Hooks HookSpecs Subtree Dispatch Vector VectorBuild Call SlotRun Registry ModKey ModList ModListSpecs Loader Unload LoadSpecs LoadLink UnloadSpecs LoadProps.

Section shutdown.
Context {C : Corm} {CL : CormLaws C} {OS : Os} {CB : Callbacks}.
Implicit Types (w : world) (p q : mptr).

(** ** The modules *)

(** What the system sees of the modules of a list, in its order. *)
Definition farewells w (l : list mptr) : list event :=
  concat ((λ q, from_option farewell [] (w_mods w !! q)) <$> l).

Lemma free_modules_run (l : list (string * mptr)) : ∀ w,
  NoDup l.*2 → (∀ q, q ∈ l.*2 → ∃ m, w_mods w !! q = Some m ∧ cleanup_quiet m) →
  ∃ sts, for_each l (λ kv, module_free_entry kv.2 true) w =
    Ok tt (w <| w_trace ::= (λ t, t ++ farewells w l.*2) |> <| w_states := sts |>
             <| w_mods ::= (λ ms, foldl (λ ms q, delete q ms) ms l.*2) |>).
Proof.
  induction l as [|[k q] l IH]; intros w Hnd Hl.
  { exists (w_states w). simpl. f_equal. apply world_ext; try done. simpl. by rewrite app_nil_r. }
  cbn [fmap list_fmap snd] in Hnd. apply NoDup_cons in Hnd as [Hq Hnd].
  destruct (Hl q) as (m & Hm & Hquiet); [by left|].
  cbn [for_each snd]. rewrite (bind_Ok _ _ _ _ _ (free_entry_run _ _ _ Hm Hquiet)).
  set (w1 := w <| w_trace ::= (λ l, l ++ farewell m) |> <| w_states ::= state_freed m |>
               <| w_mods ::= delete q |>).
  destruct (IH w1 Hnd) as (sts & Hrun).
  { intros x Hx. destruct (Hl x) as (mx & Hmx & ?); [by right|]. exists mx. split; [|done].
    simpl. rewrite lookup_delete_ne; [done|]. by intros ->. }
  exists sts. rewrite Hrun. f_equal. apply world_ext; try done. simpl.
  rewrite <- app_assoc. f_equal. unfold farewells. cbn [fmap list_fmap concat snd]. rewrite Hm. simpl. f_equal.
  f_equal. apply list_fmap_ext. intros i x Hx%list_elem_of_lookup_2. simpl.
  rewrite lookup_delete_ne; [done|]. by intros ->.
Qed.

Lemma foldl_delete_empty {A} (l : list positive) (h : gmap positive A) :
  (∀ q, q ∈ dom h → q ∈ l) → foldl (λ h q, delete q h) h l = ∅.
Proof.
  revert h. induction l as [|q l IH]; intros h Hd; simpl.
  - apply map_eq. intros q. rewrite lookup_empty. apply not_elem_of_dom. intros []%Hd%elem_of_nil.
  - apply IH. intros x. rewrite dom_delete_L. intros [Hx Hne]%elem_of_difference.
    apply Hd in Hx. set_solver.
Qed.

(** ** The regions *)

Lemma free_region_run w q e :
  w_regions w !! q = Some e →
  ∃ sl, region_entry_free q w = Ok tt (w <| w_slots := sl |> <| w_regions ::= delete q |>).
Proof. intros He. unfold region_entry_free. rewrite (bind_Ok _ _ _ _ _ (rget_Ok _ _ _ He)). by eexists. Qed.

Lemma free_regions_run (l : list (region_key * rptr)) : ∀ w,
  NoDup l.*2 → (∀ q, q ∈ l.*2 → q ∈ dom (w_regions w)) →
  ∃ sl, for_each l (λ kv, region_entry_free kv.2) w =
    Ok tt (w <| w_slots := sl |> <| w_regions ::= (λ h, foldl (λ h q, delete q h) h l.*2) |>).
Proof.
  induction l as [|[k q] l IH]; intros w Hnd Hl.
  { exists (w_slots w). by destruct w. }
  cbn [fmap list_fmap snd] in Hnd. apply NoDup_cons in Hnd as [Hq Hnd].
  pose proof (Hl q ltac:(by left)) as [e He]%elem_of_dom.
  destruct (free_region_run w q e He) as (sl0 & H0). cbn [for_each snd]. rewrite (bind_Ok _ _ _ _ _ H0).
  set (w1 := w <| w_slots := sl0 |> <| w_regions ::= delete q |>).
  destruct (IH w1 Hnd) as (sl & Hrun).
  { intros x Hx. simpl. rewrite dom_delete_L. pose proof (Hl x ltac:(by right)). set_solver. }
  exists sl. exact Hrun.
Qed.

(** A table that is injective lists each value once. *)
Lemma corm_values_NoDup {K} `{Countable K} (t : corm K positive) :
  (∀ k k' q, corm_get t k = Some q → corm_get t k' = Some q → k = k') → NoDup (corm_list t).*2.
Proof.
  intros Hinj. apply NoDup_fmap_2_strong; [|apply corm_list_NoDup].
  intros [k q] [k' q'] H1%corm_list_spec H2%corm_list_spec Hq. simpl in Hq. subst q'.
  by rewrite (Hinj k k' q H1 H2).
Qed.

Lemma corm_values_elem {K} `{Countable K} (t : corm K positive) q :
  q ∈ (corm_list t).*2 ↔ ∃ k, corm_get t k = Some q.
Proof.
  rewrite list_elem_of_fmap. split.
  - intros ([k x] & -> & Hk%corm_list_spec). eauto.
  - intros [k Hk%corm_list_spec]. by exists (k, q).
Qed.

(** ** The whole *)

(** A runtime whose tables hold what is alive, each thing once. *)
Record tabled w (t : corm string mptr) : Prop := {
  tb_inited : rt_inited (w_rt w) = true;
  tb_mods : rt_mod_hd (w_rt w) = Some t;
  tb_all q : q ∈ dom (w_mods w) ↔ ∃ k, corm_get t k = Some q;
  tb_once k k' q : corm_get t k = Some q → corm_get t k' = Some q → k = k';
  tb_regions : regions_inv w;
  tb_quiet q m : w_mods w !! q = Some m → cleanup_quiet m;
  tb_mem : w_mem w = []
}.

Lemma shutdown_run w t :
  tabled w t →
  ∃ w', xy_shutdown w = Ok tt w' ∧ fresh_library w' ∧ w_mods w' = ∅ ∧ w_err w' = XY_OK ∧
    w_xy w' = xy_ctx_zero ∧ (rt_mod_count (w_rt w') = 0 ∧ w_next w' = w_next w) ∧
    rt_hook_id_hd (w_rt w') = rt_hook_id_hd (w_rt w) ∧ rt_sica_hd (w_rt w') = rt_sica_hd (w_rt w) ∧
    w_trace w' = w_trace w ++ farewells w (corm_list t).*2.
Proof.
  intros [Hi Ht Hall Honce (tbl & kids & Htbl & Hwf & _) Hquiet Hmem].
  unfold xy_shutdown. rewrite (bind_Ok _ _ _ true w) by (unfold rt_get, gets; by rewrite Hi).
  set (w1 := w <| w_rt ::= (λ r, r <| rt_inited := false |>) |>).
  destruct (free_modules_run (corm_list t) w1) as (sts & Hmods).
  { by apply corm_values_NoDup. }
  { intros q Hq%corm_values_elem%Hall. apply elem_of_dom in Hq as [m Hm].
    exists m. split; [done|by eapply Hquiet]. }
  match type of Hmods with _ = Ok tt ?w0 =>
    set (w2 := w0 <| w_rt ::= (λ r, r <| rt_mod_hd := None |>) |>
                  <| w_rt ::= (λ r, r <| rt_mod_by_region_hd := None |>) |>) end.
  destruct (free_regions_run (corm_list tbl) w2) as (sl & Hregs).
  { apply corm_values_NoDup. intros k k' q (e & He & ->)%(tw_tbl _ _ _ Hwf) (e' & He' & ->)%(tw_tbl _ _ _ Hwf).
    assert (e' = e) as -> by congruence. done. }
  { intros q (k & (e & He & _)%(tw_tbl _ _ _ Hwf))%corm_values_elem. by eapply elem_of_dom_2. }
  assert (Hdown : xy_runtime_teardown w = Ok tt
    (w2 <| w_slots := sl |> <| w_regions := ∅ |>
        <| w_rt ::= (λ r, r <| rt_region_hd := None |> <| rt_path_intern_hd := None |> <| rt_mod_count := 0 |>) |>
        <| w_tls ::= (λ x, x <| t_current_region_id := XY_REGION_ROOT |> <| t_current_region_entry := None |>
             <| t_last_ran := 0 |> <| t_last_retp := RetNull |>) |>
        <| w_xy := xy_ctx_zero |>)).
  { unfold xy_runtime_teardown. rewrite (bind_Ok (rt_mod _) _ _ tt w1) by done.
    rewrite (bind_Ok _ _ _ (Some t) w1) by (unfold rt_get, gets; simpl; by rewrite Ht). cbn [opt_do].
    erewrite bind_Ok by (rewrite (bind_Ok _ _ _ _ _ Hmods); done).
    rewrite (bind_Ok (rt_mod _) _ _ tt w2) by done.
    rewrite (bind_Ok _ _ _ (Some tbl) w2) by (unfold rt_get, gets; simpl; by rewrite Htbl). cbn [opt_do].
    erewrite bind_Ok by (rewrite (bind_Ok _ _ _ _ _ Hregs); done).
    unfold path_intern_free_all. do 4 (erewrite bind_Ok by done). unfold modify. f_equal.
    apply world_ext; try done. simpl. apply foldl_delete_empty.
    intros q [e He]%elem_of_dom. apply corm_values_elem. exists (mk_region_key (re_id e) (re_plen e)).
    apply (tw_tbl _ _ _ Hwf). by exists e. }
  rewrite (bind_Ok _ _ _ _ _ Hdown). eexists. split; [done|]. split_and!; try done; simpl.
  apply foldl_delete_empty. intros q Hq%Hall. by apply corm_values_elem.
Qed.

(** C19. Shutting down frees everything and nothing twice: afterwards no
    module and no region is alive, each module was cleaned up and its object
    closed once, in the table's order, the host's context is blank, and the
    names and ids of registered hooks are kept; the library is as before its
    constructor ran, so that [xy_init] starts it again, and a second shutdown
    does nothing. *)
Theorem shutdown_then_init w t :
  tabled w t →
  ∃ w1 w2, xy_shutdown w = Ok tt w1 ∧ fresh_library w1 ∧ w_mods w1 = ∅ ∧ w_xy w1 = xy_ctx_zero ∧
    w_trace w1 = w_trace w ++ farewells w (corm_list t).*2 ∧
    rt_hook_id_hd (w_rt w1) = rt_hook_id_hd (w_rt w) ∧ rt_sica_hd (w_rt w1) = rt_sica_hd (w_rt w) ∧
    xy_shutdown w1 = Ok tt w1 ∧ xy_init w1 = Ok tt w2 ∧ started w1 w2.
Proof.
  intros Htb. destruct (shutdown_run w t Htb) as (w1 & Hrun & Hf & Hm & He & Hx & _ & Hh & Hs & Ht).
  destruct (xy_init_started w1 Hf) as (w2 & Hinit & Hst).
  exists w1, w2. split_and!; try done. unfold xy_shutdown.
  rewrite (bind_Ok _ _ _ false w1) by (unfold rt_get, gets; by rewrite (fl_inited _ Hf)).
  unfold XY_SET_ERR, modify. f_equal. by apply world_ext.
Qed.
End shutdown.

(** ** On a runtime with one module *)

Section witnesses.
Local Existing Instances gmap_corm gmap_corm_laws hello_os object_callbacks.

Lemma hello_tabled : tabled hello_world hello_table.
Proof.
  assert (Hm : w_mods hello_world = {[3%positive := hello_entry]}) by (vm_compute; reflexivity).
  assert (Hr : w_regions hello_world = {[1%positive := hello_region]}) by (vm_compute; reflexivity).
  assert (Ht : hello_table = {[module_key "hello.so" 0 0 := 3%positive]}) by (vm_compute; reflexivity).
  split.
  - vm_compute; reflexivity.
  - vm_compute; reflexivity.
  - intros q. rewrite Hm, dom_singleton_L. split.
    + intros ->%elem_of_singleton. exists (module_key "hello.so" 0 0). rewrite Ht. apply lookup_singleton_eq.
    + intros [k ->%hello_table_inv]. by apply elem_of_singleton.
  - intros k k' q. rewrite Ht. cbn [corm_get gmap_corm].
    intros [<- _]%lookup_singleton_Some [<- _]%lookup_singleton_Some. reflexivity.
  - exists (corm_put corm_empty (mk_region_key XY_REGION_ROOT 0) 1%positive), (λ _, []).
    split; [vm_compute; reflexivity|]. split; [apply (un_tree _ _ _ _ _ _ _ _ _ _ _ _ _ hello_unloadable)|].
    intros p. rewrite Hr, dom_singleton_L. intros ->%elem_of_singleton. vm_compute. reflexivity.
  - intros q m _ h f st _ _ _ w. reflexivity.
  - vm_compute; reflexivity.
Qed.

Lemma shutdown_then_init_witness :
  ∃ w1 w2, xy_shutdown hello_world = Ok tt w1 ∧
    w_trace w1 = w_trace hello_world ++ [EvDlclose 31%positive] ∧ xy_init w1 = Ok tt w2 ∧ started w1 w2.
Proof.
  destruct (shutdown_then_init hello_world hello_table hello_tabled)
    as (w1 & w2 & H1 & _ & _ & _ & Htr & _ & _ & _ & H2 & Hst).
  exists w1, w2. split; [exact H1|]. split; [|split; [exact H2|exact Hst]].
  rewrite Htr. vm_compute. reflexivity.
Defined.
End witnesses.
