(* ===== verification/Frame.v ===== *)
(** * What most operations leave alone

    [frame w w']: from [w] to [w'] the links and identities of regions, the
    region table, the current region and the runtime's flag are unchanged, every
    module is still there, in the same region or in none, under the same key,
    and the module table has lost entries at most.  Every operation that neither
    attaches a region, nor enters one, nor makes, links or frees a module, nor
    runs foreign code respects it. *)
From S2P Require Import Prelude Words Corm State Env Regions RegionTree Runtime Paths RegionApi RegionInv Hooks Dispatch ModKey ModList Loader Unload.

Section frame.
Context {C : Corm} {CL : CormLaws C}.
Implicit Types (w : world) (p : mptr) (k : string).

(** [p] is in the module table under [k]. *)
Definition tabled w k p : Prop := ∃ t, rt_mod_hd (w_rt w) = Some t ∧ corm_get t k = Some p.

(** A module as another operation may leave it. *)
Definition mod_kept (m m' : mod_entry) : Prop :=
  me_mod_key m' = me_mod_key m ∧ (me_region_entry m' = None ∨ me_region_entry m' = me_region_entry m).

Record frame w w' : Prop := {
  fr_shape : re_shape <$> w_regions w' = re_shape <$> w_regions w;
  fr_regions : rt_region_hd (w_rt w') = rt_region_hd (w_rt w);
  fr_inited : rt_inited (w_rt w') = rt_inited (w_rt w);
  fr_cur : t_current_region_entry (w_tls w') = t_current_region_entry (w_tls w);
  fr_next : (w_next w ≤ w_next w')%positive;
  fr_mods p : option_Forall2 mod_kept (w_mods w !! p) (w_mods w' !! p);
  fr_table k p : tabled w' k p → tabled w k p
}.

#[export] Instance mod_kept_preorder : PreOrder mod_kept.
Proof.
  split; [intros m; split; [done|by right]|]. intros m1 m2 m3 [H1 H2] [H3 H4].
  split; [congruence|]. destruct H4 as [H4|H4]; [by left|]. rewrite H4. exact H2.
Qed.

#[export] Instance frame_preorder : PreOrder frame.
Proof.
  split.
  - intros w. by split.
  - intros w1 w2 w3 [? ? ? ? ? H1 ?] [? ? ? ? ? H2 ?]. split; try congruence; [lia| |by auto].
    intros p. specialize (H1 p). specialize (H2 p). destruct H1; inversion H2; simplify_eq; constructor.
    by etrans.
Qed.

(** ** Accesses *)

Lemma frame_rmod r f : (∀ e, re_shape (f e) = re_shape e) → respects frame (rmod r f).
Proof.
  intros Hf w a w' (e & w1 & He & [= <- <-])%Ok_bind_inv.
  unfold rget in He. apply Ok_bind_inv in He as (o & w2 & [= <- <-] & He).
  destruct (w_regions w !! r) as [e'|] eqn:Hr; [injection He as -> <-|done].
  split; try done; simpl.
  apply map_eq. intros q. rewrite !lookup_fmap. destruct (decide (q = r)) as [->|].
  - rewrite lookup_insert_eq, Hr. simpl. by rewrite Hf.
  - by rewrite lookup_insert_ne.
Qed.

(** A write of the record that was just read. *)
Lemma frame_rput w r e e' :
  w_regions w !! r = Some e → re_shape e' = re_shape e → ∀ u w', rput r e' w = Ok u w' → frame w w'.
Proof.
  intros He Hs u w' Hrun.
  assert (Hf : ∀ x, re_shape (if decide (re_shape e' = re_shape x) then e' else x) = re_shape x)
    by (intros x; by case_decide).
  apply (frame_rmod r _ Hf w u w'). rewrite (rmod_Ok _ _ _ _ He). by rewrite decide_True.
Qed.

Lemma frame_mmod p f : (∀ m, mod_kept m (f m)) → respects frame (mmod p f).
Proof.
  intros Hf w a w' (m & w1 & Hm & [= <- <-])%Ok_bind_inv.
  unfold mget in Hm. apply Ok_bind_inv in Hm as (o & w2 & [= <- <-] & Hm).
  destruct (w_mods w !! p) as [m'|] eqn:Hp; [injection Hm as -> <-|done].
  split; try done; simpl. intros q. destruct (decide (q = p)) as [->|].
  - rewrite lookup_insert_eq, Hp. by constructor.
  - by rewrite lookup_insert_ne.
Qed.

Lemma frame_mput w p m m' :
  w_mods w !! p = Some m → mod_kept m m' → ∀ u w', mput p m' w = Ok u w' → frame w w'.
Proof.
  intros Hm Hk u w' [= <- <-]. split; try done; simpl. intros q. destruct (decide (q = p)) as [->|].
  - rewrite lookup_insert_eq, Hm. by constructor.
  - by rewrite lookup_insert_ne.
Qed.

Lemma frame_modify (f : world → world) :
  (∀ w, w_regions (f w) = w_regions w) → (∀ w, w_mods (f w) = w_mods w) →
  (∀ w, rt_region_hd (w_rt (f w)) = rt_region_hd (w_rt w)) →
  (∀ w, rt_mod_hd (w_rt (f w)) = rt_mod_hd (w_rt w)) →
  (∀ w, rt_inited (w_rt (f w)) = rt_inited (w_rt w)) →
  (∀ w, t_current_region_entry (w_tls (f w)) = t_current_region_entry (w_tls w)) →
  (∀ w, (w_next w ≤ w_next (f w))%positive) → respects frame (modify f).
Proof.
  intros Hr Hm Ht Hk Hi Hc Hn. apply respects_modify. intros w. split; try done.
  - by rewrite Hr.
  - intros p. by rewrite Hm.
  - intros k p. unfold tabled. by rewrite Hk.
Qed.
End frame.

#[export] Hint Extern 1 (respects frame (rmod _ _)) => (apply frame_rmod; intros; reflexivity) : respects.
#[export] Hint Extern 1 (respects frame (mmod _ _)) =>
  (apply frame_mmod; intros; split; [reflexivity|first [right; reflexivity|left; reflexivity]]) : respects.
#[export] Hint Extern 1 (respects frame (modify _)) =>
  (apply frame_modify; intros; first [reflexivity|simpl; lia]) : respects.
#[export] Hint Extern 1 (respects frame (rt_mod _)) =>
  (apply frame_modify; intros; first [reflexivity|simpl; lia]) : respects.
#[export] Hint Extern 1 (respects frame (tls_mod _)) =>
  (apply frame_modify; intros; first [reflexivity|simpl; lia]) : respects.

Ltac frame_unfold := unfold region_current_plen, region_lookup_current, cmod, amod, buf_write, set_err_ret,
  rget, mget, cget, aget, slots_get, slots_put, buf_get, table, rt_get, tls_get, alloc_ok, fresh_ptr, emit,
  XY_SET_ERR, XY_GET_ERR.
Ltac solve_frame := solve [solve_respects | frame_unfold; solve_respects].

Section ops.
Context {C : Corm} {CL : CormLaws C} {OS : Os}.

Lemma frame_rget r : respects frame (rget r). Proof. solve_frame. Qed.
Lemma frame_mget p : respects frame (mget p). Proof. solve_frame. Qed.
Lemma frame_cget p : respects frame (cget p). Proof. solve_frame. Qed.
Lemma frame_cmod p f : respects frame (cmod p f). Proof. solve_frame. Qed.
Lemma frame_aget p : respects frame (aget p). Proof. solve_frame. Qed.
Lemma frame_amod p f : respects frame (amod p f). Proof. solve_frame. Qed.
Lemma frame_slots_get p : respects frame (slots_get p). Proof. solve_frame. Qed.
Lemma frame_slots_put p l : respects frame (slots_put p l). Proof. solve_frame. Qed.
Lemma frame_buf_get p : respects frame (buf_get p). Proof. solve_frame. Qed.
Lemma frame_buf_write p l : respects frame (buf_write p l). Proof. solve_frame. Qed.
Lemma frame_table {T} (f : runtime → option T) : respects frame (table f). Proof. solve_frame. Qed.
Lemma frame_rt_get {T} (f : runtime → T) : respects frame (rt_get f). Proof. solve_frame. Qed.
Lemma frame_tls_get {T} (f : tls → T) : respects frame (tls_get f). Proof. solve_frame. Qed.
Lemma frame_alloc_ok : respects frame alloc_ok. Proof. solve_frame. Qed.
Lemma frame_fresh_ptr : respects frame fresh_ptr.
Proof. intros w a w' [= <- <-]. split; try done. simpl. lia. Qed.
Lemma frame_emit e : respects frame (emit e). Proof. solve_frame. Qed.
Lemma frame_set_err e : respects frame (XY_SET_ERR e). Proof. solve_frame. Qed.
Lemma frame_set_err_ret e : respects frame (set_err_ret e). Proof. solve_frame. Qed.
Lemma frame_plen : respects frame region_current_plen. Proof. solve_frame. Qed.
Lemma frame_lookup_current : respects frame region_lookup_current. Proof. solve_frame. Qed.
End ops.
#[export] Hint Resolve frame_rget frame_mget frame_cget frame_cmod frame_aget frame_amod frame_slots_get
  frame_slots_put frame_buf_get frame_buf_write frame_table frame_rt_get frame_tls_get frame_alloc_ok
  frame_fresh_ptr frame_emit frame_set_err frame_set_err_ret frame_plen frame_lookup_current : respects.

(** ** The operations of each component *)

Section components.
Context {C : Corm} {CL : CormLaws C} {OS : Os}.

(** A read, then a write of a record made from what was read. *)
Lemma frame_read_write {A} p (k : mod_entry → M world A) :
  (∀ w m, w_mods w !! p = Some m → ∀ a w', k m w = Ok a w' → frame w w') →
  respects frame (m ← mget p; k m).
Proof.
  intros Hk w a w' (m & w1 & Hm & Hrun)%Ok_bind_inv.
  unfold mget in Hm. apply Ok_bind_inv in Hm as (o & w2 & [= <- <-] & Hm).
  destruct (w_mods w !! p) as [m'|] eqn:Hp; [injection Hm as -> <-|done]. eauto.
Qed.

Lemma frame_read_write_region {A} p (k : region_entry → M world A) :
  (∀ w e, w_regions w !! p = Some e → ∀ a w', k e w = Ok a w' → frame w w') →
  respects frame (e ← rget p; k e).
Proof.
  intros Hk w a w' (e & w1 & He & Hrun)%Ok_bind_inv.
  unfold rget in He. apply Ok_bind_inv in He as (o & w2 & [= <- <-] & He).
  destruct (w_regions w !! p) as [e'|] eqn:Hp; [injection He as -> <-|done]. eauto.
Qed.

Lemma alloc_ok_mods w ok w' : alloc_ok w = Ok ok w' → w_mods w' = w_mods w ∧ w_regions w' = w_regions w.
Proof. rewrite alloc_ok_run. by intros [= <- <-]. Qed.

Lemma frame_up_each f n e : (∀ x, re_shape (f x) = re_shape x) → respects frame (up_each n f e).
Proof.
  intros Hf. revert e. induction n as [|n IH]; intros [p|]; cbn [up_each]; try solve [solve_respects].
  apply respects_bind; [exact _|by apply frame_rmod|]. intros _. solve_respects.
Qed.

Lemma frame_mark e : respects frame (region_mark_subtree_dirty e).
Proof. apply respects_bind; [exact _| |intros _]; by apply frame_up_each. Qed.
Lemma frame_deny e : respects frame (region_propagate_deny e).
Proof. by apply frame_up_each. Qed.
Lemma frame_gen_bump e : respects frame (region_dispatch_gen_bump e).
Proof. by apply frame_up_each. Qed.
Lemma frame_region_lookup i l : respects frame (region_lookup i l).
Proof. unfold region_lookup. solve_respects. Qed.
Lemma frame_find n stop node i l best :
  respects frame (find_rec stop n node i l best) ∧ ∀ c, respects frame (find_children stop n c i l best).
Proof.
  revert node best. induction n as [|n IH]; intros node best; (split; [|intros [c|]]); simpl; solve_respects;
    first [apply (proj1 (IH _ _))|apply (proj2 (IH node _))].
Qed.
Lemma frame_find_rec n stop node i l best : respects frame (find_rec stop n node i l best).
Proof. apply frame_find. Qed.
#[local] Hint Resolve frame_find_rec frame_region_lookup : respects.
Lemma frame_nearest i l : respects frame (region_nearest_ancestor i l).
Proof. unfold region_nearest_ancestor, region_find_ancestor_rec. solve_respects. Qed.
End components.
#[export] Hint Resolve frame_mark frame_deny frame_gen_bump frame_region_lookup frame_find_rec frame_nearest : respects.

Section vectors.
Context {C : Corm} {CL : CormLaws C} {OS : Os}.

(** An allocation between the read of a record and its write. *)
Lemma frame_alloc_rput {A} r e e' (w : world) (k : bool → M world A) :
  w_regions w !! r = Some e → re_shape e' = re_shape e →
  (∀ ok, respects frame (k ok) ∨ ∃ k', k ok = (rput r e';; k') ∧ respects frame k') →
  ∀ a w', (ok ← alloc_ok; k ok) w = Ok a w' → frame w w'.
Proof.
  intros He Hf Hk a w' (ok & w1 & Hok & Hrun)%Ok_bind_inv. etrans; [by eapply frame_alloc_ok|].
  assert (He1 : w_regions w1 !! r = Some e) by (destruct (alloc_ok_mods _ _ _ Hok) as [_ ->]; done).
  destruct (Hk ok) as [Hk'|(k' & Heq & Hk')]; [by eapply Hk'|]. rewrite Heq in Hrun.
  apply Ok_bind_inv in Hrun as ([] & w3 & Hput & Hrun). etrans; [by eapply frame_rput|by eapply Hk'].
Qed.

Lemma frame_alloc_mput p m m' (w : world) (k : M world Z) :
  w_mods w !! p = Some m → mod_kept m m' → respects frame k →
  ∀ b w', (ok ← alloc_ok; if negb ok then mret (-1)%Z else mput p m';; k) w = Ok b w' → frame w w'.
Proof.
  intros Hm Hf Hk b w' (ok & w1 & Hok & Hrun)%Ok_bind_inv. etrans; [by eapply frame_alloc_ok|].
  assert (Hm1 : w_mods w1 !! p = Some m) by (destruct (alloc_ok_mods _ _ _ Hok) as [-> _]; done).
  destruct ok; [|by injection Hrun as <- <-].
  apply Ok_bind_inv in Hrun as ([] & w3 & Hput & Hrun). etrans; [by eapply frame_mput|by eapply Hk].
Qed.

Lemma frame_subtree_push root me : respects frame (region_subtree_mods_push root me).
Proof.
  apply frame_read_write_region. intros w e He b w' (a & w1 & Hgrow & Hrun)%Ok_bind_inv. transitivity w1.
  - case_decide; [|by injection Hgrow as <- <-]. eapply frame_alloc_rput; [exact He| | |exact Hgrow].
    2: { intros [|]; [right; eexists; split; [reflexivity|]|left]; solve_respects. }
    done.
  - assert (Hk : respects frame (rmod root (λ r, r <| re_subtree_mods ::= (λ l, l ++ [me]) |>);; mret 0))
      by solve_respects.
    destruct a; [by eapply Hk|by injection Hrun as <- <-].
Qed.

Lemma frame_dispatch_cap re hook_id : respects frame (region_ensure_hook_dispatch_cap re hook_id).
Proof.
  unfold region_ensure_hook_dispatch_cap. destruct (hook_id <? 0); [solve_respects|].
  apply frame_read_write_region. intros w e He b w'. destruct (hook_id <? _); [by intros [= <- <-]|].
  cbv zeta. intros Hrun. eapply frame_alloc_rput; [exact He| | |exact Hrun].
  2: { intros [|]; [right; eexists; split; [reflexivity|]|left; simpl]; solve_respects. }
  done.
Qed.

Lemma frame_impl_words me hook_id : respects frame (module_ensure_hook_impl_words me hook_id).
Proof.
  unfold module_ensure_hook_impl_words. destruct (hook_id <? 0); [solve_respects|]. cbv zeta.
  apply frame_read_write. intros w m Hm b w'. case_decide; [by intros [= <- <-]|].
  intros Hrun. eapply frame_alloc_mput; [exact Hm| | |exact Hrun]; [|solve_respects].
  split; [done|by right].
Qed.

Lemma frame_fn_cache_cap me needed : respects frame (module_ensure_fn_cache_cap me needed).
Proof.
  apply frame_read_write. intros w m Hm b w'. destruct (needed <=? _); [by intros [= <- <-]|].
  intros Hrun. eapply frame_alloc_mput; [exact Hm| | |exact Hrun]; [|solve_respects].
  split; [done|by right].
Qed.
End vectors.
#[export] Hint Resolve frame_subtree_push frame_dispatch_cap frame_impl_words frame_fn_cache_cap : respects.

Section walks.
Context {C : Corm} {CL : CormLaws C} {OS : Os}.

Lemma frame_push_mods n root me : respects frame (push_mods n root me).
Proof. revert me. induction n as [|n IH]; intros [m|]; simpl; solve_respects. Qed.
#[local] Hint Resolve frame_push_mods : respects.

Lemma frame_collect n root :
  (∀ node, respects frame (region_collect_subtree_mods n root node)) ∧
  ∀ c, respects frame (collect_children n root c).
Proof.
  induction n as [|n [IH1 IH2]]; (split; [intros node|intros [c|]]); simpl; solve_respects.
Qed.

Lemma frame_rebuild_subtree root : respects frame (region_rebuild_subtree_mods root).
Proof. destruct root as [p|]; simpl; solve_respects. by apply (proj1 (frame_collect _ _)). Qed.
#[local] Hint Resolve frame_rebuild_subtree : respects.

Lemma frame_ancestor_walk n e : respects frame (ancestor_walk n e).
Proof. revert e. induction n as [|n IH]; intros [p|]; simpl; solve_respects. Qed.
Lemma frame_chain e n : respects frame (region_ancestor_chain e n).
Proof. apply respects_bind; [exact _|apply frame_ancestor_walk|intros ?; solve_respects]. Qed.

Lemma frame_mark_hook me hook_id : respects frame (module_mark_hook_implemented me hook_id).
Proof. unfold module_mark_hook_implemented. solve_respects. Qed.
#[local] Hint Resolve frame_mark_hook : respects.
Lemma frame_cache_store me hook_id cb : respects frame (fn_cache_store me hook_id cb).
Proof. unfold fn_cache_store. solve_respects. Qed.
#[local] Hint Resolve frame_cache_store : respects.
Lemma frame_resolve me hook_id name : respects frame (fn_cache_resolve me hook_id name).
Proof. unfold fn_cache_resolve. solve_respects. Qed.
Lemma frame_prewarm me : respects frame (fn_cache_prewarm me).
Proof. unfold fn_cache_prewarm, prewarm_one. solve_respects. Qed.

Lemma frame_open_once {T} (get : runtime → option T) empty set :
  (∀ t, respects frame (rt_mod (set t))) → respects frame (open_once get empty set).
Proof. intros Hset. unfold open_once, open_table. solve_respects. Qed.
Lemma frame_deny_set_add {K} `{Countable K} (s : option (corm K unit)) v : respects frame (deny_set_add s v).
Proof. unfold deny_set_add, open_table. solve_respects. Qed.

Lemma frame_search_path fuel p leaf : respects frame (search_path_list fuel p leaf).
Proof. revert p. induction fuel as [|n IH]; intros [|c p]; simpl; solve_respects. Qed.
#[local] Hint Resolve frame_search_path : respects.
Lemma frame_search_lists ls leaf : respects frame (search_lists ls leaf).
Proof. induction ls as [|l ls IH]; simpl; unfold module_search_path_list; solve_respects. Qed.
#[local] Hint Resolve frame_search_lists : respects.
Lemma frame_load_path fname : respects frame (module_load_path fname).
Proof. unfold module_load_path. solve_respects. Qed.
Lemma frame_intern path : respects frame (module_path_intern path).
Proof.
  unfold module_path_intern. solve_respects. apply frame_open_once. intros t. solve_respects.
Qed.
Lemma frame_copy_to_tmp src : respects frame (copy_to_tmp src).
Proof. unfold copy_to_tmp, copy_one. solve_respects. Qed.
End walks.
#[export] Hint Resolve frame_rebuild_subtree frame_chain frame_mark_hook frame_cache_store frame_resolve
  frame_prewarm frame_deny_set_add frame_load_path frame_intern frame_copy_to_tmp : respects.

Section dispatch.
Context {C : Corm} {CL : CormLaws C} {OS : Os}.

Lemma frame_zero_buf p n : respects frame (zero_buf p n). Proof. unfold zero_buf. solve_frame. Qed.
Lemma frame_zero_ret p r : respects frame (xy_zero_ret p r).
Proof. unfold xy_zero_ret, zero_buf. solve_respects. Qed.
Lemma frame_set_last_ret p n : respects frame (xy_set_last_ret p n).
Proof. unfold xy_set_last_ret, read_bytes, retbuf_write. solve_respects. Qed.
Lemma frame_publish ran p r : respects frame (xy_last_publish ran p r).
Proof. unfold xy_last_publish. solve_respects. Qed.
Lemma frame_copy_last p f n : respects frame (copy_last p f n).
Proof. unfold copy_last, read_bytes. solve_respects. Qed.
#[local] Hint Resolve frame_zero_buf frame_zero_ret frame_set_last_ret : respects.
Lemma frame_fail retp r e : respects frame (dispatch_fail retp r e).
Proof. unfold dispatch_fail. solve_respects. Qed.
Lemma frame_finish retp r n : respects frame (dispatch_finish retp r n).
Proof. unfold dispatch_finish. solve_respects. Qed.
Lemma frame_dispatch_resolve r : respects frame (dispatch_resolve r).
Proof. unfold dispatch_resolve, canonical_adapter. solve_respects. Qed.

Lemma frame_denied_by anc path : respects frame (denied_by anc path).
Proof. induction anc as [|a anc IH]; simpl; solve_respects. Qed.
#[local] Hint Resolve frame_denied_by : respects.
Lemma frame_module_denied anc m : respects frame (module_denied_by_ancestors anc m).
Proof. unfold module_denied_by_ancestors. solve_respects. Qed.
Lemma frame_hook_denied anc name : respects frame (hook_denied_by anc name).
Proof. induction anc as [|a anc IH]; simpl; solve_respects. Qed.
#[local] Hint Resolve frame_module_denied frame_hook_denied : respects.
Lemma frame_dispatch_denied anc name : respects frame (dispatch_denied anc name).
Proof. unfold dispatch_denied. solve_respects. Qed.

Lemma frame_cache_get re i : respects frame (cache_get re i). Proof. unfold cache_get. solve_respects. Qed.
Lemma frame_cache_mod re i f : respects frame (cache_mod re i f). Proof. unfold cache_mod. solve_respects. Qed.
#[local] Hint Resolve frame_cache_get frame_cache_mod : respects.
Lemma frame_cache_push re i s : respects frame (cache_push re i s).
Proof. unfold cache_push. solve_respects. Qed.
#[local] Hint Resolve frame_cache_push : respects.
Lemma frame_rebuild_loop re i name anc mods : respects frame (rebuild_loop re i name anc mods).
Proof. induction mods as [|m mods IH]; simpl; unfold rebuild_one; solve_respects. Qed.
#[local] Hint Resolve frame_rebuild_loop : respects.
Lemma frame_rebuild_dispatch re i name anc : respects frame (region_rebuild_hook_dispatch re i name anc).
Proof. unfold region_rebuild_hook_dispatch. solve_respects. Qed.
#[local] Hint Resolve frame_rebuild_dispatch : respects.
Lemma frame_prepare r i caller anc : respects frame (dispatch_prepare r i caller anc).
Proof. unfold dispatch_prepare. solve_respects. Qed.
Lemma frame_inject c r m : respects frame (inject_ctx c r m). Proof. unfold inject_ctx. solve_respects. Qed.
Lemma frame_slot_live s : respects frame (slot_live s). Proof. unfold slot_live. solve_respects. Qed.
Lemma frame_call_target s : respects frame (call_target s). Proof. destruct s; simpl; solve_respects. Qed.
End dispatch.
#[export] Hint Resolve frame_zero_buf frame_zero_ret frame_set_last_ret frame_publish frame_copy_last frame_fail frame_finish
  frame_dispatch_resolve frame_module_denied frame_dispatch_denied frame_cache_get frame_cache_mod
  frame_prepare frame_inject frame_slot_live frame_call_target : respects.

Section modules.
Context {C : Corm} {CL : CormLaws C} {OS : Os} {CB : Callbacks}.

Lemma frame_opt_do {A} (o : option A) f : (∀ a, respects frame (f a)) → respects frame (opt_do o f).
Proof. intros Hf. destruct o; simpl; [apply Hf|solve_respects]. Qed.
Lemma frame_dlclose h : respects frame (dlclose h). Proof. unfold dlclose. solve_respects. Qed.
Lemma frame_unlink p : respects frame (unlink p). Proof. unfold unlink. solve_respects. Qed.
#[local] Hint Resolve frame_opt_do frame_dlclose frame_unlink : respects.

Lemma frame_lookup_fname f i l : respects frame (module_lookup_from_fname f i l).
Proof. unfold module_lookup_from_fname. solve_respects. Qed.
Lemma frame_detach p : respects frame (module_region_detach p).
Proof. unfold module_region_detach. solve_respects. Qed.
Lemma frame_abort_detach p : respects frame (abort_detach p).
Proof. unfold abort_detach. solve_respects. Qed.
Lemma frame_remove_denies r path : respects frame (module_remove_path_owned_entries r path).
Proof. unfold module_remove_path_owned_entries, module_remove_denies. solve_respects. Qed.

(** Taking an entry out of the tables. *)
Lemma frame_table_del key w t :
  rt_mod_hd (w_rt w) = Some t →
  ∀ u w', rt_mod (λ r, r <| rt_mod_hd := Some (corm_del t key) |>) w = Ok u w' →
  frame w w' ∧ ∀ p, ¬ tabled w' key p.
Proof.
  intros Ht u w' [= <- <-]. split.
  - split; try done. intros k p (t' & [= <-] & Hg). exists t. split; [done|].
    destruct (decide (k = key)) as [->|Hk]; [by rewrite corm_get_del in Hg|by rewrite corm_get_del_ne in Hg].
  - intros p (t' & [= <-] & Hg). by rewrite corm_get_del in Hg.
Qed.

Lemma frame_unpublish p : respects frame (unpublish p).
Proof.
  unfold unpublish. apply respects_bind; [exact _|solve_respects|]. intros m.
  apply respects_bind; [exact _|solve_respects|]. intros t. apply respects_bind; [exact _|solve_respects|]. intros _.
  intros w a w' (t' & w1 & Ht & Hrun)%Ok_bind_inv. unfold table, rt_get in Ht.
  apply Ok_bind_inv in Ht as (o & w2 & [= <- <-] & Ht).
  destruct (rt_mod_hd (w_rt w)) as [t2|] eqn:Ht2; [injection Ht as -> <-|done].
  by eapply frame_table_del.
Qed.

Lemma frame_reuse tx : respects frame (mod_load_try_reuse_existing tx).
Proof. unfold mod_load_try_reuse_existing. solve_respects; apply frame_opt_do; solve_respects. Qed.
Lemma frame_bind_xy tx : respects frame (mod_load_bind_xy tx).
Proof. unfold mod_load_bind_xy, mod_load_check_ctx_abi, _xy_init. solve_respects. Qed.
Lemma frame_clear_fn_cache p : respects frame (module_clear_fn_cache_for_handle p).
Proof. unfold module_clear_fn_cache_for_handle. solve_respects. Qed.
Lemma frame_children_of p l n cap : respects frame (children_of p l n cap).
Proof. revert n cap. induction l as [|kv l IH]; intros n cap; simpl; solve_respects. Qed.
End modules.
#[export] Hint Resolve frame_opt_do frame_dlclose frame_unlink frame_lookup_fname frame_detach frame_abort_detach
  frame_remove_denies frame_unpublish frame_reuse frame_bind_xy frame_clear_fn_cache frame_children_of : respects.
