(* ===== verification/Sound.v ===== *)
(** * Soundness of a running library

    [sound w]: the runtime is up, its regions form a tree the table indexes, the
    current region exists, no module lives in a region that does not, and the
    module table holds live modules only, each under its own key.  [safe D m Q]:
    from a sound world where the regions [D] exist, [m] keeps the world sound,
    loses no region, tables no module that was not tabled, and its result
    satisfies [Q]. *)
From S2P Require Import Prelude Words Corm State Env Regions RegionTree Runtime Paths RegionApi RegionInv RegionSpecs RegionSlots Hooks Dispatch ModKey ModList Loader Unload Frame.

Section sound.
Context {C : Corm} {CL : CormLaws C}.
Implicit Types (w : world) (D : gset rptr).

Record sound w : Prop := {
  sd_inited : rt_inited (w_rt w) = true;
  sd_regions : regions_inv w;
  sd_cur : cur_live w;
  sd_mods p m : w_mods w !! p = Some m →
    (p < w_next w)%positive ∧ ∀ r, me_region_entry m = Some r → r ∈ dom (w_regions w);
  sd_table k p : tabled w k p → ∃ m, w_mods w !! p = Some m ∧ me_mod_key m = k
}.

(** What any operation, and any code an operation runs, may do. *)
Record grows w w' : Prop := {
  gr_regions : dom (w_regions w) ⊆ dom (w_regions w');
  gr_next : (w_next w ≤ w_next w')%positive;
  gr_table k p : (p < w_next w)%positive → tabled w' k p → ∃ k', tabled w k' p
}.
Definition keeps_sound : relation world := λ w w', sound w → sound w' ∧ grows w w'.

#[export] Instance grows_preorder : PreOrder grows.
Proof.
  split; [intros w; split; [done|done|eauto]|].
  intros w1 w2 w3 [? ? H1] [? ? H2]. split; [set_solver|lia|].
  intros k p Hp (k' & Hk)%H2; [by eapply H1|lia].
Qed.
#[export] Instance keeps_sound_preorder : PreOrder keeps_sound.
Proof.
  split; [by intros w|]. intros w1 w2 w3 H1 H2 H. destruct (H1 H) as [Hs Hg]. destruct (H2 Hs). split; [done|by etrans].
Qed.

Lemma frame_dom w w' : frame w w' → dom (w_regions w') = dom (w_regions w).
Proof. intros Hf. by rewrite (shape_dom _ _ (fr_shape _ _ Hf)). Qed.

Lemma frame_mod_back w w' p m' :
  frame w w' → w_mods w' !! p = Some m' → ∃ m, w_mods w !! p = Some m ∧ mod_kept m m'.
Proof.
  intros Hf Hm'. pose proof (fr_mods _ _ Hf p) as Hk. rewrite Hm' in Hk.
  destruct (w_mods w !! p) as [m|]; inversion Hk. by exists m.
Qed.
Lemma frame_mod_fwd w w' p m :
  frame w w' → w_mods w !! p = Some m → ∃ m', w_mods w' !! p = Some m' ∧ mod_kept m m'.
Proof.
  intros Hf Hm. pose proof (fr_mods _ _ Hf p) as Hk. rewrite Hm in Hk.
  destruct (w_mods w' !! p) as [m'|]; inversion Hk. by exists m'.
Qed.

Lemma frame_keeps_sound w w' : frame w w' → keeps_sound w w'.
Proof.
  intros Hf [Hi Hr Hc Hm Ht]. pose proof (frame_dom _ _ Hf) as Hd. split; split.
  - by rewrite (fr_inited _ _ Hf).
  - eapply regions_inv_view; [apply Hf..|done].
  - intros p. rewrite (fr_cur _ _ Hf), Hd. apply Hc.
  - intros p m' Hm'. destruct (frame_mod_back _ _ _ _ Hf Hm') as (m & Hp & _ & He).
    destruct (Hm p m Hp) as [Hlt Hreg]. pose proof (fr_next _ _ Hf). split; [lia|].
    intros r Hr'. rewrite Hd. apply Hreg. destruct He; congruence.
  - intros k p (m & Hp & <-)%(fr_table _ _ Hf)%Ht.
    destruct (frame_mod_fwd _ _ _ _ Hf Hp) as (m' & Hp' & Hkey & _). by exists m'.
  - by rewrite Hd.
  - apply (fr_next _ _ Hf).
  - intros k p _ H%(fr_table _ _ Hf). by exists k.
Qed.

(** ** The judgement *)

Definition safe {A} D (m : M world A) (Q : A → gset rptr → Prop) : Prop :=
  ∀ w a w', sound w → D ⊆ dom (w_regions w) → m w = Ok a w' →
    sound w' ∧ grows w w' ∧ Q a (dom (w_regions w')).

(** Nothing is said of the result. *)
Definition any {A} : A → gset rptr → Prop := λ _ _, True.
(** The result is a region that exists, if it is one. *)
Definition exists_in : option rptr → gset rptr → Prop := λ o D, ∀ r, o = Some r → r ∈ D.

Lemma safe_frame {A} D (m : M world A) : respects frame m → safe D m any.
Proof. intros Hm w a w' Hs _ Hrun%Hm. by destruct (frame_keeps_sound _ _ Hrun Hs). Qed.
Lemma safe_callback {A} D (m : M world A) : respects keeps_sound m → safe D m any.
Proof. intros Hm w a w' Hs _ Hrun%Hm. by destruct (Hrun Hs). Qed.
Lemma safe_respects {A} (m : M world A) : safe ∅ m any → respects keeps_sound m.
Proof. intros Hm w a w' Hrun Hs. destruct (Hm w a w' Hs ltac:(set_solver) Hrun) as (? & ? & _). done. Qed.

Lemma safe_mono {A} D (m : M world A) (Q Q' : A → gset rptr → Prop) :
  safe D m Q → (∀ a D', D ⊆ D' → Q a D' → Q' a D') → safe D m Q'.
Proof.
  intros Hm HQ w a w' Hs HD Hrun. destruct (Hm w a w' Hs HD Hrun) as (? & Hg & ?). split_and!; [done..|].
  apply HQ; [|done]. destruct Hg. set_solver.
Qed.
Lemma safe_any {A} D (m : M world A) Q : safe D m Q → safe D m any.
Proof. intros H. by eapply safe_mono. Qed.

Lemma safe_ret {A} D (a : A) Q : (∀ D', D ⊆ D' → Q a D') → safe D (mret a) Q.
Proof. intros HQ w a' w' Hs HD [= <- <-]. split_and!; [done|done|by apply HQ]. Qed.
Lemma safe_bind {A B} D (m : M world A) (k : A → M world B) P Q :
  safe D m P → (∀ a D', D ⊆ D' → P a D' → safe D' (k a) Q) → safe D (m ≫= k) Q.
Proof.
  intros Hm Hk w b w' Hs HD (a & w1 & H1 & H2)%Ok_bind_inv.
  destruct (Hm w a w1 Hs HD H1) as (Hs1 & Hg1 & HP).
  destruct (Hk a (dom (w_regions w1)) ltac:(destruct Hg1; set_solver) HP w1 b w' Hs1 ltac:(done) H2) as (? & ? & ?).
  split_and!; [done|by etrans|done].
Qed.
Lemma safe_bind_frame {A B} D (m : M world A) (k : A → M world B) Q :
  respects frame m → (∀ a, safe D (k a) Q) → safe D (m ≫= k) Q.
Proof.
  intros Hm Hk. eapply safe_bind; [by apply safe_frame|]. intros a D' HD _ w b w' Hs HD'. apply Hk; [done|set_solver].
Qed.
Lemma safe_crash {A} D Q : safe D (crash : M world A) Q.
Proof. by intros w a w' _ _ [=]. Qed.
Lemma safe_nofuel {A} D Q : safe D (nofuel : M world A) Q.
Proof. by intros w a w' _ _ [=]. Qed.
Lemma safe_for_each {A} D (l : list A) k : (∀ x D', D ⊆ D' → safe D' (k x) any) → safe D (for_each l k) any.
Proof.
  revert D. induction l as [|x l IH]; intros D Hk; simpl; [by apply safe_ret|].
  eapply safe_bind; [by apply Hk|]. intros _ D' HD _. apply IH. intros y D2 H2. apply Hk. set_solver.
Qed.

(** ** Where regions come from *)

Lemma safe_current D : safe D (tls_get t_current_region_entry) exists_in.
Proof. intros w a w' Hs _ [= <- <-]. split_and!; [done|done|]. intros r Hr. by apply (sd_cur _ Hs). Qed.
Lemma safe_lookup_current D : safe D region_lookup_current exists_in.
Proof. apply safe_current. Qed.

Lemma regions_live w id plen o w' : regions_inv w → region_lookup id plen w = Ok o w' → w' = w ∧ exists_in o (dom (w_regions w)).
Proof.
  intros Hi Hrun. destruct (region_lookup_run w id plen Hi) as (o' & Ho & Hs). rewrite Ho in Hrun. injection Hrun as <- <-.
  split; [done|]. intros r ->. destruct Hs as (e & He & _). by eapply elem_of_dom_2.
Qed.
Lemma safe_lookup D id plen : safe D (region_lookup id plen) exists_in.
Proof. intros w o w' Hs _ Hrun. destruct (regions_live w id plen o w' (sd_regions _ Hs) Hrun) as [-> ?]. done. Qed.

Lemma safe_mget D p : safe D (mget p) (λ m D', exists_in (me_region_entry m) D').
Proof.
  intros w m w' Hs _ Hrun. unfold mget in Hrun. apply Ok_bind_inv in Hrun as (o & w1 & [= <- <-] & Hrun).
  destruct (w_mods w !! p) as [m'|] eqn:Hp; [injection Hrun as -> <-|done].
  split_and!; [done|done|]. intros r Hr. by apply (sd_mods _ Hs p m).
Qed.

Lemma safe_set_current D id o : exists_in o D → safe D (set_current_region id o) any.
Proof.
  intros Ho w a w' [Hi Hr Hc Hm Ht] HD [= <- <-]. split_and!; [|by split; eauto|done].
  split; try done. intros p Hp. simpl in *. apply HD. by apply Ho.
Qed.

Lemma safe_inited D : safe D (rt_get rt_inited) (λ b _, b = true).
Proof. intros w a w' Hs _ [= <- <-]. split_and!; [done|done|apply Hs]. Qed.

(** The prologue of a public function: the runtime is up. *)
Lemma safe_with_runtime {A} D (bad : Z → A) (m : M world A) Q : safe D m Q → safe D (with_runtime bad m) Q.
Proof.
  intros Hm w a w' Hs HD Hrun. rewrite with_runtime_run in Hrun by apply Hs. by eapply Hm.
Qed.
End sound.

Create HintDb safe discriminated.
#[export] Hint Constants Opaque : safe.
#[export] Hint Resolve safe_current safe_lookup_current safe_lookup safe_mget : safe.
#[export] Hint Extern 2 (safe _ (set_current_region _ _) _) =>
  (apply safe_set_current; solve [eauto|set_solver]) : safe.

Ltac safe_step :=
  lazymatch goal with
  | |- safe _ (mret _) _ => apply safe_ret; intros ? ?; try exact I
  | |- safe _ crash _ => apply safe_crash
  | |- safe _ nofuel _ => apply safe_nofuel
  | |- safe _ (_ ≫= _) _ =>
      first [eapply safe_bind; [solve [eauto 2 with safe nocore]|intros ? ? ? ?]
            |apply safe_bind_frame; [solve [solve_respects]|intros ?]
            |eapply (safe_bind _ _ _ any); [|intros ? ? ? _]]
  | |- safe _ (match ?x with _ => _ end) _ => destruct x
  | |- safe _ _ any => first [solve [eauto 2 with safe nocore]|apply safe_frame; solve [solve_respects]]
  end.
Ltac solve_safe := repeat first [solve [eauto 2 with safe nocore]|safe_step|progress cbv zeta].
