(* ===== verification/SoundRegions.v ===== *)
(** * The region interface keeps the library sound

    Attaching a region, on both ways to do it, and the public functions of
    RegionApi. *)
From S2P Require Import Prelude Words Corm State Env Regions RegionTree Runtime Paths RegionApi RegionInv RegionSpecs RegionSlots Hooks Dispatch ModKey ModList Loader Unload Frame Sound.

(** A loop that ends with a result took it from one of its rounds. *)
Lemma until_nat_result {A B} (f : A → A + B) (P : B → Prop) :
  (∀ a b, f a = inr b → P b) → ∀ n a b, until_nat f n a = inr b → P b.
Proof.
  intros Hf n. induction n as [|n IH]; intros a b; simpl; [done|].
  destruct (f a) as [a'|b'] eqn:Ha; [apply IH|]. intros [= <-]. by eapply Hf.
Qed.

Lemma until_result {A B} (f : A → A + B) (P : B → Prop) n a b :
  (∀ a b, f a = inr b → P b) → until n f a = inr b → P b.
Proof. intros Hf. rewrite until_until_nat. by apply until_nat_result. Qed.

Section regions.
Context {C : Corm} {CL : CormLaws C}.
Implicit Types (w : world) (D : gset rptr).

(** ** Slots *)

(** The slot of a child: invalid, or a free canonical identity, also at the
    full width, where the loop may leave the parent's prefix. *)
Lemma region_alloc_slot_fresh t pe g :
  is_u64 (re_id pe) → aligned (re_id pe) (re_plen pe) → 0 ≤ re_plen pe ≤ 64 → 0 < g ≤ 64 →
  region_alloc_slot t pe g ≠ XY_REGION_INVALID →
  u8 (re_plen pe + g) = re_plen pe + g ∧ re_plen pe + g ≤ 64 ∧
  is_u64 (region_alloc_slot t pe g) ∧ aligned (region_alloc_slot t pe g) (re_plen pe + g) ∧
  corm_get t (mk_region_key (region_alloc_slot t pe g) (re_plen pe + g)) = None.
Proof.
  intros Hid Hal Hpl Hg Hne. assert (Hu : u8 (re_plen pe + g) = re_plen pe + g) by (apply u8_small; unfold is_u8; lia).
  split; [done|]. revert Hne. unfold region_alloc_slot. rewrite Hu. destruct (Z.ltb_spec 64 (re_plen pe + g)); [done|].
  cbv zeta. generalize (2 ^ 64)%positive. intros n.
  destruct (until n _ _) as [s|id] eqn:Hrun; [done|]. intros Hne. split; [done|].
  set (sh := if re_plen pe + g <? 64 then 64 - (re_plen pe + g) else 0) in *.
  assert (Hsh : sh = 64 - (re_plen pe + g)) by (unfold sh; destruct (Z.ltb_spec (re_plen pe + g) 64); lia).
  revert Hne. pattern id. eapply until_result; [|exact Hrun]. clear Hrun id.
  intros s id. unfold alloc_slot_step. destruct (corm_get t _) as [q|] eqn:Hget.
  { destruct (_ =? _); [by intros [= <-]|done]. }
  intros [= <-] _. set (x := u64 (Z.shiftl s sh)) in *.
  assert (Hbit : ∀ i, 64 ≤ i → Z.testbit (Z.lor (re_id pe) x) i = false).
  { intros i Hi. unfold x. rewrite Z.lor_spec, (is_u64_testbit _ i Hid), u64_testbit by lia.
    by destruct (Z.ltb_spec i 64); [lia|]. }
  assert (Hu64 : is_u64 (Z.lor (re_id pe) x)).
  { replace (Z.lor (re_id pe) x) with (u64 (Z.lor (re_id pe) x)); [apply u64_range|].
    apply Z.bits_inj'. intros i Hi. rewrite u64_testbit by done.
    destruct (Z.ltb_spec i 64); [done|]. by rewrite Hbit. }
  split_and!; [done| |exact Hget].
  apply Z.bits_inj'. intros i Hi. rewrite land_mask_testbit by (done || lia).
  destruct (Z.leb_spec (64 - (re_plen pe + g)) i); [done|]. simpl. unfold x.
  rewrite Z.lor_spec, u64_testbit, Z.shiftl_spec_low, andb_false_r, orb_false_r by lia.
  unfold aligned in Hal. rewrite <- Hal, land_mask_testbit by (done || lia).
  by destruct (Z.leb_spec (64 - re_plen pe) i); [lia|].
Qed.

(** ** Attaching *)

Lemma attach_sound w p pe child c w' :
  sound w → w_regions w !! p = Some pe → re_parent child = Some p →
  re_plen pe < re_plen child ≤ 64 → is_u64 (re_id child) → aligned (re_id child) (re_plen child) →
  re_depth child = u8 (re_depth pe + 1) → re_child_bits child = re_plen child - re_plen pe →
  re_children_head child = None → (∀ q, ¬ region_is w (re_id child) (re_plen child) q) →
  region_attach p child w = Ok c w' → sound w' ∧ grows w w' ∧ c ∈ dom (w_regions w').
Proof.
  intros Hs Hp Hpar Hpl Hid Hal Hdep Hcb Hch Hnew Hrun.
  pose proof (sd_regions _ Hs) as (tbl & kids & Ht & Hwf & Hb).
  pose proof (tw_depth _ _ _ Hwf _ _ Hp) as Hd. pose proof (tw_ident _ _ _ Hwf _ _ Hp) as (_ & Hpp & _).
  rewrite u8_small in Hdep by (unfold is_u8; lia).
  assert (corm_get tbl (mk_region_key (re_id child) (re_plen child)) = None) as Hnone.
  { destruct (corm_get _ _) as [q|] eqn:Hg; [|done]. destruct (Hnew q).
    apply (tw_tbl _ _ _ Hwf) in Hg as (e & He & [= -> ->]). by exists e. }
  destruct (region_attach_spec w tbl kids p pe child Ht Hwf Hb Hp Hpar Hpl Hid Hal Hdep Hcb Hch Hnone)
    as (h' & kids' & Hrun' & Hwf' & Hdom & _ & _ & _).
  rewrite Hrun' in Hrun. injection Hrun as <- <-. split_and!; [|split|]; simpl.
  - destruct Hs as [Hi _ Hcur Hm Htb]. split; simpl; [done| | | |].
    + eexists _, kids'. split_and!; [reflexivity|exact Hwf'|]. simpl. intros q. rewrite Hdom.
      intros [->%elem_of_singleton|Hq%Hb]%elem_of_union; lia.
    + intros q Hq. simpl in *. rewrite Hdom. apply Hcur in Hq. set_solver.
    + intros q m Hq. destruct (Hm q m Hq) as [? Hr]. split; [lia|]. intros r Hr'%Hr. rewrite Hdom. set_solver.
    + done.
  - rewrite Hdom. set_solver.
  - lia.
  - eauto.
  - rewrite Hdom. set_solver.
Qed.

(** A new region under [p] becomes current, and the function returns. *)
Lemma enter_new_sound {A} D w p pe child id (k : M world A) a w' :
  sound w → D ⊆ dom (w_regions w) → w_regions w !! p = Some pe → re_parent child = Some p →
  re_plen pe < re_plen child ≤ 64 → is_u64 (re_id child) → aligned (re_id child) (re_plen child) →
  re_depth child = u8 (re_depth pe + 1) → re_child_bits child = re_plen child - re_plen pe →
  re_children_head child = None → (∀ q, ¬ region_is w (re_id child) (re_plen child) q) →
  (∀ D', D ⊆ D' → safe D' k any) →
  (c ← region_attach p child; set_current_region id (Some c);; k) w = Ok a w' →
  sound w' ∧ grows w w'.
Proof.
  intros Hs HD Hp Hpar Hpl Hid Hal Hdep Hcb Hch Hnew Hk (c & w1 & Hat & Hrun)%Ok_bind_inv.
  destruct (attach_sound w p pe child c w1) as (Hs1 & Hg & Hc); [done..|].
  assert (Hrest : safe (dom (w_regions w1)) (set_current_region id (Some c);; k) any).
  { eapply safe_bind; [apply safe_set_current; intros r [= <-]; exact Hc|]. intros _ D' HD' _. apply Hk.
    destruct Hg. set_solver. }
  destruct (Hrest w1 a w' Hs1 ltac:(done) Hrun) as (? & ? & _). split; [done|by etrans].
Qed.
End regions.

(** ** The public functions *)

Section api.
Context {C : Corm} {CL : CormLaws C} {OS : Os} {CB : Callbacks} {CBR : CallbacksRespect CB keeps_sound}.
Implicit Types (w : world) (D : gset rptr).

#[local] Hint Extern 1 (safe _ (cb_dlopen _) _) => (apply safe_callback, cbr_dlopen) : safe.
#[local] Hint Extern 1 (safe _ (cb_each _ _ _ _) _) => (apply safe_callback, cbr_each) : safe.
#[local] Hint Extern 1 (safe _ (cb_scope _ _) _) => (apply safe_callback, cbr_scope) : safe.

Lemma safe_require_claim D fn u : safe D (xy_require_claim fn u) any.
Proof. apply safe_with_runtime. solve_safe. Qed.

Lemma safe_deny D what t : safe D (xy_deny what t) any.
Proof. apply safe_with_runtime, safe_frame. destruct t; solve_respects. Qed.

Lemma safe_each_child D n e fn u ret : safe D (each_child n e fn u ret) any.
Proof. revert D e ret. induction n as [|n IH]; intros D [c|] ret; simpl; solve_safe; by apply IH. Qed.
#[local] Hint Resolve safe_each_child : safe.
Lemma safe_region_each D fn u : safe D (xy_region_each fn u) any.
Proof. apply safe_with_runtime. solve_safe. Qed.

Lemma safe_xy_current_region D : safe D xy_current_region any.
Proof. apply safe_with_runtime. solve_safe. Qed.
Lemma safe_xy_current_plen D : safe D xy_current_region_plen any.
Proof. apply safe_with_runtime. solve_safe. Qed.
Lemma safe_region_exists D i l : safe D (xy_region_exists i l) any.
Proof. apply safe_with_runtime. solve_safe. Qed.
Lemma safe_region_at D i l : safe D (xy_region_at i l) any.
Proof. apply safe_with_runtime. unfold region_find_cover_rec. solve_safe. Qed.

Lemma safe_with_region D i l fn u : safe D (xy_with_region i l fn u) any.
Proof.
  apply safe_with_runtime. destruct fn as [f|]; [|solve_safe].
  eapply safe_bind; [apply safe_lookup|]. intros [t|] D1 HD1 Ht; [|solve_safe].
  apply safe_bind_frame; [solve_respects|]. intros id.
  eapply safe_bind; [apply safe_current|]. intros prev D2 HD2 Hprev.
  eapply safe_bind; [apply safe_set_current; intros r Hr; apply HD2, (Ht r Hr)|]. intros _ D3 HD3 _.
  eapply safe_bind; [apply safe_callback, cbr_scope|]. intros ret D4 HD4 _.
  eapply safe_bind; [apply safe_set_current; intros r Hr; apply HD4, HD3, (Hprev r Hr)|]. intros _ D5 HD5 _. solve_safe.
Qed.
(** The lookup also tells that the region does not exist yet. *)
Lemma safe_claim_at D id plen fn u : is_u64 id → 0 ≤ plen → safe D (xy_claim_at id plen fn u) any.
Proof.
  intros Hid Hpl0 w a w' Hs HD Hrun. unfold xy_claim_at in Hrun. rewrite with_runtime_run in Hrun by apply Hs.
  apply if_Ok_inv in Hrun as [[_ Hrun]|[Hpl%Z.ltb_ge Hrun]]; [by eapply (safe_frame D (set_err_ret XY_ERR_TOOBIG)); [solve_respects|..]|].
  apply if_Ok_inv in Hrun as [[_ Hrun]|[Hal%negb_false_iff%Z.eqb_eq Hrun]]; [by eapply (safe_frame D (set_err_ret XY_ERR_INVALID)); [solve_respects|..]|].
  pose proof (sd_regions _ Hs) as Hinv.
  destruct (region_lookup_run w id plen Hinv) as (o & Ho & Hwhat). rewrite (bind_Ok _ _ _ _ _ Ho) in Hrun.
  destruct o as [x|].
  - assert (Hx : x ∈ dom (w_regions w)) by (destruct Hwhat as (e & He & _); by eapply elem_of_dom_2).
    eapply (safe_bind (dom (w_regions w)) _ _ any any); [|intros ? D1 HD1 _|done|done|exact Hrun]; [destruct fn; solve_safe|].
    eapply safe_bind; [apply safe_set_current; intros r [= <-]; by apply HD1|]. intros; solve_safe.
  - assert (Hp0 : 0 < plen).
    { destruct (Z.eq_dec plen 0) as [->|]; [|lia].
      destruct (root_lookup_run w Hinv) as (r & e & _ & He & Hi & Hl).
      destruct (Hwhat r). exists e. split_and!; [done| |done]. rewrite region_mask_0, Z.land_0_r in Hal. by rewrite Hi. }
    destruct (nearest_ancestor_run w id plen Hinv Hp0) as (p & Hnear & [(pe & Hpe & _) Hlt] & _).
    unfold plen_of in Hlt. rewrite Hpe in Hlt. rewrite (bind_Ok _ _ _ _ _ Hnear), (bind_Ok _ _ _ _ _ (rget_Ok _ _ _ Hpe)) in Hrun.
    destruct (Z.leb_spec plen (re_plen pe)); [lia|].
    rewrite (bind_Ok _ _ _ _ _ (alloc_ok_run w)) in Hrun.
    set (w1 := w <| w_mem ::= tail |>) in *.
    assert (Hf1 : frame w w1) by (by apply (frame_alloc_ok w _ _ (alloc_ok_run w))).
    destruct (frame_keeps_sound _ _ Hf1 Hs) as [Hs1 Hg1].
    destruct (next_alloc w); [|eapply (safe_frame D (set_err_ret XY_ERR_TOOBIG)) in Hrun; [|solve_respects|done..]].
    2: { destruct Hrun as (? & ? & _). split_and!; [done|by etrans|done]. }
    simpl negb in Hrun. cbv iota in Hrun.
    pose proof Hinv as (tbl & kids & Ht & Hwf & Hb). pose proof (tw_ident _ _ _ Hwf _ _ Hpe) as (_ & Hpp & _).
    eapply (enter_new_sound D w1 p pe) in Hrun as [? ?]; [split_and!; [done|by etrans|done]|done..| | | | | | | |]; simpl.
    all: try done; try lia.
    + apply u8_small. unfold is_u8. lia.
    + intros; solve_safe.
Qed.
End api.
#[export] Hint Resolve safe_require_claim safe_deny safe_region_each safe_xy_current_region safe_xy_current_plen
  safe_region_exists safe_region_at safe_with_region : safe.
