(* ===== verification/SoundDispatch.v ===== *)
(** * Calls keep the library sound

    xy_call, xy_call_self, xy_last and xy_areg, whatever the listeners do. *)
From S2P Require Import Prelude Words Corm State Env Regions RegionTree Runtime Paths RegionApi RegionInv RegionSpecs Hooks Dispatch ModKey ModList Loader Unload Frame Sound SoundRegions.

Section dispatch.
Context {C : Corm} {CL : CormLaws C} {OS : Os} {CB : Callbacks} {CBR : CallbacksRespect CB keeps_sound}.
Implicit Types (w : world) (D : gset rptr).

Lemma safe_adapter_call D f res fn arg : safe D (adapter_call f res fn arg) any.
Proof.
  unfold adapter_call. destruct (match fn with Some l => Some l | None => af_self f end) as [l|]; [|solve_safe].
  do 3 (apply safe_bind_frame; [solve_respects|intros ?]).
  eapply safe_bind; [apply safe_callback, cbr_hook|]. intros bs D1 _ _. solve_safe.
Qed.
#[local] Hint Resolve safe_adapter_call : safe.

(** A slot's module and the region it will run in. *)
Definition live_slot (o : option (mptr * mod_entry * cptr)) D : Prop :=
  ∀ p m c, o = Some (p, m, c) → exists_in (me_region_entry m) D.

Lemma safe_slot_live D s : safe D (slot_live s) live_slot.
Proof.
  unfold slot_live. destruct (ds_me s) as [p|]; [|by apply safe_ret].
  eapply safe_bind; [apply safe_mget|]. intros m D1 _ Hm. destruct (me_ctx m) as [c|]; [|by apply safe_ret].
  apply safe_ret. intros D2 HD2 p' m' c'. destruct (fn_slot_unset _); [done|]. intros [= <- <- <-] r Hr.
  by apply HD2, Hm.
Qed.
#[local] Hint Resolve safe_slot_live : safe.

Lemma safe_run_slot D retp reg call arg caller rid me m ctx cb :
  exists_in (me_region_entry m) D → safe D (run_slot retp reg call arg caller rid me m ctx cb) any.
Proof.
  intros Hm. unfold run_slot. apply safe_bind_frame; [solve_respects|]. intros _.
  eapply safe_bind; [apply safe_current|]. intros prev D1 HD1 Hprev. cbv zeta.
  destruct (negb _); [|solve_safe].
  eapply (safe_bind _ _ _ any).
  { apply safe_bind_frame; [solve_respects|]. intros x. apply safe_set_current. intros r Hr. by apply HD1, Hm. }
  intros _ D2 HD2 _. apply safe_bind_frame; [solve_respects|]. intros fn.
  eapply safe_bind; [apply safe_adapter_call|]. intros _ D3 HD3 _.
  apply safe_set_current. intros r Hr. by apply HD3, HD2, Hprev.
Qed.

Lemma safe_slots_loop D n mi retp reg call arg caller rid slots ran :
  safe D (slots_loop n mi retp reg call arg caller rid slots ran) any.
Proof.
  revert D mi ran. induction n as [|n IH]; intros D mi ran; cbn [slots_loop]; [solve_safe|].
  do 2 (apply safe_bind_frame; [solve_respects|intros ?]).
  eapply safe_bind; [apply safe_slot_live|]. intros [[[p m] c]|] D1 _ Hlive; [|apply IH].
  eapply safe_bind; [by apply safe_run_slot, (Hlive p m c)|]. intros _ D2 _ _.
  apply safe_bind_frame; [solve_respects|]. intros _. apply IH.
Qed.

Lemma safe_one_slot D retp reg call arg caller rid slots :
  safe D (one_slot retp reg call arg caller rid slots) any.
Proof.
  unfold one_slot. do 2 (apply safe_bind_frame; [solve_respects|intros ?]).
  eapply safe_bind; [apply safe_slot_live|]. intros [[[p m] c]|] D1 _ Hlive; [|solve_safe].
  specialize (Hlive p m c eq_refl). apply safe_bind_frame; [solve_respects|]. intros _.
  eapply (safe_bind _ _ _ any); [|intros; cbv zeta; solve_safe]. destruct (negb _); [|solve_safe].
  eapply safe_bind; [apply safe_current|]. intros prev D2 HD2 Hprev. apply safe_bind_frame; [solve_respects|]. intros x.
  eapply safe_bind; [apply safe_set_current; intros r Hr; by apply HD2, Hlive|]. intros _ D3 HD3 _.
  apply safe_bind_frame; [solve_respects|]. intros fn.
  eapply safe_bind; [apply safe_adapter_call|]. intros _ D4 HD4 _.
  apply safe_set_current. intros r Hr. by apply HD4, HD3, Hprev.
Qed.
#[local] Hint Resolve safe_slots_loop safe_one_slot : safe.

Lemma safe_subtree D retp reg call i arg caller rid anc : safe D (subtree_scope retp reg call i arg caller rid anc) any.
Proof. unfold subtree_scope, dispatch_run. solve_safe. Qed.

Lemma safe_self_loop D n retp reg call i arg anc me ran :
  safe D (self_loop n retp reg call i arg anc me ran) any.
Proof. revert D me ran. induction n as [|n IH]; intros D [p|] ran; cbn [self_loop]; solve_safe; by apply IH. Qed.
#[local] Hint Resolve safe_subtree safe_self_loop : safe.

Lemma safe_dispatch D fuel retp reg arg self : safe D (xy_dispatch fuel retp reg arg self) any.
Proof.
  unfold xy_dispatch. eapply safe_bind; [apply safe_inited|]. intros ? D1 _ ->.
  eapply (safe_bind _ _ _ (λ e _, e = XY_OK)); [by apply safe_ret|]. intros ? D2 _ ->. simpl (negb _). cbv iota.
  solve_safe.
Qed.

Lemma safe_call D retp reg arg : safe D (xy_call retp reg arg) any.
Proof. apply safe_dispatch. Qed.
Lemma safe_call_self D fuel retp reg arg : safe D (xy_call_self fuel retp reg arg) any.
Proof. apply safe_dispatch. Qed.
Lemma safe_last D ret : safe D (xy_last ret) any.
Proof. apply safe_with_runtime. solve_safe. Qed.
Lemma safe_areg D name a : safe D (xy_areg name a) any.
Proof. apply safe_with_runtime. unfold no_overflow. solve_safe. Qed.
End dispatch.
#[export] Hint Resolve safe_call safe_call_self safe_last safe_areg : safe.
