(* ===== verification/SoundModules.v ===== *)
(** * Loads, unloads and reloads keep the library sound

    The entries a load makes and publishes, the region it may claim, the region
    it enters, and the entries an unload frees, whatever constructors, claim
    handlers, xy_install and clean-up functions do. *)
From S2P Require Import Prelude Words Corm State Env Regions RegionTree Runtime Paths RegionApi RegionInv RegionSpecs Hooks Dispatch ModKey ModList Loader Unload Frame Sound SoundRegions.

Section tables.
Context {C : Corm} {CL : CormLaws C} {OS : Os} {CB : Callbacks}.
Implicit Types (w : world) (D : gset rptr) (p : mptr).

(** A module moves to another key, or enters the table. *)
Lemma retable_sound w w' me new m m' :
  sound w → w_regions w' = w_regions w → rt_region_hd (w_rt w') = rt_region_hd (w_rt w) →
  rt_inited (w_rt w') = rt_inited (w_rt w) →
  t_current_region_entry (w_tls w') = t_current_region_entry (w_tls w) → w_next w' = w_next w →
  w_mods w !! me = Some m → w_mods w' = <[me := m']> (w_mods w) →
  me_region_entry m' = me_region_entry m → me_mod_key m' = new →
  (∀ k p, tabled w' k p → k = new ∧ p = me ∨ p ≠ me ∧ tabled w k p) → sound w'.
Proof.
  intros [Hi Hr Hc Hm Ht] Hwr Htr Hin Hcur Hn Hme Hmods Hre Hkey Htab. split.
  - congruence.
  - eapply regions_inv_view; [by rewrite Hwr|done|by rewrite Hn|done].
  - unfold cur_live. rewrite Hcur, Hwr. exact Hc.
  - intros p x. rewrite Hmods, Hn, Hwr. destruct (decide (p = me)) as [->|Hp].
    + rewrite lookup_insert_eq. intros [= <-]. rewrite Hre. by apply (Hm me m).
    + rewrite lookup_insert_ne by done. apply Hm.
  - intros k p [[-> ->]|[Hp Hk]]%Htab; rewrite Hmods.
    + exists m'. by rewrite lookup_insert_eq.
    + rewrite lookup_insert_ne by done. by apply Ht.
Qed.

(** What a lookup by name finds is in the table. *)
Lemma lookup_fname_tabled f i l w lk w' :
  module_lookup_from_fname f i l w = Ok lk w' →
  frame w w' ∧ ∀ p, lk_entry lk = Some p → ∃ k, lk_key lk = Some k ∧ tabled w' k p.
Proof.
  intros Hrun. split; [by eapply frame_lookup_fname|]. unfold module_lookup_from_fname in Hrun.
  apply Ok_bind_inv in Hrun as ([path|] & w1 & _ & Hrun); [|by injection Hrun as <- <-].
  apply Ok_bind_inv in Hrun as (ok & w2 & _ & Hrun).
  apply if_Ok_inv in Hrun as [[_ Hrun]|[_ Hrun]]; [by injection Hrun as <- <-|].
  cbv zeta in Hrun. apply Ok_bind_inv in Hrun as (t & w3 & Ht & Hrun). injection Hrun as <- <-.
  unfold table, rt_get in Ht. apply Ok_bind_inv in Ht as (o & w4 & [= <- <-] & Ht).
  destruct (rt_mod_hd (w_rt w2)) as [t'|] eqn:Hhd; [injection Ht as -> <-|done].
  simpl. intros p Hp. eexists. split; [done|]. by exists t.
Qed.

(** An entry that leaves the tables is in no slot of the module table. *)
Lemma unpublish_untables w p u w' :
  sound w → unpublish p w = Ok u w' → ∀ k, ¬ tabled w' k p.
Proof.
  intros Hs Hrun k Hk. pose proof Hk as Hk'. apply (fr_table _ _ (frame_unpublish _ _ _ _ Hrun)) in Hk.
  destruct (sd_table _ Hs k p Hk) as (m & Hm & <-).
  unfold unpublish in Hrun. rewrite (bind_Ok _ _ _ _ _ (mget_Ok _ _ _ Hm)) in Hrun.
  apply Ok_bind_inv in Hrun as (t & w1 & _ & Hrun). apply Ok_bind_inv in Hrun as (u1 & w2 & _ & Hrun).
  apply Ok_bind_inv in Hrun as (t2 & w3 & Ht2 & Hrun). unfold table, rt_get in Ht2.
  apply Ok_bind_inv in Ht2 as (o & w4 & [= <- <-] & Ht2).
  destruct (rt_mod_hd (w_rt w2)) as [t'|] eqn:Hhd; [injection Ht2 as -> <-|done].
  destruct (frame_table_del (me_mod_key m) w2 t2 Hhd _ _ Hrun) as [_ Hdel]. by apply (Hdel p).
Qed.

(** [free] of a module that is not in the table. *)
Lemma free_sound w p u w' :
  sound w → (∀ k, ¬ tabled w k p) → free_mod p w = Ok u w' → sound w' ∧ grows w w'.
Proof.
  intros [Hi Hr Hc Hm Ht] Hno Hrun. unfold free_mod in Hrun. apply Ok_bind_inv in Hrun as (m & w1 & Hget & Hrun).
  unfold mget in Hget. apply Ok_bind_inv in Hget as (o & w2 & [= <- <-] & Hget).
  destruct (w_mods w !! p) as [m'|] eqn:Hp; [injection Hget as -> <-|done]. injection Hrun as <- <-. split; split; try done.
  - intros q x Hq. simpl in *. apply lookup_delete_Some in Hq as [_ Hq]. by apply Hm.
  - intros k q Hk. destruct (Ht k q Hk) as (x & Hx & Hkey). exists x. split; [|done]. simpl.
    rewrite lookup_delete_ne; [done|]. intros ->. by apply (Hno k).
  - intros k q _ Hk. by exists k.
Qed.

(** Putting a module on the list of an existing region. *)
Lemma safe_set_region D p r :
  r ∈ D → safe D (mmod p (λ x, x <| me_region_entry := Some r |>)) any.
Proof.
  intros Hr w u w' Hs HD Hrun. unfold mmod in Hrun. apply Ok_bind_inv in Hrun as (m & w1 & Hget & Hrun).
  unfold mget in Hget. apply Ok_bind_inv in Hget as (o & w2 & [= <- <-] & Hget).
  destruct (w_mods w !! p) as [m'|] eqn:Hp; [injection Hget as -> <-|done]. injection Hrun as <- <-.
  destruct Hs as [Hi Hrg Hc Hm Ht]. split_and!; [split; try done|split; [done|done|by eauto]|done]; simpl.
  - intros q x. destruct (decide (q = p)) as [->|Hq].
    + rewrite lookup_insert_eq. intros [= <-]. split; [by apply (Hm p m)|]. intros r' [= <-]. by apply HD.
    + rewrite lookup_insert_ne by done. apply Hm.
  - intros k q Hk. destruct (Ht k q Hk) as (x & Hx & Hkey). destruct (decide (q = p)) as [->|Hq].
    + rewrite lookup_insert_eq. eexists. split; [done|]. simpl. congruence.
    + rewrite lookup_insert_ne by done. eauto.
Qed.
Lemma safe_insert_after D r p after : r ∈ D → safe D (module_region_insert_after r p after) any.
Proof.
  intros Hr. unfold module_region_insert_after. eapply safe_bind; [by apply safe_set_region|]. intros _ D1 _ _.
  solve_safe.
Qed.
Lemma safe_append D r p : r ∈ D → safe D (module_region_append r p) any.
Proof. intros Hr. apply safe_bind_frame; [solve_respects|]. intros e. by apply safe_insert_after. Qed.
End tables.

Section claims.
Context {C : Corm} {CL : CormLaws C} {OS : Os} {CB : Callbacks} {CBR : CallbacksRespect CB keeps_sound}.
Implicit Types (w : world) (D : gset rptr) (p : mptr).

(** What follows the new key of a moved module. *)
Lemma frame_rekey_rest me a b c d id :
  respects frame (module_rekey_region_index me a b c d;; m ← mget me;
    match me_ctx m with Some ctx => cmod ctx (λ x, x <| x_region_id := id |>) | None => mret tt end).
Proof. unfold module_rekey_region_index. cbv zeta. solve_respects. Qed.

Lemma rekey_loaded_sound w me old path a b c d u w' :
  sound w → tabled w old me → module_rekey_loaded_entry me old path a b c d w = Ok u w' → sound w' ∧ grows w w'.
Proof.
  intros Hs Htab Hrun. destruct (sd_table _ Hs _ _ Htab) as (m & Hm & Hkey). pose proof Htab as (t & Ht & Hold).
  unfold module_rekey_loaded_entry in Hrun. rewrite (bind_Ok _ _ _ _ _ (alloc_ok_run w)) in Hrun.
  apply if_Ok_inv in Hrun as [[_ Hrun]|[_ Hrun]].
  { injection Hrun as <- <-. by destruct (frame_keeps_sound _ _ (frame_alloc_ok w _ _ (alloc_ok_run w)) Hs). }
  cbv zeta in Hrun. set (new := module_key path c d) in *.
  assert (Hm1 : w_mods (w <| w_mem ::= tail |>) !! me = Some m) by done.
  set (w1 := w <| w_mem ::= tail |>) in *. erewrite bind_Ok in Hrun by (by apply mmod_Ok).
  set (m1 := m <| me_region_id := c |> <| me_region_plen := d |>) in *.
  set (w2 := w1 <| w_mods ::= <[me := m1]> |>) in *.
  assert (Ht2 : rt_mod_hd (w_rt w2) = Some t) by done.
  erewrite bind_Ok in Hrun by (by apply table_Ok). erewrite bind_Ok in Hrun by reflexivity.
  set (w3 := w2 <| w_rt ::= (λ r, r <| rt_mod_hd := Some (corm_del (corm_put t new me) old) |>) |>) in *.
  assert (Hm3 : w_mods w3 !! me = Some m1) by (apply lookup_insert_eq).
  erewrite bind_Ok in Hrun by (by apply mmod_Ok).
  set (w4 := w3 <| w_mods ::= <[me := m1 <| me_mod_key := new |>]> |>) in *.
  assert (Htab4 : ∀ k p, tabled w4 k p → k = new ∧ p = me ∨ p ≠ me ∧ tabled w k p).
  { intros k p (t' & [= <-] & Hg). destruct (decide (k = old)) as [->|Hko]; [by rewrite corm_get_del in Hg|].
    rewrite corm_get_del_ne, corm_get_put_dec in Hg by done. case_decide as Hk; [left; by simplify_eq|].
    right. assert (Htk : tabled w k p) by (by exists t). split; [|done]. intros ->.
    destruct (sd_table _ Hs _ _ Htk) as (? & ? & ?). congruence. }
  assert (Hs4 : sound w4).
  { eapply (retable_sound w w4 me new m (m1 <| me_mod_key := new |>)); try done. apply insert_insert_eq. }
  assert (Hg4 : grows w w4).
  { split; [done|done|]. intros k p _ [[-> ->]|[_ Hk]]%Htab4; [by exists old|by exists k]. }
  destruct (frame_keeps_sound _ _ (frame_rekey_rest _ _ _ _ _ _ _ _ _ Hrun) Hs4). split; [done|by etrans].
Qed.

Lemma safe_rekey_for_claim D f a b c d : safe D (module_rekey_for_claim f a b c d) any.
Proof.
  intros w u w' Hs HD (lk & w1 & Hlk & Hrun)%Ok_bind_inv. destruct (lookup_fname_tabled _ _ _ _ _ _ Hlk) as [Hf Htab].
  destruct (frame_keeps_sound _ _ Hf Hs) as [Hs1 Hg1]. revert Hrun.
  destruct (lk_load_path lk) as [path|]; [|by intros [= <- <-]].
  destruct (lk_entry lk) as [me|]; [|by intros [= <- <-]]. destruct (Htab me eq_refl) as (k & -> & Hk).
  intros [Hs2 Hg2]%rekey_loaded_sound; [|done..]. split_and!; [done|by etrans|done].
Qed.

(** The claim once the handler has granted [g] bits. *)
Lemma safe_grant D caller id pplen p g :
  0 < g ≤ 64 →
  safe D (t ← table rt_region_hd; pe ← rget p;
    let child_id := region_alloc_slot t pe g in
    if child_id =? XY_REGION_INVALID then set_err_ret XY_ERR_TOOBIG
    else
      ok ← alloc_ok;
      (if (ok : bool) then mret tt else crash);;
      let plen := u8 (re_plen pe + g) in
      c ← region_attach p
        (region_entry_zero
           <| re_id := child_id |> <| re_plen := plen |> <| re_depth := u8 (re_depth pe + 1) |>
           <| re_child_bits := g |> <| re_owner_path := caller |>
           <| re_dispatch_gen := 1 |> <| re_parent := Some p |>);
      set_current_region child_id (Some c);;
      (match caller with
       | Some f => module_rekey_for_claim f id pplen child_id plen
       | None => mret tt
       end);;
      set_err_ret XY_OK) any.
Proof.
  intros Hg w a w' Hs HD Hrun. pose proof (sd_regions _ Hs) as (tbl & kids & Ht & Hwf & Hb).
  rewrite (bind_Ok _ _ _ _ _ (table_Ok _ _ _ Ht)) in Hrun.
  apply Ok_bind_inv in Hrun as (pe & w1 & Hget & Hrun). unfold rget in Hget.
  apply Ok_bind_inv in Hget as (o & w2 & [= <- <-] & Hget).
  destruct (w_regions w !! p) as [e|] eqn:Hp; [injection Hget as -> <-|done].
  pose proof (tw_ident _ _ _ Hwf _ _ Hp) as (Hid & Hpl & Hal). cbv zeta in Hrun.
  pose proof (region_alloc_slot_fresh tbl pe g Hid Hal Hpl Hg) as Hslot.
  revert Hslot Hrun. generalize (region_alloc_slot tbl pe g). intros cid Hslot Hrun.
  apply if_Ok_inv in Hrun as [[_ Hrun]|[Hne%Z.eqb_neq Hrun]];
    [by eapply (safe_frame D (set_err_ret XY_ERR_TOOBIG)); [solve_respects|..]|].
  destruct (Hslot Hne) as (Hu & Hle & Hcid & Hcal & Hfree). rewrite Hu in Hrun.
  rewrite (bind_Ok _ _ _ _ _ (alloc_ok_run w)) in Hrun. set (w1 := w <| w_mem ::= tail |>) in *.
  assert (Hf1 : frame w w1) by (by apply (frame_alloc_ok w _ _ (alloc_ok_run w))).
  destruct (frame_keeps_sound _ _ Hf1 Hs) as [Hs1 Hg1].
  apply Ok_bind_inv in Hrun as (u & w2 & Hok & Hrun). destruct (next_alloc w); [|done]. injection Hok as <- <-.
  eapply (enter_new_sound D w1 p pe) in Hrun as [? ?]; [split_and!; [done|by etrans|done]|done..| | | | | | | |]; simpl.
  all: try done; try lia.
  - intros q (x & Hx & Hxi & Hxl). apply (tw_lookup _ _ _ Hwf) in Hx. unfold mk_region_key in Hfree. congruence.
  - intros D' HD'. eapply safe_bind; [|intros; solve_safe]. instantiate (1 := any).
    destruct caller; [apply safe_rekey_for_claim|solve_safe].
Qed.

Lemma safe_claim_for_load D caller id pplen bits : safe D (_xy_claim_for_load caller id pplen bits) any.
Proof.
  unfold _xy_claim_for_load. destruct (_ || _); [solve_safe|].
  apply safe_bind_frame; [solve_respects|]. intros [p|]; [|solve_safe].
  apply safe_bind_frame; [solve_respects|]. intros pe. destruct (re_claim_handler pe) as [h|]; [|solve_safe].
  eapply safe_bind; [apply safe_callback, cbr_claim|]. intros [hret g] D1 HD1 _. cbv zeta.
  destruct (negb _); [solve_safe|].
  destruct ((u8 g =? 0) || (64 <? u8 g)) eqn:Hg; [solve_safe|].
  apply orb_false_iff in Hg as [?%Z.eqb_neq ?%Z.ltb_ge]. apply safe_grant.
  pose proof (Z.mod_pos_bound g (2 ^ 8)). unfold u8 in *. lia.
Qed.
End claims.

(** ** Loading *)

Section loading.
Context {C : Corm} {CL : CormLaws C} {OS : Os} {CB : Callbacks} {CBR : CallbacksRespect CB keeps_sound}.
Implicit Types (w : world) (D : gset rptr) (p : mptr) (tx : xy_load_txn).

(** A fresh entry, in no table and no region. *)
Lemma mput_fresh_sound w m u w' :
  sound w → me_region_entry m = None → 
  mput (w_next w) m (w <| w_next := Pos.succ (w_next w) |>) = Ok u w' → sound w' ∧ grows w w'.
Proof.
  intros [Hi Hr Hc Hm Ht] Hre [= <- <-]. split; split; try done; simpl.
  - eapply (regions_inv_view w); [done|done|simpl; lia|done].
  - intros p x. simpl. destruct (decide (p = w_next w)) as [->|Hp].
    + rewrite lookup_insert_eq. intros [= <-]. rewrite Hre. split; [lia|done].
    + rewrite lookup_insert_ne by done. intros Hx. destruct (Hm p x Hx). split; [lia|done].
  - intros k p Hk. destruct (Ht k p Hk) as (x & Hx & Hkey). exists x. split; [|done].
    rewrite lookup_insert_ne; [done|]. intros <-. destruct (Hm _ _ Hx). lia.
  - lia.
  - intros k p _ Hk. by exists k.
Qed.

(** What a step leaves of a transaction that has made its entry. *)
Definition made w0 w tx : Prop :=
  ∃ p m key, tx_mod_entry tx = Some p ∧ tx_stable_key tx = Some key ∧ (w_next w0 ≤ p)%positive ∧
    w_mods w !! p = Some m ∧ me_mod_key m = key.

Lemma alloc_entry_sound w tx fname ret tx' w' :
  sound w → tx_mod_entry tx = None → mod_load_alloc_entry tx fname w = Ok (ret, tx') w' →
  sound w' ∧ grows w w' ∧ tx_prev_region_entry tx' = tx_prev_region_entry tx ∧
  (ret ≠ XY_OK ∧ tx_mod_entry tx' = None ∨ ret = XY_OK ∧ made w w' tx').
Proof.
  intros Hs Hnone (dup & w1 & Hdup & Hrun)%Ok_bind_inv. cbv zeta in Hrun.
  pose proof (frame_alloc_ok w _ _ Hdup) as Hf1.
  assert (Hfail : ∀ w1 tx1, frame w w1 → Ok (XY_ERR_INVALID, tx1) w1 = Ok (ret, tx') w' → tx_mod_entry tx1 = None →
    tx_prev_region_entry tx1 = tx_prev_region_entry tx →
    sound w' ∧ grows w w' ∧ tx_prev_region_entry tx' = tx_prev_region_entry tx ∧
    (ret ≠ XY_OK ∧ tx_mod_entry tx' = None ∨ ret = XY_OK ∧ made w w' tx')).
  { intros w3 tx1 Hf [= <- <- <-] Hn Hp. destruct (frame_keeps_sound _ _ Hf Hs). split_and!; [done..|by left]. }
  destruct (tx_stable_fname _) as [fn|]; [|exact (Hfail w1 _ Hf1 Hrun Hnone eq_refl)].
  destruct (lk_key (tx_lookup _)) as [key|]; [|exact (Hfail w1 _ Hf1 Hrun Hnone eq_refl)].
  apply Ok_bind_inv in Hrun as (o & w2 & Hintern & Hrun).
  assert (Hf2 : frame w w2) by (etrans; [exact Hf1|by eapply frame_intern]).
  destruct o as [path|]; [|exact (Hfail w2 _ Hf2 Hrun Hnone eq_refl)].
  apply Ok_bind_inv in Hrun as (ok & w3 & Hok & Hrun).
  assert (Hf3 : frame w w3) by (etrans; [exact Hf2|by eapply frame_alloc_ok]).
  apply if_Ok_inv in Hrun as [[_ Hrun]|[_ Hrun]]; [exact (Hfail w3 _ Hf3 Hrun Hnone eq_refl)|].
  rewrite (bind_Ok _ _ _ _ _ (fresh_ptr_Ok w3)) in Hrun. apply Ok_bind_inv in Hrun as (par & w4 & [= <- <-] & Hrun).
  apply Ok_bind_inv in Hrun as (u & w5 & Hput & Hrun). injection Hrun as <- <- <-.
  destruct (frame_keeps_sound _ _ Hf3 Hs) as [Hs3 Hg3].
  pose proof Hput as Hput'. apply mput_fresh_sound in Hput' as [Hs5 Hg5]; [|done|done].
  injection Hput as <- <-. split_and!; [done|by etrans|done|]. right. split; [done|].
  eexists (w_next w3), _, key. split_and!; [done|done|apply (fr_next _ _ Hf3)|apply lookup_insert_eq|done].
Qed.

Lemma publish_sound w0 w tx ret tx' w' :
  sound w → grows w0 w → made w0 w tx → mod_load_publish_entry tx w = Ok (ret, tx') w' →
  sound w' ∧ grows w0 w' ∧ tx' = tx <| tx_published_entry := true |> ∧ ret = XY_OK.
Proof.
  intros Hs Hg (p & m & key & Hp & Hkey & Hfresh & Hm & Hmk) Hrun. unfold mod_load_publish_entry in Hrun.
  rewrite Hp, Hkey in Hrun. rewrite (bind_Ok (deref (Some p)) _ _ p w) in Hrun by done.
  rewrite (bind_Ok (deref (Some key)) _ _ key w) in Hrun by done.
  apply Ok_bind_inv in Hrun as (t & w1 & Ht & Hrun). unfold table, rt_get in Ht.
  apply Ok_bind_inv in Ht as (o & w2 & [= <- <-] & Ht).
  destruct (rt_mod_hd (w_rt w)) as [t'|] eqn:Hhd; [injection Ht as -> <-|done].
  erewrite bind_Ok in Hrun by reflexivity.
  set (w1 := w <| w_rt ::= (λ r, r <| rt_mod_hd := Some (corm_put t key p) |>) |>) in *.
  assert (Htab : ∀ k q, tabled w1 k q → k = key ∧ q = p ∨ q ≠ p ∧ tabled w k q ∨ q = p ∧ tabled w k q).
  { intros k q (t' & [= <-] & Hq). rewrite corm_get_put_dec in Hq. case_decide; [left; by simplify_eq|right].
    destruct (decide (q = p)); [right|left]; (split; [done|by exists t]). }
  assert (Hs1 : sound w1).
  { destruct Hs as [Hi Hr Hc Hmd Hst]. split; try done.
    intros k q [[-> ->]|[[_ Hq]|[_ Hq]]]%Htab; [by exists m|by apply Hst..]. }
  assert (Hf : ∀ k, respects frame (m0 ← mget p; t0 ← table rt_mod_by_region_hd;
    rt_mod (λ r, r <| rt_mod_by_region_hd := Some (mcorm_put t0 (mk_region_key (me_region_id m0) (me_region_plen m0)) p) |>);;
    mret (XY_OK, k : xy_load_txn))) by (intros k; solve_respects).
  pose proof (Hf _ _ _ _ Hrun) as Hf1. destruct (frame_keeps_sound _ _ Hf1 Hs1) as [Hs' Hg1].
  apply Ok_bind_inv in Hrun as (m0 & w3 & _ & Hrun). apply Ok_bind_inv in Hrun as (t0 & w4 & _ & Hrun).
  apply Ok_bind_inv in Hrun as (u & w5 & _ & Hrun). injection Hrun as <- <- <-.
  split_and!; [done| |done|done]. destruct Hg as [Hgr Hgn Hgt], Hg1 as [Hgr1 Hgn1 Hgt1]. simpl in *. split; [set_solver|lia|].
  intros k q Hq (k' & Hk)%Hgt1; [|simpl; lia].
  apply Htab in Hk as [[-> ->]|[[_ Hk]|[_ Hk]]]; [lia|by eapply Hgt..].
Qed.

(** The transaction at the end: what the caller was in exists, and an entry is
    published if there is one. *)
Definition held (r : Z * xy_load_txn) D : Prop :=
  exists_in (tx_prev_region_entry r.2) D ∧ (tx_mod_entry r.2 = None ∨ tx_published_entry r.2 = true).

Lemma safe_cleanup_state D p : safe D (module_cleanup_region_state p) any.
Proof.
  unfold module_cleanup_region_state. apply safe_bind_frame; [solve_respects|]. intros m.
  destruct (me_region_state m) as [st|]; [|solve_safe].
  eapply (safe_bind _ _ _ any); [|intros ? ? ? _; solve_safe].
  destruct (me_handle m ≫= _) as [f|]; [|solve_safe]. destruct (me_handle m) as [h|]; [|solve_safe].
  apply safe_bind_frame; [solve_respects|]. intros _. apply safe_callback, cbr_cleanup.
Qed.

Lemma safe_run_install D tx : safe D (mod_load_run_install tx) any.
Proof.
  unfold mod_load_run_install, _mod_run. do 3 (apply safe_bind_frame; [solve_respects|intros ?]).
  eapply (safe_bind _ _ _ any); [|intros ? ? ? _; solve_safe].
  destruct (module_lookup_symbol_fn _ _); [|solve_safe].
  apply safe_bind_frame; [solve_respects|]. intros _.
  eapply safe_bind; [apply safe_callback, cbr_install|]. intros; solve_safe.
Qed.

Lemma safe_load_link D tx : safe D (load_link tx) any.
Proof.
  unfold load_link. do 3 (apply safe_bind_frame; [solve_respects|intros ?]). apply safe_bind_frame; [solve_respects|intros ?].
  apply safe_bind_frame; [solve_respects|intros m].
  eapply safe_bind; [apply safe_lookup|]. intros [r|] D1 _ Hr; simpl opt_do; [|solve_safe].
  eapply safe_bind; [by apply safe_append, Hr|]. intros; solve_safe.
Qed.

Lemma safe_claim_if_needed D tx : safe D (mod_load_claim_if_needed tx) any.
Proof.
  unfold mod_load_claim_if_needed. apply safe_bind_frame; [solve_respects|]. intros h. cbv zeta.
  destruct (tx_inherited_reg tx); [|solve_safe]. apply safe_bind_frame; [solve_respects|]. intros e.
  destruct (module_lookup_symbol_raw _ _); [|solve_safe]. destruct (_ && _); [solve_safe|]. apply safe_claim_for_load.
Qed.

Lemma safe_enter_context D tx :
  safe D (mod_load_enter_context tx) (λ r D', exists_in (tx_prev_region_entry r.2) D' ∧
    tx_mod_entry r.2 = tx_mod_entry tx ∧ tx_published_entry r.2 = tx_published_entry tx).
Proof.
  unfold mod_load_enter_context. eapply safe_bind; [apply safe_lookup|]. intros reg D1 _ Hreg.
  apply safe_bind_frame; [solve_respects|]. intros id. eapply safe_bind; [apply safe_current|]. intros prev D2 HD2 Hprev.
  eapply safe_bind; [apply safe_set_current; intros r Hr; by apply HD2, Hreg|]. intros _ D3 HD3 _.
  apply safe_ret. intros D4 HD4. split_and!; [|done|done]. intros r Hr. by apply HD4, HD3, Hprev.
Qed.

Lemma safe_published D tx : held (0, tx) D → safe D (load_published tx) held.
Proof.
  intros [Hprev Hpub]. unfold load_published. apply safe_bind_frame; [solve_respects|]. intros ret.
  destruct (negb _); [apply safe_ret; intros D' HD'; split; [intros r Hr; by apply HD', Hprev|done]|].
  eapply safe_bind; [apply safe_enter_context|]. intros [ret1 tx1] D1 HD1 (Hp1 & He1 & Hb1). simpl in *.
  assert (Hheld : ∀ ret D', D1 ⊆ D' → held (ret, tx1) D').
  { intros ret' D' HD'. split; [intros r Hr; by apply HD', Hp1|]. simpl. by rewrite He1, Hb1. }
  destruct (negb _); [apply safe_ret; by apply Hheld|].
  eapply safe_bind; [apply safe_claim_if_needed|]. intros ret2 D2 HD2 _.
  destruct (negb _); [apply safe_ret; intros; apply Hheld; set_solver|].
  eapply safe_bind; [apply safe_load_link|]. intros _ D3 HD3 _.
  eapply safe_bind; [apply safe_run_install|]. intros ret3 D4 HD4 _.
  apply safe_ret; intros; apply Hheld; set_solver.
Qed.

Lemma safe_load_steps D tx fname :
  tx_mod_entry tx = None → tx_prev_region_entry tx = None → safe D (load_steps tx fname) held.
Proof.
  intros Hnone Hprev w a w' Hs HD ([ret tx1] & w1 & Halloc & Hrun)%Ok_bind_inv.
  destruct (alloc_entry_sound _ _ _ _ _ _ Hs Hnone Halloc) as (Hs1 & Hg1 & Hp1 & [[Hne Hn1]|[-> Hmade]]).
  { destruct (Z.eqb_spec ret XY_OK) as [|_]; [done|]. simpl in Hrun. injection Hrun as <- <-.
    split_and!; [done..|]. split; [intros r; simpl; by rewrite Hp1, Hprev|by left]. }
  simpl (negb _) in Hrun. cbv iota in Hrun. apply Ok_bind_inv in Hrun as ([ret2 tx2] & w2 & Hpub & Hrun).
  destruct (publish_sound w w1 tx1 ret2 tx2 w2) as (Hs2 & Hg2 & -> & ->); [done..|].
  simpl (negb _) in Hrun. cbv iota in Hrun.
  assert (Hheld : held (0, tx1 <| tx_published_entry := true |>) (dom (w_regions w2))).
  { split; [intros r; simpl; by rewrite Hp1, Hprev|by right]. }
  destruct (safe_published _ _ Hheld w2 a w' Hs2 ltac:(done) Hrun) as (? & ? & ?). split_and!; [done|by etrans|done].
Qed.
End loading.
