(* ===== verification/Soundness.v ===== *)
(** * The library stays sound

    Transactions that end, unloads and reloads; then the theorem: from a started
    library, no sequence of calls of the public functions, made from the host or
    from modules while they run, leaves a region table, a current region, a
    module's region or a module table that dangles. *)
From S2P Require Import Prelude Words Corm State Env Regions RegionTree Runtime Paths RegionApi RegionInv RegionSpecs Boot Hooks Dispatch ModKey ModList Loader Unload Frame Sound SoundRegions SoundDispatch SoundModules.

Section transactions.
Context {C : Corm} {CL : CormLaws C} {OS : Os} {CB : Callbacks} {CBR : CallbacksRespect CB keeps_sound}.
Implicit Types (w : world) (D : gset rptr) (p : mptr) (tx : xy_load_txn).

Lemma safe_restore D tx :
  exists_in (tx_prev_region_entry tx) D →
  safe D (mod_load_restore_context tx) (λ tx' _, tx_mod_entry tx' = tx_mod_entry tx ∧
    tx_published_entry tx' = tx_published_entry tx).
Proof.
  intros Hp. unfold mod_load_restore_context. destruct (tx_context_active tx); [|by apply safe_ret].
  eapply safe_bind; [by apply safe_set_current|]. intros _ D1 _ _. by apply safe_ret.
Qed.

(** The entry leaves the tables, and is freed next. *)
Lemma safe_unpublish_free D p :
  safe D (unpublish p;; m ← mget p; free_mod p;; opt_do (me_tmp_load_path m) unlink) any.
Proof.
  intros w u w' Hs HD (u1 & w1 & Hun & Hrun)%Ok_bind_inv.
  pose proof (unpublish_untables _ _ _ _ Hs Hun) as Hno.
  destruct (frame_keeps_sound _ _ (frame_unpublish _ _ _ _ Hun) Hs) as [Hs1 Hg1].
  apply Ok_bind_inv in Hrun as (m & w2 & Hget & Hrun).
  assert (w2 = w1) as ->.
  { unfold mget in Hget. apply Ok_bind_inv in Hget as (o & w3 & [= <- <-] & Hget). destruct (w_mods w1 !! p); [|done].
    by injection Hget. }
  apply Ok_bind_inv in Hrun as (u2 & w2 & Hfree & Hrun).
  destruct (free_sound _ _ _ _ Hs1 Hno Hfree) as [Hs2 Hg2].
  assert (Hf : respects frame (opt_do (me_tmp_load_path m) unlink)) by solve_respects.
  destruct (frame_keeps_sound _ _ (Hf _ _ _ Hrun) Hs2). split_and!; [done|do 2 (etrans; [done|]); done|done].
Qed.

Lemma safe_abort D tx err : held (err, tx) D → safe D (mod_load_abort tx err) any.
Proof.
  intros [Hprev Hpub]. unfold mod_load_abort. eapply safe_bind; [by apply safe_restore|].
  intros tx1 D1 HD1 [He Hb]. simpl in Hpub. rewrite <- He, <- Hb in Hpub.
  destruct (tx_mod_entry tx1) as [e|] eqn:Hent.
  - destruct Hpub as [Hpub|Hpub]; [done|]. rewrite Hpub.
    eapply (safe_bind _ _ _ any).
    { eapply safe_bind; [apply safe_cleanup_state|]. intros _ D2 _ _. solve_safe. }
    intros _ D2 _ _ w a w' Hs HD Hrun. rewrite <- bind_assoc in Hrun. revert w a w' Hs HD Hrun.
    change (safe D2 ((unpublish e ≫= λ _, m ← mget e; free_mod e;; opt_do (me_tmp_load_path m) unlink) ≫=
      λ _, opt_do (tx_tmp_load_path tx1) unlink;; opt_do (tx_handle tx1) dlclose;; mret err) any).
    eapply safe_bind; [apply safe_unpublish_free|]. intros; solve_safe.
  - solve_safe.
Qed.

Lemma safe_open_handle D tx fname :
  safe D (mod_load_open_handle tx fname) (λ r _, tx_mod_entry r.2 = tx_mod_entry tx ∧
    tx_prev_region_entry r.2 = tx_prev_region_entry tx).
Proof.
  unfold mod_load_open_handle. apply safe_bind_frame; [solve_respects|]. intros lk. cbv zeta.
  destruct (negb _); [by apply safe_ret|]. destruct (lk_load_path lk); [|by apply safe_ret].
  do 2 (apply safe_bind_frame; [solve_respects|intros ?]).
  eapply (safe_bind _ _ _ any).
  { destruct (default _ _) as [real|]; [|by apply safe_ret].
    apply safe_bind_frame; [solve_respects|intros ?]. apply safe_callback, cbr_dlopen. }
  intros [h|] D1 _ _; [by apply safe_ret|].
  do 2 (apply safe_bind_frame; [solve_respects|intros ?]). by apply safe_ret.
Qed.

Lemma safe_try_reuse D tx :
  safe D (mod_load_try_reuse_existing tx) (λ r _, tx_mod_entry r.2 = tx_mod_entry tx ∧
    tx_prev_region_entry r.2 = tx_prev_region_entry tx).
Proof.
  unfold mod_load_try_reuse_existing. destruct (lk_entry _); [|by apply safe_ret].
  do 3 (apply safe_bind_frame; [solve_respects|intros ?]). by apply safe_ret.
Qed.

Lemma safe_mod_load D fname : safe D (_mod_load fname) any.
Proof.
  unfold _mod_load. do 2 (apply safe_bind_frame; [solve_respects|intros ?]).
  eapply safe_bind; [apply safe_open_handle|]. intros [ret tx] D1 _ [He Hp]. simpl in He, Hp.
  destruct (negb _); [solve_safe|].
  eapply safe_bind; [apply safe_try_reuse|]. intros [reused tx1] D2 _ [He1 Hp1]. simpl in He1, Hp1.
  destruct reused; [solve_safe|].
  eapply safe_bind; [apply safe_load_steps; congruence|]. intros [ret1 tx2] D3 _ Hheld.
  destruct (negb _); [by apply safe_abort|].
  eapply safe_bind; [apply safe_restore, Hheld|]. intros; solve_safe.
Qed.

Lemma safe_load D fname : safe D (xy_load fname) any.
Proof. apply safe_with_runtime. eapply safe_bind; [apply safe_mod_load|]. intros; solve_safe. Qed.

(** ** Unloading *)

(** The clean-up function of a module runs between its removal from the tables
    and its end; it cannot bring it back. *)
Lemma free_entry_sound w p close u w' :
  sound w → (∀ k, ¬ tabled w k p) → module_free_entry p close w = Ok u w' → sound w' ∧ grows w w'.
Proof.
  intros Hs Hno Hrun. unfold module_free_entry in Hrun. apply Ok_bind_inv in Hrun as (m & w1 & Hget & Hrun).
  unfold mget in Hget. apply Ok_bind_inv in Hget as (o & w2 & [= <- <-] & Hget).
  destruct (w_mods w !! p) as [m'|] eqn:Hp; [injection Hget as -> <-|done].
  apply Ok_bind_inv in Hrun as (u1 & w1 & Hclean & Hrun).
  destruct (safe_cleanup_state ∅ p w u1 w1 Hs ltac:(set_solver) Hclean) as (Hs1 & Hg1 & _).
  assert (Hno1 : ∀ k, ¬ tabled w1 k p).
  { intros k Hk. destruct (gr_table _ _ Hg1 k p) as (k' & Hk'); [by apply (sd_mods _ Hs p m)|done|by apply (Hno k')]. }
  apply Ok_bind_inv in Hrun as (u2 & w2 & Hfree & Hrun). destruct (free_sound _ _ _ _ Hs1 Hno1 Hfree) as [Hs2 Hg2].
  assert (Hf : respects frame ((if close then opt_do (me_handle m) dlclose else mret tt);; opt_do (me_tmp_load_path m) unlink))
    by solve_respects.
  destruct (frame_keeps_sound _ _ (Hf _ _ _ Hrun) Hs2). split; [done|do 2 (etrans; [done|]); done].
Qed.

Lemma safe_unload_finish D p : safe D (unload_finish p) any.
Proof.
  unfold unload_finish. apply safe_bind_frame; [solve_respects|intros _]. apply safe_bind_frame; [solve_respects|intros m].
  apply safe_bind_frame; [solve_respects|intros _]. apply safe_bind_frame; [solve_respects|intros _].
  intros w a w' Hs HD (u & w1 & Hun & Hrun)%Ok_bind_inv.
  destruct (frame_keeps_sound _ _ (frame_unpublish _ _ _ _ Hun) Hs) as [Hs1 Hg1].
  pose proof (unpublish_untables _ _ _ _ Hs Hun) as Hno.
  apply Ok_bind_inv in Hrun as (u1 & w2 & Hcount & Hrun).
  assert (Hf : frame w1 w2) by (injection Hcount as <- <-; by split).
  destruct (frame_keeps_sound _ _ Hf Hs1) as [Hs2 Hg2].
  apply Ok_bind_inv in Hrun as (u2 & w3 & Hfree & [= <- <-]).
  assert (Hno2 : ∀ k, ¬ tabled w2 k p) by (intros k Hk%(fr_table _ _ Hf); by apply (Hno k)).
  destruct (free_entry_sound _ _ _ _ _ Hs2 Hno2 Hfree) as [Hs3 Hg3].
  split_and!; [done|do 2 (etrans; [done|]); done|done].
Qed.

Lemma safe_mod_unload D fuel fname i l : safe D (_mod_unload fuel fname i l) any.
Proof.
  revert D fname i l. induction fuel as [|n IH]; intros D fname i l; simpl; [apply safe_nofuel|].
  apply safe_bind_frame; [solve_respects|]. intros lk. destruct (negb _); [solve_safe|].
  destruct (lk_entry lk) as [p|]; [|solve_safe].
  apply safe_bind_frame; [solve_respects|intros _]. apply safe_bind_frame; [solve_respects|intros m].
  destruct (0 <? _); [solve_safe|]. do 2 (apply safe_bind_frame; [solve_respects|intros ?]).
  eapply safe_bind; [|intros ? ? ? _; apply safe_unload_finish]. apply safe_for_each. intros c D1 _.
  apply safe_bind_frame; [solve_respects|]. intros cm. destruct (me_ctx cm); [|solve_safe].
  apply safe_bind_frame; [solve_respects|]. intros x. destruct (x_module_path x); [|solve_safe].
  eapply safe_bind; [apply IH|]. intros; solve_safe.
Qed.

Lemma safe_unload D fuel fname : safe D (xy_unload fuel fname) any.
Proof.
  apply safe_with_runtime. do 2 (apply safe_bind_frame; [solve_respects|intros ?]).
  eapply safe_bind; [apply safe_mod_unload|]. intros; solve_safe.
Qed.

Lemma safe_reload_place D fname i l re after : exists_in re D → safe D (reload_place fname i l re after) any.
Proof.
  intros Hre. unfold reload_place. apply safe_bind_frame; [solve_respects|]. intros lk.
  destruct (negb _); [solve_safe|]. destruct (lk_entry lk) as [p|]; [|solve_safe]. destruct re as [r|]; [|solve_safe].
  apply safe_bind_frame; [solve_respects|]. intros _.
  eapply safe_bind; [by apply safe_insert_after, Hre|]. intros; solve_safe.
Qed.

Lemma safe_reload D fuel fname : safe D (xy_reload fuel fname) any.
Proof.
  apply safe_with_runtime. do 3 (apply safe_bind_frame; [solve_respects|intros ?]). destruct (negb _); [solve_safe|].
  destruct (lk_entry _) as [p|]; [|solve_safe]. eapply safe_bind; [apply safe_mget|]. intros m D1 _ Hm. cbv zeta.
  eapply safe_bind; [apply safe_mod_unload|]. intros ret D2 HD2 _. destruct (negb _); [solve_safe|].
  apply safe_bind_frame; [solve_respects|intros _]. eapply safe_bind; [apply safe_mod_load|]. intros ret2 D3 HD3 _.
  apply safe_bind_frame; [solve_respects|intros _]. destruct (negb _); [solve_safe|].
  apply safe_reload_place. intros r Hr. by apply HD3, HD2, Hm.
Qed.
End transactions.
