(* ===== verification/Programs.v ===== *)
(** * Hosts and modules as programs

    The code of a host or a module as a tree of calls of the public interface
    (src/include/ttypt/xy.h) and of writes to its own memory, each free to depend
    on the results before.  [callbacks_of] makes of such code what the library
    runs, [n] callbacks deep: a listener may load a module whose xy_install
    claims a region whose handler calls a hook.  The library stays sound
    whatever the programs are. *)
From S2P Require Import Prelude Words Corm State Env Regions RegionTree Runtime Paths RegionApi RegionInv RegionSpecs Boot RegionProps Hooks Dispatch ModKey ModList Loader Unload LoadProps Frame Sound SoundRegions SoundDispatch SoundModules Soundness.

(** ** The interface *)

(** The public functions, with their arguments; xy_shutdown ends the library
    and is in Shutdown. *)
Inductive api_call :=
  | Call_init
  | Call_call (retp : option bptr) (reg : option aptr) (arg : Z)
  | Call_call_self (fuel : nat) (retp : option bptr) (reg : option aptr) (arg : Z)
  | Call_last (ret : option bptr)
  | Call_areg (name : string) (adapter : aptr)
  | Call_load (fname : string)
  | Call_unload (fuel : nat) (fname : string)
  | Call_reload (fuel : nat) (fname : string)
  | Call_deny (what : string) (type : deny_type)
  | Call_require_claim (fn : option addr) (u : ud)
  | Call_region_each (fn : option addr) (u : ud)
  | Call_with_region (region_id plen : Z) (fn : option addr) (u : ud)
  | Call_current_region
  | Call_current_region_plen
  | Call_region_exists (region_id plen : Z)
  | Call_claim_at (id plen : Z) (fn : option addr) (u : ud)
  | Call_region_at (prefix_id plen : Z).

Section interface.
Context {C : Corm} {OS : Os} {CB : Callbacks}.

Definition paired (m : M world Z) : M world (Z * Z) := x ← m; mret (x, 0).

(** The function a call runs; its integer arguments arrive in a [uint64_t] and
    a [uint8_t]. *)
Definition api_run (f : api_call) : M world (Z * Z) :=
  match f with
  | Call_init => xy_init;; mret (0, 0)
  | Call_call retp reg arg => paired (xy_call retp reg arg)
  | Call_call_self fuel retp reg arg => paired (xy_call_self fuel retp reg arg)
  | Call_last ret => paired (xy_last ret)
  | Call_areg name adapter => paired (xy_areg name adapter)
  | Call_load fname => paired (xy_load fname)
  | Call_unload fuel fname => paired (xy_unload fuel fname)
  | Call_reload fuel fname => paired (xy_reload fuel fname)
  | Call_deny what type => paired (xy_deny what type)
  | Call_require_claim fn u => paired (xy_require_claim fn u)
  | Call_region_each fn u => paired (xy_region_each fn u)
  | Call_with_region i l fn u => paired (xy_with_region (u64 i) (u8 l) fn u)
  | Call_current_region => paired xy_current_region
  | Call_current_region_plen => paired xy_current_region_plen
  | Call_region_exists i l => paired (xy_region_exists (u64 i) (u8 l))
  | Call_claim_at i l fn u => paired (xy_claim_at (u64 i) (u8 l) fn u)
  | Call_region_at i l => xy_region_at (u64 i) (u8 l)
  end.

(** ** Programs *)

Inductive prog (A : Type) :=
  | P_ret (a : A)
  (** call the library and go on with its result *)
  | P_call (f : api_call) (k : Z * Z → prog A)
  (** write the own context, or a buffer; name the context of the object being
      opened ([xy_self_init_ctx]) *)
  | P_ctx (c : cptr) (f : xy_ctx → xy_ctx) (k : prog A)
  | P_write (b : bptr) (bytes : list Z) (k : prog A)
  | P_read (b : bptr) (k : list Z → prog A)
  | P_self_init (c : cptr) (k : prog A).

Fixpoint run {A} (p : prog A) : M world A :=
  match p with
  | P_ret _ a => mret a
  | P_call _ f k => x ← api_run f; run (k x)
  | P_ctx _ c f k => cmod c f;; run k
  | P_write _ b bytes k => buf_write b bytes;; run k
  | P_read _ b k => bytes ← buf_get b; run (k bytes)
  | P_self_init _ c k => xy_self_init_ctx c;; run k
  end.
End interface.

(** The code of every object and of the host. *)
Record code := Code {
  code_dlopen : string → prog (option handle);
  code_install : addr → prog unit;
  code_hook : addr → Z → prog (list Z);
  code_claim : addr → string → Z → ud → prog (Z * Z);
  code_each : addr → Z → Z → ud → prog Z;
  code_scope : addr → ud → prog Z;
  code_cleanup : addr → stptr → prog unit
}.

Section programs.
Context {C : Corm} {CL : CormLaws C} {OS : Os}.

(** The code as the library runs it, at most [n] callbacks inside one another. *)
Fixpoint callbacks_of (c : code) (n : nat) : Callbacks :=
  match n with
  | O => Build_Callbacks C (λ _, nofuel) (λ _, nofuel) (λ _ _, nofuel) (λ _ _ _ _, nofuel)
      (λ _ _ _ _, nofuel) (λ _ _, nofuel) (λ _ _, nofuel)
  | S n' =>
      let CB := callbacks_of c n' in
      Build_Callbacks C (λ p, run (code_dlopen c p)) (λ f, run (code_install c f)) (λ f a, run (code_hook c f a))
        (λ f p b u, run (code_claim c f p b u)) (λ f i l u, run (code_each c f i l u))
        (λ f u, run (code_scope c f u)) (λ f s, run (code_cleanup c f s))
  end.

(** ** Every program keeps the library sound *)

Lemma api_run_safe (CB : Callbacks) (CBR : CallbacksRespect CB keeps_sound) D f : safe D (api_run f) any.
Proof.
  assert (Hpaired : ∀ m, safe D m any → safe D (paired m) any).
  { intros m Hm. eapply safe_bind; [exact Hm|]. intros; solve_safe. }
  destruct f; simpl; try apply Hpaired; try solve [eauto 2 with safe nocore].
  - eapply (safe_bind _ _ _ any); [|intros; solve_safe]. unfold xy_init, xy_runtime_ensure.
    eapply (safe_bind _ _ _ any); [|intros; solve_safe].
    eapply safe_bind; [apply safe_inited|]. intros ? D1 _ ->. solve_safe.
  - apply safe_load.
  - apply safe_unload.
  - apply safe_reload.
  - apply safe_claim_at; [apply u64_range|]. unfold u8. pose proof (Z.mod_pos_bound plen (2 ^ 8)). lia.
Qed.

Lemma run_safe (CB : Callbacks) (CBR : CallbacksRespect CB keeps_sound) {A} (p : prog A) D : safe D (run p) any.
Proof.
  revert D. induction p as [a|f k IH|c f k IH|b bytes k IH|b k IH|c k IH]; intros D; simpl.
  - solve_safe.
  - eapply safe_bind; [by apply api_run_safe|]. intros; apply IH.
  - apply safe_bind_frame; [solve_respects|]. intros; apply IH.
  - apply safe_bind_frame; [solve_respects|]. intros; apply IH.
  - apply safe_bind_frame; [solve_respects|]. intros; apply IH.
  - apply safe_bind_frame; [unfold xy_self_init_ctx; solve_respects|]. intros; apply IH.
Qed.

#[export] Instance callbacks_of_respect c n : CallbacksRespect (callbacks_of c n) keeps_sound.
Proof.
  induction n as [|n IH]; split; intros; simpl; try apply respects_nofuel;
    by apply safe_respects, run_safe.
Qed.

(** A host with several threads, one of which is in the library at a time: the
    others are their thread-locals. *)
Record process := Process { pr_world : world; pr_parked : list tls }.
Definition on_thread (t : tls) (w : world) : world := w <| w_tls := t |>.

(** One step of the host: a call that returns, memory running out or coming back
    between calls, or another thread's turn, a new one's or one's that waited. *)
Inductive host_step (c : code) (n : nat) : process → process → Prop :=
  | Step_call f r w w' ts :
      api_run (CB := callbacks_of c n) f w = Ok r w' → host_step c n (Process w ts) (Process w' ts)
  | Step_memory l w ts : host_step c n (Process w ts) (Process (w <| w_mem := l |>) ts)
  | Step_spawn w ts : host_step c n (Process w ts) (Process (on_thread tls_zero w) (w_tls w :: ts))
  | Step_switch w ts1 t ts2 :
      host_step c n (Process w (ts1 ++ t :: ts2)) (Process (on_thread t w) (w_tls w :: ts1 ++ ts2)).

Record process_sound (P : process) : Prop := {
  ps_world : sound (pr_world P);
  ps_parked t : t ∈ pr_parked P → cur_live (on_thread t (pr_world P))
}.

Lemma sound_thread w t : sound w → cur_live (on_thread t w) → sound (on_thread t w).
Proof. intros [] Hc. by split. Qed.
Lemma grows_thread w t : grows w (on_thread t w).
Proof. by split; eauto. Qed.
Lemma parked_grows w w' t : grows w w' → cur_live (on_thread t w) → cur_live (on_thread t w').
Proof. intros Hg Hc p Hp. apply (gr_regions _ _ Hg). by apply Hc. Qed.

Lemma host_step_sound c n P P' :
  host_step c n P P' → process_sound P → process_sound P' ∧ grows (pr_world P) (pr_world P').
Proof.
  intros Hstep [Hs Hp]. destruct Hstep as [f r w w' ts Hrun|l w ts|w ts|w ts1 t ts2]; simpl in *.
  - assert (keeps_sound w w') as Hk by (revert Hrun; by apply safe_respects, api_run_safe, callbacks_of_respect).
    destruct (Hk Hs) as [Hs' Hg]. split; [|done]. split; [done|]. intros t Ht. by apply (parked_grows w), Hp.
  - assert (keeps_sound w (w <| w_mem := l |>)) as Hk by (apply frame_keeps_sound; by split).
    destruct (Hk Hs) as [Hs' Hg]. split; [|done]. by split.
  - split; [|apply grows_thread]. split; [by apply sound_thread; [|intros p [=]]|]. intros t [->|Ht]%elem_of_cons; [by apply Hs|by apply Hp].
  - split; [|apply grows_thread]. split; [apply sound_thread; [done|apply Hp; set_solver]|].
    intros t' [->|Ht]%elem_of_cons; [by apply Hs|apply Hp; set_solver].
Qed.

(** In a sound library the lookups answer. *)
Record lookups_answer (w : world) : Prop := {
  la_exists i l : ∃ r w', xy_region_exists i l w = Ok r w';
  la_at i l : 0 ≤ l → ∃ r w', xy_region_at i l w = Ok r w';
  la_current : ∃ r w', xy_current_region w = Ok r w';
  la_plen : ∃ r w', xy_current_region_plen w = Ok r w'
}.
Lemma sound_answers w : sound w → lookups_answer w.
Proof.
  intros Hs. pose proof (sd_inited _ Hs) as Hi. pose proof (sd_regions _ Hs) as Hr. split.
  - intros i l. unfold xy_region_exists. rewrite with_runtime_run by done.
    destruct (region_lookup_run w i l Hr) as ([p|] & Ho & _); rewrite (bind_Ok _ _ _ _ _ Ho); by do 2 eexists.
  - intros i l Hl. unfold xy_region_at. rewrite with_runtime_run by done.
    destruct (64 <? l); [by do 2 eexists|].
    destruct (cover_run w i l Hr Hl) as (r & p & Hroot & Hfind & [(e & He & _) _] & _).
    rewrite (bind_Ok _ _ _ _ _ Hroot). cbv iota. rewrite bind_assoc, (bind_Ok (gets _) _ _ (walk_fuel w) w) by done.
    rewrite (bind_Ok _ _ _ _ _ Hfind), (bind_Ok _ _ _ _ _ (rget_Ok _ _ _ He)). by do 2 eexists.
  - unfold xy_current_region. rewrite with_runtime_run by done. by do 2 eexists.
  - unfold xy_current_region_plen. rewrite with_runtime_run by done.
    set (w1 := w <| w_err := XY_OK |>). rewrite (bind_Ok (XY_SET_ERR _) _ _ tt w1) by done. unfold region_current_plen.
    rewrite (bind_Ok (tls_get _) _ _ (t_current_region_entry (w_tls w)) w1) by done.
    destruct (t_current_region_entry (w_tls w)) as [p|] eqn:Hc; [|by do 2 eexists].
    apply (sd_cur _ Hs) in Hc as [e He]%elem_of_dom. assert (He1 : w_regions w1 !! p = Some e) by done.
    rewrite (bind_Ok _ _ _ _ _ (rget_Ok _ _ _ He1)). by do 2 eexists.
Qed.

Lemma started_sound w w' : w_mods w = ∅ → started w w' → sound w'.
Proof.
  intros Hm Hs. split; [apply Hs..| |].
  - intros p m. by rewrite (st_mods _ _ Hs), Hm, lookup_empty.
  - intros k p (t & Ht & Hg). rewrite (st_table _ _ Hs) in Ht. injection Ht as <-. by rewrite corm_get_empty in Hg.
Qed.

(** C3. Whatever programs the host and the modules are, to any depth of
    callbacks, and however many threads of the host take turns, a library that
    was started stays well formed at every call that returns: its regions are a
    tree the table indexes, the current region of every thread exists, every
    module's region exists, the module table names live modules only, each under
    its own key; no region is ever lost, and the lookups answer. *)
Theorem library_stays_sound (c : code) (n : nat) w0 :
  fresh_library w0 → w_mods w0 = ∅ →
  ∃ w1, xy_init w0 = Ok tt w1 ∧
    ∀ w ts, rtc (host_step c n) (Process w1 []) (Process w ts) →
      sound w ∧ grows w1 w ∧ lookups_answer w ∧ ∀ t, t ∈ ts → sound (on_thread t w) ∧ lookups_answer (on_thread t w).
Proof.
  intros Hf Hm. destruct (xy_init_started w0 Hf) as (w1 & Hrun & Hst). exists w1. split; [done|].
  intros w ts Hsteps. pose proof (started_sound _ _ Hm Hst) as Hs1.
  assert (H1 : process_sound (Process w1 [])) by (split; [done|]; by intros t ?%elem_of_nil).
  assert (H : process_sound (Process w ts) ∧ grows w1 w).
  { change w with (pr_world (Process w ts)) at 2. change w1 with (pr_world (Process w1 [])).
    clear Hst Hs1 Hrun. induction Hsteps as [P|P1 P2 P3 Hstep _ IH]; [done|].
    destruct (host_step_sound _ _ _ _ Hstep H1) as [H2 Hg]. destruct (IH H2) as [H3 Hg']. split; [done|]. by etransitivity. }
  destruct H as [[Hs Hp] Hg]. split_and!; [done..|by apply sound_answers|]. intros t Ht.
  assert (sound (on_thread t w)) by (by apply sound_thread, Hp). split; [done|by apply sound_answers].
Qed.
End programs.

(** ** A module that calls back *)

Section witnesses.
Local Existing Instances gmap_corm gmap_corm_laws.

(** Its xy_install makes a region, enters it, denies a hook there, and loads the
    same object once more, whose xy_install does the same again. *)
Definition claiming_code : code := {|
  code_dlopen _ := P_ret _ (Some 31%positive);
  code_install _ :=
    P_call _ (Call_claim_at sample_id 8 None 0) (λ _,
    P_call _ (Call_deny "look_at" XY_DENY_HOOK) (λ _,
    P_call _ (Call_load "hello") (λ _, P_ret _ tt)));
  code_hook _ _ := P_ret _ [];
  code_claim _ _ _ _ := P_ret _ (0, 0);
  code_each _ _ _ _ := P_ret _ 0;
  code_scope _ _ := P_ret _ 0;
  code_cleanup _ _ := P_ret _ tt
|}.
Definition off_world : world := world_zero <| w_ctxs := {[70%positive := xy_ctx_zero]} |>.
Definition on_world : world := after xy_init off_world.
Definition nested_world : world :=
  after (api_run (OS := object_os XY_CTX_ABI_DESC) (CB := callbacks_of (OS := object_os XY_CTX_ABI_DESC) claiming_code 4)
    (Call_load "hello")) on_world.

(** Then a second thread starts, and asks where it is. *)
Definition second_world : world :=
  after (api_run (OS := object_os XY_CTX_ABI_DESC) (CB := callbacks_of (OS := object_os XY_CTX_ABI_DESC) claiming_code 4)
    Call_current_region_plen) (on_thread tls_zero nested_world).

Lemma library_stays_sound_witness :
  sound second_world ∧ sound (on_thread (w_tls nested_world) second_world) ∧
  size (w_regions second_world) = 2%nat ∧ size (w_mods second_world) = 2%nat.
Proof.
  destruct (library_stays_sound (OS := object_os XY_CTX_ABI_DESC) claiming_code 4 off_world) as (w1 & Hrun & Hall).
  - split; vm_compute; reflexivity.
  - reflexivity.
  - assert (w1 = on_world) as -> by (unfold on_world, after; by rewrite Hrun).
    destruct (Hall second_world [w_tls nested_world]) as (Hs & _ & _ & Hts).
    + eapply rtc_l; [apply (Step_call _ _ (Call_load "hello") (0, 0) _ nested_world); vm_compute; reflexivity|].
      eapply rtc_l; [apply Step_spawn|].
      apply rtc_once, (Step_call _ _ Call_current_region_plen (0, 0)). vm_compute. reflexivity.
    + split; [exact Hs|]. split; [apply Hts; by left|]. split; vm_compute; reflexivity.
Defined.
End witnesses.
