(* ===== verification/Threads.v ===== *)
(** * Shutting down under another thread

    The current region is a thread-local, and [xy_shutdown] clears the one of the
    thread that calls it.  A thread that had made a region current before keeps
    the address of a freed one, and the restart reads it. *)
From S2P Require Import Prelude Words Corm State Env Regions RegionTree RegionWalks Runtime Paths RegionApi RegionInv RegionSpecs Boot RegionProps ModKey ModList Loader Unload UnloadSpecs LoadProps Shutdown Sound Programs.

Section threads.
Context {C : Corm} {CL : CormLaws C} {OS : Os} {CB : Callbacks}.
Implicit Types (w : world) (r : rptr).

(** A current region that is gone is read all the same. *)
Lemma ensure_root_stale w t r :
  rt_region_hd (w_rt w) = Some t → corm_get t (mk_region_key XY_REGION_ROOT 0) = None → w_mem w = [] →
  t_current_region_entry (w_tls w) = Some r → r ∉ dom (w_regions w) → r ≠ w_next w →
  region_ensure_root w = Crash.
Proof.
  intros Ht Hg Hm Hc Hr Hne. unfold region_ensure_root.
  rewrite (bind_Ok _ _ _ None w) by (unfold region_lookup; run; by rewrite Hg).
  erewrite bind_Ok; [|rewrite (bind_Ok _ _ _ _ _ (alloc_ok_Ok _ Hm)); by repeat run].
  run. simpl. apply bind_crash. unfold region_current_plen. run. simpl. rewrite Hc.
  apply bind_crash. unfold rget, mbind, M_bind, gets. simpl. rewrite lookup_insert_ne by done.
  apply not_elem_of_dom in Hr. by rewrite Hr.
Qed.

Lemma tabled_thread w t ts : tabled w t → tabled (on_thread ts w) t.
Proof. intros []. by split. Qed.

(** C20. [xy_shutdown] leaves the current region of the other threads alone: a
    thread that had one of the freed regions current takes the library down with
    it when it starts the library again. *)
Theorem shutdown_strands_threads w t ts r (Ht : tabled w t)
    (Hts : t_current_region_entry ts = Some r) (Hr : r ∈ dom (w_regions w)) :
  ∃ w1, xy_shutdown w = Ok tt w1 ∧ (∃ w2, xy_init w1 = Ok tt w2) ∧ xy_init (on_thread ts w1) = Crash.
Proof.
  destruct (shutdown_run w t Ht) as (w1 & Hrun & Hf & _ & _ & _ & [_ Hnext] & _). exists w1. split; [done|].
  split; [destruct (xy_init_started w1 Hf) as (w2 & ? & _); by exists w2|].
  destruct Hf as [Hi Hregs _ Hm]. destruct (tb_regions _ _ Ht) as (tbl & kids & _ & _ & Hlt).
  destruct (bootstrap_run (on_thread ts w1) Hm) as (rt & Hboot & Hreg & _).
  unfold xy_init. apply bind_crash. rewrite (ensure_bootstraps (on_thread ts w1) Hi), Hboot. apply bind_crash.
  eapply ensure_root_stale; [exact Hreg|apply corm_get_empty|exact Hm|exact Hts|simpl; by rewrite Hregs|].
  simpl. rewrite Hnext. apply Hlt in Hr. lia.
Qed.
End threads.

(** ** A thread that entered the root region *)

Section witnesses.
Local Existing Instances gmap_corm gmap_corm_laws object_callbacks.
Local Instance threads_os : Os := object_os XY_CTX_ABI_DESC.

(** The thread that loaded the module, when another one shuts down. *)
Lemma shutdown_strands_threads_witness :
  ∃ w1, xy_shutdown (on_thread tls_zero hello_world) = Ok tt w1 ∧ (∃ w2, xy_init w1 = Ok tt w2) ∧
    xy_init (on_thread (w_tls hello_world) w1) = Crash.
Proof.
  apply (shutdown_strands_threads (on_thread tls_zero hello_world) hello_table (w_tls hello_world) 1%positive).
  - exact (tabled_thread _ _ _ hello_tabled).
  - vm_compute. reflexivity.
  - apply elem_of_dom. eexists. vm_compute. reflexivity.
Defined.
End witnesses.
