(* ===== verification/Reenter.v ===== *)
(** * A clean-up that calls back into the library while it shuts down

    [xy_runtime_teardown] marks the library stopped before it runs the modules'
    [xy_region_cleanup].  A clean-up that calls any public function starts the
    library again, and the rest of the teardown closes the tables that this start
    opened: the library is marked started and has none. *)
From S2P Require Import Prelude Words Corm State Env Regions RegionTree RegionWalks Runtime Paths PathSpecs RegionApi RegionInv RegionSpecs Boot Hooks HookSpecs Dispatch SlotRun ModKey ModList Loader Unload LoadProps Shutdown Threads.

Section reenter.
Context {C : Corm} {CL : CormLaws C} {OS : Os} {CB : Callbacks}.
Implicit Types (w : world).

(** ** What any teardown leaves *)

Lemma free_region_keeps_rt (q : rptr) : respects (fixes w_rt) (region_entry_free q).
Proof. unfold region_entry_free, rget. solve_respects; apply respects_modify; by intros ?. Qed.

(** The library without its tables and with no region current. *)
Record tables_gone w : Prop := {
  tg_mods : rt_mod_hd (w_rt w) = None;
  tg_by_region : rt_mod_by_region_hd (w_rt w) = None;
  tg_regions : rt_region_hd (w_rt w) = None;
  tg_paths : rt_path_intern_hd (w_rt w) = None;
  tg_cur : cur w = (XY_REGION_ROOT, None)
}.

Lemma opt_do_inv {A} (o : option A) (f : A → M world unit) w w' :
  opt_do o f w = Ok tt w' → (o = None ∧ w' = w) ∨ ∃ a, o = Some a ∧ f a w = Ok tt w'.
Proof. destruct o as [a|]; simpl; [right; by exists a|left]. by injection H. Qed.

Lemma teardown_leaves w w1 : xy_runtime_teardown w = Ok tt w1 → tables_gone w1.
Proof.
  unfold xy_runtime_teardown. intros H.
  apply Ok_bind_inv in H as ([] & wa & _ & H). apply Ok_bind_inv in H as (mods & wa' & Hm & H).
  injection Hm as <- <-. apply Ok_bind_inv in H as ([] & wb & Hb & H).
  assert (Hmods : rt_mod_hd (w_rt wb) = None).
  { apply opt_do_inv in Hb as [[Hn ->]|(t & _ & Ht)]; [done|].
    apply Ok_bind_inv in Ht as ([] & wt & _ & Ht). by injection Ht as <-. }
  apply Ok_bind_inv in H as ([] & wc & Hc & H). injection Hc as <-.
  apply Ok_bind_inv in H as (regions & wc & Hr & H). injection Hr as <- <-.
  apply Ok_bind_inv in H as ([] & wd & Hd & H).
  assert (Hregs : rt_mod_hd (w_rt wd) = None ∧ rt_mod_by_region_hd (w_rt wd) = None ∧ rt_region_hd (w_rt wd) = None).
  { apply opt_do_inv in Hd as [[Hn ->]|(t & _ & Ht)]; [done|].
    apply Ok_bind_inv in Ht as ([] & wt & Hfree & Ht). injection Ht as <-.
    assert (Hrt : w_rt wt = w_rt (wb <| w_rt ::= (λ r, r <| rt_mod_by_region_hd := None |>) |>)).
    { eapply (respects_for_each (fixes w_rt)); [|exact Hfree]. intros [k q] _. apply free_region_keeps_rt. }
    simpl. rewrite Hrt. simpl. by rewrite Hmods. }
  destruct Hregs as (H1 & H2 & H3). unfold path_intern_free_all in H.
  repeat (erewrite bind_Ok in H by reflexivity). injection H as <-. by split.
Qed.

(** ** A library marked started that has no tables *)

Lemma exists_crashes w id plen : tables_gone w → rt_inited (w_rt w) = true → xy_region_exists id plen w = Crash.
Proof.
  intros Hg Hi. unfold xy_region_exists, with_runtime, xy_runtime_ensure.
  rewrite (bind_Ok _ _ _ XY_OK w) by (rewrite (bind_Ok _ _ _ true w); [done|unfold rt_get, gets; by rewrite Hi]).
  cbn [Z.eqb XY_OK]. apply bind_crash. unfold region_lookup. apply bind_crash.
  unfold table. rewrite (bind_Ok _ _ _ None w) by (unfold rt_get, gets; by rewrite (tg_regions _ Hg)). done.
Qed.

Lemma load_path_keeps_rt fname w : ∃ o mem, module_load_path fname w = Ok o (w <| w_mem := mem |>).
Proof. destruct (module_load_path_spec fname w) as (o & mem & H & _). by exists o, mem. Qed.

Lemma load_never_answers w fname w2 : tables_gone w → rt_inited (w_rt w) = true → xy_load fname w ≠ Ok XY_OK w2.
Proof.
  intros Hg Hi. unfold xy_load, with_runtime, xy_runtime_ensure.
  rewrite (bind_Ok _ _ _ XY_OK w) by (rewrite (bind_Ok _ _ _ true w); [done|unfold rt_get, gets; by rewrite Hi]).
  cbn [Z.eqb XY_OK]. pose proof (tg_cur _ Hg) as Hcur. unfold cur in Hcur. injection Hcur as Hid He.
  assert (Hrun : _mod_load fname w = Crash ∨ ∃ w', _mod_load fname w = Ok XY_ERR_INVALID w').
  2: { destruct Hrun as [Hc|[w' Hw]]; [by rewrite bind_crash|]. rewrite (bind_Ok _ _ _ _ _ Hw). discriminate. }
  unfold _mod_load. rewrite (bind_Ok _ _ _ XY_REGION_ROOT w) by (unfold tls_get, gets; by rewrite Hid).
  rewrite (bind_Ok _ _ _ 0 w) by (unfold region_current_plen; rewrite (bind_Ok _ _ _ None w) by (unfold tls_get, gets; by rewrite He); done).
  destruct (load_path_keeps_rt fname w) as (o & mem & Hp).
  assert (Hlook : ∀ tx : xy_load_txn, module_lookup_from_fname fname (tx_inherited_region_id tx) (tx_inherited_region_plen tx) w = Crash ∨
    ∃ w', module_lookup_from_fname fname (tx_inherited_region_id tx) (tx_inherited_region_plen tx) w =
      Ok (lookup_zero <| lk_err := XY_ERR_INVALID |>) w').
  { intros tx. unfold module_lookup_from_fname. rewrite (bind_Ok _ _ _ _ _ Hp). destruct o as [p|]; [|right; by eexists].
    rewrite (bind_Ok _ _ _ _ _ (alloc_ok_run _)). destruct (next_alloc _); [|right; by eexists]. left. cbn [negb].
    set (wm := _ <| w_mem ::= tail |>). cbv zeta. apply bind_crash. unfold table.
    rewrite (bind_Ok _ _ _ None wm) by (unfold rt_get, gets; simpl; by rewrite (tg_mods _ Hg)). done. }
  unfold mod_load_open_handle. destruct (Hlook (txn_start XY_REGION_ROOT 0)) as [Hc|[w' Hw]].
  - left. apply bind_crash. by apply bind_crash.
  - right. exists (w' <| w_err := XY_ERR_INVALID |>).
    erewrite bind_Ok by (rewrite (bind_Ok _ _ _ _ _ Hw); reflexivity). reflexivity.
Qed.

(** C21. If a module's clean-up starts the library while it is being shut down,
    the shutdown leaves it marked started without a table: [xy_init] does nothing,
    asking for a region uses a closed table, and no module can be loaded any more;
    only a second [xy_shutdown] gets out of it. *)
Theorem shutdown_half_started w w1 (Hrun : xy_shutdown w = Ok tt w1)
    (Hw : rt_inited (w_rt w) = true) (Hagain : rt_inited (w_rt w1) = true) :
  tables_gone w1 ∧ xy_init w1 = Ok tt w1 ∧
  (∀ id plen, xy_region_exists id plen w1 = Crash) ∧
  (∀ fname w2, xy_load fname w1 ≠ Ok XY_OK w2) ∧
  ∃ w2, xy_shutdown w1 = Ok tt w2 ∧ tables_gone w2 ∧ rt_inited (w_rt w2) = false.
Proof.
  unfold xy_shutdown in Hrun. rewrite (bind_Ok _ _ _ true w) in Hrun by (unfold rt_get, gets; by rewrite Hw).
  apply Ok_bind_inv in Hrun as ([] & wa & Hdown & Herr). apply teardown_leaves in Hdown as [H1 H2 H3 H4 H5].
  injection Herr as Hwa.
  assert (Hg : tables_gone w1) by (by rewrite <- Hwa; split).
  assert (He : w_err w1 = XY_OK) by (by rewrite <- Hwa).
  clear H1 H2 H3 H4 H5 Hwa. split_and!; [exact Hg| | | |].
  - unfold xy_init, xy_runtime_ensure. erewrite bind_Ok.
    2: { rewrite (bind_Ok _ _ _ true w1); [reflexivity|unfold rt_get, gets; by rewrite Hagain]. }
    unfold XY_SET_ERR, modify. f_equal. by apply world_ext.
  - intros id plen. by apply exists_crashes.
  - intros fname w2. by apply load_never_answers.
  - unfold xy_shutdown. rewrite (bind_Ok _ _ _ true w1) by (unfold rt_get, gets; by rewrite Hagain).
    assert (Hdown : ∃ w2, xy_runtime_teardown w1 = Ok tt w2 ∧ rt_inited (w_rt w2) = false).
    { unfold xy_runtime_teardown, path_intern_free_all. rewrite (bind_Ok (rt_mod _) _ _ tt _ eq_refl).
      erewrite (bind_Ok (rt_get rt_mod_hd) _ _ None) by (unfold rt_get, gets; simpl; by rewrite (tg_mods _ Hg)).
      cbn [opt_do]. rewrite (bind_Ok (mret tt) _ _ tt _ eq_refl), (bind_Ok (rt_mod _) _ _ tt _ eq_refl).
      erewrite (bind_Ok (rt_get rt_region_hd) _ _ None) by (unfold rt_get, gets; simpl; by rewrite (tg_regions _ Hg)).
      cbn [opt_do]. rewrite (bind_Ok (mret tt) _ _ tt _ eq_refl). eexists. by split. }
    destruct Hdown as (w2 & Hd & Hoff). rewrite (bind_Ok _ _ _ _ _ Hd).
    eexists. split; [reflexivity|]. apply teardown_leaves in Hd as []. by split.
Qed.
End reenter.

(** ** A module that asks for its region when its state is cleaned up *)

Section witnesses.
Local Existing Instances gmap_corm gmap_corm_laws.

(** An object with a block of eight bytes of region state and a clean-up. *)
Definition tidy_os : Os := {|
  os_realpath p := Some p;
  os_getenv _ := None;
  os_stat _ := None;
  os_copy _ _ _ := None;
  os_main_handle := None;
  os_dlsym _ s :=
    if bool_decide (s = "get_xy_ptr") then Some 51%positive
    else if bool_decide (s = "xy_ctx_abi") then Some 52%positive
    else if bool_decide (s = "xy_install") then Some 53%positive
    else if bool_decide (s = "xy_region_state_size") then Some 54%positive
    else if bool_decide (s = "xy_region_cleanup") then Some 55%positive
    else None;
  os_dladdr _ := Some 310;
  os_dlinfo h := Some (Zpos h * 10);
  os_u8_symbol _ := 0;
  os_state_size _ := 8;
  os_ctx_abi _ := XY_CTX_ABI_DESC;
  os_ctx_ptr _ := Some 70%positive;
  os_adapter_address _ := 0
|}.
Definition tidy_callbacks : Callbacks := {|
  cb_dlopen _ := mret (Some 31%positive);
  cb_install _ := mret tt;
  cb_hook _ _ := mret [];
  cb_claim _ _ _ _ := mret (0, 0);
  cb_each _ _ _ _ := mret 0;
  cb_scope _ _ := mret 0;
  cb_cleanup _ _ := xy_current_region;; mret tt
|}.
Local Existing Instances tidy_os tidy_callbacks.

Definition tidy_world : world := after (xy_load "tidy") load_world.
Definition tidied_world : world := after xy_shutdown tidy_world.

Lemma shutdown_half_started_witness :
  xy_shutdown tidy_world = Ok tt tidied_world ∧ rt_inited (w_rt tidied_world) = true ∧
  tables_gone tidied_world ∧ (∀ id plen, xy_region_exists id plen tidied_world = Crash).
Proof.
  assert (Hrun : xy_shutdown tidy_world = Ok tt tidied_world) by (vm_compute; reflexivity).
  assert (Hagain : rt_inited (w_rt tidied_world) = true) by (vm_compute; reflexivity).
  destruct (shutdown_half_started tidy_world tidied_world Hrun) as (Hg & _ & He & _);
    [vm_compute; reflexivity|exact Hagain|].
  exact (conj Hrun (conj Hagain (conj Hg He))).
Defined.
End witnesses.
