(* ===== verification/ReloadFree.v ===== *)
(** * Reloading after a freed neighbour

    [xy_reload] remembers the module that stands before the one it reloads and
    puts the new one after it, whatever the unload and the load between did to
    it.  A module that was reloaded from the xy_install of another is a child of
    that one and stands before it: reloading the other frees its neighbour. *)
From S2P Require Import Prelude Words Corm State Env Regions RegionTree Runtime Paths RegionApi RegionInv RegionSpecs Boot RegionProps Hooks Dispatch ModKey ModList Loader Unload LoadSpecs UnloadSpecs LoadProps Cascade Reload Frame Programs.

Section free.
Context {C : Corm} {CL : CormLaws C} {OS : Os} {CB : Callbacks}.
Implicit Types (w : world) (p q : mptr).

Lemma mget_freed (p : mptr) w : p ∉ dom (w_mods w) → mget p w = Crash.
Proof.
  intros Hp%not_elem_of_dom. unfold mget. rewrite (bind_Ok (gets _) _ _ (w_mods w !! p) w) by done. by rewrite Hp.
Qed.

Lemma mmod_freed p f w r w' q : mmod p f w = Ok r w' → q ∉ dom (w_mods w) → q ∉ dom (w_mods w').
Proof.
  intros (m & w1 & H1 & [= _ <-])%Ok_bind_inv Hq. destruct (decide (p ∈ dom (w_mods w))) as [Hp|Hp].
  - pose proof Hp as [m' Hm]%elem_of_dom. rewrite (mget_Ok _ _ _ Hm) in H1. injection H1 as <- <-. simpl. set_solver.
  - by rewrite (mget_freed _ _ Hp) in H1.
Qed.

(** Nothing that leaves the modules of the heap alone revives a freed one. *)
Lemma frame_freed {A} (m : M world A) w r w' p :
  respects frame m → m w = Ok r w' → p ∉ dom (w_mods w) → p ∉ dom (w_mods w').
Proof.
  intros Hm Hrun Hp%not_elem_of_dom. pose proof (fr_mods _ _ (Hm _ _ _ Hrun) p) as H. rewrite Hp in H.
  apply not_elem_of_dom. by inversion H.
Qed.

Lemma insert_after_freed (re : rptr) p a w r w' :
  a ∉ dom (w_mods w) → module_region_insert_after re p (Some a) w ≠ Ok r w'.
Proof.
  intros Ha Hrun. unfold module_region_insert_after in Hrun.
  apply Ok_bind_inv in Hrun as ([] & w1 & H1 & Hrun). eapply (mmod_freed _ _ _ _ _ a) in H1; [|done].
  apply Ok_bind_inv in Hrun as ([] & w2 & Hrun & _).
  apply Ok_bind_inv in Hrun as (m & w3 & Hrun & _). by rewrite (mget_freed _ _ H1) in Hrun.
Qed.

(** C13. [xy_reload] dereferences freed memory when the module that stood
    before the reloaded one in the list of its region is gone once the unload
    and the load in between are done: it does not return. *)
Theorem xy_reload_dangling w fname id plen t p m (re : rptr) a n wu wl t' p' m'
    (Hl : loaded_as w fname id plen t p m) (Hre : me_region_entry m = Some re) (Ha : me_region_prev m = Some a)
    (Hun : _mod_unload n fname id plen w = Ok XY_OK wu)
    (Hload : _mod_load fname (wu <| w_reloading := true |>) = Ok XY_OK wl)
    (Hnew : loaded_as (wl <| w_reloading := false |>) fname id plen t' p' m')
    (Hgone : a ∉ dom (w_mods wl)) :
  ∀ r w', xy_reload n fname w ≠ Ok r w'.
Proof.
  intros r w'. rewrite (reload_found _ _ _ _ _ _ _ _ Hl), (bind_Ok _ _ _ _ _ Hun). cbn [negb Z.eqb XY_OK].
  rewrite (bind_Ok (modify _) _ _ tt _ eq_refl), (bind_Ok _ _ _ _ _ Hload), (bind_Ok (modify _) _ _ tt _ eq_refl).
  cbn [negb Z.eqb XY_OK]. rewrite Hre, Ha. unfold reload_place.
  rewrite (bind_Ok _ _ _ _ _ (lookup_loaded _ _ _ _ _ _ _ Hnew)). cbn [lk_err lk_entry negb Z.eqb XY_OK]. intros Hrun.
  apply Ok_bind_inv in Hrun as ([] & w1 & H1 & Hrun). eapply (frame_freed _ _ _ _ a) in H1; [|apply frame_detach|done].
  apply Ok_bind_inv in Hrun as ([] & w2 & H2 & _). by eapply insert_after_freed.
Qed.
End free.

(** ** Two modules, one of which reloads the other *)

Section witnesses.
Local Existing Instances gmap_corm gmap_corm_laws.

Local Existing Instance pair_os.

(** The xy_install of [b] reloads [a], to have it fresh. *)
Definition refresh_code : code := {|
  code_dlopen p := P_ret _ (pair_dlopen p);
  code_install f :=
    if bool_decide (f = 32%positive) then P_call _ (Call_reload 1 "a") (λ _, P_ret _ tt) else P_ret _ tt;
  code_hook _ _ := P_ret _ [];
  code_claim _ _ _ _ := P_ret _ (0, 0);
  code_each _ _ _ _ := P_ret _ 0;
  code_scope _ _ := P_ret _ 0;
  code_cleanup _ _ := P_ret _ tt
|}.
Local Instance refresh_callbacks : Callbacks := callbacks_of refresh_code 3.

Definition pair_world : world := after (xy_load "b") (after (xy_load "a") (after xy_init pair_off)).
Definition pair_table w : corm string mptr := default ∅ (rt_mod_hd (w_rt w)).
Definition pair_entry w (p : mptr) : mod_entry := default mod_entry_zero (w_mods w !! p).
Definition pair_half : world := after (_mod_unload 2 "b" 0 0) pair_world.
Definition pair_back : world := after (_mod_load "b") (pair_half <| w_reloading := true |>).

(** Both load; the reload of [b] unloads its child [a] with it and puts the new
    [b] after it. *)
Lemma xy_reload_dangling_witness :
  me_region_prev (pair_entry pair_world 5%positive) = Some 6%positive ∧
  me_parent_entry (pair_entry pair_world 6%positive) = Some 5%positive ∧
  ∀ r w', xy_reload 2 "b" pair_world ≠ Ok r w'.
Proof.
  split; [vm_compute; reflexivity|]. split; [vm_compute; reflexivity|].
  apply (xy_reload_dangling pair_world "b" 0 0 (pair_table pair_world) 5%positive (pair_entry pair_world 5%positive)
    1%positive 6%positive 2 pair_half pair_back (pair_table pair_back) 7%positive (pair_entry pair_back 7%positive));
    [split; vm_compute; reflexivity|vm_compute; reflexivity|vm_compute; reflexivity|vm_compute; reflexivity
    |vm_compute; reflexivity|split; vm_compute; reflexivity|].
  apply not_elem_of_dom. vm_compute. reflexivity.
Defined.
End witnesses.
